(* ===== verification/_CoqProject ===== *)
-Q . S2P
Prelude.v
Crypto.v
Decimal.v
Base64.v
GoTime.v
GoStrings.v
NetIP.v
NetIPProofs.v
Canonical.v
CanonicalProofs.v
ServerNames.v
TrustPolicy.v
NotarySignature.v
Resolver.v
ResolverProofs.v
Auth.v
FileIO.v
RaftTypes.v
EntryJson.v
Wal.v
Snapshot.v
SnapshotProofs.v
WalProofs.v
WalUpgrade.v
RaftNode.v
WalStore.v
RaftAppend.v
RaftAppendProofs.v
RaftElection.v
RaftReplication.v
RaftReplicationProofs.v
RaftSnapshot.v
RaftSnapshotProofs.v
RaftRestart.v
ElectionSafety.v
Merkle.v
MerkleProofs.v
Transparency.v
TransparencyProofs.v
ConfigMap.v
ConfigMapProofs.v
Config.v
Wire.v
ClusterState.v
ClusterProofs.v
ClusterNet.v
ClusterNetProofs.v
CircuitBreaker.v
Fetcher.v
FetcherProofs.v
NotaryQuery.v
NotaryQueryProofs.v
RateLimit.v
ClientIP.v
ConfigProofs.v
KeyProvider.v
KeyProviderProofs.v
HttpApi.v
HttpApiProofs.v
VerifyTool.v
Storage.v
Migrations.v
Replication.v
ReplicationProofs.v
Float64.v
Metrics.v
AppMetrics.v
MetricsProofs.v
Analytics.v
GoTimeParse.v
Whois.v
ServerInfo.v
ServerInfoProofs.v
OpsPages.v
Routes.v
RoutesProofs.v
NetTLS.v
RaftTransport.v
Lifecycle.v
Programs.v
