(* ===== verification/Prelude.v ===== *)
(** * MXKeys: a verification development

    MXKeys is a Matrix key notary. It answers queries for the signing keys of
    Matrix servers: it validates the requested names, checks them against a
    trust policy, discovers where a server listens, fetches its keys under a
    circuit breaker, and publishes what it saw in a Merkle transparency log. A
    cluster of notaries replicates a key cache, by gossip with last-writer-wins
    merging or through a Raft log with its own write-ahead log and snapshots.
    Node-to-node messages are authenticated by an HMAC over canonical JSON. The
    Go sources are under src/internal.

    ** The files and what they model

    Shared: [Prelude] (this file: bytes, results, 64-bit arithmetic, tactics and
    the hint database [mx]), [Crypto] (SHA-256, HMAC, CRC-32C and hex as
    the standard library computes them), [Decimal] (strconv), [Base64]
    (encoding/base64), [GoTime] (time, RFC 3339), [GoTimeParse] (time.Parse), [Float64]
    (binary64), [GoStrings] (strings, unicode/utf8), [NetIP] and [NetIPProofs]
    (net.IP, its parser, printer and networks).

    Raft (internal/zero/raft): [FileIO] is the state directory with its system
    calls, each of which can fail or write short as a script of outcomes says.
    [RaftTypes], [EntryJson] are the data and the entry codec; [Wal], [WalProofs]
    the write-ahead log (wal*.go); [WalUpgrade] its upgrade from the second format
    (walupgrade); [Snapshot], [SnapshotProofs] the snapshot files
    (snapshot.go, snapshot_load.go); [RaftNode] the node state and log accessors
    (raft.go, log_view.go); [WalStore] the class of what the node expects from
    its log, with the WAL as instance; [RaftAppend], [RaftAppendProofs] the
    AppendEntries handler (rpc_handlers.go, persistence.go); [RaftElection]
    elections and vote handlers (election.go); [RaftReplication],
    [RaftReplicationProofs] the leader (replication.go, propose.go, lifecycle.go);
    [RaftSnapshot], [RaftSnapshotProofs] snapshot transfer, compaction and loading
    (snapshot_rpc.go, snapshot_send.go, pending_snapshot.go, compact.go);
    [RaftRestart] restarts; [ElectionSafety] a cluster of such nodes as a step
    relation with an arbitrary network; [NetTLS] listeners and dialers with their TLS
    policy (zero/nettls); [RaftTransport] remote calls on both
    sides (network.go, handleRPC, Propose).

    Canonical JSON and authentication: [Canonical], [CanonicalProofs]
    (internal/zero/canonical), [Auth] (raft/auth.go, cluster/auth.go), [Wire] the
    framing of messages (raft/wire.go, cluster/wire.go).

    Key service: [ServerNames] (server/validation.go and parseServerName),
    [TrustPolicy] (keys/trustpolicy*.go), [Resolver], [ResolverProofs]
    (keys/resolver*.go, fetcher_ssrf.go), [CircuitBreaker]
    (keys/circuitbreaker.go), [NotarySignature] (keys/notary.go,
    notary_raw_response.go and the check of a peer's signature), [Fetcher],
    [FetcherProofs] (keys/fetcher*.go), [NotaryQuery], [NotaryQueryProofs]
    (keys/notary_query.go, notary_cleanup.go, notary_fetch_store.go),
    [Storage] (keys/storage*.go), [Migrations] (storage/migrations),
    [Replication], [ReplicationProofs] (notary_replication.go and what a fetch
    hands to store, log, analytics and cluster), [Analytics]
    (keys/analytics*.go), [RateLimit] (server/ratelimit.go), [ClientIP]
    (server/client_ip.go), [Merkle], [MerkleProofs] (internal/zero/merkle),
    [Transparency], [TransparencyProofs] (keys/transparency*.go),
    [KeyProvider], [KeyProviderProofs] (keys/keyprovider), [HttpApi],
    [HttpApiProofs] (the key handlers, json_decode.go, admin_access.go,
    middleware.go of server), [VerifyTool] (signed tree heads and
    cmd/mxkeys-verify).

    The server around it (internal/server): [Whois], [ServerInfo],
    [ServerInfoProofs] the server information service (serverinfo_*.go),
    [OpsPages] the operations pages, [Routes], [RoutesProofs] routing and the
    middleware chain (server_http.go, routes_admin.go), [Metrics],
    [AppMetrics], [MetricsProofs] the metrics (zero/metrics and the series of
    the program), [Lifecycle] construction, start and stop (server.go,
    server_run.go, server_lifecycle.go), [Programs] the commands, logging and
    the compaction tick.

    Cluster (internal/cluster): [ClusterState], [ClusterProofs] the replicated
    cache (state.go, snapshot.go), [ClusterNet], [ClusterNetProofs] the nodes and
    their messages (cluster.go, messages.go, network.go, runtime.go).

    Configuration: [ConfigMap], [ConfigMapProofs] the reader (internal/zero/config),
    [Config], [ConfigProofs] the settings (internal/config) and what they promise
    to the components.

    An operation has the name of the Go function. State is passed explicitly;
    where calls thread state and errors through system calls or the network, in
    a small monad. A Go map whose iteration order matters is traversed in an
    order given as an argument. A value read from the clock is an argument, one
    per reading, so that two readings of one call may differ.

    ** What the theorems show

    The numbers are those of the doc comments, which state every condition.
    - C1 to C10: Raft. No two leaders in a term while no node restarts; an append to
      an undamaged log survives any pattern of failed and torn writes; what a follower
      acknowledges is the leader's log and on disk; commitment counts a majority in
      the leader's term; committed entries are applied once and in order; a snapshot
      arrives byte for byte at a follower that is behind it and leaves another as it
      was; a restart restores the log; a call over the network is the call of the
      handler.
    - C11: the notary keeps its signing key under faults of the disk, unless it runs
      without a passphrase beside an encrypted key. C12, C13: the transparency log
      stays a chain, and a client that pinned the notary accepts every later head of
      it, if the database keeps the text of the timestamps (a clock of whole
      microseconds) and acknowledges what it carries out.
    - C14 to C18: canonical JSON implements a function on abstract JSON values and
      is unambiguous; on that rest the single acceptance of messages (but for a call
      during which the window of the message ends), on that that only holders of the
      secret change a cluster node, and that a node that joins learns its peer and the
      peer's keys if these fit in a message.
    - C19 to C23, C33: what is dialled and for whom. Validation accepts a grammar,
      the policy decides on the host that the resolver dials, discovery through
      the caches is discovery, the guard of the key request and that of the server
      information let only public addresses through, and a client cannot choose the
      address it is accounted to where the proxies name one that parses.
    - C24 to C29, C32: the key service. What a fetch returns is authenticated, with a
      bounded number of requests to the origin and to each fallback; what a cluster
      peer sends is cached only when the origin signed it, and what one notary fetched
      another serves; a stored response is read back; a query accounts for every server; over HTTP only checked
      requests reach it.
    - C30, C31: a page runs only when limiters, identifier and token admit the
      request, and every answer has its headers; a configuration that loads builds a
      server with the components and the pages it enables.
    - C34, C35: the Merkle root is RFC 6962's, inclusion proofs bind unless
      two of the messages hashed in checking them collide. C36: the replicated cache
      converges. C37: every migration takes effect once. C38 to C40: analytics, the limiter and histograms count what they
      say.

    Theorems without a number cover the rest of the components, for example the
    atomicity of snapshots and of compaction, the upgrade of the log, the round trip
    of the configuration reader, exact routing ([RoutesProofs.dispatch_exact]), the
    order of the shutdown, the transport policy and the exits of the programs.
    Others state where the code departs from its intent, for example
    [MerkleProofs.consistency_proof_refused],
    [TrustPolicy.overlapping_entry_panics], [Auth.replay_at_window_end],
    [FetcherProofs.half_open_permit_leaks], [RaftRestart.restart_votes_again],
    [TransparencyProofs.nanosecond_clock_breaks_chain] or
    [ClusterNetProofs.sync_round_only_pings].

    ** Fuel and bounds

    Recursion that is not structural takes fuel that its callers choose large
    enough, which lemmas prove where a theorem depends on it: the WAL reader
    takes the length of the file (every record is longer than zero), the commit
    loop the distance to the last index, the tree levels the number of leaves,
    the chunk loop the length of the payload, the decimal printer the bit length,
    the rune loops the length of the string, the IPv6 parser its eight groups,
    the 64-bit shifts of the consistency verifier 64. Integers are [Z] with the
    wrap-around written out where Go's arithmetic can reach it.

    ** What is not modelled

    Goroutine scheduling: the order of calls is the argument of the theorems instead,
    concurrent stages run one after the other, and the shared fetches of concurrent
    queries are single ones. Errors of closing a handle that was only read; deadlines
    and timeouts other than as outcomes; SQL beyond the effect of the statements on
    the tables; file modes and mlock; the pages that only print what other components
    hold (status, version, cluster), setters and getters; the rendering of log records
    and help texts; the parsing of flags. Parameters: Ed25519, AES-GCM and the
    expansion of a seed, as classes with the laws of their documentation; the decoders and encoders of
    encoding/json; ParseFloat and ParseDuration; the network, the clock, random
    bytes and the database as what they answer; golang.org/x/time/rate. *)
From Stdlib Require Import ZArith Lia Strings.Byte.
From stdpp Require Import base gmap strings list fin_maps sorting.

#[global] Set Default Goal Selector "!".
#[local] Open Scope Z_scope.

(** ** Bytes *)

Abbreviation byte := Byte.byte.
Abbreviation bytes := (list Byte.byte).

#[export] Instance byte_eq_dec : EqDecision byte := Byte.byte_eq_dec.

#[export] Instance byte_countable : Countable byte :=
  inj_countable Byte.to_N Byte.of_N Byte.of_to_N.

(** [byte(z)]: the low eight bits of an integer. *)
Definition byte_of_Z (z : Z) : byte :=
  match Byte.of_N (Z.to_N (z mod 256)) with Some b => b | None => Byte.x00 end.

Definition byte_to_Z (b : byte) : Z := Z.of_N (Byte.to_N b).

(** A Go string literal, as the bytes it denotes. *)
Definition bs (s : string) : bytes := String.list_byte_of_string s.
Arguments bs _%_string_scope.

Lemma byte_to_Z_range b : 0 <= byte_to_Z b < 256.
Proof. unfold byte_to_Z. pose proof (Byte.to_N_bounded b). lia. Qed.

Lemma byte_of_to_Z b : byte_of_Z (byte_to_Z b) = b.
Proof.
  unfold byte_of_Z. rewrite Z.mod_small by apply byte_to_Z_range.
  unfold byte_to_Z. by rewrite N2Z.id, Byte.of_to_N.
Qed.

Lemma byte_to_of_Z z : byte_to_Z (byte_of_Z z) = z mod 256.
Proof.
  unfold byte_of_Z, byte_to_Z.
  pose proof (Z.mod_pos_bound z 256 ltac:(lia)) as Hb.
  destruct (Byte.of_N (Z.to_N (z mod 256))) as [b|] eqn:E.
  - apply Byte.to_of_N in E. rewrite E. lia.
  - apply Byte.of_N_None_iff in E. lia.
Qed.

Lemma byte_to_Z_inj a b : byte_to_Z a = byte_to_Z b -> a = b.
Proof. intros H. by rewrite <- (byte_of_to_Z a), H, byte_of_to_Z. Qed.

(** ** Machine integers

    Go's [uint64] and [uint32] are integers of [Z]; every addition or
    subtraction that the source performs at that width is written with the
    wrap-around. *)

Definition wrap64 (z : Z) : Z := z mod 2 ^ 64.
Definition wrap32 (z : Z) : Z := z mod 2 ^ 32.
Definition u64_ok (z : Z) : Prop := 0 <= z < 2 ^ 64.
Definition MaxInt : Z := 2 ^ 63 - 1.
Definition MaxUint32 : Z := 2 ^ 32 - 1.

(** [len(s)] as a Go [int]. *)
Definition len {A} (l : list A) : Z := Z.of_nat (length l).

Lemma wrap64_small z : u64_ok z -> wrap64 z = z.
Proof. intros H. apply Z.mod_small, H. Qed.

Lemma wrap64_ok z : u64_ok (wrap64 z).
Proof. apply Z.mod_pos_bound. lia. Qed.

Lemma len_nonneg {A} (l : list A) : 0 <= len l.
Proof. unfold len. lia. Qed.

Lemma len_nil {A} : len (@nil A) = 0.
Proof. done. Qed.

Lemma len_cons {A} (x : A) l : len (x :: l) = 1 + len l.
Proof. unfold len. simpl length. lia. Qed.

Lemma len_app {A} (l k : list A) : len (l ++ k) = len l + len k.
Proof. unfold len. rewrite length_app. lia. Qed.

(** Go's [int], [int64] and [time.Duration]: two's complement. *)
Definition wrap_int (z : Z) : Z := (z + 2 ^ 63) mod 2 ^ 64 - 2 ^ 63.
Definition int_ok (z : Z) : Prop := - 2 ^ 63 <= z < 2 ^ 63.

Lemma wrap_int_small z : int_ok z -> wrap_int z = z.
Proof. intros H. unfold wrap_int, int_ok in *. rewrite Z.mod_small; lia. Qed.

Lemma wrap_int_ok z : int_ok (wrap_int z).
Proof. unfold wrap_int, int_ok. pose proof (Z.mod_pos_bound (z + 2 ^ 63) (2 ^ 64)). lia. Qed.

(** [t.Sub(u)]: the difference of two instants, saturated at the range of
    [time.Duration]. *)
Definition timeSub (t u : Z) : Z := Z.max (- 2 ^ 63) (Z.min (2 ^ 63 - 1) (t - u)).

Lemma timeSub_gt t u d : - 2 ^ 63 <= d < 2 ^ 63 - 1 -> d < timeSub t u <-> d < t - u.
Proof. unfold timeSub. lia. Qed.

(** ** Little-endian fixed-width integers ([encoding/binary]) *)

Fixpoint le_split (n : nat) (z : Z) : bytes :=
  match n with
  | O => []
  | S n => byte_of_Z z :: le_split n (z / 256)
  end.

Fixpoint le_combine (l : bytes) : Z :=
  match l with
  | [] => 0
  | b :: l => byte_to_Z b + 256 * le_combine l
  end.

Lemma length_le_split n z : length (le_split n z) = n.
Proof. revert z. induction n; intros z; simpl; auto. Qed.

Lemma le_combine_range l : 0 <= le_combine l < 256 ^ len l.
Proof.
  induction l as [|b l IH]; [done|].
  simpl le_combine. rewrite len_cons, Z.pow_add_r by (pose proof (len_nonneg l); lia).
  pose proof (byte_to_Z_range b). lia.
Qed.

Lemma le_combine_split n z : le_combine (le_split n z) = z mod 256 ^ Z.of_nat n.
Proof.
  revert z. induction n as [|n IH]; intros z.
  - simpl. by rewrite Z.mod_1_r.
  - simpl le_split. simpl le_combine. rewrite IH, byte_to_of_Z.
    rewrite Nat2Z.inj_succ, Z.pow_succ_r by lia.
    assert (0 < 256 ^ Z.of_nat n) by (apply Z.pow_pos_nonneg; lia).
    rewrite Z.rem_mul_r by lia. done.
Qed.

Lemma le_split_combine l : le_split (length l) (le_combine l) = l.
Proof.
  induction l as [|b l IH]; [done|]. simpl.
  pose proof (byte_to_Z_range b).
  replace (byte_to_Z b + 256 * le_combine l) with (byte_to_Z b + le_combine l * 256) by lia.
  f_equal.
  - apply byte_to_Z_inj. rewrite byte_to_of_Z, Z.mod_add by lia.
    apply Z.mod_small. lia.
  - rewrite Z.div_add, Z.div_small by lia. by rewrite Z.add_0_l.
Qed.

Lemma le_combine_split_small n z :
  0 <= z < 256 ^ Z.of_nat n -> le_combine (le_split n z) = z.
Proof. intros H. rewrite le_combine_split. by apply Z.mod_small. Qed.

Definition put_uint32 (z : Z) : bytes := le_split 4 z.
Definition put_uint64 (z : Z) : bytes := le_split 8 z.
Definition get_uint (l : bytes) : Z := le_combine l.

Lemma length_put_uint32 z : length (put_uint32 z) = 4%nat.
Proof. apply length_le_split. Qed.

Lemma length_put_uint64 z : length (put_uint64 z) = 8%nat.
Proof. apply length_le_split. Qed.

Lemma get_put_uint32 z : 0 <= z < 2 ^ 32 -> get_uint (put_uint32 z) = z.
Proof. intros H. by apply le_combine_split_small. Qed.

Lemma get_put_uint64 z : 0 <= z < 2 ^ 64 -> get_uint (put_uint64 z) = z.
Proof. intros H. by apply le_combine_split_small. Qed.

Lemma put_get_uint64 l : length l = 8%nat -> put_uint64 (get_uint l) = l.
Proof. intros H. unfold put_uint64, get_uint. rewrite <- H. apply le_split_combine. Qed.

Lemma put_get_uint32 l : length l = 4%nat -> put_uint32 (get_uint l) = l.
Proof. intros H. unfold put_uint32, get_uint. rewrite <- H. apply le_split_combine. Qed.

(** ** Results of fallible operations *)

Inductive result (E A : Type) : Type :=
| Ok (a : A)
| Err (e : E).
Arguments Ok {E A} a.
Arguments Err {E A} e.

#[export] Instance result_eq_dec {E A} `{EqDecision E, EqDecision A} : EqDecision (result E A).
Proof. solve_decision. Defined.

Lemma triple_eta {A B C} (x : A * B * C) : x = (x.1.1, x.1.2, x.2).
Proof. by destruct x as [[a b] c]. Qed.

Lemma triple_eta_fst {A B C} (x : A * B * C) a : x.1.1 = a -> x = (a, x.1.2, x.2).
Proof. by destruct x as [[? b] c]; intros <-. Qed.

Lemma quadruple_eta {A B C D} (x : A * B * C * D) : x = (x.1.1.1, x.1.1.2, x.1.2, x.2).
Proof. by destruct x as [[[? ?] ?] ?]. Qed.

Lemma quintuple_eta {A B C D E} (x : A * B * C * D * E) :
  x = (x.1.1.1.1, x.1.1.1.2, x.1.1.2, x.1.2, x.2).
Proof. by destruct x as [[[[? ?] ?] ?] ?]. Qed.

Definition is_ok {E A} (r : result E A) : bool :=
  match r with Ok _ => true | Err _ => false end.

(** ** [io.ReadFull] on a reader that holds the bytes [s] *)

Inductive read_full : Type :=
| ReadOk (chunk rest : bytes)
| ReadEOF
| ReadUnexpectedEOF.

Definition ReadFull (n : nat) (s : bytes) : read_full :=
  if decide (n <= length s)%nat then ReadOk (take n s) (drop n s)
  else match s with [] => ReadEOF | _ => ReadUnexpectedEOF end.

Lemma ReadFull_app a b n : length a = n -> ReadFull n (a ++ b) = ReadOk a b.
Proof.
  intros <-. unfold ReadFull. rewrite decide_True.
  - by rewrite take_app_length, drop_app_length.
  - rewrite length_app. lia.
Qed.

Lemma ReadFull_short n s :
  (length s < n)%nat -> s <> [] -> ReadFull n s = ReadUnexpectedEOF.
Proof.
  intros H Hne. unfold ReadFull. rewrite decide_False by lia. by destruct s.
Qed.

Lemma ReadFull_nil n : (0 < n)%nat -> ReadFull n [] = ReadEOF.
Proof. intros H. unfold ReadFull. rewrite decide_False; [done|simpl; lia]. Qed.

Lemma ReadFull_inv n s chunk rest :
  ReadFull n s = ReadOk chunk rest -> s = chunk ++ rest /\ length chunk = n.
Proof.
  unfold ReadFull. case_decide; [|by destruct s].
  intros [= <- <-]. rewrite take_drop, length_take. split; [done|lia].
Qed.

(** ** Automation *)

Create HintDb mx.
Create Rewrite HintDb mx.
#[export] Hint Resolve wrap64_ok len_nonneg byte_to_Z_range le_combine_range : mx.
#[export] Hint Rewrite @len_cons @len_app @len_nil length_le_split
  length_put_uint32 length_put_uint64 : mx.

(** Case analysis on the innermost [decide] or [match] of the goal, then the
    linear-arithmetic and congruence closers. *)
Ltac mx_cases :=
  repeat (case_decide || case_match; simplify_eq/=).
Ltac mx_done := try done; try lia; try congruence; auto with mx.
Ltac mx_auto := mx_cases; mx_done.

Lemma forallb_Forall {A} (f : A -> bool) l : forallb f l = true <-> Forall (fun x => f x = true) l.
Proof. rewrite List.forallb_forall, Forall_forall. split; intros H x Hx; apply H; by apply list_elem_of_In. Qed.
