(* ===== verification/Crypto.v ===== *)
(** * The checksums and hashes of Go's standard library that MXKeys calls

    [hash/crc32] with the Castagnoli polynomial (the WAL and snapshot
    checksums), [crypto/sha256] (FIPS 180-4), [crypto/hmac] over SHA-256
    (RFC 2104) and [encoding/hex].  All of them are executable; the published
    test vectors at the end of each section are evaluated by the kernel. *)
From S2P Require Import Prelude.
From Stdlib Require Import ZArith Lia Strings.Byte.
From stdpp Require Import base list list_numbers strings.
#[local] Open Scope Z_scope.

(** ** [encoding/hex] *)
Module Hex.

Definition digits : bytes := bs "0123456789abcdef".

Definition nibble (n : Z) : byte := nth (Z.to_nat n) digits Byte.x30.

Definition unnibble (b : byte) : option Z :=
  let z := byte_to_Z b in
  if decide (48 <= z <= 57) then Some (z - 48)
  else if decide (97 <= z <= 102) then Some (z - 87)
  else if decide (65 <= z <= 70) then Some (z - 55)
  else None.

Fixpoint EncodeToString (m : bytes) : bytes :=
  match m with
  | [] => []
  | b :: m => nibble (byte_to_Z b / 16) :: nibble (byte_to_Z b mod 16) :: EncodeToString m
  end.

Fixpoint DecodeString (s : bytes) : option bytes :=
  match s with
  | [] => Some []
  | [_] => None
  | a :: b :: s =>
      x ← unnibble a; y ← unnibble b; m ← DecodeString s;
      Some (byte_of_Z (16 * x + y) :: m)
  end.

Lemma unnibble_nibble n : 0 <= n < 16 -> unnibble (nibble n) = Some n.
Proof.
  assert (forallb (fun n => bool_decide (unnibble (nibble n) = Some n)) (seqZ 0 16) = true)
    as Hall by (vm_compute; reflexivity).
  intros H. rewrite forallb_forall in Hall.
  eapply bool_decide_eq_true, Hall, list_elem_of_In, elem_of_seqZ. lia.
Qed.

Lemma decode_encode m : DecodeString (EncodeToString m) = Some m.
Proof.
  induction m as [|b m IH]; [done|]. simpl.
  pose proof (byte_to_Z_range b).
  rewrite !unnibble_nibble.
  - simpl. rewrite IH. simpl. rewrite <- Z.div_mod by lia. by rewrite byte_of_to_Z.
  - split; [apply Z.div_pos; lia|apply Z.div_lt_upper_bound; lia].
  - apply Z.mod_pos_bound. lia.
Qed.

Lemma encode_inj m n : EncodeToString m = EncodeToString n -> m = n.
Proof. intros E. apply (f_equal DecodeString) in E. rewrite !decode_encode in E. by simplify_eq. Qed.

End Hex.

(** ** CRC-32C *)
Module Crc32.

(** Castagnoli's polynomial, bit-reversed ([crc32.Castagnoli]). *)
Definition poly : Z := 0x82F63B78.
Definition mask : Z := 0xFFFFFFFF.

Definition step_bit (c : Z) : Z :=
  if Z.testbit c 0 then Z.lxor (Z.shiftr c 1) poly else Z.shiftr c 1.

Definition step_byte (c : Z) (b : byte) : Z :=
  Nat.iter 8 step_bit (Z.lxor c (byte_to_Z b)).

(** [crc32.Update(crc, walCRC, p)]. *)
Definition update (crc : Z) (p : bytes) : Z :=
  Z.lxor (foldl step_byte (Z.lxor crc mask) p) mask.

(** [crc32.Checksum(p, walCRC)]. *)
Definition checksum (p : bytes) : Z := update 0 p.

Lemma update_app c p q : update c (p ++ q) = update (update c p) q.
Proof.
  unfold update. rewrite foldl_app. f_equal. f_equal.
  by rewrite Z.lxor_assoc, Z.lxor_nilpotent, Z.lxor_0_r.
Qed.

Definition word32 (c : Z) : Prop := 0 <= c < 2 ^ 32.

Lemma word32_bits c : word32 c <-> (0 <= c /\ forall i, 32 <= i -> Z.testbit c i = false).
Proof.
  unfold word32. split.
  - intros [H0 H1]. split; [done|]. intros i Hi.
    destruct (decide (c = 0)) as [->|]; [apply Z.testbit_0_l|].
    apply Z.bits_above_log2; [done|].
    apply Z.log2_lt_pow2 in H1; lia.
  - intros [H0 Hb]. split; [done|].
    destruct (decide (c = 0)) as [->|]; [done|].
    apply Z.log2_lt_pow2; [lia|].
    destruct (Z.lt_ge_cases (Z.log2 c) 32) as [|Hge]; [done|].
    apply Hb in Hge. rewrite Z.bit_log2 in Hge by lia. done.
Qed.

Lemma word32_lxor a b : word32 a -> word32 b -> word32 (Z.lxor a b).
Proof.
  rewrite !word32_bits. intros [Ha Ha'] [Hb Hb']. split.
  - apply Z.lxor_nonneg; split; done.
  - intros i Hi. by rewrite Z.lxor_spec, Ha', Hb' by done.
Qed.

Lemma word32_shiftr c : word32 c -> word32 (Z.shiftr c 1).
Proof.
  unfold word32. intros H. rewrite Z.shiftr_div_pow2 by lia. change (2 ^ 1) with 2.
  split; [apply Z.div_pos; lia|apply Z.div_lt_upper_bound; lia].
Qed.

Lemma word32_iter n c : word32 c -> word32 (Nat.iter n step_bit c).
Proof.
  intros Hc. induction n as [|n IH]; [done|]. simpl. unfold step_bit at 1.
  case_match; [apply word32_lxor; [|done]|]; by apply word32_shiftr.
Qed.

Lemma word32_step_byte c b : word32 c -> word32 (step_byte c b).
Proof.
  intros Hc. apply word32_iter, word32_lxor; [done|].
  unfold word32. pose proof (byte_to_Z_range b). lia.
Qed.

Lemma update_range c p : word32 c -> word32 (update c p).
Proof.
  intros Hc. unfold update. apply word32_lxor; [|done].
  assert (word32 (Z.lxor c mask)) as H by (by apply word32_lxor).
  generalize dependent (Z.lxor c mask). clear Hc c.
  induction p as [|b p IH]; intros c Hc; [done|]. simpl. auto using word32_step_byte.
Qed.

Lemma checksum_range p : 0 <= checksum p < 2 ^ 32.
Proof. by apply update_range. Qed.

Example checksum_vector : checksum (bs "123456789") = 0xE3069283.
Proof. vm_compute. reflexivity. Qed.

End Crc32.

(** ** SHA-256 *)
Module Sha256.

Definition rotr (n x : Z) : Z := wrap32 (Z.lor (Z.shiftr x n) (Z.shiftl x (32 - n))).
Definition Ch (x y z : Z) : Z := Z.lxor (Z.land x y) (Z.land (Z.lxor x 0xFFFFFFFF) z).
Definition Maj (x y z : Z) : Z := Z.lxor (Z.land x y) (Z.lxor (Z.land x z) (Z.land y z)).
Definition Sigma0 (x : Z) : Z := Z.lxor (rotr 2 x) (Z.lxor (rotr 13 x) (rotr 22 x)).
Definition Sigma1 (x : Z) : Z := Z.lxor (rotr 6 x) (Z.lxor (rotr 11 x) (rotr 25 x)).
Definition sigma0 (x : Z) : Z := Z.lxor (rotr 7 x) (Z.lxor (rotr 18 x) (Z.shiftr x 3)).
Definition sigma1 (x : Z) : Z := Z.lxor (rotr 17 x) (Z.lxor (rotr 19 x) (Z.shiftr x 10)).

Record hstate := HState { ha : Z; hb : Z; hc : Z; hd : Z; he : Z; hf : Z; hg : Z; hh : Z }.

Definition H0 : hstate :=
  HState 0x6a09e667 0xbb67ae85 0x3c6ef372 0xa54ff53a 0x510e527f 0x9b05688c 0x1f83d9ab 0x5be0cd19.

Definition be32 (z : Z) : bytes := rev (le_split 4 z).

(** The padded message: 0x80, zeros, and the bit length in 64 bits. *)
Definition pad (m : bytes) : bytes :=
  let l := len m in
  let zeros := Z.to_nat ((55 - l) mod 64) in
  m ++ Byte.x80 :: replicate zeros Byte.x00 ++ rev (le_split 8 (8 * l)).

Fixpoint words (fuel : nat) (m : bytes) : list Z :=
  match fuel, m with
  | S fuel, a :: b :: c :: d :: m => le_combine [d; c; b; a] :: words fuel m
  | _, _ => []
  end.

(** The 64 round constants, as the 256 bytes of their big-endian words. *)
Definition K_hex : bytes := Eval vm_compute in bs
  "428a2f9871374491b5c0fbcfe9b5dba53956c25b59f111f1923f82a4ab1c5ed5d807aa9812835b01243185be550c7dc372be5d7480deb1fe9bdc06a7c19bf174e49b69c1efbe47860fc19dc6240ca1cc2de92c6f4a7484aa5cb0a9dc76f988da983e5152a831c66db00327c8bf597fc7c6e00bf3d5a7914706ca63511429296727b70a852e1b21384d2c6dfc53380d13650a7354766a0abb81c2c92e92722c85a2bfe8a1a81a664bc24b8b70c76c51a3d192e819d6990624f40e3585106aa07019a4c1161e376c082748774c34b0bcb5391c0cb34ed8aa4a5b9cca4f682e6ff3748f82ee78a5636f84c878148cc7020890befffaa4506cebbef9a3f7c67178f2".

Definition K : list Z := Eval vm_compute in
  words 64 (default [] (Hex.DecodeString K_hex)).

(** The message schedule, kept newest-first: [w] holds w(t-1), w(t-2), ... *)
Definition sched_next (w : list Z) : Z :=
  let g i := nth i w 0 in
  wrap32 (sigma1 (g 1%nat) + g 6%nat + sigma0 (g 14%nat) + g 15%nat).

Definition schedule (block : list Z) : list Z :=
  rev (Nat.iter 48 (fun w => sched_next w :: w) (rev block)).

Definition round (s : hstate) (kw : Z * Z) : hstate :=
  let '(HState a b c d e f g h) := s in
  let t1 := h + Sigma1 e + Ch e f g + kw.1 + kw.2 in
  let t2 := Sigma0 a + Maj a b c in
  HState (wrap32 (t1 + t2)) a b c (wrap32 (d + t1)) e f g.

Definition add_state (s t : hstate) : hstate :=
  HState (wrap32 (ha s + ha t)) (wrap32 (hb s + hb t)) (wrap32 (hc s + hc t)) (wrap32 (hd s + hd t))
         (wrap32 (he s + he t)) (wrap32 (hf s + hf t)) (wrap32 (hg s + hg t)) (wrap32 (hh s + hh t)).

Definition compress (s : hstate) (block : list Z) : hstate :=
  add_state s (foldl round s (zip K (schedule block))).

Fixpoint blocks (fuel : nat) (s : hstate) (w : list Z) : hstate :=
  match fuel with
  | O => s
  | S fuel => match w with
              | [] => s
              | _ => blocks fuel (compress s (take 16 w)) (drop 16 w)
              end
  end.

(** [sha256.Sum256(m)]. *)
Definition sum256 (m : bytes) : bytes :=
  let p := pad m in
  let w := words (length p) p in
  let s := blocks (length w) H0 w in
  be32 (ha s) ++ be32 (hb s) ++ be32 (hc s) ++ be32 (hd s) ++
  be32 (he s) ++ be32 (hf s) ++ be32 (hg s) ++ be32 (hh s).

(** [sha256.Size]. *)
Definition Size : Z := 32.

Lemma length_be32 z : length (be32 z) = 4%nat.
Proof. unfold be32. by rewrite length_rev, length_le_split. Qed.

Lemma length_sum256 m : length (sum256 m) = 32%nat.
Proof. unfold sum256. by rewrite !length_app, !length_be32. Qed.

End Sha256.

(** ** HMAC-SHA256 *)
Module Hmac.

Definition block_key (k : bytes) : bytes :=
  let k' := if decide (64 < length k)%nat then Sha256.sum256 k else k in
  k' ++ replicate (64 - length k') Byte.x00.

Definition xor_pad (k : bytes) (c : Z) : bytes :=
  (fun b => byte_of_Z (Z.lxor (byte_to_Z b) c)) <$> k.

(** [mac := hmac.New(sha256.New, key); mac.Write(m); mac.Sum(nil)]. *)
Definition hmac_sha256 (key m : bytes) : bytes :=
  let k := block_key key in
  Sha256.sum256 (xor_pad k 0x5c ++ Sha256.sum256 (xor_pad k 0x36 ++ m)).

Lemma length_hmac key m : length (hmac_sha256 key m) = 32%nat.
Proof. apply Sha256.length_sum256. Qed.

End Hmac.

Example sha256_vector :
  Hex.EncodeToString (Sha256.sum256 (bs "abc"))
  = bs "ba7816bf8f01cfea414140de5dae2223b00361a396177a9cb410ff61f20015ad".
Proof. vm_compute. reflexivity. Qed.

Example sha256_two_blocks :
  Hex.EncodeToString (Sha256.sum256 (bs "abcdbcdecdefdefgefghfghighijhijkijkljklmklmnlmnomnopnopq"))
  = bs "248d6a61d20638b8e5c026930c3e6039a33ce45964ff2167f6ecedd419db06c1".
Proof. vm_compute. reflexivity. Qed.

Example hmac_vector :
  Hex.EncodeToString (Hmac.hmac_sha256 (bs "Jefe") (bs "what do ya want for nothing?"))
  = bs "5bdcc146bf60754e6a042426089575c75a003f089d2739839dec58b964ec3843".
Proof. vm_compute. reflexivity. Qed.

#[global] Opaque Sha256.sum256.
#[export] Hint Resolve Crc32.checksum_range : mx.
#[export] Hint Rewrite Sha256.length_sum256 Hmac.length_hmac : mx.
