(* ===== verification/Decimal.v ===== *)
(** * Decimal text of integers ([strconv.FormatUint], [FormatInt], [Atoi])

    The printer that canonical JSON, the entry codec and the address helpers
    use, the digit parser, and their round trip. *)
From S2P Require Import Prelude.
From Stdlib Require Import ZArith Lia.
From stdpp Require Import base list strings.
#[local] Open Scope Z_scope.

Definition digit (d : Z) : byte := byte_of_Z (48 + d).

Definition is_digit (b : byte) : bool := bool_decide (48 <= byte_to_Z b <= 57).

(** Digits of [n >= 0], most significant first, before [acc]. *)
Fixpoint digits (fuel : nat) (n : Z) (acc : bytes) : bytes :=
  match fuel with
  | O => acc
  | S fuel =>
      let acc := digit (n mod 10) :: acc in
      if decide (n < 10) then acc else digits fuel (n / 10) acc
  end.

(** [strconv.FormatUint(n, 10)]; the fuel is the bit length of [n]. *)
Definition FormatUint (n : Z) : bytes := digits (S (Z.to_nat (Z.log2 n))) n [].

(** [strconv.FormatInt(n, 10)]. *)
Definition FormatInt (n : Z) : bytes :=
  if decide (n < 0) then Byte.x2d :: FormatUint (- n) else FormatUint n.

(** The value of a digit string, without any bound. *)
Definition digits_value (s : bytes) : Z :=
  foldl (fun a b => a * 10 + (byte_to_Z b - 48)) 0 s.

(** The longest prefix of digits. *)
Fixpoint span_digits (s : bytes) : bytes * bytes :=
  match s with
  | [] => ([], [])
  | b :: s' => if is_digit b then let '(d, r) := span_digits s' in (b :: d, r) else ([], s)
  end.

Lemma digit_value d : 0 <= d < 10 -> byte_to_Z (digit d) = 48 + d.
Proof. intros H. unfold digit. rewrite byte_to_of_Z. apply Z.mod_small. lia. Qed.

Lemma is_digit_digit d : 0 <= d < 10 -> is_digit (digit d) = true.
Proof. intros H. unfold is_digit. rewrite digit_value by done. apply bool_decide_eq_true. lia. Qed.

Lemma mod10 n : 0 <= n mod 10 < 10.
Proof. apply Z.mod_pos_bound. lia. Qed.

(** The fuel of [FormatUint] is enough: one decimal digit per bit at most. *)
Lemma div10_lt n k : 0 <= n < 2 ^ Z.of_nat (S k) -> 10 <= n -> 0 <= n / 10 < 2 ^ Z.of_nat k.
Proof.
  intros [H0 H] H10. rewrite Nat2Z.inj_succ, Z.pow_succ_r in H by lia.
  split; [apply Z.div_pos; lia|]. apply Z.div_lt_upper_bound; lia.
Qed.

Lemma digits_shift fuel n acc : digits fuel n acc = digits fuel n [] ++ acc.
Proof.
  revert n acc. induction fuel as [|fuel IH]; intros n acc; [done|]. simpl.
  case_decide; [done|].
  rewrite IH, (IH _ [_]). by rewrite <- app_assoc.
Qed.

Lemma digits_S fuel n :
  digits (S fuel) n [] =
  (if decide (n < 10) then [] else digits fuel (n / 10) []) ++ [digit (n mod 10)].
Proof. simpl. case_decide; [done|]. apply digits_shift. Qed.

Lemma digits_value_app a b : digits_value (a ++ [b]) = digits_value a * 10 + (byte_to_Z b - 48).
Proof. unfold digits_value. by rewrite foldl_app. Qed.

Lemma digits_correct fuel n :
  0 <= n < 2 ^ Z.of_nat fuel -> (1 <= fuel)%nat -> digits_value (digits fuel n []) = n.
Proof.
  revert n. induction fuel as [|fuel IH]; intros n Hn Hf; [lia|].
  rewrite digits_S, digits_value_app, digit_value by apply mod10.
  case_decide as Hlt.
  - simpl. rewrite Z.mod_small by lia. unfold digits_value. simpl. lia.
  - destruct (decide (1 <= fuel)%nat).
    + rewrite IH; [|by apply div10_lt; lia|done]. pose proof (Z.div_mod n 10). lia.
    + assert (fuel = 0%nat) as -> by lia. simpl in Hn. lia.
Qed.

Lemma digits_all fuel n : Forall (fun b => is_digit b = true) (digits fuel n []).
Proof.
  revert n. induction fuel as [|fuel IH]; intros n; [constructor|].
  rewrite digits_S. apply Forall_app. split.
  - case_decide; [constructor|apply IH].
  - repeat constructor. apply is_digit_digit, mod10.
Qed.

Lemma digits_nonempty fuel n acc : digits (S fuel) n acc <> [].
Proof.
  rewrite digits_shift, digits_S. intros E.
  apply app_eq_nil in E as [E _]. by apply app_eq_nil in E as [_ ?].
Qed.

Lemma FormatUint_value n : 0 <= n -> digits_value (FormatUint n) = n.
Proof.
  intros Hn. apply digits_correct; [|lia]. split; [done|].
  rewrite Nat2Z.inj_succ, Z2Nat.id by apply Z.log2_nonneg.
  destruct (decide (n = 0)) as [->|]; [done|]. apply Z.log2_spec. lia.
Qed.

Lemma FormatUint_digits n : Forall (fun b => is_digit b = true) (FormatUint n).
Proof. apply digits_all. Qed.

Lemma FormatUint_nonempty n : FormatUint n <> [].
Proof. apply digits_nonempty. Qed.

Lemma span_digits_app d r :
  Forall (fun b => is_digit b = true) d ->
  match r with b :: _ => is_digit b = false | [] => True end ->
  span_digits (d ++ r) = (d, r).
Proof.
  intros Hd Hr. induction Hd as [|b d Hb Hd IH]; simpl.
  - destruct r as [|b r]; [done|]. simpl. by rewrite Hr.
  - by rewrite Hb, IH.
Qed.

Lemma FormatUint_inj a b : 0 <= a -> 0 <= b -> FormatUint a = FormatUint b -> a = b.
Proof. intros Ha Hb E. by rewrite <- (FormatUint_value a), E, FormatUint_value. Qed.

Lemma FormatInt_inj a b : FormatInt a = FormatInt b -> a = b.
Proof.
  assert (forall n m, 0 <= m -> Byte.x2d :: FormatUint n <> FormatUint m) as Hsign.
  { intros n m Hm E. pose proof (FormatUint_digits m) as HF. rewrite <- E in HF.
    inversion HF as [|? ? Hd]; subst. vm_compute in Hd. done. }
  unfold FormatInt. repeat case_decide; intros E.
  - injection E as E. apply FormatUint_inj in E; lia.
  - by apply Hsign in E; [|lia].
  - by symmetry in E; apply Hsign in E; [|lia].
  - apply FormatUint_inj in E; lia.
Qed.

Example format_vectors :
  FormatUint 0 = bs "0" /\ FormatUint 10 = bs "10" /\ FormatInt (-9007199254740991) = bs "-9007199254740991".
Proof. by vm_compute. Qed.

(** ** Parsing ([strconv.Atoi])

    An optional sign, digits, and a value of the 64-bit [int]. *)
Definition unsigned (s : bytes) : bool * bytes :=
  match s with
  | b :: t => if decide (b = Byte.x2d) then (true, t) else if decide (b = Byte.x2b) then (false, t) else (false, s)
  | [] => (false, [])
  end.

Definition Atoi (s : bytes) : option Z :=
  let '(neg, ds) := unsigned s in
  if decide (ds <> [] /\ Forall (fun b => is_digit b = true) ds) then
    let n := if neg then - digits_value ds else digits_value ds in
    if decide (- 2 ^ 63 <= n < 2 ^ 63) then Some n else None
  else None.

Lemma Atoi_digits s :
  s <> [] -> Forall (fun b => is_digit b = true) s -> 0 <= digits_value s < 2 ^ 63 -> Atoi s = Some (digits_value s).
Proof.
  intros Hne Hd Hv. unfold Atoi.
  assert (unsigned s = (false, s)) as ->.
  { destruct Hd as [|b s Hb _]; [done|]. unfold unsigned. repeat case_decide; subst; done. }
  rewrite decide_True by done. rewrite decide_True by lia. done.
Qed.

Example atoi_vectors :
  Atoi (bs "8448") = Some 8448 /\ Atoi (bs "+7") = Some 7 /\ Atoi (bs "-7") = Some (-7) /\ Atoi (bs "") = None
  /\ Atoi (bs "8x") = None /\ Atoi (bs "9223372036854775808") = None.
Proof. by vm_compute. Qed.
