(* ===== verification/Base64.v ===== *)
(** * Base64 text ([encoding/base64])

    [RawStdEncoding] and [StdEncoding] as the key code uses them: the decoder
    skips line breaks, wants every other byte in the alphabet and does not look
    at the spare bits of a last partial group. *)
From S2P Require Import Prelude.
From Stdlib Require Import ZArith Lia.
From stdpp Require Import base list strings.
#[local] Open Scope Z_scope.

Definition alphabet : bytes := bs "ABCDEFGHIJKLMNOPQRSTUVWXYZabcdefghijklmnopqrstuvwxyz0123456789+/".

Definition sextet (n : Z) : byte := nth (Z.to_nat n) alphabet Byte.x41.

Definition unsextet (b : byte) : option Z :=
  let x := byte_to_Z b in
  if decide (65 <= x <= 90) then Some (x - 65)
  else if decide (97 <= x <= 122) then Some (x - 71)
  else if decide (48 <= x <= 57) then Some (x + 4)
  else if decide (x = 43) then Some 62
  else if decide (x = 47) then Some 63 else None.

(** The six-bit groups of a byte string, the last one filled with zero bits. *)
Fixpoint toGroups (s : bytes) : list Z :=
  match s with
  | a :: b :: c :: s =>
      let x := byte_to_Z a in let y := byte_to_Z b in let z := byte_to_Z c in
      x / 4 :: x mod 4 * 16 + y / 16 :: y mod 16 * 4 + z / 64 :: z mod 64 :: toGroups s
  | [a; b] => let x := byte_to_Z a in let y := byte_to_Z b in [x / 4; x mod 4 * 16 + y / 16; y mod 16 * 4]
  | [a] => let x := byte_to_Z a in [x / 4; x mod 4 * 16]
  | [] => []
  end.

(** The bytes of complete groups; a single left-over group is an error. *)
Fixpoint ofGroups (g : list Z) : option bytes :=
  match g with
  | p :: q :: r :: t :: g =>
      rest ← ofGroups g;
      Some (byte_of_Z (p * 4 + q / 16) :: byte_of_Z (q mod 16 * 16 + r / 4) :: byte_of_Z (r mod 4 * 64 + t) :: rest)
  | [p; q; r] => Some [byte_of_Z (p * 4 + q / 16); byte_of_Z (q mod 16 * 16 + r / 4)]
  | [p; q] => Some [byte_of_Z (p * 4 + q / 16)]
  | [_] => None
  | [] => Some []
  end.

(** [base64.RawStdEncoding.EncodeToString]. *)
Definition EncodeRaw (s : bytes) : bytes := map sextet (toGroups s).

Definition lineBreak (b : byte) : bool := bool_decide (b = Byte.x0a \/ b = Byte.x0d).

(** [base64.RawStdEncoding.DecodeString]. *)
Definition DecodeRaw (s : bytes) : option bytes :=
  groups ← mapM unsextet (filter (fun b => lineBreak b = false) s); ofGroups groups.

(** [base64.StdEncoding.DecodeString]: the last group is filled up with [=]. *)
Definition pad : byte := Byte.x3d.

Definition unpadded (s : bytes) : option bytes :=
  match rev s with
  | b :: c :: t => if decide (b = pad) then (if decide (c = pad) then Some (rev t) else Some (rev (c :: t))) else Some s
  | [b] => if decide (b = pad) then None else Some s
  | [] => Some []
  end.

Definition DecodeStd (s : bytes) : option bytes :=
  let s := filter (fun b => lineBreak b = false) s in
  if decide (length s mod 4 <> 0)%nat then None
  else body ← unpadded s; groups ← mapM unsextet body; ofGroups groups.

Example base64_padded_vectors :
  DecodeStd (bs "Zg==") = Some (bs "f") /\ DecodeStd (bs "Zm8=") = Some (bs "fo") /\ DecodeStd (bs "Zm9v") = Some (bs "foo")
  /\ DecodeStd (bs "Zg") = None /\ DecodeStd (bs "Zg=") = None /\ DecodeStd (bs "Z===") = None /\ DecodeStd (bs "====") = None
  /\ DecodeStd (bs "") = Some [].
Proof. by vm_compute. Qed.

Example base64_vectors :
  EncodeRaw (bs "") = [] /\ EncodeRaw (bs "f") = bs "Zg" /\ EncodeRaw (bs "fo") = bs "Zm8" /\ EncodeRaw (bs "foobar") = bs "Zm9vYmFy"
  /\ DecodeRaw (bs "Zm9vYg") = Some (bs "foob") /\ DecodeRaw (bs "Zm8=") = None /\ DecodeRaw (bs "Zm9vY") = None
  /\ DecodeRaw (bs "Zh") = Some (bs "f").
Proof. by vm_compute. Qed.

(** ** Round trip *)

Lemma unsextet_sextet n : 0 <= n < 64 -> unsextet (sextet n) = Some n /\ lineBreak (sextet n) = false.
Proof.
  intros Hn.
  assert (forallb (fun k => bool_decide (unsextet (sextet k) = Some k /\ lineBreak (sextet k) = false)) (seqZ 0 64) = true) as H
    by (by vm_compute).
  apply (proj1 (forallb_Forall _ _)) in H. rewrite Forall_forall in H.
  specialize (H n). rewrite elem_of_seqZ, bool_decide_eq_true in H. apply H. lia.
Qed.

Lemma triple_ind (P : bytes -> Prop) :
  P [] -> (forall a, P [a]) -> (forall a b, P [a; b]) -> (forall a b c s, P s -> P (a :: b :: c :: s)) -> forall s, P s.
Proof.
  intros H0 H1 H2 H3. fix IH 1. intros [|a [|b [|c s]]]; [done|apply H1|apply H2|]. apply H3, IH.
Qed.

Lemma byte_split b : exists x, byte_to_Z b = x /\ 0 <= x < 256 /\ b = byte_of_Z x.
Proof. exists (byte_to_Z b). split; [done|]. split; [apply byte_to_Z_range|]. by rewrite byte_of_to_Z. Qed.

Lemma toGroups_range s : Forall (fun g => 0 <= g < 64) (toGroups s).
Proof.
  induction s as [|a|a b|a b c s IH] using triple_ind; cbn [toGroups].
  all: repeat match goal with
       | |- context [byte_to_Z ?b] => let x := fresh "x" in destruct (byte_split b) as (x & -> & ? & _)
       end.
  all: repeat (constructor; [Z.to_euclidean_division_equations; lia|]); [constructor..|done].
Qed.

Lemma ofGroups_toGroups s : ofGroups (toGroups s) = Some s.
Proof.
  induction s as [|a|a b|a b c s IH] using triple_ind; cbn [toGroups ofGroups]; [done|..].
  all: try rewrite IH; cbn.
  all: repeat match goal with
       | |- context [byte_to_Z ?b] => let x := fresh "x" in destruct (byte_split b) as (x & -> & ? & ->)
       end.
  all: repeat f_equal; Z.to_euclidean_division_equations; lia.
Qed.

Lemma DecodeRaw_EncodeRaw s : DecodeRaw (EncodeRaw s) = Some s.
Proof.
  unfold DecodeRaw, EncodeRaw. pose proof (toGroups_range s) as H.
  assert (mapM unsextet (filter (fun b => lineBreak b = false) (map sextet (toGroups s))) = Some (toGroups s)) as ->.
  { clear -H. induction H as [|g gs Hg _ IH]; [done|]. destruct (unsextet_sextet g Hg) as [Eu El]. simpl map.
    rewrite filter_cons_True by done. simpl. by rewrite Eu, IH. }
  apply ofGroups_toGroups.
Qed.
