(* ===== verification/GoTime.v ===== *)
(** * Instants and their text ([time])

    An instant is its nanoseconds since the Unix epoch, a [time.Duration] a
    number of nanoseconds. [FormatRFC3339Nano] is [t.UTC().Format(time.RFC3339Nano)]:
    the proleptic Gregorian date, the time of day, and the fraction of the second
    without trailing zeros. *)
From S2P Require Import Prelude Decimal.
From Stdlib Require Import ZArith Lia.
From stdpp Require Import base list strings.
#[local] Open Scope Z_scope.

Definition Second : Z := 1000000000.
Definition Minute : Z := 60 * Second.
Definition Hour : Z := 60 * Minute.

(** The zero [time.Time], the first instant of year 1. *)
Definition zeroTime : Z := - 62135596800 * Second.

(** Year, month and day of a day counted from the epoch; years start in March
    inside the computation, so that the leap day is the last. *)
Definition civil (days : Z) : Z * Z * Z :=
  let z := days + 719468 in
  let era := z / 146097 in
  let doe := z mod 146097 in
  let yoe := (doe - doe / 1460 + doe / 36524 - doe / 146096) / 365 in
  let doy := doe - (365 * yoe + yoe / 4 - yoe / 100) in
  let mp := (5 * doy + 2) / 153 in
  let d := doy - (153 * mp + 2) / 5 + 1 in
  let m := if decide (mp < 10) then mp + 3 else mp - 9 in
  (yoe + era * 400 + (if decide (m <= 2) then 1 else 0), m, d).

(** [n] in decimal with at least [w] digits. *)
Definition padded (w : nat) (n : Z) : bytes :=
  let s := FormatUint n in replicate (w - length s) Byte.x30 ++ s.

Definition appendYear (y : Z) : bytes :=
  if decide (y < 0) then Byte.x2d :: padded 4 (- y) else padded 4 y.

(** The nine digits of the fraction, without trailing zeros. *)
Fixpoint trimZeros (s : bytes) : bytes :=
  match s with
  | [] => []
  | b :: s => match trimZeros s with
              | [] => if decide (b = Byte.x30) then [] else [b]
              | t => b :: t
              end
  end.

Definition fraction (ns : Z) : bytes :=
  match trimZeros (padded 9 ns) with [] => [] | t => Byte.x2e :: t end.

Definition FormatRFC3339Nano (t : Z) : bytes :=
  let secs := t / Second in
  let '(y, m, d) := civil (secs / 86400) in
  let sod := secs mod 86400 in
  appendYear y ++ Byte.x2d :: padded 2 m ++ Byte.x2d :: padded 2 d
  ++ Byte.x54 :: padded 2 (sod / 3600) ++ Byte.x3a :: padded 2 (sod / 60 mod 60)
  ++ Byte.x3a :: padded 2 (sod mod 60) ++ fraction (t mod Second) ++ [Byte.x5a].

Example time_vectors :
  FormatRFC3339Nano 0 = bs "1970-01-01T00:00:00Z"
  /\ FormatRFC3339Nano zeroTime = bs "0001-01-01T00:00:00Z"
  /\ FormatRFC3339Nano 1709210096123400000 = bs "2024-02-29T12:34:56.1234Z"
  /\ FormatRFC3339Nano 951782400000000001 = bs "2000-02-29T00:00:00.000000001Z"
  /\ FormatRFC3339Nano (-1) = bs "1969-12-31T23:59:59.999999999Z".
Proof. by vm_compute. Qed.

(** ** The text determines the instant *)

Lemma civil_ranges doe : 0 <= doe < 146097 ->
  let yoe := (doe - doe / 1460 + doe / 36524 - doe / 146096) / 365 in
  0 <= yoe < 400 /\ 0 <= doe - (365 * yoe + yoe / 4 - yoe / 100) <= 365.
Proof.
  intros H. cbv zeta. Z.to_euclidean_division_equations. lia.
Qed.

(** The day of a date. *)
Definition dayOf (y m d : Z) : Z :=
  let y := if decide (m <= 2) then y - 1 else y in
  let mp := if decide (2 < m) then m - 3 else m + 9 in
  let yoe := y mod 400 in
  y / 400 * 146097 + (365 * yoe + yoe / 4 - yoe / 100) + (153 * mp + 2) / 5 + d - 1 - 719468.

Lemma dayOf_civil z : let '(y, m, d) := civil z in dayOf y m d = z /\ 1 <= m <= 12 /\ 1 <= d <= 31.
Proof.
  unfold civil. set (doe := (z + 719468) mod 146097). set (era := (z + 719468) / 146097).
  assert (z + 719468 = era * 146097 + doe /\ 0 <= doe < 146097) as [Hz Hd].
  { subst era doe. Z.to_euclidean_division_equations. lia. }
  destruct (civil_ranges doe Hd) as [Hy Hdoy]. cbv zeta in Hy, Hdoy.
  set (yoe := (doe - doe / 1460 + doe / 36524 - doe / 146096) / 365) in *. clearbody yoe era doe.
  set (doy := doe - (365 * yoe + yoe / 4 - yoe / 100)) in *.
  assert (doe = 365 * yoe + yoe / 4 - yoe / 100 + doy) as Hdoe by (subst doy; lia). clearbody doy.
  set (mp := (5 * doy + 2) / 153) in *.
  assert (0 <= mp <= 11 /\ 1 <= doy - (153 * mp + 2) / 5 + 1 <= 31) as [Hmp Hday].
  { subst mp. Z.to_euclidean_division_equations. lia. }
  clearbody mp. unfold dayOf. split_and!; [|case_decide; lia|case_decide; lia|lia|lia].
  destruct (decide (mp < 10)) as [H10|H10].
  - destruct (decide (mp + 3 <= 2)); [lia|]. destruct (decide (2 < mp + 3)); [|lia].
    replace (mp + 3 - 3) with mp by lia. rewrite Z.add_0_r.
    rewrite (Z.div_add yoe era 400), (Z.div_small yoe 400), Z.mod_add, (Z.mod_small yoe 400) by lia. lia.
  - destruct (decide (mp - 9 <= 2)); [|lia]. destruct (decide (2 < mp - 9)); [lia|].
    replace (mp - 9 + 9) with mp by lia. replace (yoe + era * 400 + 1 - 1) with (yoe + era * 400) by lia.
    rewrite (Z.div_add yoe era 400), (Z.div_small yoe 400), Z.mod_add, (Z.mod_small yoe 400) by lia. lia.
Qed.

Lemma length_digits fuel n k : 0 <= n < 10 ^ Z.of_nat k -> (1 <= k)%nat -> (length (digits fuel n []) <= k)%nat.
Proof.
  revert n k. induction fuel as [|fuel IH]; intros n k Hn Hk; [simpl; lia|].
  rewrite digits_S, length_app. simpl length at 2. case_decide as Hlt; [simpl; lia|].
  destruct k as [|[|k]]; [lia|simpl in Hn; lia|].
  assert (length (digits fuel (n / 10) []) <= S k)%nat; [|lia]. apply IH; [|lia].
  rewrite (Nat2Z.inj_succ (S k)), Z.pow_succ_r in Hn by lia. split; [apply Z.div_pos; lia|].
  apply Z.div_lt_upper_bound; lia.
Qed.

Lemma length_padded w n : (1 <= w)%nat -> 0 <= n < 10 ^ Z.of_nat w -> length (padded w n) = w.
Proof.
  intros Hw Hn. unfold padded. rewrite length_app, length_replicate.
  pose proof (length_digits (S (Z.to_nat (Z.log2 n))) n w Hn Hw). unfold FormatUint. lia.
Qed.

Lemma digits_value_zeros k s : digits_value (replicate k Byte.x30 ++ s) = digits_value s.
Proof. induction k as [|k IH]; [done|]. simpl. unfold digits_value in *. simpl. exact IH. Qed.

Lemma padded_value w n : 0 <= n -> digits_value (padded w n) = n.
Proof. intros H. unfold padded. rewrite digits_value_zeros. by apply FormatUint_value. Qed.

Lemma padded_inj w n k : 0 <= n -> 0 <= k -> padded w n = padded w k -> n = k.
Proof. intros Hn Hk H. by rewrite <- (padded_value w n), H, padded_value. Qed.

Lemma trimZeros_spec s : s = trimZeros s ++ replicate (length s - length (trimZeros s)) Byte.x30.
Proof.
  induction s as [|b s IH]; [done|]. simpl. destruct (trimZeros s) as [|c t] eqn:E.
  - simpl in IH. case_decide as Hb; simpl.
    + subst b. rewrite Nat.sub_0_r in IH. by rewrite <- IH.
    + by rewrite Nat.sub_0_r in IH |- *; rewrite <- IH.
  - simpl in *. f_equal. exact IH.
Qed.

Lemma trimZeros_inj s t : length s = length t -> trimZeros s = trimZeros t -> s = t.
Proof. intros Hl H. by rewrite (trimZeros_spec s), (trimZeros_spec t), Hl, H. Qed.

Lemma fraction_inj a b : 0 <= a < Second -> 0 <= b < Second -> fraction a = fraction b -> a = b.
Proof.
  intros Ha Hb H. apply (padded_inj 9); [lia|lia|]. apply trimZeros_inj.
  - rewrite !length_padded; unfold Second in *; simpl; lia.
  - unfold fraction in H. destruct (trimZeros (padded 9 a)), (trimZeros (padded 9 b)); congruence.
Qed.

(** Instants of the years 0 to 9999, the ones JSON can carry. *)
Definition fourDigitYear (t : Z) : Prop := 0 <= (civil (t / Second / 86400)).1.1 <= 9999.

Lemma app_cons_inj {A} (x y : list A) c d s t : length x = length y -> x ++ c :: s = y ++ d :: t -> x = y /\ s = t.
Proof. intros Hl H. apply app_inj_1 in H as [-> H]; [|done]. by injection H as _ ->. Qed.

Lemma FormatRFC3339Nano_inj t u :
  fourDigitYear t -> fourDigitYear u -> FormatRFC3339Nano t = FormatRFC3339Nano u -> t = u.
Proof.
  unfold fourDigitYear, FormatRFC3339Nano.
  pose proof (dayOf_civil (t / Second / 86400)) as H1. pose proof (dayOf_civil (u / Second / 86400)) as H2.
  destruct (civil (t / Second / 86400)) as [[y m] d]. destruct (civil (u / Second / 86400)) as [[y' m'] d'].
  cbn [fst]. destruct H1 as (H1 & Hm & Hd), H2 as (H2 & Hm' & Hd'). intros Hy Hy'.
  unfold appendYear. rewrite !decide_False by lia.
  pose proof (Z.mod_pos_bound (t / Second) 86400 ltac:(lia)) as Hs.
  pose proof (Z.mod_pos_bound (u / Second) 86400 ltac:(lia)) as Hs'.
  set (s := t / Second mod 86400) in *. set (s' := u / Second mod 86400) in *.
  assert (0 <= s / 3600 < 24 /\ 0 <= s / 60 mod 60 < 60 /\ 0 <= s mod 60 < 60) as (? & ? & ?)
    by (Z.to_euclidean_division_equations; lia).
  assert (0 <= s' / 3600 < 24 /\ 0 <= s' / 60 mod 60 < 60 /\ 0 <= s' mod 60 < 60) as (? & ? & ?)
    by (Z.to_euclidean_division_equations; lia).
  assert (forall w a b c e p q, (1 <= w)%nat -> 0 <= a < 10 ^ Z.of_nat w -> 0 <= b < 10 ^ Z.of_nat w ->
    padded w a ++ c :: p = padded w b ++ e :: q -> a = b /\ p = q) as Hsplit.
  { intros w a b c e p q Hw Ha Hb E. apply app_cons_inj in E as [E ->]; [|by rewrite !length_padded].
    split; [|done]. apply (padded_inj w); [lia|lia|done]. }
  intros E. apply Hsplit in E as [-> E]; [|simpl; lia..]. apply Hsplit in E as [-> E]; [|simpl; lia..].
  apply Hsplit in E as [-> E]; [|simpl; lia..]. apply Hsplit in E as [E1 E]; [|simpl; lia..].
  apply Hsplit in E as [E2 E]; [|simpl; lia..].
  apply app_inj_1 in E as [E3 E]; [|by rewrite !length_padded by (simpl; lia)].
  apply padded_inj in E3; [|lia..]. apply app_inj_tail in E as [E _].
  apply fraction_inj in E; [|apply Z.mod_pos_bound; unfold Second; lia..].
  assert (s = s') as Es by (Z.to_euclidean_division_equations; lia). unfold s, s' in Es.
  rewrite (Z.div_mod t Second), (Z.div_mod u Second), E by (unfold Second; lia). f_equal. f_equal.
  rewrite (Z.div_mod (t / Second) 86400), (Z.div_mod (u / Second) 86400), Es by lia. congruence.
Qed.
