(* ===== verification/GoStrings.v ===== *)
(** * Strings and UTF-8 as the program uses them ([strings], [unicode/utf8])

    A Go string is its bytes. [range] over a string decodes one rune at a time
    and yields U+FFFD for a byte that does not start a well-formed sequence. *)
From S2P Require Import Prelude.
From Stdlib Require Import ZArith Lia.
From stdpp Require Import base list strings.
#[local] Open Scope Z_scope.

(** ** Package strings *)

(** [strings.HasPrefix] and [strings.HasSuffix]. *)
Fixpoint HasPrefix (s prefix : bytes) {struct prefix} : bool :=
  match prefix, s with
  | [], _ => true
  | p :: prefix, c :: s => bool_decide (p = c) && HasPrefix s prefix
  | _ :: _, [] => false
  end.

Definition HasSuffix (s suffix : bytes) : bool := HasPrefix (rev s) (rev suffix).

(** [strings.Index(s, sep)]: the first position, [None] for -1. *)
Fixpoint Index_ (s sep : bytes) : option nat :=
  if HasPrefix s sep then Some 0%nat
  else match s with [] => None | _ :: s => S <$> Index_ s sep end.

Definition Contains (s sep : bytes) : bool := bool_decide (is_Some (Index_ s sep)).

(** [strings.LastIndex(s, c)] for a single byte. *)
Fixpoint LastIndexByte (s : bytes) (c : byte) : option nat :=
  match s with
  | [] => None
  | b :: s => match LastIndexByte s c with
              | Some i => Some (S i)
              | None => if decide (b = c) then Some 0%nat else None
              end
  end.

(** [strings.Split(s, c)] for a single byte: always at least one part. *)
Fixpoint Split (s : bytes) (c : byte) : list bytes :=
  match s with
  | [] => [[]]
  | b :: s =>
      if decide (b = c) then [] :: Split s c
      else match Split s c with
           | part :: parts => (b :: part) :: parts
           | [] => [[b]]
           end
  end.

(** [strings.Join(parts, c)]. *)
Fixpoint Join_ (parts : list bytes) (c : byte) : bytes :=
  match parts with
  | [] => []
  | [part] => part
  | part :: parts => part ++ c :: Join_ parts c
  end.

Lemma HasPrefix_spec s p : HasPrefix s p = true <-> exists t, s = p ++ t.
Proof.
  revert s. induction p as [|c p IH]; intros s; simpl.
  - split; [by exists s|by destruct s].
  - destruct s as [|b s]; simpl; [split; [done|by intros [t ?]]|].
    rewrite andb_true_iff, bool_decide_eq_true, IH. split.
    + intros [-> [t ->]]. by exists t.
    + intros [t [= -> ->]]. eauto.
Qed.

Lemma HasSuffix_spec s p : HasSuffix s p = true <-> exists t, s = t ++ p.
Proof.
  unfold HasSuffix. rewrite HasPrefix_spec. split; intros [t Ht].
  - exists (rev t). by rewrite <- (rev_involutive s), Ht, rev_app_distr, rev_involutive.
  - exists (rev t). by rewrite Ht, rev_app_distr.
Qed.

(** [Index_] finds the leftmost occurrence. *)
Lemma Index_Some s sep i :
  Index_ s sep = Some i ->
  (exists a b, s = a ++ sep ++ b /\ length a = i)
  /\ forall a b, s = a ++ sep ++ b -> (i <= length a)%nat.
Proof.
  revert i. induction s as [|c s IH]; intros i; cbn [Index_].
  - destruct (HasPrefix [] sep) eqn:E; [|done]. intros [= <-].
    apply HasPrefix_spec in E as [t Ht]. split; [exists [], t; by split|lia].
  - destruct (HasPrefix (c :: s) sep) eqn:E.
    + intros [= <-]. apply HasPrefix_spec in E as [t Ht]. split; [exists [], t; by split|lia].
    + destruct (Index_ s sep) as [j|] eqn:Ej; [|done]. simpl. intros [= <-].
      destruct (IH j eq_refl) as [(a & b & -> & Hl) Hmin]. split.
      * exists (c :: a), b. split; [done|]. simpl. by rewrite Hl.
      * intros a' b' Hs. destruct a' as [|c' a']; simpl in Hs |- *.
        { assert (HasPrefix (c :: a ++ sep ++ b) sep = true); [|congruence].
          apply HasPrefix_spec. by exists b'. }
        injection Hs as -> Hs. apply Hmin in Hs. lia.
Qed.

Lemma Index_None s sep : Index_ s sep = None -> forall a b, s <> a ++ sep ++ b.
Proof.
  induction s as [|c s IH]; cbn [Index_]; intros H a b Hs.
  - destruct (HasPrefix [] sep) eqn:E; [done|].
    assert (HasPrefix [] sep = true); [|congruence]. apply HasPrefix_spec.
    symmetry in Hs. apply app_eq_nil in Hs as [-> Hs]. by exists b.
  - destruct (HasPrefix (c :: s) sep) eqn:E; [done|].
    destruct (Index_ s sep) as [j|] eqn:Ej; [done|]. destruct a as [|c' a].
    + assert (HasPrefix (c :: s) sep = true); [|congruence]. apply HasPrefix_spec. by exists b.
    + injection Hs as -> Hs. by eapply IH.
Qed.

Lemma Split_not_nil s c : Split s c <> [].
Proof. destruct s as [|b s]; [done|]. simpl. case_decide; [done|]. by destruct (Split s c). Qed.

(** Splitting is the inverse of joining parts that do not hold the separator. *)
Lemma Join_Split s c : Join_ (Split s c) c = s.
Proof.
  induction s as [|b s IH]; [done|]. simpl. pose proof (Split_not_nil s c) as Hn.
  case_decide as Hd.
  - subst b. destruct (Split s c) as [|p ps]; [done|]. simpl. by rewrite <- IH.
  - destruct (Split s c) as [|p ps]; [done|]. rewrite <- IH. by destruct ps.
Qed.

Lemma Split_free s c : Forall (fun part => c ∉ part) (Split s c).
Proof.
  induction s as [|b s IH]; simpl; [repeat constructor; apply not_elem_of_nil|].
  case_decide as Hd; [constructor; [apply not_elem_of_nil|done]|].
  destruct (Split s c) as [|p ps] eqn:E; [by apply Split_not_nil in E|].
  inversion IH; subst. constructor; [|done]. rewrite not_elem_of_cons. by split; [congruence|].
Qed.

Lemma Split_app part c s : c ∉ part -> Split (part ++ c :: s) c = part :: Split s c.
Proof.
  induction part as [|b part IH]; intros Hn; simpl; [by rewrite decide_True|].
  apply not_elem_of_cons in Hn as [Hb Hn]. rewrite decide_False by congruence. by rewrite IH.
Qed.

Lemma Split_single part c : c ∉ part -> Split part c = [part].
Proof.
  induction part as [|b part IH]; intros Hn; [done|]. simpl.
  apply not_elem_of_cons in Hn as [Hb Hn]. rewrite decide_False by congruence. by rewrite IH.
Qed.

Lemma Split_Join parts c :
  parts <> [] -> Forall (fun part => c ∉ part) parts -> Split (Join_ parts c) c = parts.
Proof.
  intros Hne Hf. induction Hf as [|p ps Hp Hf IH]; [done|]. destruct ps as [|q ps].
  - by apply Split_single.
  - change (Join_ (p :: q :: ps) c) with (p ++ c :: Join_ (q :: ps) c). rewrite Split_app by done. by rewrite IH.
Qed.

(** ** UTF-8 *)

Definition RuneError : Z := 65533.

(** Size of the sequence a byte starts and the range of its second byte. *)
Definition acceptRange (x : Z) : option (nat * Z * Z) :=
  if decide (194 <= x <= 223) then Some (2%nat, 128, 191)
  else if decide (x = 224) then Some (3%nat, 160, 191)
  else if decide (x = 237) then Some (3%nat, 128, 159)
  else if decide (225 <= x <= 239) then Some (3%nat, 128, 191)
  else if decide (x = 240) then Some (4%nat, 144, 191)
  else if decide (241 <= x <= 243) then Some (4%nat, 128, 191)
  else if decide (x = 244) then Some (4%nat, 128, 143)
  else None.

Definition cont (y : Z) : bool := bool_decide (128 <= y <= 191).

(** [utf8.DecodeRuneInString]: the rune and its width. *)
Definition DecodeRune (s : bytes) : Z * nat :=
  match s with
  | [] => (RuneError, 0%nat)
  | b0 :: s =>
      let x := byte_to_Z b0 in
      if decide (x < 128) then (x, 1%nat)
      else
        match acceptRange x, s with
        | Some (n, lo, hi), b1 :: s1 =>
            let y := byte_to_Z b1 in
            if decide (~ (lo <= y <= hi)) then (RuneError, 1%nat)
            else
              match n, s1 with
              | 2%nat, _ => ((x - 192) * 64 + (y - 128), 2%nat)
              | 3%nat, b2 :: _ =>
                  let z := byte_to_Z b2 in
                  if cont z then ((x - 224) * 4096 + (y - 128) * 64 + (z - 128), 3%nat) else (RuneError, 1%nat)
              | 4%nat, b2 :: b3 :: _ =>
                  let z := byte_to_Z b2 in
                  let w := byte_to_Z b3 in
                  if cont z && cont w
                  then ((x - 240) * 262144 + (y - 128) * 4096 + (z - 128) * 64 + (w - 128), 4%nat)
                  else (RuneError, 1%nat)
              | _, _ => (RuneError, 1%nat)
              end
        | _, _ => (RuneError, 1%nat)
        end
  end.

(** [utf8.AppendRune], as [Buffer.WriteRune] uses it. *)
Definition EncodeRune (r : Z) : bytes :=
  if decide (0 <= r < 128) then [byte_of_Z r]
  else if decide (0 <= r < 2048) then [byte_of_Z (192 + r / 64); byte_of_Z (128 + r mod 64)]
  else if decide (r < 0 \/ 1114111 < r \/ 55296 <= r <= 57343) then [byte_of_Z 239; byte_of_Z 191; byte_of_Z 189]
  else if decide (r < 65536)
  then [byte_of_Z (224 + r / 4096); byte_of_Z (128 + (r / 64) mod 64); byte_of_Z (128 + r mod 64)]
  else [byte_of_Z (240 + r / 262144); byte_of_Z (128 + (r / 4096) mod 64);
        byte_of_Z (128 + (r / 64) mod 64); byte_of_Z (128 + r mod 64)].

(** [for _, r := range s]. *)
Fixpoint runesFrom (fuel : nat) (s : bytes) : list Z :=
  match fuel, s with
  | S fuel, _ :: _ => let '(r, n) := DecodeRune s in r :: runesFrom fuel (drop n s)
  | _, _ => []
  end.

Definition runes (s : bytes) : list Z := runesFrom (length s) s.

(** [utf8.RuneCountInString] and [utf8.ValidString]. *)
Definition RuneCountInString (s : bytes) : Z := len (runes s).

Fixpoint validFrom (fuel : nat) (s : bytes) : bool :=
  match fuel, s with
  | S fuel, _ :: _ =>
      let '(r, n) := DecodeRune s in
      if decide (n = 1%nat /\ 128 <= r) then false else validFrom fuel (drop n s)
  | _, _ => true
  end.

Definition ValidString (s : bytes) : bool := validFrom (length s) s.

(** What a string becomes when it is written back rune by rune. *)
Definition toValidUTF8 (s : bytes) : bytes := concat (map EncodeRune (runes s)).

Lemma DecodeRune_width b s : (1 <= (DecodeRune (b :: s)).2 <= length (b :: s))%nat.
Proof.
  unfold DecodeRune. repeat (case_match; simpl; try lia).
Qed.

Lemma byte_of_Z_eq z b : z mod 256 = byte_to_Z b -> byte_of_Z z = b.
Proof. intros H. apply byte_to_Z_inj. by rewrite byte_to_of_Z. Qed.

Lemma Encode2 x y : 194 <= x <= 223 -> 128 <= y <= 191 ->
  EncodeRune ((x - 192) * 64 + (y - 128)) = [byte_of_Z x; byte_of_Z y].
Proof.
  intros. unfold EncodeRune. rewrite decide_False, decide_True by lia.
  repeat f_equal; Z.to_euclidean_division_equations; lia.
Qed.

Lemma Encode3 x y z : 224 <= x <= 239 -> 128 <= y <= 191 -> 128 <= z <= 191 ->
  (x = 224 -> 160 <= y) -> (x = 237 -> y <= 159) ->
  EncodeRune ((x - 224) * 4096 + (y - 128) * 64 + (z - 128)) = [byte_of_Z x; byte_of_Z y; byte_of_Z z].
Proof.
  intros. unfold EncodeRune. do 3 rewrite decide_False by lia. rewrite decide_True by lia.
  repeat f_equal; Z.to_euclidean_division_equations; lia.
Qed.

Lemma Encode4 x y z w : 240 <= x <= 244 -> 128 <= y <= 191 -> 128 <= z <= 191 -> 128 <= w <= 191 ->
  (x = 240 -> 144 <= y) -> (x = 244 -> y <= 143) ->
  EncodeRune ((x - 240) * 262144 + (y - 128) * 4096 + (z - 128) * 64 + (w - 128)) =
    [byte_of_Z x; byte_of_Z y; byte_of_Z z; byte_of_Z w].
Proof.
  intros. unfold EncodeRune. do 4 rewrite decide_False by lia.
  repeat f_equal; Z.to_euclidean_division_equations; lia.
Qed.

Lemma acceptRange_spec x n lo hi :
  acceptRange x = Some (n, lo, hi) ->
  (n = 2%nat /\ 194 <= x <= 223 /\ lo = 128 /\ hi = 191)
  \/ (n = 3%nat /\ 224 <= x <= 239 /\ 128 <= lo /\ hi <= 191 /\ (x = 224 -> lo = 160) /\ (x = 237 -> hi = 159))
  \/ (n = 4%nat /\ 240 <= x <= 244 /\ 128 <= lo /\ hi <= 191 /\ (x = 240 -> lo = 144) /\ (x = 244 -> hi = 143)).
Proof.
  unfold acceptRange. repeat (case_decide; [intros [= <- <- <-]; lia|]). done.
Qed.

(** What one decoding step finds: an ASCII byte, a well-formed sequence of
    non-ASCII bytes that is written back unchanged, or a bad byte. *)
Inductive decoded (b : byte) (s : bytes) : Z -> nat -> Prop :=
  | decoded_ascii : byte_to_Z b < 128 -> decoded b s (byte_to_Z b) 1
  | decoded_wide r n : 128 <= r -> (2 <= n)%nat -> EncodeRune r = take n (b :: s) ->
      Forall (fun c => 128 <= byte_to_Z c) (take n (b :: s)) -> decoded b s r n
  | decoded_bad : 128 <= byte_to_Z b -> decoded b s RuneError 1.

Lemma DecodeRune_view b s : decoded b s (DecodeRune (b :: s)).1 (DecodeRune (b :: s)).2.
Proof.
  unfold DecodeRune. case_decide as Hb; [by constructor|]. assert (128 <= byte_to_Z b) as Hb' by lia.
  destruct (acceptRange (byte_to_Z b)) as [[[n lo] hi]|] eqn:Ea; [|by constructor].
  destruct s as [|b1 s1]; [by constructor|]. case_decide as H1; [by constructor|].
  assert (lo <= byte_to_Z b1 <= hi) as Hy by lia. clear H1.
  unfold cont. apply acceptRange_spec in Ea as [(-> & Hx & -> & ->)|[(-> & Hx & Hlo & Hhi & Hl & Hh)|(-> & Hx & Hlo & Hhi & Hl & Hh)]].
  - apply decoded_wide; [simpl; lia|simpl; lia| |repeat constructor; lia]; cbn [fst]. rewrite Encode2 by lia. by rewrite !byte_of_to_Z.
  - destruct s1 as [|b2 s2]; [by constructor|]. case_bool_decide as H2; [|by constructor].
    apply decoded_wide; [simpl; lia|simpl; lia| |repeat constructor; lia]; cbn [fst]. rewrite Encode3 by lia. by rewrite !byte_of_to_Z.
  - destruct s1 as [|b2 [|b3 s2]]; [by constructor..|].
    case_bool_decide as H2; simpl; [|by constructor]. case_bool_decide as H3; [|by constructor].
    apply decoded_wide; [simpl; lia|simpl; lia| |repeat constructor; lia]; cbn [fst]. rewrite Encode4 by lia. by rewrite !byte_of_to_Z.
Qed.

(** Induction over a string one rune at a time. *)
Lemma rune_ind (P : bytes -> Prop) :
  P [] ->
  (forall b s r n, DecodeRune (b :: s) = (r, n) -> decoded b s r n -> (1 <= n)%nat ->
     P (drop n (b :: s)) -> P (b :: s)) ->
  forall s, P s.
Proof.
  intros H0 Hs s. remember (length s) as k eqn:Hk. revert s Hk.
  induction (lt_wf k) as [k _ IH]. intros [|b s] Hk; [done|].
  destruct (DecodeRune (b :: s)) as [r n] eqn:E. pose proof (DecodeRune_width b s) as Hw. rewrite E in Hw.
  simpl in Hw. apply (Hs b s r n); [done| |lia|].
  - pose proof (DecodeRune_view b s) as Hv. by rewrite E in Hv.
  - eapply IH; [|done]. rewrite length_drop. simpl in *. lia.
Qed.

(** The fuel of the loops is the length of the string. *)
Lemma runesFrom_fuel f g s : (length s <= f)%nat -> (length s <= g)%nat -> runesFrom f s = runesFrom g s.
Proof.
  revert f g. induction s as [|b s r n E _ Hn IH] using rune_ind; intros f g Hf Hg.
  { by destruct f, g. }
  destruct f as [|f]; [simpl in Hf; lia|]. destruct g as [|g]; [simpl in Hg; lia|].
  cbn [runesFrom]. rewrite E. f_equal. apply IH; rewrite length_drop; simpl in *; lia.
Qed.

Lemma runes_step b s r n :
  DecodeRune (b :: s) = (r, n) -> (1 <= n)%nat -> runes (b :: s) = r :: runes (drop n (b :: s)).
Proof.
  intros E Hn. unfold runes. cbn [length runesFrom]. rewrite E. f_equal.
  apply runesFrom_fuel; rewrite ?length_drop; simpl; lia.
Qed.

Lemma validFrom_fuel f g s : (length s <= f)%nat -> (length s <= g)%nat -> validFrom f s = validFrom g s.
Proof.
  revert f g. induction s as [|b s r n E _ Hn IH] using rune_ind; intros f g Hf Hg.
  { by destruct f, g. }
  destruct f as [|f]; [simpl in Hf; lia|]. destruct g as [|g]; [simpl in Hg; lia|].
  cbn [validFrom]. rewrite E. case_decide; [done|]. apply IH; rewrite length_drop; simpl in *; lia.
Qed.

Lemma ValidString_step b s r n :
  DecodeRune (b :: s) = (r, n) -> (1 <= n)%nat ->
  ValidString (b :: s) = if decide (n = 1%nat /\ 128 <= r) then false else ValidString (drop n (b :: s)).
Proof.
  intros E Hn. unfold ValidString. cbn [length validFrom]. rewrite E. case_decide; [done|].
  apply validFrom_fuel; rewrite ?length_drop; simpl; lia.
Qed.

(** Valid strings are written back unchanged. *)
Lemma toValidUTF8_valid s : ValidString s = true -> toValidUTF8 s = s.
Proof.
  induction s as [|b s r n E Hd Hn IH] using rune_ind; intros Hv; [done|].
  rewrite (ValidString_step _ _ _ _ E Hn) in Hv. case_decide as Hbad; [done|].
  unfold toValidUTF8. rewrite (runes_step _ _ _ _ E Hn). cbn [map concat].
  change (EncodeRune r ++ toValidUTF8 (drop n (b :: s)) = b :: s). rewrite IH by done.
  destruct Hd as [Hb|r n Hr Hn2 He _|Hb].
  - unfold EncodeRune. pose proof (byte_to_Z_range b). rewrite decide_True by lia. by rewrite byte_of_to_Z.
  - rewrite He. apply take_drop.
  - exfalso. apply Hbad. unfold RuneError. lia.
Qed.

(** ASCII text is valid, and stands for itself. *)
Definition isAscii (s : bytes) : Prop := Forall (fun b => byte_to_Z b < 128) s.

Lemma isAscii_valid s : isAscii s -> ValidString s = true.
Proof.
  induction s as [|b s IH]; intros H; [done|]. inversion H as [|? ? Hb Hs]; subst.
  assert (DecodeRune (b :: s) = (byte_to_Z b, 1%nat)) as E by (unfold DecodeRune; by rewrite decide_True).
  rewrite (ValidString_step _ _ _ _ E) by lia. rewrite decide_False by lia. by apply IH.
Qed.

Example utf8_vectors :
  runes (bs "aé€😀") = [97; 233; 8364; 128512] /\ ValidString (bs "aé€😀") = true
  /\ runes [Byte.x61; Byte.xff; Byte.xc3] = [97; RuneError; RuneError] /\ ValidString [Byte.xed; Byte.xa0; Byte.x80] = false.
Proof. by vm_compute. Qed.

(** ** White space and case *)

(** The UTF-8 encodings of [unicode.IsSpace]. A rune is decoded from a string
    as a space, at either end, exactly when its encoding is there. *)
Definition spaces : list bytes :=
  Eval vm_compute in
  map EncodeRune ([9; 10; 11; 12; 13; 32; 133; 160; 5760] ++ map (fun k => 8192 + Z.of_nat k) (seq 0 11)
                  ++ [8232; 8233; 8239; 8287; 12288]).

(** Strip the spaces at the front; [sps] are the encodings looked for. *)
Fixpoint trimFrom (fuel : nat) (sps : list bytes) (s : bytes) : bytes :=
  match fuel with
  | O => s
  | S fuel => match List.find (HasPrefix s) sps with
              | Some sp => trimFrom fuel sps (drop (length sp) s)
              | None => s
              end
  end.

(** [strings.TrimSpace]. *)
Definition TrimSpace (s : bytes) : bytes :=
  let t := trimFrom (length s) spaces s in
  rev (trimFrom (length t) (map (@rev byte) spaces) (rev t)).

(** [strings.ToLower] on ASCII letters. Of the other runes only U+0130 and
    U+212A have an ASCII lower case, the letters i and k. *)
Definition lower (b : byte) : byte :=
  if decide (65 <= byte_to_Z b <= 90) then byte_of_Z (byte_to_Z b + 32) else b.

Definition ToLower (s : bytes) : bytes := map lower s.

(** [strings.TrimSuffix]. *)
Definition TrimSuffix (s suffix : bytes) : bytes :=
  if HasSuffix s suffix then take (length s - length suffix) s else s.

Example trim_vectors :
  TrimSpace (bs "  a b ") = bs "a b" /\ TrimSpace (EncodeRune 8195 ++ bs "x" ++ EncodeRune 12288) = bs "x"
  /\ TrimSpace (bs "   ") = [] /\ ToLower (bs "LocalHost") = bs "localhost" /\ TrimSuffix (bs "a.b.") (bs ".") = bs "a.b".
Proof. by vm_compute. Qed.

(** A string whose ends are ASCII and not spaces is left alone. *)
Definition solid (b : byte) : Prop := 33 <= byte_to_Z b <= 126.

Lemma trimFrom_solid fuel sps b s :
  Forall (fun sp => exists c t, sp = c :: t /\ ~ solid c) sps -> solid b ->
  trimFrom fuel sps (b :: s) = b :: s.
Proof.
  intros Hsps Hb. destruct fuel as [|fuel]; [done|]. simpl.
  assert (List.find (HasPrefix (b :: s)) sps = None) as ->; [|done].
  induction Hsps as [|sp sps (c & t & -> & Hc) _ IH]; [done|]. simpl.
  destruct (decide (b = c)) as [->|Hne]; [done|].
  by rewrite ?bool_decide_eq_false_2 by done.
Qed.

(** None of the encodings of a space begins or ends with such a byte. *)
Lemma spaces_hollow sps :
  forallb (fun sp => match sp with c :: _ => bool_decide (~ (33 <= byte_to_Z c <= 126)) | [] => false end) sps = true ->
  Forall (fun sp => exists c t, sp = c :: t /\ ~ solid c) sps.
Proof.
  induction sps as [|sp sps IH]; simpl; intros H; constructor.
  - destruct sp as [|c t]; [done|]. apply andb_prop in H as [H _].
    exists c, t. split; [done|]. by apply bool_decide_eq_true in H.
  - apply IH. by apply andb_prop in H as [_ ?].
Qed.

Lemma TrimSpace_solid s :
  match s with b :: _ => solid b | [] => False end ->
  match rev s with b :: _ => solid b | [] => False end -> TrimSpace s = s.
Proof.
  intros Hf Hl. unfold TrimSpace. destruct s as [|b s]; [done|].
  rewrite trimFrom_solid; [|by apply spaces_hollow; vm_compute|done].
  destruct (rev (b :: s)) as [|c t] eqn:E; [done|].
  rewrite trimFrom_solid; [|by apply spaces_hollow; vm_compute|done].
  by rewrite <- E, rev_involutive.
Qed.

(** ** Trimming twice *)

Definition nonempty (sp : bytes) : bool := match sp with [] => false | _ => true end.

Lemma trimFrom_suffix fuel sps s : exists p, s = p ++ trimFrom fuel sps s.
Proof.
  revert s. induction fuel as [|fuel IH]; intros s; [by exists []|]. cbn [trimFrom].
  destruct (List.find (HasPrefix s) sps) as [sp|]; [|by exists []].
  destruct (IH (drop (length sp) s)) as [p Hp]. exists (take (length sp) s ++ p). by rewrite <- app_assoc, <- Hp, take_drop.
Qed.

Lemma find_empty sps : forallb nonempty sps = true -> List.find (HasPrefix []) sps = None.
Proof.
  induction sps as [|[|b sp] sps IH]; intros H; [done|done|]. cbn [List.find HasPrefix]. by apply IH.
Qed.

Lemma trimFrom_done fuel sps s :
  forallb nonempty sps = true -> (length s <= fuel)%nat -> List.find (HasPrefix (trimFrom fuel sps s)) sps = None.
Proof.
  intros Hne. revert s. induction fuel as [|fuel IH]; intros s Hf; cbn [trimFrom].
  - destruct s; [by apply find_empty|simpl in Hf; lia].
  - destruct (List.find (HasPrefix s) sps) as [sp|] eqn:E; [|exact E]. apply IH. rewrite length_drop.
    apply find_some in E as [Hin _]. rewrite forallb_forall in Hne. apply Hne in Hin. destruct sp; [done|]. simpl. lia.
Qed.

Lemma trimFrom_none fuel sps s : List.find (HasPrefix s) sps = None -> trimFrom fuel sps s = s.
Proof. intros H. destruct fuel; cbn [trimFrom]; by rewrite ?H. Qed.

(** A prefix of a string begins with no more spaces than the string. *)
Lemma find_prefix sps u t : List.find (HasPrefix (u ++ t)) sps = None -> List.find (HasPrefix u) sps = None.
Proof.
  induction sps as [|sp sps IH]; [done|]. cbn [List.find]. destruct (HasPrefix (u ++ t) sp) eqn:E; [done|]. intros H.
  destruct (HasPrefix u sp) eqn:E'; [|by apply IH]. exfalso. revert E E'. clear. revert u.
  induction sp as [|b sp IH]; intros u; cbn [HasPrefix]; [by destruct (u ++ t)|]. destruct u as [|c u]; [done|]. cbn [app HasPrefix].
  intros E E'. apply andb_prop in E' as [Hb E']. rewrite Hb in E. cbn [andb] in E. by apply (IH u).
Qed.

Lemma TrimSpace_idem s : TrimSpace (TrimSpace s) = TrimSpace s.
Proof.
  unfold TrimSpace at 2. unfold TrimSpace. set (t := trimFrom (length s) spaces s).
  set (u := trimFrom (length t) (map (@rev byte) spaces) (rev t)).
  assert (List.find (HasPrefix t) spaces = None) as Ht by (apply trimFrom_done; [by vm_compute|done]).
  assert (List.find (HasPrefix u) (map (@rev byte) spaces) = None) as Hu
    by (apply trimFrom_done; [by vm_compute|by rewrite length_rev]).
  destruct (trimFrom_suffix (length t) (map (@rev byte) spaces) (rev t)) as [p Hp]. fold u in Hp.
  assert (t = rev u ++ rev p) as Ht' by (rewrite <- rev_app_distr, <- Hp; by rewrite rev_involutive).
  rewrite (trimFrom_none _ spaces (rev u)); [|rewrite Ht' in Ht; by apply find_prefix in Ht].
  by rewrite rev_involutive, trimFrom_none.
Qed.

(** The last byte splits the string around its last occurrence. *)
Lemma LastIndexByte_Some s c i :
  LastIndexByte s c = Some i -> s = take i s ++ c :: drop (S i) s /\ c ∉ drop (S i) s.
Proof.
  revert i. induction s as [|b s IH]; intros i; [done|]. simpl.
  destruct (LastIndexByte s c) as [j|] eqn:E.
  - intros [= <-]. destruct (IH j eq_refl) as [Heq Hn]. simpl. split; [by f_equal|done].
  - case_decide as Hb; intros [= <-]. subst. simpl. rewrite drop_0. split; [done|].
    clear IH. induction s as [|d s IHs]; [by apply not_elem_of_nil|]. simpl in E.
    destruct (LastIndexByte s c); [done|]. case_decide; [done|].
    apply not_elem_of_cons. split; [done|]. by apply IHs.
Qed.

Lemma LastIndexByte_None s c : LastIndexByte s c = None -> c ∉ s.
Proof.
  induction s as [|b s IH]; intros E; [by apply not_elem_of_nil|]. simpl in E.
  destruct (LastIndexByte s c); [done|]. case_decide; [done|].
  apply not_elem_of_cons. split; [done|]. by apply IH.
Qed.

(** A string without [sep]'s first byte does not contain it. *)
Lemma Contains_false s c : c ∉ s -> Contains s [c] = false.
Proof.
  intros Hn. apply bool_decide_eq_false. intros [i Hi].
  apply Index_Some in Hi as [(a & b & -> & _) _]. apply Hn. apply elem_of_app. right. apply elem_of_app. left. by apply list_elem_of_singleton.
Qed.

(** Where a single byte occurs first and last. *)
Lemma Index_byte a c b : c ∉ a -> Index_ (a ++ c :: b) [c] = Some (length a).
Proof.
  induction a as [|d a IH]; intros Hn; cbn [app Index_ HasPrefix].
  - by rewrite bool_decide_eq_true_2.
  - apply not_elem_of_cons in Hn as [Hd Hn]. rewrite bool_decide_eq_false_2 by done.
    by rewrite IH.
Qed.

Lemma LastIndexByte_free s c : c ∉ s -> LastIndexByte s c = None.
Proof.
  induction s as [|d s IH]; intros Hn; [done|]. simpl. apply not_elem_of_cons in Hn as [Hd Hn].
  rewrite IH by done. by rewrite decide_False.
Qed.

Lemma LastIndexByte_app a c b : c ∉ b -> LastIndexByte (a ++ c :: b) c = Some (length a).
Proof.
  intros Hn. induction a as [|d a IH]; simpl.
  - rewrite LastIndexByte_free by done. by rewrite decide_True.
  - by rewrite IH.
Qed.

(** A property of every byte of a split string. *)
Lemma Split_Forall (P : byte -> Prop) s c : P c -> Forall (Forall P) (Split s c) -> Forall P s.
Proof.
  intros Hc H. rewrite <- (Join_Split s c). induction H as [|part parts Hp _ IH]; [constructor|].
  destruct parts as [|q parts]; [done|]. change (Forall P (part ++ c :: Join_ (q :: parts) c)).
  apply Forall_app. split; [done|]. by constructor.
Qed.

(** The runes of an ASCII string are its bytes. *)
Lemma runes_ascii s : isAscii s -> runes s = map byte_to_Z s.
Proof.
  induction 1 as [|b s Hb Hs IH]; [done|].
  rewrite (runes_step b s (byte_to_Z b) 1); [|unfold DecodeRune; by rewrite decide_True by lia|lia].
  change (drop 1 (b :: s)) with s. by rewrite IH.
Qed.

Lemma Contains_byte s c : Contains s [c] = true <-> c ∈ s.
Proof.
  split; intros H.
  - destruct (decide (c ∈ s)) as [|Hn]; [done|]. apply Contains_false in Hn. congruence.
  - apply list_elem_of_split in H as (a & b & ->). apply bool_decide_eq_true.
    destruct (Index_ (a ++ c :: b) [c]) eqn:E; [by eexists|]. by destruct (Index_None _ _ E a b).
Qed.

(** The parts of a string around a separator. *)
Lemma drop_sep (a : bytes) x b : drop (length a + 1) (a ++ x :: b) = b.
Proof. rewrite cons_middle, app_assoc. apply drop_app_length'. rewrite length_app. done. Qed.

Lemma take_sep (a b : bytes) : take (length a) (a ++ b) = a.
Proof. by apply take_app_length'. Qed.
