(* ===== verification/NetIP.v ===== *)
(** * IP addresses ([net.ParseIP], [net.IP], [net.IPNet])

    A [net.IP] is its 16-byte form as a 128-bit integer; an IPv4 address is the
    mapped address ::ffff:a.b.c.d, which is what [ParseIP] stores and [To4]
    recognises. *)
From S2P Require Import Prelude Decimal GoStrings.
From Stdlib Require Import ZArith Lia.
From stdpp Require Import base list strings.
#[local] Open Scope Z_scope.

Definition IP : Type := Z.

Definition mapped (a : Z) : IP := 65535 * 2 ^ 32 + a.

(** [To4]: the 32-bit address. *)
Definition To4 (ip : IP) : option Z :=
  if decide (ip / 2 ^ 32 = 65535) then Some (ip mod 2 ^ 32) else None.

Lemma To4_mapped a : 0 <= a < 2 ^ 32 -> To4 (mapped a) = Some a.
Proof.
  intros H. unfold To4, mapped.
  assert (65535 * 2 ^ 32 + a = a + 65535 * 2 ^ 32) as -> by lia.
  rewrite Z.div_add, Z.div_small, decide_True by lia. by rewrite Z.mod_add, Z.mod_small by lia.
Qed.

(** ** Parsing *)

(** An octet: one to three digits, no leading zero, at most 255. *)
Definition parseOctet (s : bytes) : option Z :=
  if decide (s <> [] /\ (length s <= 3)%nat /\ Forall (fun b => is_digit b = true) s
             /\ (head s = Some Byte.x30 -> length s = 1%nat) /\ digits_value s <= 255)
  then Some (digits_value s) else None.

Definition parseIPv4 (s : bytes) : option Z :=
  match Split s Byte.x2e with
  | [a; b; c; d] =>
      a ← parseOctet a; b ← parseOctet b; c ← parseOctet c; d ← parseOctet d;
      Some (a * 2 ^ 24 + b * 2 ^ 16 + c * 2 ^ 8 + d)
  | _ => None
  end.

Definition hexDigitValue (b : byte) : option Z :=
  let x := byte_to_Z b in
  if decide (48 <= x <= 57) then Some (x - 48)
  else if decide (97 <= x <= 102) then Some (x - 87)
  else if decide (65 <= x <= 70) then Some (x - 55) else None.

(** The hex digits at the front: their number, their value, the rest. *)
Fixpoint spanHex (s : bytes) (off : nat) (acc : Z) : nat * Z * bytes :=
  match s with
  | [] => (off, acc, [])
  | c :: s' => match hexDigitValue c with
               | Some d => spanHex s' (S off) (acc * 16 + d)
               | None => (off, acc, s)
               end
  end.

(** The loop of the IPv6 parser. [groups] are the 16-bit groups read so far, in
    reverse; [ellipsis] the number of groups before the double colon. The result
    is the groups and the ellipsis when the whole string was used. *)
Fixpoint ipv6Loop (fuel : nat) (s : bytes) (groups : list Z) (ellipsis : option nat)
  : option (list Z * option nat) :=
  match fuel with
  | O => match s with [] => Some (groups, ellipsis) | _ => None end
  | S fuel =>
      let '(off, acc, rest) := spanHex s 0 0 in
      if decide (off = 0%nat \/ (4 < off)%nat) then None
      else if decide (head rest = Some Byte.x2e) then
        if decide ((ellipsis = None /\ length groups <> 6%nat) \/ (6 < length groups)%nat) then None
        else match parseIPv4 s with
             | None => None
             | Some a => Some (a mod 2 ^ 16 :: a / 2 ^ 16 :: groups, ellipsis)
             end
      else
        let groups := acc :: groups in
        match rest with
        | [] => Some (groups, ellipsis)
        | c :: rest =>
            if decide (c <> Byte.x3a) then None
            else match rest with
                 | [] => None
                 | c' :: rest' =>
                     if decide (c' = Byte.x3a) then
                       match ellipsis with
                       | Some _ => None
                       | None => match rest' with
                                 | [] => Some (groups, Some (length groups))
                                 | _ => ipv6Loop fuel rest' groups (Some (length groups))
                                 end
                       end
                     else ipv6Loop fuel rest groups ellipsis
                 end
        end
  end.

Definition groupsValue (groups : list Z) : Z := foldl (fun acc g => acc * 2 ^ 16 + g) 0 groups.

(** The zone is refused: [ParseIP] accepts none. *)
Definition parseIPv6 (s : bytes) : option IP :=
  let '(s, ellipsis) := if HasPrefix s (bs "::") then (drop 2 s, Some 0%nat) else (s, None) in
  let result := match ellipsis, s with
                | Some _, [] => Some ([], Some 0%nat)
                | _, _ => ipv6Loop 8 s [] ellipsis
                end in
  match result with
  | None => None
  | Some (groups, ellipsis) =>
      let groups := rev groups in
      if decide (length groups < 8)%nat then
        match ellipsis with
        | None => None
        | Some e => Some (groupsValue (take e groups ++ replicate (8 - length groups) 0 ++ drop e groups))
        end
      else match ellipsis with
           | Some _ => None
           | None => Some (groupsValue groups)
           end
  end.

(** The first of [.], [:] and [%] decides. *)
Definition ParseIP (s : bytes) : option IP :=
  match List.find (fun b => bool_decide (b = Byte.x2e \/ b = Byte.x3a \/ b = Byte.x25)) s with
  | Some b =>
      if decide (b = Byte.x2e) then mapped <$> parseIPv4 s
      else if decide (b = Byte.x3a) then if decide (Byte.x25 ∈ s) then None else parseIPv6 s
      else None
  | None => None
  end.

Example parse_vectors :
  ParseIP (bs "10.0.0.1") = Some (mapped 167772161)
  /\ ParseIP (bs "::1") = Some 1 /\ ParseIP (bs "::") = Some 0
  /\ ParseIP (bs "2001:db8::8:800:200c:417a") = Some 42540766411282592856906245548098208122
  /\ ParseIP (bs "::ffff:1.2.3.4") = Some (mapped 16909060)
  /\ ParseIP (bs "1.2.3") = None /\ ParseIP (bs "01.2.3.4") = None /\ ParseIP (bs "1:2:3:4:5:6:7::8") = None
  /\ ParseIP (bs "1:2:3:4:5:6:7::") = Some (groupsValue [1;2;3;4;5;6;7;0])
  /\ ParseIP (bs "fe80::1%eth0") = None /\ ParseIP (bs "1:2:3:4:5:6:1.2.3.4") = Some (groupsValue [1;2;3;4;5;6;258;772])
  /\ ParseIP (bs "12345::") = None /\ ParseIP (bs ":1") = None /\ ParseIP (bs "1:2:3:4:5:6:7:8:9") = None.
Proof. by vm_compute. Qed.

(** ** Classification ([IsLoopback], [IsPrivate], ...) *)

Definition IsLoopback (ip : IP) : bool :=
  match To4 ip with Some a => bool_decide (a / 2 ^ 24 = 127) | None => bool_decide (ip = 1) end.

Definition IsPrivate (ip : IP) : bool :=
  match To4 ip with
  | Some a => bool_decide (a / 2 ^ 24 = 10 \/ a / 2 ^ 20 = 172 * 16 + 1 \/ a / 2 ^ 16 = 192 * 256 + 168)
  | None => bool_decide (ip / 2 ^ 121 = 126)
  end.

Definition IsLinkLocalUnicast (ip : IP) : bool :=
  match To4 ip with
  | Some a => bool_decide (a / 2 ^ 16 = 169 * 256 + 254)
  | None => bool_decide (ip / 2 ^ 118 = 1018)
  end.

Definition IsLinkLocalMulticast (ip : IP) : bool :=
  match To4 ip with
  | Some a => bool_decide (a / 2 ^ 8 = 224 * 2 ^ 16)
  | None => bool_decide (ip / 2 ^ 120 = 255 /\ ip / 2 ^ 112 mod 16 = 2)
  end.

(** ** Networks

    An [IPNet]: its base address in the 16-byte form, the width of its mask and
    the number of leading ones of the mask. *)
Record IPNet : Type := mkNet {
  net_IP : IP;
  net_Mask4 : bool;
  net_Bits : Z;
}.

(** Two addresses of [w] bits agree on the first [bits] of them. *)
Definition samePrefix (w bits a b : Z) : bool := bool_decide (a / 2 ^ (w - bits) = b / 2 ^ (w - bits)).

(** [IPNet.Contains]: an IPv4 base under a 16-byte mask uses the last four bytes
    of the mask; addresses of the other width are outside. *)
Definition netContains (n : IPNet) (ip : IP) : bool :=
  match To4 (net_IP n), To4 ip with
  | Some base, Some a =>
      samePrefix 32 (if net_Mask4 n then net_Bits n else Z.max 0 (net_Bits n - 96)) base a
  | None, None => if net_Mask4 n then false else samePrefix 128 (net_Bits n) (net_IP n) ip
  | _, _ => false
  end.

(** [net.ParseCIDR]: an address, a slash and a prefix length without sign; the
    base is masked. *)
Definition ParseCIDR (s : bytes) : option IPNet :=
  match Index_ s (bs "/") with
  | None => None
  | Some i =>
      let addr := take i s in
      let mask := drop (S i) s in
      let v4 := bool_decide (Byte.x3a ∉ addr) in
      let w := if v4 then 32 else 128 in
      if decide (mask <> [] /\ Forall (fun b => is_digit b = true) mask /\ digits_value mask <= w) then
        ip ← ParseIP addr;
        let bits := digits_value mask in
        Some (mkNet (ip / 2 ^ (w - bits) * 2 ^ (w - bits)) v4 bits)
      else None
  end.

(** ** Printing ([net.IP.String]) *)

Definition showIPv4 (a : Z) : bytes :=
  Join_ [FormatUint (a / 2 ^ 24); FormatUint (a / 2 ^ 16 mod 256); FormatUint (a / 2 ^ 8 mod 256); FormatUint (a mod 256)] Byte.x2e.

Definition hexd (n : Z) : byte := nth (Z.to_nat n) (bs "0123456789abcdef") Byte.x30.

Definition hexGroup (g : Z) : bytes :=
  if decide (g < 16) then [hexd g]
  else if decide (g < 256) then [hexd (g / 16); hexd (g mod 16)]
  else if decide (g < 4096) then [hexd (g / 256); hexd (g / 16 mod 16); hexd (g mod 16)]
  else [hexd (g / 4096); hexd (g / 256 mod 16); hexd (g / 16 mod 16); hexd (g mod 16)].

Definition groupsOf (ip : IP) : list Z :=
  map (fun i => ip / 2 ^ (16 * (7 - Z.of_nat i)) mod 2 ^ 16) (seq 0 8).

(** The number of zero groups at the front. *)
Fixpoint zeroRun (gs : list Z) : nat :=
  match gs with
  | g :: gs => if decide (g = 0) then S (zeroRun gs) else O
  | [] => O
  end.

(** The first longest run of at least two zero groups: its start and length. *)
Fixpoint longestRun (gs : list Z) (i : nat) (best : nat * nat) : nat * nat :=
  match gs with
  | [] => best
  | _ :: gs' =>
      let n := zeroRun gs in
      longestRun gs' (S i) (if decide ((2 <= n)%nat /\ (snd best < n)%nat) then (i, n) else best)
  end.

Definition showIPv6 (ip : IP) : bytes :=
  let gs := groupsOf ip in
  let '(start, n) := longestRun gs 0 (0, 0)%nat in
  let colon part := Join_ (map hexGroup part) Byte.x3a in
  if decide (n = 0%nat) then colon gs
  else colon (take start gs) ++ bs "::" ++ colon (drop (start + n) gs).

(** [IP.String]: dotted form for IPv4 and mapped addresses. *)
Definition IP_String (ip : IP) : bytes :=
  match To4 ip with Some a => showIPv4 a | None => showIPv6 ip end.

Example show_vectors :
  IP_String (mapped 167772161) = bs "10.0.0.1" /\ IP_String 1 = bs "::1" /\ IP_String 0 = bs "::"
  /\ IP_String 42540766411282592856906245548098208122 = bs "2001:db8::8:800:200c:417a"
  /\ IP_String (groupsValue [1;0;0;4;0;0;7;8]) = bs "1::4:0:0:7:8"
  /\ IP_String (groupsValue [1;2;3;4;5;6;0;0]) = bs "1:2:3:4:5:6::"
  /\ IP_String (groupsValue [1;0;3;4;5;6;7;8]) = bs "1:0:3:4:5:6:7:8".
Proof. by vm_compute. Qed.

Example cidr_vectors :
  (n ← ParseCIDR (bs "10.0.0.0/8"); Some (netContains n (mapped 167772161), netContains n (mapped 1))) = Some (true, false)
  /\ (n ← ParseCIDR (bs "::ffff:10.1.2.3/104"); Some (netContains n (mapped 167772161))) = Some true
  /\ ParseCIDR (bs "10.0.0.0/33") = None /\ ParseCIDR (bs "10.0.0.0/+8") = None /\ ParseCIDR (bs "10.0.0.0") = None.
Proof. by vm_compute. Qed.

(** ** The bytes of an address *)

Definition addrByte (b : byte) : Prop := is_Some (hexDigitValue b) \/ b = Byte.x3a \/ b = Byte.x2e.

Lemma digit_addrByte b : is_digit b = true -> addrByte b.
Proof.
  intros H%bool_decide_eq_true. left. unfold hexDigitValue. rewrite decide_True by done. by eexists.
Qed.

Lemma parseIPv4_bytes s a : parseIPv4 s = Some a -> Forall addrByte s.
Proof.
  intros H. apply (Split_Forall _ s Byte.x2e); [by right; right|]. unfold parseIPv4 in H.
  assert (forall p z, parseOctet p = Some z -> Forall addrByte p) as Ho.
  { intros p z Hp. unfold parseOctet in Hp. case_decide as Hc; [|done].
    destruct Hc as (_ & _ & Hd & _). eapply Forall_impl; [done|]. apply digit_addrByte. }
  destruct (Split s Byte.x2e) as [|p [|q [|u [|v [|]]]]]; try done.
  destruct (parseOctet p) eqn:Ep; [|done]. destruct (parseOctet q) eqn:Eq; [|done].
  destruct (parseOctet u) eqn:Eu; [|done]. destruct (parseOctet v) eqn:Ev; [|done].
  constructor; [by eapply Ho|]. constructor; [by eapply Ho|]. constructor; [by eapply Ho|].
  constructor; [by eapply Ho|constructor].
Qed.

Lemma spanHex_bytes s off acc off' acc' rest :
  spanHex s off acc = (off', acc', rest) -> Forall addrByte rest -> Forall addrByte s.
Proof.
  revert off acc. induction s as [|c s IH]; intros off acc; simpl; [constructor|].
  destruct (hexDigitValue c) eqn:E.
  - intros H Hr. constructor; [by left; rewrite E|]. by eapply IH.
  - by intros [= <- <- <-].
Qed.

Lemma ipv6Loop_bytes fuel s gs e r : ipv6Loop fuel s gs e = Some r -> Forall addrByte s.
Proof.
  revert s gs e. induction fuel as [|fuel IH]; intros s gs e; cbn [ipv6Loop].
  - destruct s; [constructor|done].
  - destruct (spanHex s 0 0) as [[off acc] rest] eqn:E. case_decide; [done|]. case_decide as Hdot.
    + case_decide; [done|]. destruct (parseIPv4 s) eqn:E4; [|done]. intros _. by eapply parseIPv4_bytes.
    + intros Hl. eapply spanHex_bytes; [done|]. destruct rest as [|c rest]; [constructor|].
      destruct (decide (c <> Byte.x3a)) as [|Hc]; [done|]. constructor; [right; left; by apply dec_stable|].
      destruct rest as [|c' rest']; [done|]. destruct (decide (c' = Byte.x3a)) as [->|].
      * constructor; [by right; left|]. destruct e; [done|]. destruct rest'; [constructor|]. by eapply IH.
      * by eapply IH.
Qed.

Lemma ParseIP_bytes s ip : ParseIP s = Some ip -> Forall addrByte s.
Proof.
  unfold ParseIP. destruct (List.find _ s) as [b|] eqn:Ef; [|done]. case_decide.
  { destruct (parseIPv4 s) eqn:E; [|done]. intros _. by eapply parseIPv4_bytes. }
  case_decide; [|done]. case_decide; [done|]. unfold parseIPv6.
  destruct (HasPrefix s (bs "::")) eqn:Ep.
  - apply HasPrefix_spec in Ep as [t ->]. change (drop 2 (bs "::" ++ t)) with t. intros Hr.
    apply Forall_app. split; [repeat constructor; by right; left|]. destruct t as [|c t]; [constructor|].
    destruct (ipv6Loop 8 (c :: t) [] (Some 0%nat)) eqn:E; [|done]. by eapply ipv6Loop_bytes.
  - destruct (ipv6Loop 8 s [] None) eqn:E; [|by destruct s]. intros _. by eapply ipv6Loop_bytes.
Qed.
