(* ===== verification/NetIPProofs.v ===== *)
(** * Addresses read back from their text

    [ParseIP (IP_String ip)] is [ip]: an address that was printed, as the pinned
    addresses and the client addresses are, is the address a dialer parses. *)
From S2P Require Import Prelude Decimal GoStrings NetIP.
From Stdlib Require Import ZArith Lia.
From stdpp Require Import base list strings.
#[local] Open Scope Z_scope.

Definition ip_ok (ip : IP) : Prop := 0 <= ip < 2 ^ 128.

(** ** IPv4 *)

Lemma octet_roundtrip n : 0 <= n < 256 -> parseOctet (FormatUint n) = Some n.
Proof.
  intros Hn. assert (forallb (fun k => bool_decide (parseOctet (FormatUint k) = Some k)) (seqZ 0 256) = true) as H
    by (by vm_compute).
  apply (proj1 (forallb_Forall _ _)) in H. rewrite Forall_forall in H.
  specialize (H n). rewrite elem_of_seqZ, bool_decide_eq_true in H. apply H. lia.
Qed.

Lemma FormatUint_free n b : is_digit b = false -> b ∉ FormatUint n.
Proof. intros Hb Hin. apply (proj1 (Forall_forall _ _) (FormatUint_digits n)) in Hin. congruence. Qed.

Lemma parseIPv4_show a : 0 <= a < 2 ^ 32 -> parseIPv4 (showIPv4 a) = Some a.
Proof.
  intros Ha. unfold parseIPv4, showIPv4. rewrite Split_Join; [|done|by repeat (constructor; [by apply FormatUint_free|]); constructor].
  assert (0 <= a / 2 ^ 24 < 256) by (split; [apply Z.div_pos|apply Z.div_lt_upper_bound]; lia).
  assert (forall x, 0 <= x mod 256 < 256) by (intros; apply Z.mod_pos_bound; lia).
  rewrite !octet_roundtrip by done.
  cbn. f_equal. Z.to_euclidean_division_equations. lia.
Qed.

Definition special (b : byte) : bool := bool_decide (b = Byte.x2e \/ b = Byte.x3a \/ b = Byte.x25).

Lemma find_first b l t : Forall (fun c => special c = false) l -> special b = true -> List.find special (l ++ b :: t) = Some b.
Proof. induction 1 as [|c l Hc _ IH]; simpl; intros Hb; [by rewrite Hb|]. by rewrite Hc, IH. Qed.

Lemma digit_plain b : is_digit b = true -> special b = false.
Proof.
  intros H%bool_decide_eq_true. apply bool_decide_eq_false. intros [->|[->| ->]]; by destruct H.
Qed.

Lemma ParseIP_show4 a : 0 <= a < 2 ^ 32 -> ParseIP (showIPv4 a) = Some (mapped a).
Proof.
  intros Ha. unfold ParseIP. fold special.
  assert (List.find special (showIPv4 a) = Some Byte.x2e) as ->.
  { unfold showIPv4. apply find_first; [|done].
    eapply Forall_impl; [apply FormatUint_digits|]. apply digit_plain. }
  rewrite decide_True by done. by rewrite parseIPv4_show.
Qed.

(** ** Hexadecimal groups *)

Definition group_ok (g : Z) : Prop := 0 <= g < 65536.

Lemma hexd_value n : 0 <= n < 16 -> hexDigitValue (hexd n) = Some n.
Proof.
  intros Hn. assert (forallb (fun k => bool_decide (hexDigitValue (hexd k) = Some k)) (seqZ 0 16) = true) as H
    by (by vm_compute).
  apply (proj1 (forallb_Forall _ _)) in H. rewrite Forall_forall in H.
  specialize (H n). rewrite elem_of_seqZ, bool_decide_eq_true in H. apply H. lia.
Qed.

(** What follows a group does not extend it. *)
Definition stop (rest : bytes) : Prop := match rest with c :: _ => hexDigitValue c = None | [] => True end.

Lemma spanHex_stop rest off acc : stop rest -> spanHex rest off acc = (off, acc, rest).
Proof. destruct rest as [|c rest]; [done|]. simpl. by intros ->. Qed.

Lemma spanHex_group g rest :
  group_ok g -> stop rest ->
  exists off, spanHex (hexGroup g ++ rest) 0 0 = (off, g, rest) /\ (1 <= off <= 4)%nat.
Proof.
  intros Hg Hs. unfold hexGroup. unfold group_ok in Hg.
  assert (forall x, 0 <= x mod 16 < 16) as Hm by (intros; apply Z.mod_pos_bound; lia).
  repeat case_decide; cbn [app spanHex].
  all: rewrite !hexd_value by (try apply Hm; Z.to_euclidean_division_equations; lia).
  all: rewrite spanHex_stop by done; eexists; (split; [do 2 f_equal|lia]).
  all: Z.to_euclidean_division_equations; lia.
Qed.

Lemma hexGroup_bytes g : group_ok g ->
  hexGroup g <> [] /\ Forall (fun b => special b = false /\ is_Some (hexDigitValue b)) (hexGroup g).
Proof.
  intros Hg. assert (forall x, 0 <= x mod 16 < 16) as Hm by (intros; apply Z.mod_pos_bound; lia).
  assert (forall n, 0 <= n < 16 -> special (hexd n) = false /\ is_Some (hexDigitValue (hexd n))) as Hd.
  { intros n Hn. pose proof (hexd_value n Hn) as E. split; [|by rewrite E].
    apply bool_decide_eq_false. intros [Hb|[Hb|Hb]]; by rewrite Hb in E. }
  unfold hexGroup. unfold group_ok in Hg.
  repeat case_decide; (split; [done|]); repeat constructor; apply Hd; try apply Hm; Z.to_euclidean_division_equations; lia.
Qed.

(** ** IPv6 *)

Definition colons (gs : list Z) : bytes := Join_ (map hexGroup gs) Byte.x3a.

Lemma colons_cons g h gs : colons (g :: h :: gs) = hexGroup g ++ Byte.x3a :: colons (h :: gs).
Proof. done. Qed.

(** The first byte of a group. *)
Lemma colons_head g gs : group_ok g -> exists c t, colons (g :: gs) = c :: t /\ is_Some (hexDigitValue c).
Proof.
  intros [Hne Hb]%hexGroup_bytes. destruct (hexGroup g) as [|c t] eqn:E; [done|].
  inversion Hb as [|? ? [_ Hc] _]; subst. unfold colons. simpl map. rewrite E. destruct (map hexGroup gs); eauto.
Qed.

(** One group of the loop, followed by the end or by a colon. *)
Lemma loop_last fuel g acc e : group_ok g -> ipv6Loop (S fuel) (hexGroup g) acc e = Some (g :: acc, e).
Proof.
  intros Hg. destruct (spanHex_group g [] Hg I) as (off & E & Hoff). rewrite app_nil_r in E.
  cbn [ipv6Loop]. rewrite E, !decide_False by (try done; lia). done.
Qed.

Lemma loop_next fuel g rest acc e :
  group_ok g -> ipv6Loop (S fuel) (hexGroup g ++ Byte.x3a :: rest) acc e =
  match rest with
  | [] => None
  | c' :: rest' =>
      if decide (c' = Byte.x3a) then
        match e, rest' with
        | Some _, _ => None
        | None, [] => Some (g :: acc, Some (S (length acc)))
        | None, _ => ipv6Loop fuel rest' (g :: acc) (Some (S (length acc)))
        end
      else ipv6Loop fuel rest (g :: acc) e
  end.
Proof.
  intros Hg. destruct (spanHex_group g (Byte.x3a :: rest) Hg eq_refl) as (off & E & Hoff).
  cbn [ipv6Loop]. rewrite E. rewrite decide_False by lia. rewrite decide_False by done. rewrite decide_False by (by intros []).
  destruct rest as [|c' rest']; [done|]. destruct (decide (c' = Byte.x3a)); [|done]. by destruct e, rest'.
Qed.

Lemma loop_groups gs fuel acc e :
  gs <> [] -> Forall group_ok gs -> (length gs <= fuel)%nat -> ipv6Loop fuel (colons gs) acc e = Some (rev gs ++ acc, e).
Proof.
  intros Hne Hg. revert fuel acc. induction Hg as [|g gs Hg Hgs IH]; intros fuel acc Hl; [done|].
  destruct fuel as [|fuel]; [simpl in Hl; lia|]. destruct gs as [|h gs]; [by apply loop_last|].
  rewrite colons_cons, loop_next by done. inversion Hgs as [|? ? Hh _]; subst.
  destruct (colons_head h gs Hh) as (c & t & E & Hc). rewrite E. rewrite decide_False by (intros ->; by destruct Hc).
  rewrite <- E, IH by (try done; simpl in *; lia). simpl. by rewrite <- !app_assoc.
Qed.

(** Groups up to the double colon. *)
Lemma loop_ellipsis gs fuel acc rest :
  gs <> [] -> Forall group_ok gs -> (length gs <= fuel)%nat ->
  ipv6Loop fuel (colons gs ++ bs "::" ++ rest) acc None =
  match rest with
  | [] => Some (rev gs ++ acc, Some (length gs + length acc)%nat)
  | _ => ipv6Loop (fuel - length gs) rest (rev gs ++ acc) (Some (length gs + length acc)%nat)
  end.
Proof.
  intros Hne Hg. revert fuel acc. induction Hg as [|g gs Hg Hgs IH]; intros fuel acc Hl; [done|].
  destruct fuel as [|fuel]; [simpl in Hl; lia|]. destruct gs as [|h gs].
  - change (colons [g]) with (hexGroup g). change (bs "::" ++ rest) with (Byte.x3a :: Byte.x3a :: rest).
    rewrite loop_next by done. rewrite decide_True by done. cbn [length rev app].
    by replace (S fuel - 1)%nat with fuel by lia.
  - rewrite colons_cons, <- app_assoc. change ((Byte.x3a :: colons (h :: gs)) ++ ?r) with (Byte.x3a :: colons (h :: gs) ++ r).
    rewrite loop_next by done. inversion Hgs as [|? ? Hh _]; subst.
    destruct (colons_head h gs Hh) as (c & t & E & Hc). rewrite E. cbn [app].
    rewrite decide_False by (intros ->; by destruct Hc).
    change (c :: t ++ bs "::" ++ rest) with ((c :: t) ++ bs "::" ++ rest). rewrite <- E, IH by (try done; simpl in *; lia).
    cbn [length rev]. rewrite <- !app_assoc. cbn [app].
    replace (S (length gs) + S (length acc))%nat with (S (S (length gs)) + length acc)%nat by lia. done.
Qed.

(** The zero groups that are left out. *)
Lemma zeroRun_spec gs : take (zeroRun gs) gs = replicate (zeroRun gs) 0 /\ (zeroRun gs <= length gs)%nat.
Proof.
  induction gs as [|g gs [IH1 IH2]]; [done|]. simpl. case_decide as Hg; [|split; [done|lia]].
  subst. simpl. rewrite IH1. split; [done|lia].
Qed.

Definition run_ok (gs : list Z) (run : nat * nat) : Prop :=
  run.2 = 0%nat \/ (2 <= run.2)%nat /\ (run.1 + run.2 <= length gs)%nat /\ take run.2 (drop run.1 gs) = replicate run.2 0.

Lemma longestRun_spec pre gs best :
  run_ok (pre ++ gs) best -> run_ok (pre ++ gs) (longestRun gs (length pre) best).
Proof.
  revert pre best. induction gs as [|g gs IH]; intros pre best Hb; [done|]. cbn [longestRun].
  replace (pre ++ g :: gs) with ((pre ++ [g]) ++ gs) in * by (by rewrite <- app_assoc).
  replace (S (length pre)) with (length (pre ++ [g])) by (rewrite length_app; simpl; lia).
  apply IH. case_decide as Hn; [|done]. right. cbn [fst snd]. destruct (zeroRun_spec (g :: gs)) as [H1 H2].
  split; [lia|]. rewrite <- app_assoc. change ([g] ++ gs) with (g :: gs). rewrite length_app, drop_app_length. by split; [lia|].
Qed.

Lemma groupsOf_ok ip : Forall group_ok (groupsOf ip) /\ length (groupsOf ip) = 8%nat.
Proof.
  split; [|done]. unfold groupsOf. rewrite Forall_forall. intros g Hg.
  apply list_elem_of_In, in_map_iff in Hg as (i & <- & _). apply Z.mod_pos_bound. lia.
Qed.

Lemma groupsValue_snoc gs g : groupsValue (gs ++ [g]) = groupsValue gs * 2 ^ 16 + g.
Proof. unfold groupsValue. by rewrite foldl_app. Qed.

Lemma groupsValue_groupsOf ip : ip_ok ip -> groupsValue (groupsOf ip) = ip.
Proof.
  intros Hip. unfold ip_ok in Hip. unfold groupsOf, groupsValue. cbn [seq map foldl].
  assert (forall k, 0 <= k -> ip / 2 ^ (k + 16) * 2 ^ 16 + ip / 2 ^ k mod 2 ^ 16 = ip / 2 ^ k) as H.
  { intros k Hk. rewrite Z.pow_add_r, <- Z.div_div by lia. pose proof (Z.div_mod (ip / 2 ^ k) (2 ^ 16)). lia. }
  assert (0 * 2 ^ 16 + ip / 2 ^ (16 * (7 - Z.of_nat 0)) mod 2 ^ 16 = ip / 2 ^ (96 + 16)) as ->.
  { change (16 * (7 - Z.of_nat 0)) with (96 + 16). rewrite Z.mod_small; [done|].
    split; [apply Z.div_pos; lia|]. apply Z.div_lt_upper_bound; lia. }
  change (16 * (7 - Z.of_nat 1)) with 96. rewrite (H 96) by lia. change 96 with (80 + 16).
  change (16 * (7 - Z.of_nat 2)) with 80. rewrite (H 80) by lia. change 80 with (64 + 16).
  change (16 * (7 - Z.of_nat 3)) with 64. rewrite (H 64) by lia. change 64 with (48 + 16).
  change (16 * (7 - Z.of_nat 4)) with 48. rewrite (H 48) by lia. change 48 with (32 + 16).
  change (16 * (7 - Z.of_nat 5)) with 32. rewrite (H 32) by lia. change 32 with (16 + 16).
  change (16 * (7 - Z.of_nat 6)) with 16. rewrite (H 16) by lia. change 16 with (0 + 16) at 1.
  change (16 * (7 - Z.of_nat 7)) with 0. rewrite (H 0) by lia. apply Z.div_1_r.
Qed.

Lemma colons_nil gs : Forall group_ok gs -> colons gs = [] -> gs = [].
Proof.
  intros Hg E. destruct Hg as [|g gs Hg _]; [done|]. destruct (colons_head g gs Hg) as (c & t & E' & _). congruence.
Qed.

Lemma colons_prefix gs rest : gs <> [] -> Forall group_ok gs -> HasPrefix (colons gs ++ rest) (bs "::") = false.
Proof.
  intros Hne Hg. destruct Hg as [|g gs Hg _]; [done|]. destruct (colons_head g gs Hg) as (c & t & -> & Hc). simpl.
  rewrite bool_decide_eq_false_2; [done|]. intros <-. by destruct Hc.
Qed.

(** The omitted groups are put back. *)
Lemma parseIPv6_run A B n :
  Forall group_ok (A ++ B) -> (2 <= n)%nat -> (length A + length B + n = 8)%nat ->
  parseIPv6 (colons A ++ bs "::" ++ colons B) = Some (groupsValue (A ++ replicate n 0 ++ B)).
Proof.
  intros [HA HB]%Forall_app Hn Hl. unfold parseIPv6.
  assert (forall groups, groups = A ++ B ->
    (if decide (length groups < 8)%nat
     then Some (groupsValue (take (length A) groups ++ replicate (8 - length groups) 0 ++ drop (length A) groups))
     else None) = Some (groupsValue (A ++ replicate n 0 ++ B))) as Hfin.
  { intros groups ->. rewrite length_app, decide_True by lia. rewrite take_app_length, drop_app_length.
    by replace (8 - (length A + length B))%nat with n by lia. }
  destruct (decide (A = [])) as [->|HneA].
  - change (HasPrefix (colons [] ++ bs "::" ++ colons B) (bs "::")) with true.
    change (drop 2 (colons [] ++ bs "::" ++ colons B)) with (colons B). cbv iota.
    destruct (colons B) as [|c t] eqn:E.
    + apply colons_nil in E as ->; [|done]. by apply (Hfin []).
    + rewrite <- E, loop_groups by (try done; try lia; by intros ->). rewrite app_nil_r, rev_involutive. by apply (Hfin B).
  - rewrite colons_prefix by done.
    assert (ipv6Loop 8 (colons A ++ bs "::" ++ colons B) [] None = Some (rev B ++ rev A, Some (length A))) as E.
    { rewrite loop_ellipsis by (try done; lia). rewrite app_nil_r, Nat.add_0_r.
      destruct (colons B) as [|c t] eqn:E; [by apply colons_nil in E as ->|]. rewrite <- E.
      apply loop_groups; [by intros ->|done|lia]. }
    rewrite E, rev_app_distr, !rev_involutive. by apply Hfin.
Qed.

Lemma parseIPv6_show ip : ip_ok ip -> parseIPv6 (showIPv6 ip) = Some ip.
Proof.
  intros Hip. destruct (groupsOf_ok ip) as [Hg Hl]. rewrite <- (groupsValue_groupsOf ip) at 2 by done.
  unfold showIPv6. pose proof (longestRun_spec [] (groupsOf ip) (0, 0)%nat (or_introl eq_refl)) as Hr.
  change ([] ++ groupsOf ip) with (groupsOf ip) in Hr. change (@length Z []) with 0%nat in Hr.
  revert Hg Hl Hr. generalize (groupsOf ip) as gs. intros gs Hg Hl Hr.
  destruct (longestRun gs 0 (0, 0)%nat) as [start n]. fold (colons gs).
  destruct (decide (n = 0%nat)) as [|Hn].
  - assert (gs <> []) by (by intros ->). unfold parseIPv6. rewrite <- (app_nil_r (colons gs)), colons_prefix, app_nil_r by done.
    rewrite loop_groups by (try done; lia). rewrite app_nil_r, rev_involutive. by rewrite decide_False by lia.
  - destruct Hr as [|(H2 & Hle & Hz)]; [done|]. cbn [fst snd] in *.
    assert (gs = take start gs ++ replicate n 0 ++ drop (start + n) gs) as E.
    { rewrite <- Hz, <- drop_drop, !take_drop. done. }
    fold (colons (take start gs)) (colons (drop (start + n) gs)). rewrite E at 3.
    apply parseIPv6_run; [|done|rewrite length_take, length_drop; lia].
    rewrite E in Hg. apply Forall_app in Hg as [HA Hg]. apply Forall_app in Hg as [_ HB]. by apply Forall_app.
Qed.

(** The first separator of the text of an IPv6 address is a colon. *)
Definition v6Byte (b : byte) : Prop := b = Byte.x3a \/ special b = false.

Lemma colons_bytes gs : Forall group_ok gs -> Forall v6Byte (colons gs).
Proof.
  induction 1 as [|g gs Hg _ IH]; [constructor|].
  assert (Forall v6Byte (hexGroup g)).
  { apply hexGroup_bytes in Hg as [_ Hg]. eapply Forall_impl; [done|]. intros b [Hb _]. by right. }
  destruct gs as [|h gs]; [done|]. rewrite colons_cons. apply Forall_app. split; [done|].
  constructor; [by left|done].
Qed.

Lemma v6_find s : Forall v6Byte s -> Byte.x3a ∈ s -> List.find special s = Some Byte.x3a.
Proof.
  induction 1 as [|b s Hb _ IH]; intros Hin; [by apply elem_of_nil in Hin|]. simpl.
  destruct Hb as [->|Hb]; [done|]. rewrite Hb. apply IH.
  apply elem_of_cons in Hin as [<-|]; [by vm_compute in Hb|done].
Qed.

Lemma showIPv6_bytes ip : Forall v6Byte (showIPv6 ip) /\ Byte.x3a ∈ showIPv6 ip.
Proof.
  destruct (groupsOf_ok ip) as [Hg Hl]. unfold showIPv6. destruct (longestRun _ _ _) as [start n]. case_decide.
  - split; [by apply colons_bytes|]. destruct (groupsOf ip) as [|g [|h gs]]; try done.
    fold (colons (g :: h :: gs)). rewrite colons_cons. apply elem_of_app. right. apply list_elem_of_here.
  - split; [|apply elem_of_app; right; apply list_elem_of_here].
    apply Forall_app. split; [by apply colons_bytes, Forall_take|]. constructor; [by left|]. constructor; [by left|].
    by apply colons_bytes, Forall_drop.
Qed.

Theorem ParseIP_String ip : ip_ok ip -> ParseIP (IP_String ip) = Some ip.
Proof.
  intros Hip. unfold IP_String, To4. case_decide as H4.
  - assert (ip = mapped (ip mod 2 ^ 32)) as E.
    { unfold mapped. rewrite <- H4. pose proof (Z.div_mod ip (2 ^ 32)). lia. }
    rewrite ParseIP_show4 by (apply Z.mod_pos_bound; lia). by rewrite <- E.
  - unfold ParseIP. fold special. destruct (showIPv6_bytes ip) as [Hb Hin]. rewrite v6_find by done.
    rewrite decide_False by done. rewrite decide_True by done. rewrite decide_False; [by apply parseIPv6_show|].
    intros H25. by apply (proj1 (Forall_forall _ _) Hb) in H25 as [|].
Qed.

(** ** The range of a parsed address *)

Lemma hexDigitValue_range b d : hexDigitValue b = Some d -> 0 <= d < 16.
Proof. unfold hexDigitValue. cbv zeta. repeat case_decide; intros [= <-]; lia. Qed.

Lemma spanHex_range s off acc off' acc' rest :
  0 <= acc < 16 ^ Z.of_nat off -> spanHex s off acc = (off', acc', rest) -> 0 <= acc' < 16 ^ Z.of_nat off'.
Proof.
  revert off acc. induction s as [|c s IH]; intros off acc Ha; cbn [spanHex]; [by intros [= <- <- <-]|].
  destruct (hexDigitValue c) as [d|] eqn:E; [|by intros [= <- <- <-]]. apply hexDigitValue_range in E.
  apply IH. rewrite Nat2Z.inj_succ, Z.pow_succ_r by lia. lia.
Qed.

Lemma digits_value_nonneg s : Forall (fun b => is_digit b = true) s -> 0 <= digits_value s.
Proof.
  unfold digits_value. enough (forall acc, 0 <= acc -> Forall (fun b => is_digit b = true) s ->
    0 <= foldl (fun acc b => acc * 10 + (byte_to_Z b - 48)) acc s) by (intros; by apply H).
  induction s as [|b s IH]; intros acc Ha Hd; cbn [foldl]; [done|]. apply Forall_cons in Hd as [Hb Hd].
  apply bool_decide_eq_true in Hb. apply IH; [lia|done].
Qed.

Lemma parseOctet_range s a : parseOctet s = Some a -> 0 <= a <= 255.
Proof. unfold parseOctet. case_decide as H; [|done]. intros [= <-]. destruct H as (_ & _ & Hd & _ & Hle). split; [by apply digits_value_nonneg|done]. Qed.

Lemma parseIPv4_range s a : parseIPv4 s = Some a -> 0 <= a < 2 ^ 32.
Proof.
  unfold parseIPv4. destruct (Split s Byte.x2e) as [|p [|q [|r [|t [|? ?]]]]]; try done.
  destruct (parseOctet p) as [a1|] eqn:E1; [|done]. destruct (parseOctet q) as [a2|] eqn:E2; [|done].
  destruct (parseOctet r) as [a3|] eqn:E3; [|done]. destruct (parseOctet t) as [a4|] eqn:E4; [|done]. cbn. intros [= <-].
  apply parseOctet_range in E1, E2, E3, E4. lia.
Qed.

Lemma ipv6Loop_groups fuel s gs e gs' e' :
  Forall group_ok gs -> (length gs + fuel <= 8)%nat -> ipv6Loop fuel s gs e = Some (gs', e') ->
  Forall group_ok gs' /\ (length gs' <= 8)%nat.
Proof.
  revert s gs e. induction fuel as [|fuel IH]; intros s gs e Hg Hl; cbn [ipv6Loop].
  - destruct s; [|done]. intros [= <- <-]. split; [done|lia].
  - destruct (spanHex s 0 0) as [[off acc] rest] eqn:E. case_decide as Ho; [done|]. case_decide as Hdot.
    + case_decide as H6; [done|]. destruct (parseIPv4 s) as [a|] eqn:E4; [|done]. intros [= <- <-]. apply parseIPv4_range in E4. split.
      * repeat constructor; try done; unfold group_ok; Z.to_euclidean_division_equations; lia.
      * cbn. lia.
    + assert (Hacc : group_ok acc).
      { apply spanHex_range in E; [|cbn; lia]. unfold group_ok. pose proof (Z.pow_le_mono_r 16 (Z.of_nat off) 4 ltac:(lia) ltac:(lia)). lia. }
      assert (Hg' : Forall group_ok (acc :: gs)) by (by constructor).
      destruct rest as [|c rest]; [intros [= <- <-]; split; [done|cbn; lia]|]. case_decide; [done|]. destruct rest as [|c' rest']; [done|].
      case_decide; [destruct e; [done|]; destruct rest'; [intros [= <- <-]; split; [done|cbn; lia]|]|];
        intros Hr; eapply IH in Hr; try done; cbn; lia.
Qed.

Lemma groupsValue_range gs : Forall group_ok gs -> 0 <= groupsValue gs < 2 ^ (16 * Z.of_nat (length gs)).
Proof.
  induction gs as [|g gs IH] using rev_ind; [cbn; lia|]. intros [Hgs Hg]%Forall_app. apply Forall_cons in Hg as [Hg _]. specialize (IH Hgs).
  unfold groupsValue in *. rewrite foldl_snoc, length_app. cbn [length]. unfold group_ok in Hg.
  replace (16 * Z.of_nat (length gs + 1)) with (16 * Z.of_nat (length gs) + 16) by lia. rewrite Z.pow_add_r by lia.
  change (2 ^ 16) with 65536. set (v := foldl _ _ gs) in *. set (top := 2 ^ (16 * Z.of_nat (length gs))) in *. clearbody v top. cbv beta. lia.
Qed.

Lemma groups8_ok gs : Forall group_ok gs -> length gs = 8%nat -> ip_ok (groupsValue gs).
Proof. intros Hg Hl. apply groupsValue_range in Hg. by rewrite Hl in Hg. Qed.

Lemma parseIPv6_ok s ip : parseIPv6 s = Some ip -> ip_ok ip.
Proof.
  unfold parseIPv6. set (start := if HasPrefix s (bs "::") then _ else _). destruct start as [s' e0].
  set (result := match e0, s' with Some _, [] => _ | _, _ => _ end).
  assert (Hr : forall gs e, result = Some (gs, e) -> Forall group_ok gs /\ (length gs <= 8)%nat).
  { subst result. intros gs e. destruct e0, s'; try (intros [= <- <-]; split; [constructor|cbn; lia]);
      apply ipv6Loop_groups; (constructor || (cbn; lia)). }
  destruct result as [[gs e]|]; [|done]. destruct (Hr gs e eq_refl) as [Hg Hl]. apply Forall_rev in Hg. rewrite <- length_rev in Hl.
  case_decide as Hlt; [|destruct e; [done|]; intros [= <-]; apply groups8_ok; [done|lia]].
  destruct e as [e|]; [|done]. intros [= <-]. apply groups8_ok.
  - rewrite !Forall_app. split_and!; [by apply Forall_take| |by apply Forall_drop]. apply Forall_replicate. unfold group_ok. lia.
  - rewrite !length_app, length_replicate, length_take, length_drop. lia.
Qed.

Lemma ParseIP_ok s ip : ParseIP s = Some ip -> ip_ok ip.
Proof.
  unfold ParseIP. destruct (List.find _ s) as [b|]; [|done]. case_decide.
  { destruct (parseIPv4 s) as [a|] eqn:E; [|done]. intros [= <-]. apply parseIPv4_range in E. unfold ip_ok, mapped. lia. }
  case_decide; [|done]. case_decide; [done|]. apply parseIPv6_ok.
Qed.
