(* ===== verification/Canonical.v ===== *)
(** * Canonical JSON (internal/zero/canonical)

    [gvalue] is a Go value of dynamic type as [Marshal] sees it: the concrete
    types its type switch names, then the kinds [reflect] reports. A map is the
    association list of one iteration over it; its keys are distinct. On an
    error the buffer is dropped, so an operation returns the bytes it wrote or
    the error. *)
From S2P Require Import Prelude Crypto Decimal GoStrings.
From Stdlib Require Import ZArith Lia.
From stdpp Require Import base list strings sorting.
#[local] Open Scope Z_scope.

Definition maxSafeInteger : Z := 9007199254740991.

Inductive canon_err : Type :=
  | ErrOutOfRange | ErrInvalidNumeric | ErrNonInteger | ErrMapKey | ErrUnsupportedType.

(** A [float64]: not a number, an infinity, or [m * 2^e]. *)
Inductive float64 : Type := FNaN | FInf (negative : bool) | FFinite (m e : Z).

(** A struct field: exported, static type an interface, name, json tag. *)
Record structField : Type := mkField {
  sf_Exported : bool;
  sf_Interface : bool;
  sf_Name : bytes;
  sf_Tag : bytes;
}.

#[warnings="-register-all"]
Inductive gvalue : Type :=
  | VNil
  | VBool (b : bool)
  | VFloat (f : float64)
  | VNumber (text : bytes)               (* json.Number *)
  | VInt (z : Z)                         (* int, int8, int16, int32, int64 *)
  | VUint (z : Z)                        (* uint, uint64 *)
  | VUintSmall (z : Z)                   (* uint8, uint16, uint32 *)
  | VString (s : bytes)
  | VArray (l : list gvalue)             (* []interface{} *)
  | VObject (l : list (bytes * gvalue))  (* map[string]interface{} *)
  | VMap (stringKeys : bool) (l : list (bytes * gvalue))
  | VStruct (fields : list (structField * gvalue))
  | VPtr (p : option gvalue)
  | VSlice (l : list gvalue)
  | VOther.

(** ** numbers.go *)

Definition writeInteger (n : Z) : result canon_err bytes :=
  if decide (n < - maxSafeInteger \/ maxSafeInteger < n) then Err ErrOutOfRange else Ok (FormatInt n).

(** [math.Trunc(n) != n] and [int64(n)] of a finite value. *)
Definition fractional (m e : Z) : bool := bool_decide (e < 0 /\ m mod 2 ^ (- e) <> 0).
Definition integral (m e : Z) : Z := if decide (e < 0) then m / 2 ^ (- e) else m * 2 ^ e.

Definition writeFloatNumber (f : float64) : result canon_err bytes :=
  match f with
  | FNaN | FInf _ => Err ErrInvalidNumeric
  | FFinite m e => if fractional m e then Err ErrNonInteger else writeInteger (integral m e)
  end.

(** [big.Int.SetString(s, 10)]: an optional sign and at least one digit. *)
Definition bigSetString (s : bytes) : option Z :=
  let unsigned d := if decide (d <> [] /\ Forall (fun b => is_digit b = true) d) then Some (digits_value d) else None in
  match s with
  | Byte.x2d :: d => Z.opp <$> unsigned d
  | Byte.x2b :: d => unsigned d
  | d => unsigned d
  end.

Definition writeJSONNumber (s : bytes) : result canon_err bytes :=
  if decide (Exists (fun b => b = Byte.x2e \/ b = Byte.x65 \/ b = Byte.x45) s) then Err ErrNonInteger
  else match bigSetString s with
       | None => Err ErrInvalidNumeric
       | Some i => if decide (maxSafeInteger < i \/ i < - maxSafeInteger) then Err ErrOutOfRange
                   else Ok (FormatInt i)
       end.

(** ** strings.go *)

Definition hexDigit (n : Z) : byte :=
  if decide (n < 0 \/ 15 < n) then Byte.x30 else default Byte.x30 (bs "0123456789abcdef" !! Z.to_nat n).

Definition quote : byte := Byte.x22.
Definition backslash : byte := Byte.x5c.

Definition writeRune (r : Z) : bytes :=
  if decide (r = 34) then [backslash; quote]
  else if decide (r = 92) then [backslash; backslash]
  else if decide (r = 8) then [backslash; Byte.x62]
  else if decide (r = 12) then [backslash; Byte.x66]
  else if decide (r = 10) then [backslash; Byte.x6e]
  else if decide (r = 13) then [backslash; Byte.x72]
  else if decide (r = 9) then [backslash; Byte.x74]
  else if decide (r < 32) then
    [backslash; Byte.x75; Byte.x30; Byte.x30; hexDigit (Z.land (Z.shiftr r 4) 15); hexDigit (Z.land r 15)]
  else EncodeRune r.

Definition writeString (s : bytes) : bytes :=
  quote :: concat (map writeRune (runes s)) ++ [quote].

(** ** writer.go *)

(** [sort.Strings]: the byte order, and insertion by key. *)
Fixpoint bytes_lt (a b : bytes) : bool :=
  match a, b with
  | _, [] => false
  | [], _ :: _ => true
  | x :: a, y :: b =>
      if decide (byte_to_Z x < byte_to_Z y) then true
      else if decide (byte_to_Z y < byte_to_Z x) then false else bytes_lt a b
  end.

Fixpoint insertKey {A} (kv : bytes * A) (l : list (bytes * A)) : list (bytes * A) :=
  match l with
  | [] => [kv]
  | kv' :: l' => if bytes_lt kv'.1 kv.1 then kv' :: insertKey kv l' else kv :: l
  end.

Fixpoint sortKeys {A} (l : list (bytes * A)) : list (bytes * A) :=
  match l with
  | [] => []
  | kv :: l => insertKey kv (sortKeys l)
  end.

(** Values separated by commas; the first error ends the loop. *)
Fixpoint writeElems (l : list (result canon_err bytes)) : result canon_err bytes :=
  match l with
  | [] => Ok []
  | Err e :: _ => Err e
  | [Ok b] => Ok b
  | Ok b :: l => match writeElems l with Err e => Err e | Ok rest => Ok (b ++ Byte.x2c :: rest) end
  end.

Definition wrap (open close : byte) (r : result canon_err bytes) : result canon_err bytes :=
  match r with Err e => Err e | Ok b => Ok (open :: b ++ [close]) end.

(** [writeArray] and [writeObject], on the outcomes of the element writes. *)
Definition writeArray (l : list (result canon_err bytes)) : result canon_err bytes :=
  wrap Byte.x5b Byte.x5d (writeElems l).

Definition writeMember (kv : bytes * result canon_err bytes) : result canon_err bytes :=
  match kv.2 with Err e => Err e | Ok b => Ok (writeString kv.1 ++ Byte.x3a :: b) end.

Definition writeObject (l : list (bytes * result canon_err bytes)) : result canon_err bytes :=
  wrap Byte.x7b Byte.x7d (writeElems (map writeMember (sortKeys l))).

(** ** struct.go *)

Definition isEmptyValue (v : gvalue) : bool :=
  match v with
  | VArray l | VSlice l => bool_decide (len l = 0)
  | VObject l | VMap _ l => bool_decide (len l = 0)
  | VString s | VNumber s => bool_decide (len s = 0)
  | VBool b => negb b
  | VInt z | VUint z | VUintSmall z => bool_decide (z = 0)
  | VFloat (FFinite m _) => bool_decide (m = 0)
  | VFloat _ => false
  | VNil | VPtr None => true
  | VPtr (Some _) | VStruct _ | VOther => false
  end.

Definition isNil (v : gvalue) : bool := match v with VNil => true | _ => false end.

(** The name a field is written under, [None] when it is skipped. *)
Definition fieldName (f : structField) (v : gvalue) : option bytes :=
  if negb (sf_Exported f) then None
  else if decide (sf_Tag f = []) then Some (sf_Name f)
  else
    match Split (sf_Tag f) Byte.x2c with
    | [] => Some (sf_Name f)
    | p0 :: rest =>
        if decide (p0 = bs "-") then None
        else
          let name := if decide (p0 <> []) then p0 else sf_Name f in
          if decide (head rest = Some (bs "omitempty")
                     /\ (if sf_Interface f then isNil v else isEmptyValue v) = true)
          then None else Some name
    end.

(** [result[name] = value]: a later field replaces an earlier one. *)
Fixpoint mapSet {A} (k : bytes) (v : A) (l : list (bytes * A)) : list (bytes * A) :=
  match l with
  | [] => [(k, v)]
  | kv :: l => if decide (kv.1 = k) then (k, v) :: l else kv :: mapSet k v l
  end.

Definition structToMap {A} (fields : list (structField * gvalue * A)) : list (bytes * A) :=
  fold_left (fun acc f => match fieldName f.1.1 f.1.2 with
                          | None => acc
                          | Some name => mapSet name f.2 acc
                          end) fields [].

(** ** The dispatch ([writeValue] and [writeReflected]) *)
Fixpoint writeValue (v : gvalue) : result canon_err bytes :=
  match v with
  | VNil => Ok (bs "null")
  | VBool b => Ok (if b then bs "true" else bs "false")
  | VFloat f => writeFloatNumber f
  | VNumber s => writeJSONNumber s
  | VInt z => writeInteger z
  | VUint z => if decide (maxSafeInteger < z) then Err ErrOutOfRange else Ok (FormatUint z)
  | VUintSmall z => Ok (FormatUint z)
  | VString s => Ok (writeString s)
  | VArray l => writeArray (List.map writeValue l)
  | VObject l => writeObject (List.map (fun kv => (kv.1, writeValue kv.2)) l)
  | VMap stringKeys l =>
      if stringKeys then writeObject (List.map (fun kv => (kv.1, writeValue kv.2)) l) else Err ErrMapKey
  | VStruct fields => writeObject (structToMap (List.map (fun fv => (fv.1, fv.2, writeValue fv.2)) fields))
  | VPtr None => Ok (bs "null")
  | VPtr (Some v) => writeValue v
  | VSlice l => writeArray (List.map writeValue l)
  | VOther => Err ErrUnsupportedType
  end.

Definition Marshal (v : gvalue) : result canon_err bytes := writeValue v.

Example marshal_vector :
  Marshal (VObject [(bs "b", VInt 2); (bs "a", VArray [VNil; VBool true; VString (bs "x")])])
  = Ok (bs "{" ++ writeString (bs "a") ++ bs ":[null,true," ++ writeString (bs "x") ++ bs "]," ++ writeString (bs "b") ++ bs ":2}").
Proof. by vm_compute. Qed.
