(* ===== verification/CanonicalProofs.v ===== *)
(** * Canonical JSON: what the bytes mean

    [jvalue] is a JSON value, [render] its canonical text and [parseJSON] a
    reader of such text; [denote] is the JSON value a Go value stands for. The
    writer is shown to print exactly [render] of the denotation, and the text to
    determine the value. *)
From S2P Require Import Prelude Crypto Decimal GoStrings Canonical.
From Stdlib Require Import ZArith Lia.
From stdpp Require Import base list strings sorting.
#[local] Open Scope Z_scope.

(** ** JSON values and their canonical text *)

#[warnings="-register-all"]
Inductive jvalue : Type :=
  | JNull
  | JBool (b : bool)
  | JInt (z : Z)
  | JString (s : bytes)
  | JArray (l : list jvalue)
  | JObject (l : list (bytes * jvalue)).

Section jvalue_ind.
Variable P : jvalue -> Prop.
Hypothesis Hnull : P JNull.
Hypothesis Hbool : forall b, P (JBool b).
Hypothesis Hint : forall z, P (JInt z).
Hypothesis Hstring : forall s, P (JString s).
Hypothesis Harray : forall l, Forall P l -> P (JArray l).
Hypothesis Hobject : forall l, Forall (fun kv => P kv.2) l -> P (JObject l).

Fixpoint jvalue_nested (j : jvalue) : P j :=
  match j with
  | JNull => Hnull
  | JBool b => Hbool b
  | JInt z => Hint z
  | JString s => Hstring s
  | JArray l =>
      Harray l ((fix go (l : list jvalue) : Forall P l :=
        match l with
        | [] => List.Forall_nil _
        | j :: l => List.Forall_cons _ j _ (jvalue_nested j) (go l)
        end) l)
  | JObject l =>
      Hobject l ((fix go (l : list (bytes * jvalue)) : Forall (fun kv => P kv.2) l :=
        match l with
        | [] => List.Forall_nil _
        | kv :: l => List.Forall_cons _ kv _ (jvalue_nested kv.2) (go l)
        end) l)
  end.
End jvalue_ind.

(** The escape of one byte of a valid string. *)
Definition escapeByte (b : byte) : bytes :=
  let r := byte_to_Z b in
  if decide (r < 128) then writeRune r else [b].

Definition renderString (s : bytes) : bytes := quote :: concat (map escapeByte s) ++ [quote].

Fixpoint render (j : jvalue) : bytes :=
  match j with
  | JNull => bs "null"
  | JBool b => if b then bs "true" else bs "false"
  | JInt z => FormatInt z
  | JString s => renderString s
  | JArray l => Byte.x5b :: Join_ (List.map render l) Byte.x2c ++ [Byte.x5d]
  | JObject l =>
      Byte.x7b :: Join_ (List.map (fun kv => renderString kv.1 ++ Byte.x3a :: render kv.2) l) Byte.x2c ++ [Byte.x7d]
  end.

(** ** A reader of canonical text *)

Definition hexValue (b : byte) : option Z :=
  let x := byte_to_Z b in
  if decide (48 <= x <= 57) then Some (x - 48) else if decide (97 <= x <= 102) then Some (x - 87) else None.

Definition unescape (c : byte) : option byte :=
  if decide (c = quote) then Some quote
  else if decide (c = backslash) then Some backslash
  else if decide (c = Byte.x62) then Some Byte.x08
  else if decide (c = Byte.x66) then Some Byte.x0c
  else if decide (c = Byte.x6e) then Some Byte.x0a
  else if decide (c = Byte.x72) then Some Byte.x0d
  else if decide (c = Byte.x74) then Some Byte.x09
  else None.

Definition consFst (b : byte) (r : option (bytes * bytes)) : option (bytes * bytes) :=
  match r with Some (s, t) => Some (b :: s, t) | None => None end.

(** After the opening quote: the string and the text after the closing one. *)
Fixpoint parseString (s : bytes) : option (bytes * bytes) :=
  match s with
  | [] => None
  | b :: s =>
      if decide (b = quote) then Some ([], s)
      else if decide (b = backslash) then
        match s with
        | [] => None
        | c :: s' =>
            if decide (c = Byte.x75) then
              match s' with
              | z1 :: z2 :: h :: l :: s'' =>
                  match hexValue h, hexValue l with
                  | Some hv, Some lv =>
                      if decide (z1 = Byte.x30 /\ z2 = Byte.x30) then consFst (byte_of_Z (16 * hv + lv)) (parseString s'') else None
                  | _, _ => None
                  end
              | _ => None
              end
            else match unescape c with Some x => consFst x (parseString s') | None => None end
        end
      else consFst b (parseString s)
  end.

Definition parseNumber (s : bytes) : option (jvalue * bytes) :=
  let unsigned sign s := let '(d, r) := span_digits s in
    if decide (d = []) then None else Some (JInt (sign * digits_value d), r) in
  match s with
  | b :: r => if decide (b = Byte.x2d) then unsigned (-1) r else unsigned 1 s
  | [] => None
  end.

Definition parseLiteral (lit : bytes) (j : jvalue) (s : bytes) : option (jvalue * bytes) :=
  if HasPrefix s lit then Some (j, drop (length lit) s) else None.

(** Elements up to [close], each read by [pv]. *)
Fixpoint parseElems {A} (pv : bytes -> option (A * bytes)) (close : byte) (fuel : nat) (s : bytes) : option (list A * bytes) :=
  match fuel with
  | O => None
  | S fuel =>
      match pv s with
      | None | Some (_, []) => None
      | Some (v, c :: r) =>
          if decide (c = close) then Some ([v], r)
          else if decide (c = Byte.x2c) then
            match parseElems pv close fuel r with Some (vs, r) => Some (v :: vs, r) | None => None end
          else None
      end
  end.

Definition parseMember (pv : bytes -> option (jvalue * bytes)) (s : bytes) : option ((bytes * jvalue) * bytes) :=
  match s with
  | [] => None
  | b :: s =>
      if decide (b = quote) then
        match parseString s with
        | Some (k, c :: r) =>
            if decide (c = Byte.x3a) then match pv r with Some (v, r) => Some ((k, v), r) | None => None end else None
        | _ => None
        end
      else None
  end.

Fixpoint parseValue (fuel : nat) (s : bytes) : option (jvalue * bytes) :=
  match fuel, s with
  | S fuel, b :: r =>
      if decide (b = quote) then match parseString r with Some (t, r) => Some (JString t, r) | None => None end
      else if decide (b = Byte.x5b) then
        if decide (head r = Some Byte.x5d) then Some (JArray [], drop 1 r)
        else match parseElems (parseValue fuel) Byte.x5d fuel r with Some (l, r) => Some (JArray l, r) | None => None end
      else if decide (b = Byte.x7b) then
        if decide (head r = Some Byte.x7d) then Some (JObject [], drop 1 r)
        else match parseElems (parseMember (parseValue fuel)) Byte.x7d fuel r with
             | Some (l, r) => Some (JObject l, r)
             | None => None
             end
      else if decide (b = Byte.x6e) then parseLiteral (bs "null") JNull s
      else if decide (b = Byte.x74) then parseLiteral (bs "true") (JBool true) s
      else if decide (b = Byte.x66) then parseLiteral (bs "false") (JBool false) s
      else parseNumber s
  | _, _ => None
  end.

Definition parseJSON (s : bytes) : option jvalue :=
  match parseValue (length s) s with Some (j, []) => Some j | _ => None end.

(** ** Reading back *)

(** What may follow a value: nothing that would extend a number. *)
Definition delimited (rest : bytes) : Prop :=
  match rest with b :: _ => is_digit b = false | [] => True end.

Lemma parseString_escape b t : parseString (escapeByte b ++ t) = consFst b (parseString t).
Proof. destruct b; reflexivity. Qed.

Lemma parseString_render s rest : parseString (concat (map escapeByte s) ++ quote :: rest) = Some (s, rest).
Proof.
  induction s as [|b s IH]; [done|]. cbn [map concat]. rewrite <- app_assoc, parseString_escape, IH. done.
Qed.

Lemma FormatUint_head n : exists b d, FormatUint n = b :: d /\ is_digit b = true.
Proof.
  pose proof (FormatUint_nonempty n). pose proof (FormatUint_digits n) as Hd.
  destruct (FormatUint n) as [|b d]; [done|]. inversion Hd; eauto.
Qed.

Lemma parseNumber_FormatInt z rest : delimited rest -> parseNumber (FormatInt z ++ rest) = Some (JInt z, rest).
Proof.
  intros Hr. unfold FormatInt. case_decide as Hz.
  - cbn [parseNumber app]. rewrite decide_True by done.
    rewrite span_digits_app by (done || apply FormatUint_digits).
    rewrite decide_False by apply FormatUint_nonempty. rewrite FormatUint_value by lia. do 2 f_equal. f_equal. lia.
  - pose proof (FormatUint_value z ltac:(lia)) as Hv. destruct (FormatUint_head z) as (b & d & E & Hb).
    pose proof (FormatUint_digits z) as Hd. rewrite E in *. unfold parseNumber. cbn [app].
    rewrite decide_False by (intros ->; vm_compute in Hb; done).
    change (b :: d ++ rest) with ((b :: d) ++ rest).
    rewrite span_digits_app by done. rewrite decide_False by done. rewrite Hv. do 2 f_equal. f_equal. lia.
Qed.

(** The first byte of a rendered value closes nothing. *)
Lemma render_head j : exists c t, render j = c :: t /\ c <> Byte.x5d /\ c <> Byte.x7d.
Proof.
  destruct j as [|[]|z|s|l|l]; simpl; try (do 2 eexists; split; [reflexivity|done]).
  unfold FormatInt. case_decide; [do 2 eexists; split; [reflexivity|done]|].
  destruct (FormatUint_head z) as (b & d & -> & Hb). exists b, d. split; [done|].
  split; intros ->; vm_compute in Hb; done.
Qed.

Lemma parseElems_Join {A} (pv : bytes -> option (A * bytes)) (show : A -> bytes) close fuel l rest :
  is_digit close = false -> close <> Byte.x2c -> l <> [] -> (length l <= fuel)%nat ->
  Forall (fun v => forall r, delimited r -> pv (show v ++ r) = Some (v, r)) l ->
  parseElems pv close fuel (Join_ (List.map show l) Byte.x2c ++ close :: rest) = Some (l, rest).
Proof.
  intros Hcd Hcc Hne. revert fuel. induction l as [|v l IH]; intros fuel Hf HF; [done|].
  inversion HF as [|? ? Hv HF']; subst. destruct fuel as [|fuel]; [simpl in Hf; lia|].
  destruct l as [|w l].
  - cbn [List.map Join_ parseElems]. rewrite Hv by done. by rewrite decide_True.
  - change (Join_ (List.map show (v :: w :: l)) Byte.x2c) with (show v ++ Byte.x2c :: Join_ (List.map show (w :: l)) Byte.x2c).
    cbn [parseElems]. rewrite <- app_assoc. rewrite Hv by done. cbn [app].
    rewrite decide_False by done. rewrite decide_True by done. rewrite IH; [done|done| |done]. simpl in *. lia.
Qed.

Lemma Join_head show (l : list bytes) rest : forall x l', l = x :: l' ->
  head (Join_ l show ++ rest) = head (x ++ match l' with [] => rest | _ => show :: Join_ l' show ++ rest end).
Proof. intros x l' ->. destruct l'; simpl; [done|]. by rewrite <- app_assoc. Qed.

(** Fuel for the reader: the number of values and members. *)
Fixpoint jsize (j : jvalue) : nat :=
  match j with
  | JArray l => S (list_sum (List.map (fun j => S (jsize j)) l))
  | JObject l => S (list_sum (List.map (fun kv => S (jsize kv.2)) l))
  | _ => 1
  end.

Lemma list_sum_le {A} (f : A -> nat) (l : list A) : (forall x, 1 <= f x)%nat ->
  (length l <= list_sum (List.map f l))%nat /\ Forall (fun x => f x <= list_sum (List.map f l))%nat l.
Proof.
  intros Hf. induction l as [|x l [IH1 IH2]]; [by split|]. simpl. pose proof (Hf x). split; [lia|].
  constructor; [lia|]. eapply Forall_impl; [exact IH2|]. simpl. lia.
Qed.

Lemma parseValue_array fuel r :
  parseValue (S fuel) (Byte.x5b :: r) =
    if decide (head r = Some Byte.x5d) then Some (JArray [], drop 1 r)
    else match parseElems (parseValue fuel) Byte.x5d fuel r with Some (l, r) => Some (JArray l, r) | None => None end.
Proof. reflexivity. Qed.

Lemma parseValue_object fuel r :
  parseValue (S fuel) (Byte.x7b :: r) =
    if decide (head r = Some Byte.x7d) then Some (JObject [], drop 1 r)
    else match parseElems (parseMember (parseValue fuel)) Byte.x7d fuel r with
         | Some (l, r) => Some (JObject l, r)
         | None => None
         end.
Proof. reflexivity. Qed.

Lemma parseValue_render j : forall fuel rest, (jsize j <= fuel)%nat -> delimited rest ->
  parseValue fuel (render j ++ rest) = Some (j, rest).
Proof.
  induction j as [|b|z|s|l IH|l IH] using jvalue_nested; intros fuel rest Hf Hr;
    (destruct fuel as [|fuel]; [simpl in Hf; lia|]).
  - reflexivity.
  - destruct b; reflexivity.
  - assert (exists c t, FormatInt z ++ rest = c :: t /\ (is_digit c = true \/ c = Byte.x2d)) as (c & t & E & Hc).
    { unfold FormatInt. case_decide; [do 2 eexists; split; [reflexivity|by right]|].
      destruct (FormatUint_head z) as (b & d & -> & Hb). do 2 eexists; split; [reflexivity|by left]. }
    pose proof (parseNumber_FormatInt z rest Hr) as Hn. cbn [render]. rewrite E in *. cbn [parseValue].
    repeat (rewrite decide_False by (intros ->; destruct Hc as [Hc|Hc]; vm_compute in Hc; done)). done.
  - cbn [render parseValue renderString app]. rewrite decide_True by done. rewrite <- app_assoc.
    cbn [app]. by rewrite parseString_render.
  - cbn [render app]. rewrite parseValue_array, <- app_assoc. cbn [app].
    destruct l as [|j l]; [done|]. destruct (render_head j) as (c & t & Ej & Hc & _).
    rewrite decide_False by (rewrite (Join_head _ _ _ (render j) (List.map render l)), Ej by done; simpl; congruence).
    simpl in Hf. destruct (list_sum_le (fun j => S (jsize j)) (j :: l)) as [Hlen Hall]; [intros; lia|].
    rewrite (parseElems_Join _ render); [done|done|done|done|simpl in *; lia|].
    rewrite Forall_forall in IH, Hall |- *. intros x Hx r Hdr. apply IH; [done| |done].
    specialize (Hall x Hx). simpl in *. lia.
  - cbn [render app]. rewrite parseValue_object, <- app_assoc. cbn [app]. destruct l as [|kv l]; [done|].
    rewrite decide_False by (rewrite (Join_head _ _ _ (renderString kv.1 ++ Byte.x3a :: render kv.2)
              (List.map (fun kv => renderString kv.1 ++ Byte.x3a :: render kv.2) l)) by done; discriminate).
    simpl in Hf. destruct (list_sum_le (fun kv : bytes * jvalue => S (jsize kv.2)) (kv :: l)) as [Hlen Hall]; [intros; lia|].
    rewrite (parseElems_Join _ (fun kv => renderString kv.1 ++ Byte.x3a :: render kv.2)); [done|done|done|done|simpl in *; lia|].
    rewrite Forall_forall in IH, Hall |- *. intros [k x] Hx r Hdr.
    cbn [parseMember renderString app fst snd]. rewrite decide_True by done. rewrite <- !app_assoc. cbn [app].
    rewrite parseString_render. rewrite decide_True by done. rewrite (IH _ Hx); [done| |done].
    specialize (Hall _ Hx). simpl in *. lia.
Qed.

Lemma length_Join (l : list bytes) c : l <> [] -> (length (Join_ l c) + 1 = list_sum (List.map (fun x => S (length x)) l))%nat.
Proof.
  induction l as [|x l IH]; intros Hne; [done|]. destruct l as [|y l]; [simpl; lia|].
  change (Join_ (x :: y :: l) c) with (x ++ c :: Join_ (y :: l) c). rewrite length_app. cbn [length].
  change (list_sum (List.map (fun x => S (length x)) (x :: y :: l)))
    with (S (length x) + list_sum (List.map (fun x => S (length x)) (y :: l)))%nat.
  specialize (IH ltac:(done)). lia.
Qed.

Lemma list_sum_mono {A} (f g : A -> nat) l : Forall (fun x => f x <= g x)%nat l ->
  (list_sum (List.map f l) <= list_sum (List.map g l))%nat.
Proof. induction 1; simpl; lia. Qed.

Lemma jsize_render j : (jsize j <= length (render j))%nat.
Proof.
  induction j as [|[]|z|s|l IH|l IH] using jvalue_nested; try (simpl; lia).
  - destruct (render_head (JInt z)) as (c & t & E & _). rewrite E. simpl. lia.
  - cbn [render jsize]. cbn [length]. rewrite length_app. cbn [length]. destruct l as [|j l]; [simpl; lia|].
    pose proof (length_Join (List.map render (j :: l)) Byte.x2c ltac:(done)) as HJ. rewrite List.map_map in HJ.
    assert (list_sum (List.map (fun j => S (jsize j)) (j :: l)) <= list_sum (List.map (fun j => S (length (render j))) (j :: l)))%nat; [|lia].
    apply list_sum_mono. eapply Forall_impl; [exact IH|]. simpl. lia.
  - cbn [render jsize]. cbn [length]. rewrite length_app. cbn [length]. destruct l as [|kv l]; [simpl; lia|].
    set (show := fun kv : bytes * jvalue => renderString kv.1 ++ Byte.x3a :: render kv.2).
    pose proof (length_Join (List.map show (kv :: l)) Byte.x2c ltac:(done)) as HJ. rewrite List.map_map in HJ.
    assert (list_sum (List.map (fun kv => S (jsize kv.2)) (kv :: l)) <= list_sum (List.map (fun kv => S (length (show kv))) (kv :: l)))%nat; [|lia].
    apply list_sum_mono. eapply Forall_impl; [exact IH|]. intros x Hx. unfold show. rewrite length_app. simpl in *. lia.
Qed.

Lemma parseJSON_render j : parseJSON (render j) = Some j.
Proof.
  unfold parseJSON. rewrite <- (app_nil_r (render j)) at 2. by rewrite parseValue_render by (apply jsize_render || done).
Qed.

(** ** The value a Go value denotes *)

Definition safeInt (z : Z) : option jvalue :=
  if decide (- maxSafeInteger <= z <= maxSafeInteger) then Some (JInt z) else None.

(** All of the results, or none. *)
Fixpoint sequence {A} (l : list (option A)) : option (list A) :=
  match l with
  | [] => Some []
  | None :: _ => None
  | Some x :: l => match sequence l with Some xs => Some (x :: xs) | None => None end
  end.

Definition memberOf (kv : bytes * option jvalue) : option (bytes * jvalue) :=
  match kv.2 with Some j => Some (toValidUTF8 kv.1, j) | None => None end.

Definition objectOf (l : list (bytes * option jvalue)) : option jvalue :=
  option_map JObject (sequence (List.map memberOf (sortKeys l))).

Fixpoint denote (v : gvalue) : option jvalue :=
  match v with
  | VNil | VPtr None => Some JNull
  | VBool b => Some (JBool b)
  | VFloat (FFinite m e) => if fractional m e then None else safeInt (integral m e)
  | VFloat _ => None
  | VNumber s =>
      if decide (Exists (fun b => b = Byte.x2e \/ b = Byte.x65 \/ b = Byte.x45) s) then None
      else match bigSetString s with Some z => safeInt z | None => None end
  | VInt z => safeInt z
  | VUint z => safeInt z
  | VUintSmall z => Some (JInt z)
  | VString s => Some (JString (toValidUTF8 s))
  | VArray l | VSlice l => option_map JArray (sequence (List.map denote l))
  | VObject l => objectOf (List.map (fun kv => (kv.1, denote kv.2)) l)
  | VMap stringKeys l => if stringKeys then objectOf (List.map (fun kv => (kv.1, denote kv.2)) l) else None
  | VStruct fields => objectOf (structToMap (List.map (fun fv => (fv.1, fv.2, denote fv.2)) fields))
  | VPtr (Some v) => denote v
  | VOther => None
  end.

Section gvalue_ind.
Variable P : gvalue -> Prop.
Hypothesis Hatom : forall v, match v with
  | VArray _ | VObject _ | VMap _ _ | VStruct _ | VPtr (Some _) | VSlice _ => True | _ => P v end.
Hypothesis Harray : forall l, Forall P l -> P (VArray l).
Hypothesis Hslice : forall l, Forall P l -> P (VSlice l).
Hypothesis Hobject : forall l, Forall (fun kv => P kv.2) l -> P (VObject l).
Hypothesis Hmap : forall b l, Forall (fun kv => P kv.2) l -> P (VMap b l).
Hypothesis Hstruct : forall l, Forall (fun fv => P fv.2) l -> P (VStruct l).
Hypothesis Hptr : forall v, P v -> P (VPtr (Some v)).

Fixpoint gvalue_nested (v : gvalue) : P v :=
  let list_case := fix go (l : list gvalue) : Forall P l :=
    match l with [] => List.Forall_nil _ | v :: l => List.Forall_cons _ v _ (gvalue_nested v) (go l) end in
  let pair_case := fix go (l : list (bytes * gvalue)) : Forall (fun kv => P kv.2) l :=
    match l with [] => List.Forall_nil _ | kv :: l => List.Forall_cons _ kv _ (gvalue_nested kv.2) (go l) end in
  let field_case := fix go (l : list (structField * gvalue)) : Forall (fun kv => P kv.2) l :=
    match l with [] => List.Forall_nil _ | kv :: l => List.Forall_cons _ kv _ (gvalue_nested kv.2) (go l) end in
  match v with
  | VArray l => Harray l (list_case l)
  | VSlice l => Hslice l (list_case l)
  | VObject l => Hobject l (pair_case l)
  | VMap b l => Hmap b l (pair_case l)
  | VStruct l => Hstruct l (field_case l)
  | VPtr (Some v) => Hptr v (gvalue_nested v)
  | v => Hatom v
  end.
End gvalue_ind.

(** What the Go type system ensures: the ranges of the unsigned types, and
    distinct keys of a map. *)
Fixpoint wellTyped (v : gvalue) : Prop :=
  match v with
  | VUint z => 0 <= z < 2 ^ 64
  | VUintSmall z => 0 <= z < 2 ^ 32
  | VArray l | VSlice l => List.fold_right (fun v P => wellTyped v /\ P) True l
  | VObject l | VMap _ l => NoDup l.*1 /\ List.fold_right (fun kv P => wellTyped kv.2 /\ P) True l
  | VStruct l => List.fold_right (fun fv P => wellTyped fv.2 /\ P) True l
  | VPtr (Some v) => wellTyped v
  | _ => True
  end.

Lemma fold_and {A} (Q : A -> Prop) l : List.fold_right (fun x P => Q x /\ P) True l <-> Forall Q l.
Proof.
  induction l as [|x l IH]; simpl; [by split|]. rewrite IH. by rewrite Forall_cons.
Qed.

(** ** The writer prints the denotation *)

Lemma writeRune_Encode b s r n : decoded b s r n -> writeRune r = concat (map escapeByte (EncodeRune r)).
Proof.
  intros H. assert (forall l, Forall (fun c => 128 <= byte_to_Z c) l -> concat (map escapeByte l) = l) as Hid.
  { induction 1 as [|c l Hc _ IH]; [done|]. simpl. rewrite IH. unfold escapeByte. by rewrite decide_False by lia. }
  destruct H as [Hb|r n Hr _ He Hall|_].
  - unfold EncodeRune. pose proof (byte_to_Z_range b). rewrite decide_True by lia. rewrite byte_of_to_Z.
    simpl. rewrite app_nil_r. unfold escapeByte. by rewrite decide_True.
  - rewrite <- He in Hall. rewrite Hid by done. unfold writeRune. by repeat rewrite decide_False by lia.
  - vm_compute. reflexivity.
Qed.

Lemma writeString_render s : writeString s = renderString (toValidUTF8 s).
Proof.
  unfold writeString, renderString, toValidUTF8. f_equal. f_equal.
  induction s as [|b s r n E Hd Hn IH] using rune_ind; [done|].
  rewrite (runes_step _ _ _ _ E Hn). cbn [map concat]. rewrite map_app, concat_app, <- IH.
  f_equal. by eapply writeRune_Encode.
Qed.

Definition agrees (r : result canon_err bytes) (d : option jvalue) : Prop :=
  match d with Some j => r = Ok (render j) | None => is_ok r = false end.

Lemma agrees_int z : agrees (writeInteger z) (safeInt z).
Proof. unfold writeInteger, safeInt. repeat case_decide; try lia; done. Qed.

Lemma writeElems_sequence {A} (show : A -> bytes) (rs : list (result canon_err bytes)) ds :
  Forall2 (fun r d => match d with Some x => r = Ok (show x) | None => is_ok r = false end) rs ds ->
  match sequence ds with
  | Some xs => writeElems rs = Ok (Join_ (List.map show xs) Byte.x2c)
  | None => is_ok (writeElems rs) = false
  end.
Proof.
  induction 1 as [|r d rs ds Hr HF IH]; [done|]. destruct d as [x|]; simpl; [subst r|by destruct r].
  destruct HF as [|r' d' rs ds Hr' HF]; [done|].
  destruct (sequence (d' :: ds)) as [xs|] eqn:E.
  - cbn [writeElems]. cbn [writeElems] in IH. rewrite IH. destruct xs as [|y ys]; [|done].
    simpl in E. destruct d'; [|done]. by destruct (sequence ds).
  - cbn [writeElems]. cbn [writeElems] in IH. by destruct (match r' with Ok _ => _ | Err _ => _ end).
Qed.

Definition keyed {A B} (R : A -> B -> Prop) (a : bytes * A) (b : bytes * B) : Prop := a.1 = b.1 /\ R a.2 b.2.

Lemma insertKey_keyed {A B} (R : A -> B -> Prop) a b l k :
  keyed R a b -> Forall2 (keyed R) l k -> Forall2 (keyed R) (insertKey a l) (insertKey b k).
Proof.
  intros Hab. induction 1 as [|x y l k Hxy HF IH]; simpl; [by constructor|].
  destruct Hab as [Hk Hr]. destruct Hxy as [Hxk Hxr]. rewrite Hxk, Hk.
  case_match; constructor; try done. by constructor.
Qed.

Lemma sortKeys_keyed {A B} (R : A -> B -> Prop) l k :
  Forall2 (keyed R) l k -> Forall2 (keyed R) (sortKeys l) (sortKeys k).
Proof. induction 1; simpl; [constructor|by apply insertKey_keyed]. Qed.

Lemma mapSet_keyed {A B} (R : A -> B -> Prop) n a b l k :
  R a b -> Forall2 (keyed R) l k -> Forall2 (keyed R) (mapSet n a l) (mapSet n b k).
Proof.
  intros Hab. induction 1 as [|x y l k [Hk Hr] HF IH]; simpl; [by repeat constructor|].
  rewrite Hk. case_decide; constructor; done.
Qed.

Lemma structToMap_keyed {A B} (R : A -> B -> Prop) (fs : list (structField * gvalue * A)) (gs : list (structField * gvalue * B)) :
  Forall2 (fun f g => f.1 = g.1 /\ R f.2 g.2) fs gs -> Forall2 (keyed R) (structToMap fs) (structToMap gs).
Proof.
  unfold structToMap. assert (Forall2 (keyed R) (@nil (bytes * A)) (@nil (bytes * B))) as H0 by constructor.
  revert H0. generalize (@nil (bytes * A)) (@nil (bytes * B)). intros la lb H0 HF. revert la lb H0.
  induction HF as [|f g fs gs [Hf Hr] HF IH]; intros la lb H0; simpl; [done|]. apply IH. rewrite Hf.
  destruct (fieldName g.1.1 g.1.2); [by apply mapSet_keyed|done].
Qed.

Lemma writeArray_agrees rs ds :
  Forall2 agrees rs ds -> agrees (writeArray rs) (option_map JArray (sequence ds)).
Proof.
  intros H. apply (writeElems_sequence render) in H. unfold writeArray, agrees.
  destruct (sequence ds) as [js|]; simpl; [by rewrite H|]. by destruct (writeElems rs).
Qed.

Lemma writeObject_agrees rs ds :
  Forall2 (keyed agrees) rs ds -> agrees (writeObject rs) (objectOf ds).
Proof.
  intros H. apply sortKeys_keyed in H. unfold writeObject, objectOf.
  assert (Forall2 (fun r d => match d with
      | Some kv => r = Ok (renderString kv.1 ++ Byte.x3a :: render kv.2) | None => is_ok r = false end)
    (map writeMember (sortKeys rs)) (map memberOf (sortKeys ds))) as HF.
  { induction H as [|[k r] [k' d] l l' [Hk Hr] HF IH]; simpl; constructor; [|done].
    simpl in Hk. subst k'. unfold writeMember, memberOf. cbn [fst snd]. cbn [snd] in Hr.
    destruct d as [j|]; unfold agrees in Hr; [|by destruct r]. subst r. cbn [fst snd]. by rewrite writeString_render. }
  apply (writeElems_sequence (fun kv => renderString kv.1 ++ Byte.x3a :: render kv.2)) in HF.
  unfold agrees. destruct (sequence _) as [js|]; simpl; [by rewrite HF|]. by destruct (writeElems _).
Qed.

Lemma Forall2_map_same {A B C} (f : A -> B) (g : A -> C) (R : B -> C -> Prop) l :
  Forall (fun x => R (f x) (g x)) l -> Forall2 R (List.map f l) (List.map g l).
Proof. induction 1; simpl; by constructor. Qed.

Lemma writeValue_denote v : wellTyped v -> agrees (writeValue v) (denote v).
Proof.
  apply (gvalue_nested (fun v => wellTyped v -> agrees (writeValue v) (denote v)));
    clear v; [intros v|intros l IH|intros l IH|intros l IH|intros b l IH|intros l IH|intros v IH].
  - destruct v as [|b|f|s|z|z|z|s| | | | |[v|]| |]; try done; intros Ht; simpl.
    + destruct f as [| |m e]; [done|done|]. simpl. destruct (fractional m e); [done|]. apply agrees_int.
    + unfold writeJSONNumber. case_decide; [done|]. destruct (bigSetString s) as [i|]; [|done].
      unfold safeInt. repeat case_decide; try lia; done.
    + apply agrees_int.
    + simpl in Ht. unfold safeInt, maxSafeInteger. repeat case_decide; try lia; [done|].
      unfold agrees. simpl. unfold FormatInt. by rewrite decide_False by lia.
    + simpl in Ht. unfold agrees. simpl. unfold FormatInt. by rewrite decide_False by lia.
    + unfold agrees. simpl. by rewrite writeString_render.
  - simpl. rewrite fold_and. intros Ht. apply writeArray_agrees, Forall2_map_same.
    rewrite Forall_forall in *. auto.
  - simpl. rewrite fold_and. intros Ht. apply writeArray_agrees, Forall2_map_same.
    rewrite Forall_forall in *. auto.
  - simpl. rewrite fold_and. intros [_ Ht]. apply writeObject_agrees, Forall2_map_same.
    rewrite Forall_forall in *. intros x Hx. split; [done|]. simpl. auto.
  - simpl. rewrite fold_and. intros [_ Ht]. destruct b; [|done]. apply writeObject_agrees, Forall2_map_same.
    rewrite Forall_forall in *. intros x Hx. split; [done|]. simpl. auto.
  - simpl. rewrite fold_and. intros Ht. apply writeObject_agrees, structToMap_keyed, Forall2_map_same.
    rewrite Forall_forall in *. intros x Hx. split; [done|]. simpl. auto.
  - apply IH.
Qed.

(** ** Order of the keys *)

Lemma bytes_lt_irrefl a : bytes_lt a a = false.
Proof. induction a as [|x a IH]; [done|]. simpl. by rewrite !decide_False by lia. Qed.

Lemma bytes_lt_trans a b c : bytes_lt a b = true -> bytes_lt b c = true -> bytes_lt a c = true.
Proof.
  revert b c. induction a as [|x a IH]; intros [|y b] [|z c]; simpl; try done.
  repeat (case_decide; try done; try lia). intros. by eapply IH.
Qed.

Lemma bytes_lt_total a b : a <> b -> bytes_lt a b = true \/ bytes_lt b a = true.
Proof.
  revert b. induction a as [|x a IH]; intros [|y b] Hne; simpl; try (by auto).
  repeat case_decide; try lia; auto. apply IH. intros ->. apply Hne. f_equal. apply byte_to_Z_inj. lia.
Qed.

Lemma bytes_lt_asym a b : bytes_lt a b = true -> bytes_lt b a = false.
Proof.
  intros H. apply not_true_iff_false. intros H'. pose proof (bytes_lt_trans _ _ _ H H') as Hc.
  by rewrite bytes_lt_irrefl in Hc.
Qed.

Lemma insertKey_perm {A} (a : bytes * A) l : insertKey a l ≡ₚ a :: l.
Proof.
  induction l as [|x l IH]; simpl; [done|]. case_match; [|done]. rewrite IH. apply Permutation_swap.
Qed.

Lemma sortKeys_perm {A} (l : list (bytes * A)) : sortKeys l ≡ₚ l.
Proof. induction l as [|x l IH]; simpl; [done|]. by rewrite insertKey_perm, IH. Qed.

(** Keys in strictly increasing byte order. *)
Definition increasing {A} (l : list (bytes * A)) : Prop := StronglySorted (fun a b => bytes_lt a.1 b.1 = true) l.

Lemma insertKey_increasing {A} (a : bytes * A) l : increasing l -> a.1 ∉ l.*1 -> increasing (insertKey a l).
Proof.
  unfold increasing. induction 1 as [|x l Hs IH Hf]; intros Hn; simpl; [by repeat constructor|].
  rewrite fmap_cons, not_elem_of_cons in Hn. destruct Hn as [Hx Hn].
  destruct (bytes_lt x.1 a.1) eqn:E.
  - constructor; [by apply IH|]. rewrite insertKey_perm. by constructor.
  - destruct (bytes_lt_total x.1 a.1) as [?|Hax]; [congruence|congruence|].
    constructor; [by constructor|]. constructor; [done|]. eapply Forall_impl; [exact Hf|].
    intros y Hy. by eapply bytes_lt_trans.
Qed.

Lemma sortKeys_increasing {A} (l : list (bytes * A)) : NoDup l.*1 -> increasing (sortKeys l).
Proof.
  induction l as [|x l IH]; intros Hnd; simpl; [constructor|]. inversion Hnd; subst.
  apply insertKey_increasing; [auto|]. by rewrite sortKeys_perm.
Qed.

Lemma increasing_unique {A} (l k : list (bytes * A)) : increasing l -> increasing k -> l ≡ₚ k -> l = k.
Proof.
  intros Hl. revert k. induction Hl as [|x l Hs IH Hf]; intros k Hk Hp.
  { by apply Permutation_nil_l in Hp as ->. }
  destruct k as [|y k]; [by apply Permutation_nil_r in Hp|].
  inversion Hk as [|? ? Hks Hkf]; subst.
  assert (x = y) as ->.
  { assert (x ∈ y :: k) as Hx by (rewrite <- Hp; left). assert (y ∈ x :: l) as Hy by (rewrite Hp; left).
    apply elem_of_cons in Hx as [->|Hx]; [done|]. apply elem_of_cons in Hy as [->|Hy]; [done|].
    rewrite Forall_forall in Hf, Hkf. specialize (Hf _ Hy). specialize (Hkf _ Hx). simpl in *.
    by rewrite (bytes_lt_asym _ _ Hf) in Hkf. }
  f_equal. apply IH; [done|]. by eapply Permutation_cons_inv.
Qed.

(** ** Canonical form *)

Fixpoint canonicalForm (j : jvalue) : Prop :=
  match j with
  | JNull | JBool _ => True
  | JInt z => - maxSafeInteger <= z <= maxSafeInteger
  | JString s => ValidString s = true
  | JArray l => List.fold_right (fun j P => canonicalForm j /\ P) True l
  | JObject l =>
      increasing l /\ List.fold_right (fun kv P => (ValidString kv.1 = true /\ canonicalForm kv.2) /\ P) True l
  end.

(** Every string of the value is valid UTF-8. *)
Fixpoint utf8Clean (v : gvalue) : Prop :=
  match v with
  | VString s => ValidString s = true
  | VArray l | VSlice l => List.fold_right (fun v P => utf8Clean v /\ P) True l
  | VObject l | VMap _ l => List.fold_right (fun kv P => (ValidString kv.1 = true /\ utf8Clean kv.2) /\ P) True l
  | VStruct l =>
      List.fold_right (fun fv P =>
        ((forall n, fieldName fv.1 fv.2 = Some n -> ValidString n = true) /\ utf8Clean fv.2) /\ P) True l
  | VPtr (Some v) => utf8Clean v
  | _ => True
  end.

Lemma sequence_Some {A} (l : list (option A)) xs : sequence l = Some xs -> l = Some <$> xs.
Proof.
  revert xs. induction l as [|[x|] l IH]; intros xs; simpl; [by intros [= <-]| |done].
  destruct (sequence l) as [ys|]; [|done]. intros [= <-]. by rewrite (IH ys).
Qed.

Lemma mapSet_keys {A} n (v : A) l : NoDup l.*1 ->
  NoDup (mapSet n v l).*1 /\ forall kv, kv ∈ mapSet n v l -> kv = (n, v) \/ kv ∈ l.
Proof.
  induction l as [|x l IH]; intros Hnd; simpl.
  - split; [repeat constructor; apply not_elem_of_nil|]. intros kv Hkv. apply list_elem_of_singleton in Hkv. by left.
  - rewrite fmap_cons in Hnd. inversion Hnd as [|? ? Hx Hl]; subst. case_decide as Hd; simpl.
    + split; [constructor; [by rewrite <- Hd|done]|]. intros kv Hkv. apply elem_of_cons in Hkv as [->|Hkv]; [by left|right; by right].
    + destruct (IH Hl) as [IH1 IH2]. split.
      * constructor; [|done]. intros Hin. apply list_elem_of_fmap in Hin as (kv & Hk & Hin).
        apply IH2 in Hin as [->|Hin]; [by apply Hd|]. apply Hx. rewrite Hk. by apply list_elem_of_fmap_2.
      * intros kv Hkv. apply elem_of_cons in Hkv as [->|Hkv]; [right; by left|].
        apply IH2 in Hkv as [?|?]; [by left|right; by right].
Qed.

Lemma structToMap_keys {A} (fs : list (structField * gvalue * A)) :
  NoDup (structToMap fs).*1
  /\ forall kv, kv ∈ structToMap fs -> exists f, f ∈ fs /\ fieldName f.1.1 f.1.2 = Some kv.1 /\ kv.2 = f.2.
Proof.
  unfold structToMap.
  enough (forall acc, NoDup acc.*1 -> let r := fold_left (fun acc f => match fieldName f.1.1 f.1.2 with
      None => acc | Some name => mapSet name f.2 acc end) fs acc in
    NoDup r.*1 /\ forall kv, kv ∈ r -> kv ∈ acc \/ exists f, f ∈ fs /\ fieldName f.1.1 f.1.2 = Some kv.1 /\ kv.2 = f.2) as H.
  { destruct (H [] ltac:(constructor)) as [H1 H2]. split; [done|]. intros kv Hkv.
    destruct (H2 kv Hkv) as [Hn|?]; [by apply not_elem_of_nil in Hn|done]. }
  induction fs as [|f fs IH]; intros acc Hnd r; [split; [done|]; intros kv Hkv; by left|].
  subst r. simpl. destruct (fieldName f.1.1 f.1.2) as [n|] eqn:E.
  - destruct (mapSet_keys n f.2 acc Hnd) as [Hm1 Hm2]. destruct (IH _ Hm1) as [H1 H2]. split; [done|].
    intros kv Hkv. destruct (H2 kv Hkv) as [Hin|(g & Hg & Hr)]; [|right; exists g; split; [by right|done]].
    apply Hm2 in Hin as [->|Hin]; [|by left]. right. exists f. split; [by left|done].
  - destruct (IH _ Hnd) as [H1 H2]. split; [done|]. intros kv Hkv.
    destruct (H2 kv Hkv) as [Hin|(g & Hg & Hr)]; [by left|right; exists g; split; [by right|done]].
Qed.

Lemma objectOf_canonical ds j :
  NoDup ds.*1 -> Forall (fun kd => ValidString kd.1 = true /\ forall x, kd.2 = Some x -> canonicalForm x) ds ->
  objectOf ds = Some j -> canonicalForm j.
Proof.
  intros Hnd Hf. unfold objectOf. destruct (sequence _) as [kvs|] eqn:E; [|done]. simpl. intros [= <-].
  apply sequence_Some in E. pose proof (sortKeys_increasing ds Hnd) as Hinc.
  rewrite <- sortKeys_perm in Hf. revert kvs E. simpl. setoid_rewrite fold_and.
  induction Hinc as [|[k d] l Hs IH Hlt]; intros kvs E.
  { destruct kvs; [|done]. split; constructor. }
  inversion Hf as [|? ? [Hk Hd] Hf']; subst. destruct kvs as [|kv kvs]; [done|]. simpl in E.
  unfold memberOf at 1 in E. simpl in *. destruct d as [x|]; [|done]. injection E as <- E.
  rewrite (toValidUTF8_valid k) by done. destruct (IH Hf' kvs E) as [Hi Hall]. split; [|by constructor; auto].
  constructor; [done|]. pose proof (proj1 (Forall_forall _ _) Hf') as Hvalid.
  pose proof (proj1 (List.Forall_forall _ _) Hlt) as Hless. apply Forall_forall. intros y Hy.
  assert (Some y ∈ List.map memberOf l) as Hy' by (rewrite E; by apply list_elem_of_fmap_2).
  apply list_elem_of_In, in_map_iff in Hy' as ([k' d'] & Hm & Hin).
  apply list_elem_of_In in Hin. unfold memberOf in Hm. simpl in Hm. destruct d'; [|done]. injection Hm as <-. simpl.
  destruct (Hvalid _ Hin) as [Hv _]. simpl in Hv. rewrite toValidUTF8_valid by done.
  by apply (Hless _ (proj1 (list_elem_of_In _ _) Hin)).
Qed.

Lemma safeInt_canonical z j : safeInt z = Some j -> canonicalForm j.
Proof. unfold safeInt. case_decide; [|done]. by intros [= <-]. Qed.

Lemma array_canonical (f : gvalue -> option jvalue) l j :
  Forall (fun v => forall x, f v = Some x -> canonicalForm x) l ->
  option_map JArray (sequence (List.map f l)) = Some j -> canonicalForm j.
Proof.
  intros HF. destruct (sequence _) as [js|] eqn:E; [|done]. simpl. intros [= <-]. simpl. rewrite fold_and.
  apply sequence_Some in E. revert js E. induction HF as [|v l Hv HF IH]; intros [|x js] E; try done.
  simpl in E. injection E as E1 E2. constructor; [by apply Hv|by apply IH].
Qed.

Lemma denote_canonical v : wellTyped v -> utf8Clean v -> forall j, denote v = Some j -> canonicalForm j.
Proof.
  apply (gvalue_nested (fun v => wellTyped v -> utf8Clean v -> forall j, denote v = Some j -> canonicalForm j));
    clear v; [intros v|intros l IH|intros l IH|intros l IH|intros b l IH|intros l IH|intros v IH].
  - destruct v as [|b|f|s|z|z|z|s| | | | |[v|]| |]; try done; simpl; intros Ht Hc j Hj; try done; try (by injection Hj as <-).
    + destruct f as [| |m e]; [done|done|]. destruct (fractional m e); [done|]. by eapply safeInt_canonical.
    + case_decide; [done|]. destruct (bigSetString s); [|done]. by eapply safeInt_canonical.
    + by eapply safeInt_canonical.
    + by eapply safeInt_canonical.
    + injection Hj as <-. simpl. unfold maxSafeInteger. lia.
    + injection Hj as <-. simpl. by rewrite toValidUTF8_valid.
  - simpl. rewrite !fold_and. intros Ht Hc j. apply array_canonical. rewrite Forall_forall in *. intros x Hx. by apply IH; auto.
  - simpl. rewrite !fold_and. intros Ht Hc j. apply array_canonical. rewrite Forall_forall in *. intros x Hx. by apply IH; auto.
  - simpl. rewrite !fold_and. intros [Hnd Ht] Hc j. apply objectOf_canonical.
    + rewrite <- list_fmap_compose. done.
    + rewrite Forall_map. rewrite Forall_forall in *. intros x Hx. destruct (Hc x Hx). split; [done|]. by apply IH; auto.
  - simpl. rewrite !fold_and. intros [Hnd Ht] Hc j. destruct b; [|done]. apply objectOf_canonical.
    + rewrite <- list_fmap_compose. done.
    + rewrite Forall_map. rewrite Forall_forall in *. intros x Hx. destruct (Hc x Hx). split; [done|]. by apply IH; auto.
  - simpl. rewrite !fold_and. intros Ht Hc j. destruct (structToMap_keys (List.map (fun fv => (fv.1, fv.2, denote fv.2)) l)) as [Hnd Hin].
    apply objectOf_canonical; [done|]. apply Forall_forall. intros kv Hkv.
    pose proof (proj1 (Forall_forall _ _) IH) as IH'. pose proof (proj1 (Forall_forall _ _) Ht) as Ht'.
    pose proof (proj1 (Forall_forall _ _) Hc) as Hc'.
    destruct (Hin kv Hkv) as (f & Hf & Hn & Hv). apply list_elem_of_In, in_map_iff in Hf as (fv & <- & Hfv).
    apply list_elem_of_In in Hfv. simpl in *. destruct (Hc' fv Hfv) as [Hcn Hcv]. split; [by apply Hcn|].
    rewrite Hv. by apply IH'; auto.
  - apply IH.
Qed.

(** The text of a value is read back as what it denotes. *)
Lemma Marshal_parse v out : wellTyped v -> Marshal v = Ok out -> parseJSON out = denote v.
Proof.
  intros Hv Hm. pose proof (writeValue_denote v Hv) as H. unfold Marshal, agrees in *. rewrite Hm in H.
  destruct (denote v) as [j|]; [|done]. injection H as ->. by rewrite parseJSON_render.
Qed.

(** ** The claims *)

(** C15. The canonical writer implements its specification: it fails exactly on
    the values that denote no JSON value (a number that is not an integer of the
    safe range, an unsupported type), and otherwise writes the canonical text of
    the value denoted; when every string is valid UTF-8 that value has strictly
    increasing keys in every object and only safe integers. *)
Theorem canonical_refines (v : gvalue) (Hty : wellTyped v) :
  (forall out, Marshal v = Ok out <-> exists j, denote v = Some j /\ out = render j)
  /\ (utf8Clean v -> forall j, denote v = Some j -> canonicalForm j).
Proof.
  split; [|by apply denote_canonical]. pose proof (writeValue_denote v Hty) as H. unfold Marshal, agrees in *.
  destruct (denote v) as [j|].
  - rewrite H. intros out. split; [intros [= <-]; eauto|by intros (? & [= <-] & ->)].
  - intros out. split; [intros E; by rewrite E in H|by intros (? & ? & _)].
Qed.

(** C14. Canonical bytes are unambiguous: a reader recovers the denoted value
    from the text, so two values with the same bytes denote the same JSON value;
    in particular a MAC or a signature over the bytes is one over the value. *)
Theorem canonical_unambiguous (v w : gvalue) (out : bytes)
    (Hv : wellTyped v) (Hw : wellTyped w) (Hmv : Marshal v = Ok out) (Hmw : Marshal w = Ok out) :
  parseJSON out = denote v /\ denote v = denote w.
Proof.
  pose proof (Marshal_parse v out Hv Hmv) as H1. pose proof (Marshal_parse w out Hw Hmw) as H2.
  split; [done|]. congruence.
Qed.

Lemma sortKeys_unique {A} (l k : list (bytes * A)) : NoDup l.*1 -> l ≡ₚ k -> sortKeys l = sortKeys k.
Proof.
  intros Hnd Hp. apply increasing_unique; [by apply sortKeys_increasing|apply sortKeys_increasing; by rewrite <- Hp|].
  by rewrite !sortKeys_perm.
Qed.

(** The bytes do not depend on the order in which Go iterates over a map:
    every enumeration of the same map gives the same text or the same error. *)
Theorem canonical_order_free (l k : list (bytes * gvalue)) (Hnd : NoDup l.*1) (Hp : l ≡ₚ k) :
  Marshal (VObject l) = Marshal (VObject k) /\ Marshal (VMap true l) = Marshal (VMap true k).
Proof.
  enough (writeValue (VObject l) = writeValue (VObject k)) by done.
  simpl. unfold writeObject. rewrite (sortKeys_unique (List.map (fun kv => (kv.1, writeValue kv.2)) l)
    (List.map (fun kv => (kv.1, writeValue kv.2)) k)); [done| |by apply Permutation_map].
  rewrite <- list_fmap_compose. done.
Qed.

#[local] Abbreviation demo_value :=
  (VObject [(bs "type", VString (bs "vote")); (bs "from", VString (bs "n1")); (bs "term", VInt 7)]).

Lemma demo_typed : wellTyped demo_value.
Proof. split; [|done]. apply (bool_decide_unpack (NoDup _)). vm_compute. exact I. Qed.

Lemma canonical_refines_witness :
  (exists out, Marshal demo_value = Ok out)
  /\ denote demo_value = Some (JObject [(bs "from", JString (bs "n1")); (bs "term", JInt 7); (bs "type", JString (bs "vote"))]).
Proof.
  assert (denote demo_value = Some (JObject [(bs "from", JString (bs "n1")); (bs "term", JInt 7); (bs "type", JString (bs "vote"))])) as H
    by (vm_compute; reflexivity).
  split; [|exact H]. eexists. apply (canonical_refines demo_value demo_typed). eexists. split; [exact H|reflexivity].
Defined.

Lemma canonical_unambiguous_witness : exists out, Marshal demo_value = Ok out /\ parseJSON out = denote demo_value.
Proof.
  eexists. split; [vm_compute; reflexivity|].
  apply (canonical_unambiguous demo_value demo_value); [exact demo_typed|exact demo_typed|vm_compute; reflexivity|vm_compute; reflexivity].
Defined.

Lemma canonical_order_free_witness :
  Marshal (VObject [(bs "a", VInt 1); (bs "b", VNil)]) = Marshal (VObject [(bs "b", VNil); (bs "a", VInt 1)]).
Proof.
  apply (canonical_order_free [(bs "a", VInt 1); (bs "b", VNil)] [(bs "b", VNil); (bs "a", VInt 1)]).
  - apply (bool_decide_unpack (NoDup _)). vm_compute. exact I.
  - apply Permutation_swap.
Defined.
