(* ===== verification/ServerNames.v ===== *)
(** * Server names: validation, and what the resolver reads out of them

    [server/validation.go]: the checks a request's server names and key IDs
    pass before anything else looks at them. [keys/resolver.go]'s
    [parseServerName]: host, port and whether the host is an IP literal. The
    names that pass are those of a small grammar. *)
From S2P Require Import Prelude Decimal GoStrings NetIP.
From Stdlib Require Import ZArith Lia.
From stdpp Require Import base list strings.
#[local] Open Scope Z_scope.

(** ** Validation ([server/validation.go]) *)

Definition maxServerNameLength : Z := 255.
Definition maxKeyIDLength : Z := 128.

Definition isASCII (s : bytes) : bool := forallb (fun b => bool_decide (byte_to_Z b <= 127)) s.

(** The runes of the loops below that are not ASCII fail the test, as the bytes
    of their encoding do. *)
Definition isValidPort (p : bytes) : bool :=
  if decide (length p = 0%nat \/ (5 < length p)%nat) then false
  else if forallb is_digit p then
    let num := digits_value p in bool_decide (0 < num /\ num <= 65535)
  else false.

Definition alnum (b : byte) : bool :=
  let c := byte_to_Z b in
  bool_decide ((97 <= c /\ c <= 122) \/ (65 <= c /\ c <= 90) \/ (48 <= c /\ c <= 57)).

Definition hyphen : byte := Byte.x2d.
Definition dot : byte := Byte.x2e.
Definition colon : byte := Byte.x3a.

(** One label of a hostname, in the order of the loop body. *)
Definition isValidLabel (label : bytes) : bool :=
  if decide (length label = 0%nat \/ (63 < length label)%nat) then false
  else if decide (head label = Some hyphen \/ last label = Some hyphen) then false
  else forallb (fun c => alnum c || bool_decide (c = hyphen)) label.

Definition isValidHostname (h : bytes) : bool :=
  if decide (length h = 0%nat) then false
  else if negb (isASCII h) then false
  else if decide (253 < length h)%nat then false
  else if decide (head h = Some hyphen \/ head h = Some dot \/ last h = Some hyphen \/ last h = Some dot) then false
  else forallb isValidLabel (Split h dot).

Definition isValidOctet (part : bytes) : bool :=
  if decide (length part = 0%nat \/ (3 < length part)%nat) then false
  else if negb (forallb is_digit part) then false
  else if decide (255 < digits_value part) then false
  else if decide ((1 < length part)%nat /\ head part = Some Byte.x30) then false
  else true.

Definition isValidIPv4 (ip : bytes) : bool :=
  let parts := Split ip dot in
  if decide (length parts <> 4%nat) then false else forallb isValidOctet parts.

Definition isValidIPv6 (ip : bytes) : bool :=
  bool_decide (is_Some (ParseIP ip)) && Contains ip (bs ":").

Definition isValidServerNameFormat (name : bytes) : bool :=
  if HasPrefix name (bs "[") then
    match Index_ name (bs "]") with
    | None => false
    | Some closeBracket =>
        let ipv6 := drop 1 (take closeBracket name) in
        if negb (isValidIPv6 ipv6) then false
        else if decide (closeBracket + 1 < length name)%nat then
          if decide (name !! (closeBracket + 1)%nat <> Some colon) then false
          else isValidPort (drop (closeBracket + 2) name)
        else true
    end
  else
    let '(hostname, port) :=
      match LastIndexByte name colon with
      | Some colonIdx =>
          let potentialHost := take colonIdx name in
          let potentialPort := drop (colonIdx + 1) name in
          if isValidPort potentialPort then (potentialHost, potentialPort) else (name, [])
      | None => (name, [])
      end in
    if negb (isValidHostname hostname) && negb (isValidIPv4 hostname) then false
    else if decide (port <> []) then isValidPort port else true.

Inductive name_err : Type :=
  | NameEmpty | NameTooLong | NameInvalidUTF8 | NameControl | NameFormat.

Definition ValidateServerName (name : bytes) (maxLen : Z) : option name_err :=
  if decide (name = []) then Some NameEmpty
  else
    let maxLen := if decide (maxLen <= 0) then maxServerNameLength else maxLen in
    if decide (maxLen < RuneCountInString name) then Some NameTooLong
    else if negb (ValidString name) then Some NameInvalidUTF8
    else if existsb (fun r => bool_decide (r < 32 \/ r = 127)) (runes name) then Some NameControl
    else if negb (isValidServerNameFormat name) then Some NameFormat
    else None.

Inductive keyid_err : Type :=
  | KeyIDEmpty | KeyIDTooLong | KeyIDAlgorithm | KeyIDFormat | KeyIDCharacter.

(** The second part of [SplitN(keyID, ":", 2)] after the prefix test is what
    follows the prefix. *)
Definition ValidateKeyID (keyID : bytes) : option keyid_err :=
  if decide (keyID = []) then Some KeyIDEmpty
  else if decide (maxKeyIDLength < len keyID) then Some KeyIDTooLong
  else if negb (HasPrefix keyID (bs "ed25519:")) then Some KeyIDAlgorithm
  else
    let part := drop 8 keyID in
    if decide (part = []) then Some KeyIDFormat
    else if forallb (fun c => alnum c || bool_decide (c = Byte.x5f)) part then None
    else Some KeyIDCharacter.

(** ** Parsing ([keys/resolver.go]) *)

(** [p, err := Atoi(s); err == nil && p > 0 && p <= 65535]. *)
Definition portNumber (s : bytes) : option Z :=
  match Atoi s with
  | Some p => if decide (p > 0 /\ p <= 65535) then Some p else None
  | None => None
  end.

Definition isIP (host : bytes) : bool := bool_decide (is_Some (ParseIP host)).

(** Host, port (0 for none), and whether the host is an IP literal. *)
Definition parseServerName (name : bytes) : bytes * Z * bool :=
  let name := TrimSpace name in
  if HasPrefix name (bs "[") then
    match Index_ name (bs "]") with
    | None => (name, 0, false)
    | Some closeBracket =>
        let hostname := drop 1 (take closeBracket name) in
        let rest := drop (closeBracket + 1) name in
        let port := if HasPrefix rest (bs ":") then default 0 (portNumber (drop 1 rest)) else 0 in
        (hostname, port, true)
    end
  else
    match LastIndexByte name colon with
    | Some colonIdx =>
        let maybeHost := take colonIdx name in
        match portNumber (drop (colonIdx + 1) name) with
        | Some p => (maybeHost, p, isIP maybeHost)
        | None => (name, 0, isIP name)
        end
    | None => (name, 0, isIP name)
    end.

Example name_vectors :
  ValidateServerName (bs "matrix.org:8448") 0 = None /\ ValidateServerName (bs "[::1]:80") 0 = None
  /\ ValidateServerName (bs "[::1]x") 0 = Some NameFormat /\ ValidateServerName (bs "a..b") 0 = Some NameFormat
  /\ ValidateServerName (bs "a:+1") 0 = Some NameFormat /\ ValidateServerName (bs "abc") 2 = Some NameTooLong
  /\ ValidateServerName [Byte.xff] 0 = Some NameInvalidUTF8 /\ ValidateServerName [Byte.x0a] 0 = Some NameControl
  /\ ValidateServerName (bs "fd00::1") 0 = Some NameFormat
  /\ ValidateKeyID (bs "ed25519:auto") = None /\ ValidateKeyID (bs "ed25519:") = Some KeyIDFormat
  /\ ValidateKeyID (bs "rsa:a") = Some KeyIDAlgorithm /\ ValidateKeyID (bs "ed25519:a-b") = Some KeyIDCharacter
  /\ parseServerName (bs " 10.0.0.1:+80 ") = (bs "10.0.0.1", 80, true)
  /\ parseServerName (bs "[::1]") = (bs "::1", 0, true) /\ parseServerName (bs "a:x") = (bs "a:x", 0, false).
Proof. by vm_compute. Qed.

(** ** The grammar of server names *)

Definition hostByte (b : byte) : bool := alnum b || bool_decide (b = hyphen).

Record label_ok (l : bytes) : Prop := {
  label_length : (1 <= length l <= 63)%nat;
  label_bytes : Forall (fun b => hostByte b = true) l;
  label_ends : head l <> Some hyphen /\ last l <> Some hyphen;
}.

(** Labels joined by dots. *)
Definition hostname_ok (h : bytes) : Prop :=
  exists labels, labels <> [] /\ Forall label_ok labels /\ h = Join_ labels dot /\ (length h <= 253)%nat.

Record port_ok (p : bytes) : Prop := {
  port_length : (1 <= length p <= 5)%nat;
  port_digits : Forall (fun b => is_digit b = true) p;
  port_range : 1 <= digits_value p <= 65535;
}.

Definition literal_ok (ip : bytes) : Prop := colon ∈ ip /\ is_Some (ParseIP ip).

(** [server_name name host port]: a hostname or a bracketed IPv6 literal, with
    an optional port. *)
Inductive server_name : bytes -> bytes -> option bytes -> Prop :=
  | SN_host h : hostname_ok h -> server_name h h None
  | SN_host_port h p : hostname_ok h -> port_ok p -> server_name (h ++ colon :: p) h (Some p)
  | SN_literal ip : literal_ok ip -> server_name (bs "[" ++ ip ++ bs "]") ip None
  | SN_literal_port ip p :
      literal_ok ip -> port_ok p -> server_name (bs "[" ++ ip ++ bs "]" ++ colon :: p) ip (Some p).

Lemma isValidPort_spec p : isValidPort p = true <-> port_ok p.
Proof.
  unfold isValidPort. case_decide; [split; [done|intros []; lia]|].
  destruct (forallb is_digit p) eqn:E.
  - apply forallb_Forall in E. rewrite bool_decide_eq_true. split; [intros ?; split; [lia|done|lia]|intros []; lia].
  - split; [done|]. intros [_ Hd _]. apply forallb_Forall in Hd. congruence.
Qed.

Lemma isValidLabel_spec l : isValidLabel l = true <-> label_ok l.
Proof.
  unfold isValidLabel. case_decide; [split; [done|intros []; lia]|].
  case_decide; [split; [done|intros [_ _ []]; tauto]|].
  rewrite forallb_Forall. split; [intros Hb; split; [lia|done|tauto]|by intros []].
Qed.

Lemma host_solid b : hostByte b = true -> solid b /\ b <> colon /\ b <> dot.
Proof.
  unfold hostByte, alnum, solid. intros [H|H]%orb_prop; apply bool_decide_eq_true in H.
  - split; [lia|]. split; intros ->; by destruct H as [[]|[[]|[]]].
  - by subst.
Qed.

Lemma digit_host b : is_digit b = true -> hostByte b = true.
Proof.
  intros H%bool_decide_eq_true. unfold hostByte, alnum. rewrite bool_decide_eq_true_2 by tauto. done.
Qed.

(** Both ends of a joined hostname are label bytes other than the hyphen. *)
Definition endByte (o : option byte) : Prop := exists b, o = Some b /\ hostByte b = true /\ b <> hyphen.

Lemma label_end l : label_ok l -> endByte (head l) /\ endByte (last l).
Proof.
  intros [Hl Hb [Hh Ht]]. split.
  - destruct l as [|b l]; [simpl in Hl; lia|]. inversion Hb; subst. exists b. split; [done|].
    split; [done|]. intros ->. by apply Hh.
  - destruct (last l) as [b|] eqn:E; [|apply last_None in E; subst; simpl in Hl; lia].
    exists b. split; [done|]. split; [|congruence].
    apply last_Some in E as [t ->]. apply Forall_app in Hb as [_ Hb]. by inversion Hb.
Qed.

Lemma head_app_cons (l : bytes) b t : l <> [] -> head (l ++ b :: t) = head l.
Proof. by destruct l. Qed.

Lemma hostname_ends labels :
  labels <> [] -> Forall label_ok labels -> endByte (head (Join_ labels dot)) /\ endByte (last (Join_ labels dot)).
Proof.
  intros Hne H. induction H as [|l labels Hl _ IH]; [done|].
  destruct labels as [|m labels]; [by apply label_end|].
  change (Join_ (l :: m :: labels) dot) with (l ++ dot :: Join_ (m :: labels) dot).
  destruct (IH ltac:(done)) as [_ (b & Eb & Hb)]. apply label_end in Hl as He. split.
  - rewrite head_app_cons; [apply He|]. intros ->. by destruct He as [(? & ? & _) _].
  - exists b. split; [|done]. rewrite last_app_cons, last_cons, Eb. done.
Qed.

Lemma hostname_bytes h : hostname_ok h -> Forall (fun b => hostByte b = true \/ b = dot) h.
Proof.
  intros (labels & _ & Hl & -> & _). induction Hl as [|l labels Hl _ IH]; [constructor|].
  assert (Forall (fun b => hostByte b = true \/ b = dot) l).
  { eapply Forall_impl; [apply Hl|]. by left. }
  destruct labels as [|m labels]; [done|]. apply Forall_app. split; [done|]. constructor; [by right|done].
Qed.

Lemma hostname_solid h : hostname_ok h -> Forall (fun b => solid b /\ b <> colon) h.
Proof.
  intros H%hostname_bytes. eapply Forall_impl; [done|]. intros b [Hb| ->]; [|done].
  by apply host_solid in Hb as (? & ? & _).
Qed.

Lemma isValidHostname_spec h : isValidHostname h = true <-> hostname_ok h.
Proof.
  unfold isValidHostname. split.
  - case_decide; [done|]. destruct (isASCII h); [|done]. simpl. case_decide as Hlen; [done|].
    case_decide; [done|]. intros Hl%forallb_Forall. exists (Split h dot).
    split; [apply Split_not_nil|]. split; [|split; [by rewrite Join_Split|lia]].
    eapply Forall_impl; [done|]. intros l. apply isValidLabel_spec.
  - intros Hh. pose proof (hostname_solid h Hh) as Hs. destruct Hh as (labels & Hne & Hl & Eh & Hlen).
    pose proof (hostname_ends labels Hne Hl) as [(a & Ea & Ha & Ha') (z & Ez & Hz & Hz')]. rewrite <- Eh in Ea, Ez.
    rewrite decide_False by (destruct h; simpl; [done|lia]).
    assert (isASCII h = true) as ->.
    { apply forallb_Forall. eapply Forall_impl; [done|]. intros b [Hb _].
      apply bool_decide_eq_true. unfold solid in Hb. lia. }
    simpl. rewrite decide_False by lia. rewrite Ea, Ez.
    apply host_solid in Ha as (_ & _ & Ha), Hz as (_ & _ & Hz).
    rewrite decide_False by (intros [?|[?|[?|?]]]; congruence).
    rewrite Eh, Split_Join; [|done|].
    + apply forallb_Forall. eapply Forall_impl; [done|]. intros l. apply isValidLabel_spec.
    + eapply Forall_impl; [done|]. intros l [_ Hb _] Hin.
      apply (proj1 (Forall_forall _ _) Hb), host_solid in Hin. tauto.
Qed.

Lemma isValidIPv4_hostname h : isValidIPv4 h = true -> hostname_ok h.
Proof.
  unfold isValidIPv4. case_decide as Hn; [done|]. intros Ho%forallb_Forall.
  assert (Forall (fun l => label_ok l /\ (length l <= 3)%nat) (Split h dot)) as Hl.
  { eapply Forall_impl; [done|]. intros l. unfold isValidOctet. case_decide; [done|].
    destruct (forallb is_digit l) eqn:Ed; [|done]. intros _. apply forallb_Forall in Ed. split; [|lia].
    assert (forall b, b ∈ l -> b <> hyphen) as Hh.
    { intros b Hb ->. by apply (proj1 (Forall_forall _ _) Ed) in Hb. }
    split; [lia| |].
    - eapply Forall_impl; [done|]. apply digit_host.
    - split; intros E; eapply Hh; [|done| |done].
      + destruct l; [done|]. injection E as ->. apply list_elem_of_here.
      + apply last_Some in E as [t ->]. apply elem_of_app. right. by apply list_elem_of_singleton. }
  exists (Split h dot). split; [apply Split_not_nil|]. split; [|split; [by rewrite Join_Split|]].
  - eapply Forall_impl; [done|]. by intros l [? _].
  - rewrite <- (Join_Split h dot). clear Ho. destruct (Split h dot) as [|a [|b [|c [|d [|]]]]]; try done.
    inversion Hl as [|? ? [_ ?] Hl1]; subst. inversion Hl1 as [|? ? [_ ?] Hl2]; subst.
    inversion Hl2 as [|? ? [_ ?] Hl3]; subst. inversion Hl3 as [|? ? [_ ?] _]; subst.
    simpl. repeat (rewrite length_app; simpl). lia.
Qed.

Lemma isValidIPv6_spec ip : isValidIPv6 ip = true <-> literal_ok ip.
Proof.
  unfold isValidIPv6, literal_ok. rewrite andb_true_iff, bool_decide_eq_true, (Contains_byte ip colon). tauto.
Qed.

Lemma literal_bytes ip : literal_ok ip -> Forall (fun b => solid b /\ b <> Byte.x5d) ip.
Proof.
  intros [_ [a H]]. apply ParseIP_bytes in H. eapply Forall_impl; [done|]. intros b [Hb|[->| ->]]; [|done..].
  split; [|intros ->; by destruct Hb].
  unfold hexDigitValue, solid in *. repeat case_decide; try (by destruct Hb); lia.
Qed.

(** The shape of a name that starts with a bracket. *)
Lemma bracket_split name i :
  HasPrefix name (bs "[") = true -> Index_ name (bs "]") = Some i ->
  exists ip rest, name = (Byte.x5b :: ip) ++ Byte.x5d :: rest /\ length (Byte.x5b :: ip) = i.
Proof.
  intros Hp Hi. apply Index_Some in Hi as [(a & b & -> & Hl) _].
  apply HasPrefix_spec in Hp as [t Ht]. destruct a as [|c a]; [done|]. injection Ht as -> _.
  by exists a, b.
Qed.

Lemma bracket_format name :
  HasPrefix name (bs "[") = true -> isValidServerNameFormat name = true ->
  exists host port, server_name name host port.
Proof.
  intros Hp. unfold isValidServerNameFormat. rewrite Hp.
  destruct (Index_ name (bs "]")) as [i|] eqn:Ei; [|done].
  destruct (bracket_split name i Hp Ei) as (ip & rest & -> & <-).
  rewrite take_sep. change (drop 1 (Byte.x5b :: ip)) with ip.
  destruct (isValidIPv6 ip) eqn:E6; [|done]. apply isValidIPv6_spec in E6. cbn [negb].
  destruct rest as [|c rest].
  - intros _. exists ip, None. by apply SN_literal.
  - rewrite decide_True by (rewrite length_app; simpl; lia).
    assert (((Byte.x5b :: ip) ++ Byte.x5d :: c :: rest) !! (length (Byte.x5b :: ip) + 1)%nat = Some c) as ->.
    { by rewrite <- (Nat.add_0_r (length _ + 1)), <- lookup_drop, drop_sep. }
    destruct (decide (Some c <> Some colon)) as [|Hc]; [done|]. apply dec_stable in Hc. injection Hc as ->.
    replace (length (Byte.x5b :: ip) + 2)%nat with (length (Byte.x5b :: ip) + 1 + 1)%nat by lia.
    rewrite <- drop_drop, (drop_sep (Byte.x5b :: ip)). intros Hport%isValidPort_spec.
    exists ip, (Some rest). by apply SN_literal_port.
Qed.

Lemma plain_format name :
  HasPrefix name (bs "[") = false -> isValidServerNameFormat name = true ->
  exists host port, server_name name host port.
Proof.
  intros Hp. unfold isValidServerNameFormat. rewrite Hp.
  assert (forall h, negb (isValidHostname h) && negb (isValidIPv4 h) = false -> hostname_ok h) as Hhost.
  { intros h. destruct (isValidHostname h) eqn:E; [intros _; by apply isValidHostname_spec|].
    destruct (isValidIPv4 h) eqn:E4; [|done]. intros _. by apply isValidIPv4_hostname. }
  assert (hostname_ok name -> exists host port, server_name name host port) as Hwhole.
  { intros H. exists name, None. by apply SN_host. }
  destruct (LastIndexByte name colon) as [i|] eqn:Ei.
  - destruct (isValidPort (drop (i + 1) name)) eqn:Ep.
    + destruct (negb _ && negb _) eqn:Eh; [done|]. intros _. apply Hhost in Eh. apply isValidPort_spec in Ep.
      apply LastIndexByte_Some in Ei as [Hs _]. rewrite Hs.
      exists (take i name), (Some (drop (S i) name)). apply SN_host_port; [done|]. by rewrite Nat.add_1_r in Ep.
    + destruct (negb _ && negb _) eqn:Eh; [done|]. intros _. by apply Hwhole, Hhost.
  - destruct (negb _ && negb _) eqn:Eh; [done|]. intros _. by apply Hwhole, Hhost.
Qed.

(** The parts the checks and the parser find in a name of the grammar. *)
Lemma plain_prefix h t : hostname_ok h -> HasPrefix (h ++ t) (bs "[") = false.
Proof.
  intros Hh. pose proof (hostname_bytes h Hh) as Hb. destruct Hh as (labels & Hne & Hl & -> & _).
  destruct (hostname_ends labels Hne Hl) as [(b & Eb & Hbb & _) _].
  destruct (Join_ labels dot) as [|c s]; [done|]. injection Eb as ->. simpl.
  rewrite bool_decide_eq_false_2; [done|]. intros <-. by vm_compute in Hbb.
Qed.

Lemma port_colon p : port_ok p -> colon ∉ p.
Proof. intros [_ Hd _] Hin. by apply (proj1 (Forall_forall _ _) Hd) in Hin. Qed.

Lemma host_colon h : hostname_ok h -> colon ∉ h.
Proof. intros Hh Hin. apply (proj1 (Forall_forall _ _) (hostname_solid h Hh)) in Hin. tauto. Qed.

Lemma literal_bracket ip : literal_ok ip -> Byte.x5d ∉ Byte.x5b :: ip.
Proof.
  intros Hip. apply not_elem_of_cons. split; [done|]. intros Hin.
  apply (proj1 (Forall_forall _ _) (literal_bytes ip Hip)) in Hin. tauto.
Qed.

Lemma hostname_check h : hostname_ok h -> negb (isValidHostname h) && negb (isValidIPv4 h) = false.
Proof. intros Hh. apply isValidHostname_spec in Hh. by rewrite Hh. Qed.

Lemma format_complete name host port : server_name name host port -> isValidServerNameFormat name = true.
Proof.
  intros H. unfold isValidServerNameFormat. destruct H as [h Hh|h p Hh Hp|ip Hip|ip p Hip Hp].
  - rewrite <- (app_nil_r h), plain_prefix, app_nil_r by done.
    rewrite LastIndexByte_free, hostname_check by (try apply host_colon; done). done.
  - rewrite plain_prefix, LastIndexByte_app by (try apply port_colon; done).
    rewrite drop_sep, take_sep. apply isValidPort_spec in Hp as Ep. rewrite Ep, hostname_check by done.
    by case_decide.
  - change (bs "[" ++ ip ++ bs "]") with ((Byte.x5b :: ip) ++ [Byte.x5d]).
    rewrite (Index_byte _ Byte.x5d) by (by apply literal_bracket). rewrite take_sep.
    change (drop 1 (Byte.x5b :: ip)) with ip. apply isValidIPv6_spec in Hip as E. rewrite E. simpl.
    rewrite decide_False; [done|]. rewrite length_app. simpl. lia.
  - change (bs "[" ++ ip ++ bs "]" ++ colon :: p) with ((Byte.x5b :: ip) ++ Byte.x5d :: colon :: p).
    rewrite (Index_byte _ Byte.x5d) by (by apply literal_bracket). rewrite take_sep.
    change (drop 1 (Byte.x5b :: ip)) with ip. apply isValidIPv6_spec in Hip as E. rewrite E.
    cbn [negb HasPrefix bs]. rewrite decide_True by (rewrite length_app; simpl; lia).
    assert (((Byte.x5b :: ip) ++ Byte.x5d :: colon :: p) !! (length (Byte.x5b :: ip) + 1)%nat = Some colon) as ->.
    { by rewrite <- (Nat.add_0_r (length _ + 1)), <- lookup_drop, drop_sep. }
    rewrite decide_False by (by intros []).
    replace (length (Byte.x5b :: ip) + 2)%nat with (length (Byte.x5b :: ip) + 1 + 1)%nat by lia.
    rewrite <- drop_drop, (drop_sep (Byte.x5b :: ip)). by apply isValidPort_spec.
Qed.

Lemma server_name_solid name host port :
  server_name name host port -> name <> [] /\ Forall solid name.
Proof.
  assert (forall p, port_ok p -> Forall solid p) as Hport.
  { intros p [_ Hd _]. eapply Forall_impl; [done|]. intros b Hb.
    by apply digit_host, host_solid in Hb as (? & _). }
  assert (forall h, hostname_ok h -> Forall solid h) as Hhost.
  { intros h Hh. eapply Forall_impl; [by apply hostname_solid|]. by intros b []. }
  assert (forall ip, literal_ok ip -> Forall solid ip) as Hlit.
  { intros ip Hip. eapply Forall_impl; [by apply literal_bytes|]. by intros b []. }
  intros H. destruct H as [h Hh|h p Hh Hp|ip Hip|ip p Hip Hp].
  - split; [|by apply Hhost]. intros ->. destruct Hh as (labels & Hne & Hl & E & _).
    destruct (hostname_ends labels Hne Hl) as [(b & Eb & _) _]. by rewrite <- E in Eb.
  - split; [by destruct h|]. apply Forall_app. split; [by apply Hhost|]. constructor; [done|by apply Hport].
  - split; [done|]. constructor; [done|]. apply Forall_app. split; [by apply Hlit|]. by repeat constructor.
  - split; [done|]. constructor; [done|]. apply Forall_app. split; [by apply Hlit|].
    constructor; [done|]. constructor; [done|by apply Hport].
Qed.

(** What the resolver reads out of a name of the grammar. *)
Lemma portNumber_ok p : port_ok p -> portNumber p = Some (digits_value p).
Proof.
  intros [Hl Hd Hr]. unfold portNumber.
  rewrite Atoi_digits; [|by destruct p; [simpl in Hl; lia|]|done|lia]. by rewrite decide_True by lia.
Qed.

Lemma literal_isIP ip : literal_ok ip -> isIP ip = true.
Proof. intros [_ H]. by apply bool_decide_eq_true. Qed.

Lemma parse_server_name name host port :
  server_name name host port -> parseServerName name = (host, default 0 (digits_value <$> port), isIP host).
Proof.
  intros H. assert (TrimSpace name = name) as Htrim.
  { apply server_name_solid in H as [Hne Hs]. apply TrimSpace_solid; [by destruct Hs|].
    rewrite <- (rev_involutive name) in Hne, Hs. apply List.Forall_rev in Hs. rewrite rev_involutive in Hs.
    by destruct Hs. }
  unfold parseServerName. rewrite Htrim. clear Htrim.
  destruct H as [h Hh|h p Hh Hp|ip Hip|ip p Hip Hp].
  - rewrite <- (app_nil_r h) at 1. rewrite plain_prefix by done.
    by rewrite LastIndexByte_free by (by apply host_colon).
  - rewrite plain_prefix, LastIndexByte_app by (try apply port_colon; done).
    by rewrite drop_sep, take_sep, portNumber_ok.
  - change (bs "[" ++ ip ++ bs "]") with ((Byte.x5b :: ip) ++ [Byte.x5d]).
    rewrite (Index_byte _ Byte.x5d) by (by apply literal_bracket). rewrite take_sep, drop_sep.
    by rewrite (literal_isIP ip).
  - change (bs "[" ++ ip ++ bs "]" ++ colon :: p) with ((Byte.x5b :: ip) ++ Byte.x5d :: colon :: p).
    rewrite (Index_byte _ Byte.x5d) by (by apply literal_bracket). rewrite take_sep, drop_sep.
    rewrite (literal_isIP ip) by done.
    change (drop 1 (colon :: p)) with p. by rewrite portNumber_ok.
Qed.

(** C23. Server name validation accepts exactly the names of the grammar
    (dot-separated labels or a bracketed IPv6 literal, then an optional port
    from 1 to 65535) within the length limit; and from such a name the resolver
    reads the host and the port that the grammar gives it. *)
Theorem validate_grammar name maxLen :
  ValidateServerName name maxLen = None
  <-> len name <= (if decide (maxLen <= 0) then maxServerNameLength else maxLen)
      /\ exists host port, server_name name host port
         /\ parseServerName name = (host, default 0 (digits_value <$> port), isIP host).
Proof.
  unfold ValidateServerName. set (limit := if decide (maxLen <= 0) then _ else _).
  assert (forall host port, server_name name host port ->
    name <> [] /\ runes name = map byte_to_Z name /\ ValidString name = true
    /\ existsb (fun r => bool_decide (r < 32 \/ r = 127)) (runes name) = false) as Hn.
  { intros host port H. apply server_name_solid in H as [Hne Hs].
    assert (isAscii name) as Ha by (eapply Forall_impl; [done|]; unfold solid; intros; lia).
    split; [done|]. rewrite runes_ascii by done. split; [done|]. split; [by apply isAscii_valid|].
    clear Ha Hne. induction Hs as [|b s Hb _ IH]; [done|]. simpl. rewrite IH, orb_false_r.
    apply bool_decide_eq_false. unfold solid in Hb. lia. }
  split.
  - case_decide; [done|]. case_decide as Hlen; [done|]. destruct (ValidString name); [|done]. simpl.
    destruct (existsb _ _); [done|]. destruct (isValidServerNameFormat name) eqn:Ef; [|done]. intros _.
    assert (exists host port, server_name name host port) as (host & port & Hsn).
    { destruct (HasPrefix name (bs "[")) eqn:Ep; [by apply bracket_format|by apply plain_format]. }
    destruct (Hn host port Hsn) as (_ & Er & _). unfold RuneCountInString in Hlen. rewrite Er in Hlen.
    unfold len in *. rewrite length_map in Hlen. split; [lia|].
    exists host, port. split; [done|]. by apply parse_server_name.
  - intros (Hlen & host & port & H & _). destruct (Hn host port H) as (Hne & Er & Hv & Hc).
    rewrite decide_False by done. unfold RuneCountInString. rewrite Hc, Hv, Er.
    rewrite decide_False by (unfold len in *; rewrite length_map; lia).
    by rewrite (format_complete name host port H).
Qed.
