(* ===== verification/TrustPolicy.v ===== *)
(** * The trust policy (keys/trustpolicy.go, trustpolicy_checks.go, trustpolicy_runtime.go)

    Deny and allow lists with wildcards, the block on private IP literals, the
    demands on well-known and TLS, and the checks on a key response. A slice
    expression out of range panics in Go: an operation that can reach one
    returns [None] when it does. *)
From S2P Require Import Prelude Decimal GoTime GoStrings NetIP ServerNames.
From Stdlib Require Import ZArith Lia.
From stdpp Require Import base gmap list strings fin_maps.
#[local] Open Scope Z_scope.

Definition star : byte := Byte.x2a.

Record TrustPolicyConfig : Type := mkPolicyConfig {
  Enabled : bool;
  DenyList : list bytes;
  AllowList : list bytes;
  RequireNotarySignatures : Z;
  MaxKeyAgeHours : Z;
  RequireWellKnown : bool;
  RequireValidTLS : bool;
  BlockPrivateIPs : bool;
}.

Record TrustPolicy : Type := mkPolicy {
  enabled : bool;
  denyList : list bytes;
  allowList : list bytes;
  denyPatterns : list bytes;
  allowPatterns : list bytes;
  requireNotarySignatures : Z;
  maxKeyAgeHours : Z;
  requireWellKnown : bool;
  requireValidTLS : bool;
  blockPrivateIPs : bool;
}.

(** The text of a violation, or the values its format is given. *)
Inductive detail : Type :=
  | Text (t : bytes)
  | PrivateAddress (ip : IP)
  | KeyValidity (keyAge maxAge : Z)
  | NotaryCount (count required : Z).

Record PolicyViolation : Type := mkViolation {
  Rule : bytes;
  ViolationServer : bytes;
  Details : detail;
}.

(** [keys/types.go]: the response of a key server. *)
Record VerifyKeyResponse : Type := mkVerifyKey {
  vk_Key : bytes;
}.

Record OldKeyResponse : Type := mkOldKey {
  ok_Key : bytes;
  ok_ExpiredTS : Z;
}.

Record ServerKeysResponse : Type := mkResponse {
  skr_ServerName : bytes;
  VerifyKeys : gmap bytes VerifyKeyResponse;
  OldVerifyKeys : gmap bytes OldKeyResponse;
  ValidUntilTS : Z;
  Signatures : gmap bytes (gmap bytes bytes);
  Raw : bytes;
}.

(** The entries with a wildcard, in order. *)
Definition compilePatterns (entries : list bytes) : list bytes :=
  filter (fun entry => Contains entry (bs "*") = true) entries.

Definition NewTrustPolicy (cfg : TrustPolicyConfig) : TrustPolicy :=
  mkPolicy (Enabled cfg) (DenyList cfg) (AllowList cfg)
    (compilePatterns (DenyList cfg)) (compilePatterns (AllowList cfg))
    (RequireNotarySignatures cfg) (MaxKeyAgeHours cfg) (RequireWellKnown cfg) (RequireValidTLS cfg) (BlockPrivateIPs cfg).

(** [Reload] overwrites every field, the patterns after a reset. *)
Definition Reload (cfg : TrustPolicyConfig) (tp : TrustPolicy) : TrustPolicy :=
  mkPolicy (Enabled cfg) (DenyList cfg) (AllowList cfg)
    (compilePatterns (DenyList cfg)) (compilePatterns (AllowList cfg))
    (RequireNotarySignatures cfg) (MaxKeyAgeHours cfg) (RequireWellKnown cfg) (RequireValidTLS cfg) (BlockPrivateIPs cfg).

(** ** Wildcards *)

(** The parts between the first and the last, found from left to right. *)
Fixpoint matchMiddle (parts : list bytes) (remaining : bytes) : bool :=
  match parts with
  | [] => true
  | part :: parts =>
      if decide (part = []) then matchMiddle parts remaining
      else match Index_ remaining part with
           | None => false
           | Some idx => matchMiddle parts (drop (idx + length part) remaining)
           end
  end.

(** [remaining[:n]], which panics below zero. *)
Definition sliceTo (s : bytes) (n : Z) : option bytes :=
  if decide (0 <= n) then Some (take (Z.to_nat n) s) else None.

Definition matchWildcard (pattern s : bytes) : option bool :=
  if decide (pattern = bs "*") then Some true
  else
    match Split pattern star with
    | first :: (_ :: _) as rest =>
        let lastPart := default [] (last rest) in
        if decide (first <> [] /\ HasPrefix s first = false) then Some false
        else if decide (lastPart <> [] /\ HasSuffix s lastPart = false) then Some false
        else
          let remaining := if decide (first <> []) then drop (length first) s else s in
          let cut := if decide (lastPart <> []) then sliceTo remaining (len remaining - len lastPart) else Some remaining in
          match cut with
          | None => None
          | Some remaining => Some (matchMiddle (removelast rest) remaining)
          end
    | _ => Some (bool_decide (pattern = s))
    end.

(** The loop over the compiled patterns. *)
Fixpoint matchAny (patterns : list bytes) (serverName : bytes) : option bool :=
  match patterns with
  | [] => Some false
  | pattern :: patterns =>
      match matchWildcard pattern serverName with
      | None => None
      | Some true => Some true
      | Some false => matchAny patterns serverName
      end
  end.

Definition matchExact (entries : list bytes) (serverName : bytes) : bool :=
  existsb (fun e => negb (Contains e (bs "*")) && bool_decide (e = serverName)) entries.

Definition isDenied (tp : TrustPolicy) (serverName : bytes) : option bool :=
  if matchExact (denyList tp) serverName then Some true else matchAny (denyPatterns tp) serverName.

Definition isAllowed (tp : TrustPolicy) (serverName : bytes) : option bool :=
  if matchExact (allowList tp) serverName then Some true else matchAny (allowPatterns tp) serverName.

(** ** Private addresses *)

Definition reserved : list bytes :=
  [bs "0.0.0.0/8"; bs "100.64.0.0/10"; bs "169.254.0.0/16"; bs "192.0.0.0/24"; bs "192.0.2.0/24";
   bs "198.51.100.0/24"; bs "203.0.113.0/24"; bs "224.0.0.0/4"; bs "240.0.0.0/4"; bs "255.255.255.255/32"].

Definition isPrivateIP (ip : IP) : bool :=
  if IsLoopback ip || IsPrivate ip || IsLinkLocalUnicast ip || IsLinkLocalMulticast ip then true
  else existsb (fun cidr => match ParseCIDR cidr with
                            | None => false
                            | Some network => netContains network ip
                            end) reserved.

(** The host that [checkPrivateIP] takes out of a name. *)
Definition policyHost (serverName : bytes) : bytes :=
  let host := match LastIndexByte serverName colon with
              | Some idx => if negb (Contains serverName (bs "[")) then take idx serverName else serverName
              | None => serverName
              end in
  if HasPrefix host (bs "[") && Contains host (bs "]")
  then drop 1 (take (default 0%nat (Index_ host (bs "]"))) host) else host.

Definition checkPrivateIP (serverName : bytes) : option PolicyViolation :=
  match ParseIP (policyHost serverName) with
  | None => None
  | Some ip =>
      if isPrivateIP ip then Some (mkViolation (bs "block_private_ips") serverName (PrivateAddress ip)) else None
  end.

(** ** Well-known and TLS *)

Definition checkRequireWellKnown (serverName : bytes) : option PolicyViolation :=
  let violation t := Some (mkViolation (bs "require_well_known") serverName (Text t)) in
  let '(host, port, isIP) := parseServerName serverName in
  if decide (host = []) then violation (bs "server name is empty")
  else if (isIP : bool) then violation (bs "IP literals bypass well-known delegation")
  else if decide (port <> 0) then violation (bs "explicit port bypasses well-known delegation")
  else None.

Definition localName (host : bytes) : bool :=
  let normalized := ToLower host in
  bool_decide (normalized = bs "localhost") || HasSuffix normalized (bs ".localhost") || HasSuffix normalized (bs ".local").

Definition checkRequireValidTLS (serverName : bytes) : option PolicyViolation :=
  let violation t := Some (mkViolation (bs "require_valid_tls") serverName (Text t)) in
  let '(host, _, isIP) := parseServerName serverName in
  if decide (host = []) then violation (bs "server name is empty")
  else if (isIP : bool)
  then violation (bs "IP literals are not allowed when strict TLS validation is required")
  else if localName host
  then violation (bs "local hostnames are not allowed when strict TLS validation is required")
  else None.

(** ** The two checks *)

(** The outer [option] is the panic, the inner one the violation. *)
Definition CheckServer (tp : TrustPolicy) (serverName : bytes) : option (option PolicyViolation) :=
  if negb (enabled tp) then Some None
  else
    match isDenied tp serverName with
    | None => None
    | Some true => Some (Some (mkViolation (bs "deny_list") serverName (Text (bs "server is on deny list"))))
    | Some false =>
        match (if decide (allowList tp <> []) then isAllowed tp serverName else Some true) with
        | None => None
        | Some false => Some (Some (mkViolation (bs "allow_list") serverName (Text (bs "server is not on allow list"))))
        | Some true =>
            let try (on : bool) (check : bytes -> option PolicyViolation) := if on then check serverName else None in
            match try (blockPrivateIPs tp) checkPrivateIP with
            | Some v => Some (Some v)
            | None =>
                match try (requireWellKnown tp) checkRequireWellKnown with
                | Some v => Some (Some v)
                | None => Some (try (requireValidTLS tp) checkRequireValidTLS)
                end
            end
        end
    end.

(** The number of signers other than the origin. *)
Definition countNotarySignatures (serverName : bytes) (resp : ServerKeysResponse) : Z :=
  len (filter (fun signer => signer <> serverName) (elements (dom (Signatures resp)))).

(** [now] is the clock that [time.Until] reads, in nanoseconds. *)
Definition CheckResponse (now : Z) (tp : TrustPolicy) (serverName : bytes) (resp : ServerKeysResponse)
  : option PolicyViolation :=
  if negb (enabled tp) then None
  else
    let maxAge := wrap_int (maxKeyAgeHours tp * Hour) in
    let keyAge := timeSub (ValidUntilTS resp * 1000000) now in
    if decide (maxKeyAgeHours tp > 0 /\ keyAge > maxAge)
    then Some (mkViolation (bs "max_key_age") serverName (KeyValidity keyAge maxAge))
    else
      let notaryCount := countNotarySignatures serverName resp in
      if decide (requireNotarySignatures tp > 0 /\ notaryCount < requireNotarySignatures tp)
      then Some (mkViolation (bs "require_notary_signatures") serverName (NotaryCount notaryCount (requireNotarySignatures tp)))
      else None.

Example wildcard_vectors :
  matchWildcard (bs "*.spam.org") (bs "a.spam.org") = Some true
  /\ matchWildcard (bs "a*b*c") (bs "axxbyyc") = Some true /\ matchWildcard (bs "a*b*c") (bs "axxc") = Some false
  /\ matchWildcard (bs "a*a") (bs "a") = None /\ matchWildcard (bs "abc*bcd") (bs "abcd") = None
  /\ matchWildcard (bs "a**") (bs "a") = Some true /\ matchWildcard (bs "ab") (bs "ab") = Some true.
Proof. by vm_compute. Qed.

(** ** Wildcards match as globs

    [fills parts s]: the parts in order, with anything between two of them. *)
Inductive fills : list bytes -> bytes -> Prop :=
  | fills_last part : fills [part] part
  | fills_cons part gap parts s : fills parts s -> fills (part :: parts) (part ++ gap ++ s).

Definition glob (pattern s : bytes) : Prop := fills (Split pattern star) s.

(** The middle parts occur in order, without overlap. *)
Fixpoint occurs (parts : list bytes) (s : bytes) : Prop :=
  match parts with
  | [] => True
  | part :: parts => exists a b, s = a ++ part ++ b /\ occurs parts b
  end.

Lemma occurs_app parts a s : occurs parts s -> occurs parts (a ++ s).
Proof.
  destruct parts as [|part parts]; [done|]. intros (x & y & -> & H).
  exists (a ++ x), y. by rewrite <- !app_assoc.
Qed.

(** The leftmost choice loses nothing. *)
Lemma matchMiddle_spec parts s : matchMiddle parts s = true <-> occurs parts s.
Proof.
  revert s. induction parts as [|part parts IH]; intros s; [done|]. cbn [matchMiddle occurs].
  case_decide as Hp.
  - subst. rewrite IH. split; [intros H; by exists [], s|]. intros (a & b & -> & H). by apply occurs_app.
  - destruct (Index_ s part) as [i|] eqn:E.
    + apply Index_Some in E as [(a & b & -> & <-) Hmin]. rewrite app_assoc, drop_app_length' by (by rewrite length_app).
      rewrite IH. split; [intros H; exists a, b; by rewrite <- app_assoc|].
      intros (x & y & Hs & H). rewrite <- app_assoc in Hs. pose proof (Hmin x y Hs) as Hle.
      assert (y = drop (length x + length part) (a ++ part ++ b)) as ->.
      { by rewrite Hs, app_assoc, drop_app_length' by (by rewrite length_app). }
      revert H. replace (length x + length part)%nat with (length (a ++ part) + (length x - length a))%nat
        by (rewrite length_app; lia).
      rewrite <- drop_drop, app_assoc, drop_app_length. intros H.
      rewrite <- (take_drop (length x - length a) b). by apply occurs_app.
    + split; [done|]. intros (a & b & -> & _). by destruct (Index_None _ _ E a b).
Qed.

Lemma fills_frame first mid final s :
  fills (first :: mid ++ [final]) s <-> exists r, s = first ++ r ++ final /\ occurs mid r.
Proof.
  revert first s. induction mid as [|part mid IH]; intros first s; split.
  - intros H. inversion H as [|? gap ? t Ht]; subst. inversion Ht as [|? ? ? ? Hn]; subst; [by exists gap|inversion Hn].
  - intros (r & -> & _). apply fills_cons, fills_last.
  - intros H. inversion H as [|? gap ? t Ht]; subst. apply IH in Ht as (r & -> & Hr).
    exists (gap ++ part ++ r). split; [by rewrite <- !app_assoc|]. by exists gap, r.
  - intros (r & -> & a & b & -> & Hr). rewrite <- !app_assoc. apply fills_cons, IH. by exists b.
Qed.

(** The first and the last part of a pattern, when it has a star. *)
Definition overlap (pattern s : bytes) : Prop :=
  exists first mid final, Split pattern star = first :: mid ++ [final]
    /\ HasPrefix s first = true /\ HasSuffix s final = true /\ (length s < length first + length final)%nat.

(** The parts of a matched frame. *)
Lemma frame_length s first final :
  HasPrefix s first = true -> HasSuffix s final = true -> ~ (length s < length first + length final)%nat ->
  exists r, s = first ++ r ++ final.
Proof.
  intros [t ->]%HasPrefix_spec [u Hu]%HasSuffix_spec Hl. rewrite length_app in Hl.
  exists (take (length t - length final) t). f_equal.
  assert (final = drop (length t - length final) t) as Hf.
  { apply (f_equal (drop (length u))) in Hu as Hd. rewrite drop_app_length in Hd.
    etrans; [symmetry; exact Hd|].
    apply (f_equal length) in Hu. rewrite !length_app in Hu.
    replace (length u) with (length first + (length t - length final))%nat by lia.
    by rewrite <- drop_drop, drop_app_length. }
  transitivity (take (length t - length final) t ++ drop (length t - length final) t); [by rewrite take_drop|].
  by rewrite <- Hf.
Qed.

Lemma split_star pattern :
  Split pattern star = [pattern] \/ exists first mid final, Split pattern star = first :: mid ++ [final].
Proof.
  pose proof (Split_not_nil pattern star) as Hne. pose proof (Join_Split pattern star) as Hj.
  destruct (Split pattern star) as [|first rest]; [done|]. destruct rest as [|p rest].
  - left. simpl in Hj. by subst.
  - right. destruct (exists_last (l := p :: rest)) as (mid & final & E); [done|]. exists first, mid, final. by rewrite E.
Qed.

(** The answer on a pattern with a star. *)
Lemma matchWildcard_frame pattern s first mid final :
  Split pattern star = first :: mid ++ [final] ->
  (HasPrefix s first = false \/ HasSuffix s final = false -> pattern <> bs "*" -> matchWildcard pattern s = Some false)
  /\ (overlap pattern s -> matchWildcard pattern s = None)
  /\ (forall r, s = first ++ r ++ final -> pattern <> bs "*" -> matchWildcard pattern s = Some (matchMiddle mid r)).
Proof.
  intros E.
  unfold matchWildcard. rewrite E.
  assert (exists p rest, mid ++ [final] = p :: rest) as (p & rest & Er).
  { destruct mid; simpl; eauto. }
  rewrite Er, <- Er, last_snoc, removelast_last. simpl default. split_and!.
  - intros Hno Hp. rewrite decide_False by done.
    destruct (decide (first <> [] /\ HasPrefix s first = false)) as [|Hf]; [done|].
    rewrite decide_True; [done|]. destruct Hno as [Hno|Hno].
    + destruct Hf. split; [|done]. by intros ->.
    + split; [|done]. intros ->. unfold HasSuffix in Hno. done.
  - intros (f & m & l & E' & Hf & Hl & Hlen). rewrite E in E'.
    injection E' as <- E'. apply app_inj_tail in E' as [<- <-].
    assert (first <> [] /\ final <> []) as [Hfn Hln].
    { apply HasPrefix_spec in Hf as [t ->]. apply HasSuffix_spec in Hl as [u Hu].
      rewrite length_app in Hlen. apply (f_equal length) in Hu. rewrite !length_app in Hu.
      split; intros ->; simpl in *; lia. }
    rewrite decide_False; [|intros ->; vm_compute in E; by injection E as <-].
    rewrite decide_False by (intros []; congruence). rewrite decide_False by (intros []; congruence).
    rewrite !decide_True by done. unfold sliceTo. rewrite decide_False; [done|].
    apply HasPrefix_spec in Hf as [t ->]. rewrite drop_app_length. rewrite length_app in Hlen. unfold len. lia.
  - intros r -> Hp. rewrite decide_False by done.
    rewrite decide_False; [|intros [_ Hf]; assert (HasPrefix (first ++ r ++ final) first = true); [apply HasPrefix_spec; eauto|congruence]].
    rewrite decide_False; [|intros [_ Hf]; assert (HasSuffix (first ++ r ++ final) final = true);
      [apply HasSuffix_spec; exists (first ++ r); by rewrite app_assoc|congruence]].
    assert ((if decide (first <> []) then drop (length first) (first ++ r ++ final) else first ++ r ++ final) = r ++ final) as ->.
    { case_decide as Hf; [by rewrite drop_app_length|]. by subst. }
    destruct (decide (final <> [])) as [|Hl].
    + unfold sliceTo. rewrite decide_True by (unfold len; rewrite length_app; lia).
      rewrite take_app_length'; [done|]. unfold len. rewrite length_app. lia.
    + apply dec_stable in Hl as ->. by rewrite app_nil_r.
Qed.

(** The matcher decides glob matching, and the one input on which it does not
    answer is a name in which the text before the first star and the text after
    the last one overlap: there the slice bound is negative. *)
Lemma matchWildcard_spec pattern s :
  (matchWildcard pattern s = Some true <-> glob pattern s)
  /\ (matchWildcard pattern s = None <-> overlap pattern s).
Proof.
  assert (forall f m l r, overlap pattern s -> Split pattern star = f :: m ++ [l] -> s <> f ++ r ++ l) as Hov.
  { intros f m l r (f' & m' & l' & E & _ & _ & Hlen) E'. rewrite E in E'. injection E' as <- E'.
    apply app_inj_tail in E' as [<- <-]. intros ->. rewrite !length_app in Hlen. lia. }
  destruct (split_star pattern) as [E|(first & mid & final & E)].
  - assert (matchWildcard pattern s = Some (bool_decide (pattern = s))) as ->.
    { unfold matchWildcard. rewrite E, decide_False; [done|]. intros ->. by vm_compute in E. }
    unfold glob. rewrite E. split.
    + rewrite (inj_iff Some), bool_decide_eq_true. split; [intros ->; apply fills_last|].
      intros H. inversion H as [|? ? ? ? Hn]; [done|inversion Hn].
    + split; [done|]. intros (f & m & l & E' & _). rewrite E in E'. by destruct m.
  - unfold glob. rewrite E, fills_frame.
    destruct (matchWildcard_frame pattern s first mid final E) as (Hno & Hpanic & Hok).
    destruct (decide (pattern = bs "*")) as [->|Hp].
    + vm_compute in E. injection E as <- E. destruct mid as [|? [|]]; [injection E as <-|done|done].
      change (matchWildcard (bs "*") s) with (Some true). split.
      * split; [|done]. intros _. exists s. by rewrite app_nil_r.
      * split; [done|]. intros Ho. destruct (Hov [] [] [] s Ho eq_refl). by rewrite app_nil_r.
    + destruct (HasPrefix s first) eqn:Ef; [destruct (HasSuffix s final) eqn:El|].
      * destruct (decide (length s < length first + length final)%nat) as [Hlen|Hlen].
        -- assert (overlap pattern s) as Ho by (by exists first, mid, final). rewrite Hpanic by done.
           split; [|done]. split; [done|]. intros (r & Hs & _). by destruct (Hov _ _ _ r Ho E).
        -- destruct (frame_length s first final Ef El Hlen) as [r Hs]. rewrite (Hok r Hs Hp). split.
           ++ rewrite (inj_iff Some), matchMiddle_spec. split; [eauto|]. intros (r' & Hs' & Ho).
              rewrite Hs in Hs'. apply app_inv_head, app_inv_tail in Hs' as ->. done.
           ++ split; [done|]. intros Ho. by destruct (Hov _ _ _ r Ho E).
      * rewrite Hno by eauto. split; (split; [done|]).
        -- intros (r & -> & _). assert (HasSuffix (first ++ r ++ final) final = true); [|congruence].
           apply HasSuffix_spec. exists (first ++ r). by rewrite app_assoc.
        -- intros (f & m & l & E' & _ & Hl & _). rewrite E in E'. injection E' as <- E'.
           apply app_inj_tail in E' as [<- <-]. congruence.
      * rewrite Hno by eauto. split; (split; [done|]).
        -- intros (r & -> & _). assert (HasPrefix (first ++ r ++ final) first = true); [|congruence].
           apply HasPrefix_spec. eauto.
        -- intros (f & m & l & E' & Hf & _ & _). rewrite E in E'. injection E' as <- E'. congruence.
Qed.

Lemma matchAny_spec patterns s :
  Forall (fun p => ~ overlap p s) patterns ->
  exists b, matchAny patterns s = Some b /\ (b = true <-> Exists (fun p => glob p s) patterns).
Proof.
  induction 1 as [|p ps Hp _ (b & Eb & Hb)]; [exists false; split; [done|]; by rewrite Exists_nil|]. simpl.
  destruct (matchWildcard_spec p s) as [Hg Ho].
  destruct (matchWildcard p s) as [[|]|]; [| |by destruct Hp; apply Ho].
  - exists true. split; [done|]. split; [|done]. intros _. left. by apply Hg.
  - exists b. split; [done|]. rewrite Exists_cons, Hb. split; [by right|]. intros [H%Hg|]; done.
Qed.

(** A name is listed when it matches an entry; an entry without a star matches
    itself only. *)
Definition listed (entries : list bytes) (name : bytes) : Prop := Exists (fun e => glob e name) entries.

Lemma star_free e : Contains e (bs "*") = false -> Split e star = [e].
Proof.
  intros H. apply Split_single. intros Hin. apply (Contains_byte e star) in Hin.
  by apply (eq_trans (eq_sym H)) in Hin.
Qed.

Lemma glob_exact e name : Contains e (bs "*") = false -> glob e name <-> e = name.
Proof.
  intros H. unfold glob. rewrite star_free by done. split; [|intros ->; apply fills_last].
  intros Hf. inversion Hf as [|? ? ? ? Hn]; [done|inversion Hn].
Qed.

Lemma listed_spec entries name :
  Forall (fun e => ~ overlap e name) entries ->
  exists b, (if matchExact entries name then Some true else matchAny (compilePatterns entries) name) = Some b
            /\ (b = true <-> listed entries name).
Proof.
  intros H. destruct (matchExact entries name) eqn:E.
  - exists true. split; [done|]. split; [intros _|done].
    apply existsb_exists in E as (e & He & Hm). apply andb_prop in Hm as [Hs Hm%bool_decide_eq_true].
    apply Exists_exists. exists e. split; [by apply list_elem_of_In|]. apply negb_true_iff in Hs. by apply glob_exact.
  - destruct (matchAny_spec (compilePatterns entries) name) as (b & Eb & Hb).
    { unfold compilePatterns. rewrite Forall_forall in *. intros e [_ He]%list_elem_of_filter. by apply H. }
    exists b. split; [done|]. rewrite Hb. unfold listed. rewrite !Exists_exists. split.
    + intros (e & [_ He]%list_elem_of_filter & Hg). eauto.
    + intros (e & He & Hg). exists e. split; [|done]. apply list_elem_of_filter. split; [|done].
      destruct (Contains e (bs "*")) eqn:Ec; [done|]. apply glob_exact in Hg as ->; [|done].
      assert (matchExact entries name = true); [|congruence]. apply existsb_exists.
      exists name. split; [by apply list_elem_of_In|]. rewrite Ec. by rewrite bool_decide_eq_true_2.
Qed.

(** The policy looks at the host of the grammar. *)
Lemma host_bracket h : hostname_ok h -> Byte.x5b ∉ h.
Proof. intros Hh Hin. by apply (proj1 (Forall_forall _ _) (hostname_bytes h Hh)) in Hin as [Hin|]. Qed.

Lemma port_bracket p : port_ok p -> Byte.x5b ∉ p.
Proof. intros [_ Hd _] Hin. by apply (proj1 (Forall_forall _ _) Hd) in Hin. Qed.

Lemma policyHost_bracket ip rest :
  literal_ok ip -> policyHost ((Byte.x5b :: ip) ++ Byte.x5d :: rest) = ip.
Proof.
  intros Hip. unfold policyHost.
  assert (Contains ((Byte.x5b :: ip) ++ Byte.x5d :: rest) (bs "[") = true) as Hc by done.
  assert (match LastIndexByte ((Byte.x5b :: ip) ++ Byte.x5d :: rest) colon with
          | Some idx => if negb (Contains ((Byte.x5b :: ip) ++ Byte.x5d :: rest) (bs "[")) then
              take idx ((Byte.x5b :: ip) ++ Byte.x5d :: rest) else ((Byte.x5b :: ip) ++ Byte.x5d :: rest)
          | None => (Byte.x5b :: ip) ++ Byte.x5d :: rest end = (Byte.x5b :: ip) ++ Byte.x5d :: rest) as ->.
  { rewrite Hc. by destruct (LastIndexByte _ _). }
  assert (Contains ((Byte.x5b :: ip) ++ Byte.x5d :: rest) (bs "]") = true) as ->.
  { apply (Contains_byte _ Byte.x5d), elem_of_app. right. apply list_elem_of_here. }
  rewrite (Index_byte _ Byte.x5d) by (by apply literal_bracket). 
  change (default 0%nat (Some (length (Byte.x5b :: ip)))) with (length (Byte.x5b :: ip)). by rewrite take_sep.
Qed.

Lemma policyHost_name name host port : server_name name host port -> policyHost name = host.
Proof.
  intros H. destruct H as [h Hh|h p Hh Hp|ip Hip|ip p Hip Hp].
  - unfold policyHost. rewrite LastIndexByte_free by (by apply host_colon).
    rewrite <- (app_nil_r h) at 1. by rewrite plain_prefix.
  - unfold policyHost. rewrite LastIndexByte_app by (by apply port_colon).
    rewrite (Contains_false _ Byte.x5b).
    + cbn [negb]. rewrite take_sep. rewrite <- (app_nil_r h) at 1. by rewrite plain_prefix.
    + intros [Hin|[?|Hin]%elem_of_cons]%elem_of_app; [by eapply host_bracket|done|by eapply port_bracket].
  - by apply (policyHost_bracket ip []).
  - by apply (policyHost_bracket ip (colon :: p)).
Qed.

(** ** What an admitted server is *)

(** The patterns are the wildcard entries of the lists. *)
Definition policy_ok (tp : TrustPolicy) : Prop :=
  denyPatterns tp = compilePatterns (denyList tp) /\ allowPatterns tp = compilePatterns (allowList tp).

Lemma policy_ok_new cfg : policy_ok (NewTrustPolicy cfg).
Proof. done. Qed.

Lemma policy_ok_reload cfg tp : policy_ok (Reload cfg tp).
Proof. done. Qed.

(** What the enabled policy demands of a name with this host and port. *)
Record admissible (tp : TrustPolicy) (name host : bytes) (port : option bytes) : Prop := {
  adm_not_denied : ~ listed (denyList tp) name;
  adm_allowed : allowList tp = [] \/ listed (allowList tp) name;
  adm_public : blockPrivateIPs tp = true -> forall ip, ParseIP host = Some ip -> isPrivateIP ip = false;
  adm_well_known : requireWellKnown tp = true -> ParseIP host = None /\ port = None;
  adm_tls : requireValidTLS tp = true -> ParseIP host = None /\ localName host = false;
}.

Lemma checkPrivateIP_name name host port :
  server_name name host port ->
  checkPrivateIP name = None <-> forall ip, ParseIP host = Some ip -> isPrivateIP ip = false.
Proof.
  intros H. unfold checkPrivateIP. rewrite (policyHost_name name host port H).
  destruct (ParseIP host) as [ip|]; [|by split].
  destruct (isPrivateIP ip) eqn:E; split; [done| |by intros _ ? [= <-]|done].
  intros Hp. specialize (Hp ip eq_refl). congruence.
Qed.

Lemma server_name_parts name host port :
  server_name name host port -> host <> [] /\ (default 0 (digits_value <$> port) = 0 <-> port = None).
Proof.
  intros H. split.
  - destruct H as [h Hh|h p Hh _|ip [Hin _]|ip p [Hin _] _]; try (intros ->; by apply elem_of_nil in Hin).
    all: intros ->; destruct Hh as (labels & Hne & Hl & E & _);
      destruct (hostname_ends labels Hne Hl) as [(b & Eb & _) _]; by rewrite <- E in Eb.
  - destruct port as [p|]; [|done]. split; [|done]. simpl. inversion H as [|? ? ? [_ _ Hr]| |? ? ? [_ _ Hr]]; lia.
Qed.

Lemma isIP_false host : isIP host = false <-> ParseIP host = None.
Proof. unfold isIP. rewrite bool_decide_eq_false. destruct (ParseIP host); split; try done. by intros []. Qed.

Lemma checkRequireWellKnown_name name host port :
  server_name name host port ->
  checkRequireWellKnown name = None <-> ParseIP host = None /\ port = None.
Proof.
  intros H. unfold checkRequireWellKnown. rewrite (parse_server_name name host port H).
  destruct (server_name_parts name host port H) as [Hh Hp]. rewrite decide_False by done. rewrite <- isIP_false.
  destruct (isIP host); [by split; [|intros []]|]. rewrite <- Hp. case_decide; split; try done; tauto.
Qed.

Lemma checkRequireValidTLS_name name host port :
  server_name name host port ->
  checkRequireValidTLS name = None <-> ParseIP host = None /\ localName host = false.
Proof.
  intros H. unfold checkRequireValidTLS. rewrite (parse_server_name name host port H).
  destruct (server_name_parts name host port H) as [Hh Hp]. rewrite decide_False by done. rewrite <- isIP_false.
  destruct (isIP host); [by split; [|intros []]|]. destruct (localName host); split; try done. by intros [].
Qed.


Definition demo_policy : TrustPolicy :=
  NewTrustPolicy (mkPolicyConfig true [bs "*.spam.org"; bs "bad.org"] [bs "*.org"; bs "[2001:db8::1]"] 0 0 false false true).

Lemma no_overlap pattern s : is_Some (matchWildcard pattern s) -> ~ overlap pattern s.
Proof. intros [b E] Ho. apply (matchWildcard_spec pattern s) in Ho. congruence. Qed.

Lemma demo_no_overlap : Forall (fun e => ~ overlap e (bs "matrix.org")) (denyList demo_policy ++ allowList demo_policy).
Proof. repeat (constructor; [apply no_overlap; vm_compute; eauto|]). constructor. Qed.

Lemma demo_name : server_name (bs "matrix.org") (bs "matrix.org") None.
Proof. apply SN_host, isValidHostname_spec. by vm_compute. Qed.


Example policy_vectors :
  CheckServer demo_policy (bs "matrix.org") = Some None
  /\ (option_map Rule (default None (CheckServer demo_policy (bs "a.spam.org")))) = Some (bs "deny_list")
  /\ (option_map Rule (default None (CheckServer demo_policy (bs "matrix.com")))) = Some (bs "allow_list").
Proof. by vm_compute. Qed.

(** ** Panics and gaps *)

(** A deny entry whose fixed ends overlap in a requested name makes the check
    panic instead of answering. *)
Theorem overlapping_entry_panics tp pattern rest name :
  enabled tp = true -> denyPatterns tp = pattern :: rest -> matchExact (denyList tp) name = false ->
  overlap pattern name -> CheckServer tp name = None.
Proof.
  intros He Hd Hx Ho. unfold CheckServer, isDenied. rewrite He, Hx, Hd. simpl.
  by apply (matchWildcard_spec pattern name) in Ho as ->.
Qed.

(** Names counted as notaries need not have signed anything: a response that
    carries enough made-up signers, with no signature at all, satisfies the
    requirement. *)
Theorem claimed_signers_count tp name now resp names :
  enabled tp = true -> maxKeyAgeHours tp <= 0 -> NoDup names -> name ∉ names ->
  requireNotarySignatures tp <= len names ->
  Signatures resp = list_to_map ((fun n => (n, ∅)) <$> names) ->
  CheckResponse now tp name resp = None.
Proof.
  intros He Hage Hnd Hn Hl Hs. unfold CheckResponse. rewrite He. cbn [negb]. rewrite decide_False by lia.
  rewrite decide_False; [done|]. intros [_ Hlt]. unfold countNotarySignatures in Hlt.
  rewrite Hs, dom_list_to_map_L, <- list_fmap_compose, list_fmap_id in Hlt.
  assert (filter (fun signer => signer <> name) names = names) as Hf.
  { clear -Hn. induction names as [|n names IH]; [done|]. apply not_elem_of_cons in Hn as [Hne Hn].
    rewrite filter_cons_True by congruence. by rewrite IH. }
  unfold len in *. rewrite (elements_list_to_set names Hnd), Hf in Hlt. lia.
Qed.

(** *** The private ranges *)

Lemma div_interval a k c : 0 <= k -> a / 2 ^ k = c <-> c * 2 ^ k <= a < (c + 1) * 2 ^ k.
Proof.
  intros Hk. assert (0 < 2 ^ k) by (by apply Z.pow_pos_nonneg; lia).
  split; [intros <-; Z.to_euclidean_division_equations; nia|]. intros H1.
  symmetry. apply (Z.div_unique_pos _ _ _ (a - c * 2 ^ k)); nia.
Qed.

(** IPv4 ranges, in order. *)
Definition quad (a b c d : Z) : Z := ((a * 256 + b) * 256 + c) * 256 + d.

Definition privateRanges : list (Z * Z) :=
  [(quad 0 0 0 0, quad 0 255 255 255); (quad 10 0 0 0, quad 10 255 255 255);
   (quad 100 64 0 0, quad 100 127 255 255); (quad 127 0 0 0, quad 127 255 255 255);
   (quad 169 254 0 0, quad 169 254 255 255); (quad 172 16 0 0, quad 172 31 255 255);
   (quad 192 0 0 0, quad 192 0 0 255); (quad 192 0 2 0, quad 192 0 2 255);
   (quad 192 168 0 0, quad 192 168 255 255); (quad 198 51 100 0, quad 198 51 100 255);
   (quad 203 0 113 0, quad 203 0 113 255); (quad 224 0 0 0, quad 255 255 255 255)].

Definition reservedNets : list IPNet := Eval vm_compute in omap ParseCIDR reserved.

Lemma reserved_contains ip :
  existsb (fun cidr => match ParseCIDR cidr with None => false | Some network => netContains network ip end) reserved
  = existsb (fun network => netContains network ip) reservedNets.
Proof.
  assert (forall l nets, map ParseCIDR l = map Some nets ->
    existsb (fun cidr => match ParseCIDR cidr with None => false | Some network => netContains network ip end) l
    = existsb (fun network => netContains network ip) nets) as H.
  { induction l as [|c l IH]; intros [|n nets] E; try done. injection E as Ec E. simpl. by rewrite Ec, (IH nets). }
  apply H. by vm_compute.
Qed.

(** A network of the list as an interval. *)
Lemma net_interval base bits a :
  0 <= a < 2 ^ 32 -> 0 <= base < 2 ^ 32 -> bits <= 32 -> base mod 2 ^ (32 - bits) = 0 ->
  netContains (mkNet (mapped base) true bits) (mapped a) = true <-> base <= a < base + 2 ^ (32 - bits).
Proof.
  intros Ha Hb Hbits Hm. unfold netContains, samePrefix. simpl net_IP. rewrite !To4_mapped by done. simpl.
  rewrite bool_decide_eq_true. set (w := 2 ^ (32 - bits)) in *.
  assert (0 < w) by (apply Z.pow_pos_nonneg; lia).
  assert (base / w * w = base) by (pose proof (Z.div_mod base w); lia).
  rewrite (eq_comm (base / w)). subst w. rewrite div_interval by lia. nia.
Qed.

Lemma reserved_interval a :
  0 <= a < 2 ^ 32 ->
  existsb (fun network => netContains network (mapped a)) reservedNets = true <->
  Exists (fun r => r.1 <= a < r.1 + 2 ^ (32 - r.2))
    [(quad 0 0 0 0, 8); (quad 100 64 0 0, 10); (quad 169 254 0 0, 16); (quad 192 0 0 0, 24); (quad 192 0 2 0, 24);
     (quad 198 51 100 0, 24); (quad 203 0 113 0, 24); (quad 224 0 0 0, 4); (quad 240 0 0 0, 4); (quad 255 255 255 255, 32)].
Proof.
  intros Ha.
  assert (forall l, Forall (fun r => 0 <= r.1 < 2 ^ 32 /\ r.2 <= 32 /\ r.1 mod 2 ^ (32 - r.2) = 0) l ->
    existsb (fun network => netContains network (mapped a)) (map (fun r => mkNet (mapped r.1) true r.2) l) = true
    <-> Exists (fun r => r.1 <= a < r.1 + 2 ^ (32 - r.2)) l) as H.
  { intros l Hl. induction Hl as [|[base bits] l (Hb & Hbits & Hm) _ IH]; [by rewrite Exists_nil|].
    cbn [map existsb fst snd]. rewrite orb_true_iff, IH, Exists_cons, net_interval by done. done. }
  rewrite <- H; [done|]. by repeat constructor.
Qed.

(** The addresses the private-address checks refuse: of IPv4 (also mapped
    into IPv6) exactly the twelve ranges of loopback, private, link-local,
    carrier-grade NAT, documentation, multicast and reserved addresses; of IPv6
    exactly the loopback ::1, fc00::/7, fe80::/10 and link-local multicast. *)
Theorem private_ranges :
  (forall a, 0 <= a < 2 ^ 32 ->
     isPrivateIP (mapped a) = true <-> Exists (fun r => r.1 <= a <= r.2) privateRanges)
  /\ (forall ip, To4 ip = None ->
        isPrivateIP ip = true
        <-> ip = 1 \/ 252 * 2 ^ 120 <= ip < 254 * 2 ^ 120 \/ 1018 * 2 ^ 118 <= ip < 1019 * 2 ^ 118
            \/ (255 * 2 ^ 120 <= ip < 256 * 2 ^ 120 /\ ip / 2 ^ 112 mod 16 = 2)).
Proof.
  split.
  - intros a Ha. unfold isPrivateIP. rewrite reserved_contains.
    assert (forall b c : bool, (if b then true else c) = true <-> b = true \/ c = true) as Hif
      by (intros [] c; simpl; (split; [auto|]); [done|by intros [|]]).
    rewrite Hif, reserved_interval by done. clear Hif.
    unfold IsLoopback, IsPrivate, IsLinkLocalUnicast, IsLinkLocalMulticast. rewrite To4_mapped by done.
    rewrite !orb_true_iff, !bool_decide_eq_true, !div_interval by done.
    unfold privateRanges. rewrite !Exists_cons, !Exists_nil. unfold quad. cbn [fst snd]. lia.
  - intros ip H4. unfold isPrivateIP. rewrite reserved_contains.
    assert (existsb (fun network => netContains network ip) reservedNets = false) as ->.
    { unfold reservedNets, netContains. rewrite H4. by vm_compute. }
    unfold IsLoopback, IsPrivate, IsLinkLocalUnicast, IsLinkLocalMulticast. rewrite H4.
    assert (forall b : bool, (if b then true else false) = true <-> b = true) as -> by (by intros []).
    rewrite !orb_true_iff, !bool_decide_eq_true, !div_interval by done. lia.
Qed.

Lemma private_ranges_witness :
  isPrivateIP (mapped (quad 10 0 0 1)) = true /\ isPrivateIP (252 * 2 ^ 120) = true.
Proof.
  split.
  - apply (proj1 private_ranges (quad 10 0 0 1)).
    + by unfold quad.
    + apply Exists_cons_tl, Exists_cons_hd. by unfold quad.
  - apply (proj2 private_ranges (252 * 2 ^ 120)).
    + reflexivity.
    + right. left. lia.
Defined.

(** The unspecified IPv6 address, which a dialer takes for the local host, is
    not in the list although 0.0.0.0/8 is. *)
Theorem unspecified_v6_not_private :
  ParseIP (bs "::") = Some 0 /\ isPrivateIP 0 = false
  /\ ParseIP (bs "0.0.0.0") = Some (mapped 0) /\ isPrivateIP (mapped 0) = true.
Proof. by vm_compute. Qed.

(** The demand of the grammar in [policy_admits] is needed: of a name that
    validation refuses, the policy and the resolver can read different hosts. *)
Example unvalidated_name_differs :
  policyHost (bs "fd00::abcd") = bs "fd00:" /\ parseServerName (bs "fd00::abcd") = (bs "fd00::abcd", 0, true)
  /\ ValidateServerName (bs "fd00::abcd") 0 = Some NameFormat.
Proof. by vm_compute. Qed.
