(* ===== verification/NotarySignature.v ===== *)
(** * Perspective signatures
    (keys/notary.go, notary_raw_response.go, fetcher_signature.go)

    What the notary signs, how it attaches its signature to the response of an
    origin server, in the struct form and in the raw form that keeps every field
    of the origin, and how a peer with a pinned key checks it.

    Ed25519 is not modelled: a scheme is an instance of [Ed25519], with the
    lengths and the round trip that crypto/ed25519 documents. JSON objects are
    those of [Canonical]; a Go map is enumerated in the order of [map_to_list],
    on which the canonical text does not depend. *)
From S2P Require Import Prelude Crypto Base64 GoStrings Canonical CanonicalProofs NetIP TrustPolicy.
From Stdlib Require Import ZArith Lia.
From stdpp Require Import base gmap list strings fin_maps.
#[local] Open Scope Z_scope.

(** ** The signature scheme *)

Class Ed25519 : Type := {
  Public : bytes -> bytes;
  Sign : bytes -> bytes -> bytes;
  Verify : bytes -> bytes -> bytes -> bool;
}.

Definition PublicKeySize : nat := 32.
Definition PrivateKeySize : nat := 64.
Definition SignatureSize : nat := 64.

Class Ed25519Laws (E : Ed25519) : Prop := {
  Public_length sk : length sk = PrivateKeySize -> length (Public sk) = PublicKeySize;
  Sign_length sk m : length sk = PrivateKeySize -> length (Sign sk m) = SignatureSize;
  Verify_Sign sk m : length sk = PrivateKeySize -> Verify (Public sk) m (Sign sk m) = true;
}.

(** ** The values that are signed *)

Definition field (name tag : bytes) : structField := mkField true false name tag.

Definition verifyKeyValue (k : VerifyKeyResponse) : gvalue := VStruct [(field (bs "Key") (bs "key"), VString (vk_Key k))].

Definition oldKeyValue (k : OldKeyResponse) : gvalue :=
  VStruct [(field (bs "Key") (bs "key"), VString (ok_Key k)); (field (bs "ExpiredTS") (bs "expired_ts"), VInt (ok_ExpiredTS k))].

(** A typed map with string keys, and a [map[string]interface{}]. *)
Definition mapValue {A} (f : A -> gvalue) (m : gmap bytes A) : gvalue :=
  VMap true (map (fun kv => (kv.1, f kv.2)) (map_to_list m)).

Definition objectValue {A} (f : A -> gvalue) (m : gmap bytes A) : gvalue :=
  VObject (map (fun kv => (kv.1, f kv.2)) (map_to_list m)).

(** The payload of [signResponse]. *)
Definition responseFields (resp : ServerKeysResponse) : list (bytes * gvalue) :=
  [(bs "server_name", VString (skr_ServerName resp));
   (bs "valid_until_ts", VInt (ValidUntilTS resp));
   (bs "verify_keys", mapValue verifyKeyValue (VerifyKeys resp));
   (bs "old_verify_keys", mapValue oldKeyValue (OldVerifyKeys resp))].

(** The payload of [addNotarySignature] and [verifyNotarySignature]: with the
    signatures of the others, if there are any. *)
Definition perspectiveFields (notary : bytes) (resp : ServerKeysResponse) : list (bytes * gvalue) :=
  let others := delete notary (Signatures resp) in
  responseFields resp ++
  if decide (others = ∅) then [] else [(bs "signatures", mapValue (mapValue VString) others)].

Section NotarySignature.
Context {E : Ed25519}.

Record Notary : Type := mkNotary {
  serverName : bytes;
  serverKeyID : bytes;
  serverKeyPair : bytes;
}.

Definition set_signatures (s : gmap bytes (gmap bytes bytes)) (resp : ServerKeysResponse) : ServerKeysResponse :=
  mkResponse (skr_ServerName resp) (VerifyKeys resp) (OldVerifyKeys resp) (ValidUntilTS resp) s (Raw resp).

Definition signResponse (n : Notary) (resp : ServerKeysResponse) : result canon_err ServerKeysResponse :=
  match Marshal (VObject (responseFields resp)) with
  | Err e => Err e
  | Ok canonicalBytes =>
      let signatureB64 := EncodeRaw (Sign (serverKeyPair n) canonicalBytes) in
      Ok (set_signatures (<[serverName n := {[serverKeyID n := signatureB64]}]> (Signatures resp)) resp)
  end.

Definition addNotarySignature (n : Notary) (resp : ServerKeysResponse) : result canon_err ServerKeysResponse :=
  match Marshal (VObject (perspectiveFields (serverName n) resp)) with
  | Err e => Err e
  | Ok canonicalBytes =>
      let signatureB64 := EncodeRaw (Sign (serverKeyPair n) canonicalBytes) in
      let own := default ∅ (Signatures resp !! serverName n) in
      Ok (set_signatures (<[serverName n := <[serverKeyID n := signatureB64]> own]> (Signatures resp)) resp)
  end.

(** ** The peer ([verifyNotarySignature]) *)

Record TrustedNotaryKey : Type := mkTrusted {
  tn_ServerName : bytes;
  tn_KeyID : bytes;
  tn_PublicKey : bytes;
}.

Inductive notary_err : Type :=
  | NotSigned | NotSignedWithPinnedKey | BadSignatureText | BadSignatureLength | BadPinnedKeyLength
  | NotaryCanonical (e : canon_err) | ErrNotaryKeyMismatch.

Definition verifyNotarySignature (trustedNotaries : gmap bytes TrustedNotaryKey) (notary : bytes) (resp : ServerKeysResponse)
  : option notary_err :=
  match trustedNotaries !! notary with
  | None => None
  | Some trusted =>
      match Signatures resp !! notary with
      | None => Some NotSigned
      | Some notarySigs =>
          match notarySigs !! tn_KeyID trusted with
          | None => Some NotSignedWithPinnedKey
          | Some sig =>
              match DecodeRaw sig with
              | None => Some BadSignatureText
              | Some sigBytes =>
                  if decide (length sigBytes <> SignatureSize) then Some BadSignatureLength
                  else if decide (length (tn_PublicKey trusted) <> PublicKeySize) then Some BadPinnedKeyLength
                  else
                    match Marshal (VObject (perspectiveFields notary resp)) with
                    | Err e => Some (NotaryCanonical e)
                    | Ok canonicalBytes =>
                        if Verify (tn_PublicKey trusted) canonicalBytes sigBytes then None else Some ErrNotaryKeyMismatch
                    end
              end
          end
      end
  end.

(** ** The raw form ([notary_raw_response.go]) *)

Inductive raw_err : Type :=
  | RawEmpty | RawNames | RawKeyLength | RawDecode | RawSignable (e : canon_err) | RawFinal (e : canon_err).

(** The value of a key of a [map[string]interface{}]. *)
Definition objectGet (k : bytes) (obj : list (bytes * gvalue)) : option gvalue :=
  snd <$> List.find (fun kv => bool_decide (kv.1 = k)) obj.

Definition asString (kv : bytes * gvalue) : option (bytes * bytes) :=
  match kv.2 with VString s => Some (kv.1, s) | _ => None end.

Definition asBlock (kv : bytes * gvalue) : option (bytes * gmap bytes bytes) :=
  match kv.2 with VObject inner => Some (kv.1, list_to_map (omap asString inner)) | _ => None end.

Definition extractSignatures (obj : list (bytes * gvalue)) : gmap bytes (gmap bytes bytes) :=
  match objectGet (bs "signatures") obj with
  | Some (VObject raw) => list_to_map (omap asBlock raw)
  | _ => ∅
  end.

(** The fields outside of [signatures] and [unsigned]. *)
Definition signedPart (obj : list (bytes * gvalue)) : list (bytes * gvalue) :=
  filter (fun kv => kv.1 <> bs "signatures" /\ kv.1 <> bs "unsigned") obj.

Definition buildSignable (obj : list (bytes * gvalue)) (existing : gmap bytes (gmap bytes bytes)) (notaryName : bytes)
  : list (bytes * gvalue) :=
  let others := delete notaryName existing in
  if decide (others = ∅) then signedPart obj
  else mapSet (bs "signatures") (objectValue (objectValue VString) others) (signedPart obj).

Definition mergeNotarySig (existing : gmap bytes (gmap bytes bytes)) (notaryName notaryKeyID sigB64 : bytes) : gvalue :=
  let notaryBlock := <[notaryKeyID := sigB64]> (default ∅ (existing !! notaryName)) in
  objectValue (objectValue VString) (<[notaryName := notaryBlock]> (delete notaryName existing)).

(** [decode] is encoding/json's decoder with [UseNumber], of an object; the null
    document decodes to no object. *)
Definition AttachNotarySignature (decode : bytes -> option (list (bytes * gvalue)))
    (rawOrigin notaryName notaryKeyID notaryPriv : bytes) : result raw_err bytes :=
  if decide (rawOrigin = []) then Err RawEmpty
  else if decide (notaryName = [] \/ notaryKeyID = []) then Err RawNames
  else if decide (length notaryPriv <> PrivateKeySize) then Err RawKeyLength
  else
    match decode rawOrigin with
    | None => Err RawDecode
    | Some obj =>
        let existingSigs := extractSignatures obj in
        match Marshal (VObject (buildSignable obj existingSigs notaryName)) with
        | Err e => Err (RawSignable e)
        | Ok signBytes =>
            let sigB64 := EncodeRaw (Sign notaryPriv signBytes) in
            let obj := mapSet (bs "signatures") (mergeNotarySig existingSigs notaryName notaryKeyID sigB64) obj in
            match Marshal (VObject obj) with
            | Err e => Err (RawFinal e)
            | Ok out => Ok out
            end
        end
    end.

End NotarySignature.

(** ** A signature that the notary adds is one a peer accepts *)

Section Laws.
Context {E : Ed25519} {HE : Ed25519Laws E}.

Lemma perspectiveFields_insert notary s resp :
  perspectiveFields notary (set_signatures (<[notary := s]> (Signatures resp)) resp) = perspectiveFields notary resp.
Proof. unfold perspectiveFields. simpl Signatures. by rewrite delete_insert_eq. Qed.

(** The perspective signature round trip: a response signed by
    [addNotarySignature] keeps its fields and the signatures of all others, and
    passes [verifyNotarySignature] of every peer that pinned the notary's key. *)
Lemma perspective_signature_accepted n resp resp' trustedNotaries name :
  length (serverKeyPair n) = PrivateKeySize ->
  trustedNotaries !! serverName n = Some (mkTrusted name (serverKeyID n) (Public (serverKeyPair n))) ->
  addNotarySignature n resp = Ok resp' ->
  verifyNotarySignature trustedNotaries (serverName n) resp' = None
  /\ set_signatures ∅ resp' = set_signatures ∅ resp
  /\ delete (serverName n) (Signatures resp') = delete (serverName n) (Signatures resp)
  /\ forall keyID, keyID <> serverKeyID n ->
       (Signatures resp' !! serverName n ≫= lookup keyID) = (Signatures resp !! serverName n ≫= lookup keyID).
Proof.
  intros Hsk Hpin. unfold addNotarySignature. destruct (Marshal _) as [text|e] eqn:Em; [|done]. intros [= <-].
  split_and!.
  - unfold verifyNotarySignature. rewrite Hpin. simpl Signatures. rewrite lookup_insert_eq. simpl tn_KeyID.
    rewrite lookup_insert_eq, DecodeRaw_EncodeRaw.
    rewrite (decide_False (P := length (Sign _ _) <> _)) by (rewrite Sign_length by done; tauto). simpl tn_PublicKey.
    rewrite (decide_False (P := length (Public _) <> _)) by (rewrite Public_length by done; tauto).
    rewrite perspectiveFields_insert, Em. by rewrite Verify_Sign.
  - done.
  - simpl. by rewrite delete_insert_eq.
  - intros keyID Hk. simpl. rewrite lookup_insert_eq. simpl. rewrite lookup_insert_ne by done.
    by destruct (Signatures resp !! serverName n); simpl; rewrite ?lookup_empty.
Qed.

(** ** The raw form preserves what the origin signed *)

Lemma objectGet_mapSet k v obj : objectGet k (mapSet k v obj) = Some v.
Proof.
  unfold objectGet. induction obj as [|kv obj IH]; simpl; [by rewrite bool_decide_eq_true_2|].
  case_decide as Hk; simpl; [by rewrite bool_decide_eq_true_2|]. by rewrite bool_decide_eq_false_2.
Qed.

Lemma signedPart_mapSet v obj : signedPart (mapSet (bs "signatures") v obj) = signedPart obj.
Proof.
  unfold signedPart. induction obj as [|kv obj IH]; simpl mapSet.
  - rewrite filter_cons_False by (simpl; tauto). done.
  - case_decide as Hk.
    + rewrite !filter_cons_False by (simpl; tauto). done.
    + rewrite !filter_cons, IH. done.
Qed.

Lemma block_back b : list_to_map (omap asString (map (fun kv : bytes * bytes => (kv.1, VString kv.2)) (map_to_list b))) = b.
Proof.
  assert (forall l : list (bytes * bytes), omap asString (map (fun kv => (kv.1, VString kv.2)) l) = l) as Hl.
  { induction l as [|[k v] l IH]; [done|]. simpl. f_equal. exact IH. }
  by rewrite Hl, list_to_map_to_list.
Qed.

Lemma blocks_back (m : gmap bytes (gmap bytes bytes)) :
  match objectValue (objectValue VString) m with VObject raw => list_to_map (omap asBlock raw) | _ => ∅ end = m.
Proof.
  unfold objectValue at 1.
  assert (forall l : list (bytes * gmap bytes bytes), omap asBlock (map (fun kv => (kv.1, objectValue VString kv.2)) l) = l) as Hl.
  { induction l as [|[k b] l IH]; [done|]. simpl. rewrite block_back. f_equal. exact IH. }
  by rewrite Hl, list_to_map_to_list.
Qed.

Lemma extract_mapSet existing name keyID sig obj :
  extractSignatures (mapSet (bs "signatures") (mergeNotarySig existing name keyID sig) obj)
  = <[name := <[keyID := sig]> (default ∅ (existing !! name))]> (delete name existing).
Proof. unfold extractSignatures. rewrite objectGet_mapSet. apply blocks_back. Qed.

(** Attaching a signature to the raw response changes nothing that the
    origin signed: the delivered bytes are the canonical text of an object with
    the same fields outside of [signatures] and [unsigned], so with the same
    canonical bytes under the origin's signature; the signatures of the others
    are kept; and the notary's own verifies against the text that a reader
    computes from the delivered object. *)
Theorem raw_attach_preserves decode raw name keyID sk out :
  AttachNotarySignature decode raw name keyID sk = Ok out ->
  exists obj obj' sig signBytes,
    decode raw = Some obj /\ Marshal (VObject obj') = Ok out
    /\ signedPart obj' = signedPart obj
    /\ (forall signer, signer <> name -> extractSignatures obj' !! signer = extractSignatures obj !! signer)
    /\ (extractSignatures obj' !! name ≫= lookup keyID) = Some (EncodeRaw sig)
    /\ Marshal (VObject (buildSignable obj' (extractSignatures obj') name)) = Ok signBytes
    /\ Verify (Public sk) signBytes sig = true.
Proof.
  unfold AttachNotarySignature. case_decide; [done|]. case_decide; [done|]. case_decide as Hsk; [done|].
  destruct (decode raw) as [obj|]; [|done].
  destruct (Marshal (VObject (buildSignable obj _ _))) as [signBytes|] eqn:Es; [|done].
  destruct (Marshal (VObject (mapSet _ _ _))) as [o|] eqn:Eo; [|done]. intros [= <-].
  do 4 eexists. split; [done|]. split; [exact Eo|]. rewrite extract_mapSet, signedPart_mapSet.
  split; [done|]. split; [intros signer Hs; by rewrite lookup_insert_ne, lookup_delete_ne by done|].
  split; [rewrite lookup_insert_eq; simpl; by rewrite lookup_insert_eq|].
  split; [|by apply Verify_Sign].
  rewrite <- Es. unfold buildSignable. rewrite signedPart_mapSet, delete_insert_eq.
  by rewrite (delete_delete_eq (extractSignatures obj)).
Qed.

End Laws.

(** ** The two signed texts *)

Lemma mapValue_typed {A} (f : A -> gvalue) m : (forall a, wellTyped (f a)) -> wellTyped (mapValue f m).
Proof.
  intros Hf. unfold mapValue. cbn [wellTyped]. rewrite fold_and. split.
  - rewrite <- list_fmap_compose. apply NoDup_fst_map_to_list.
  - apply Forall_forall. intros kv Hkv. apply list_elem_of_In, in_map_iff in Hkv as (x & <- & _). apply Hf.
Qed.

Lemma perspective_typed notary resp : wellTyped (VObject (perspectiveFields notary resp)).
Proof.
  assert (forall k, wellTyped (verifyKeyValue k)) by done. assert (forall k, wellTyped (oldKeyValue k)) by done.
  unfold perspectiveFields, responseFields.
  destruct (decide (delete notary (Signatures resp) = ∅)); cbn [app wellTyped fold_right snd].
  all: split; [apply (bool_decide_unpack (NoDup _)); by vm_compute|].
  all: repeat (split; [first [done|by apply mapValue_typed|by apply mapValue_typed; intros; apply mapValue_typed]|]); done.
Qed.

(** The keys of the object that a text denotes. *)
Lemma sequence_keys ds kvs : sequence (List.map memberOf ds) = Some kvs -> kvs.*1 = toValidUTF8 <$> ds.*1.
Proof.
  intros Hs%sequence_Some. revert kvs Hs. induction ds as [|[k [d|]] ds IH]; intros [|kv kvs] Hs; try done.
  simpl in Hs. injection Hs as <- Hs. rewrite !fmap_cons. simpl. by rewrite (IH kvs).
Qed.

Lemma denote_keys l kvs : denote (VObject l) = Some (JObject kvs) -> forall k, k ∈ kvs.*1 <-> exists k', k' ∈ l.*1 /\ toValidUTF8 k' = k.
Proof.
  cbn [denote]. unfold objectOf. destruct (sequence _) as [kvs'|] eqn:Es; [|done]. simpl. intros [= ->] k.
  rewrite (sequence_keys _ _ Es), list_elem_of_fmap.
  assert ((sortKeys (List.map (fun kv => (kv.1, denote kv.2)) l)).*1 ≡ₚ l.*1) as Hp.
  { rewrite sortKeys_perm, <- list_fmap_compose. done. }
  split; intros (k' & H1 & H2); exists k'; [rewrite Hp in H2|rewrite Hp]; done.
Qed.

(** Of an origin that sends no [old_verify_keys], the text signed in the raw form
    never is the text that [verifyNotarySignature] checks, whatever the decoded
    response: the latter always has that field. *)
Theorem raw_text_not_checked_text obj existing notary resp text :
  wellTyped (VObject (buildSignable obj existing notary)) ->
  Forall (fun kv => ValidString kv.1 = true) obj -> bs "old_verify_keys" ∉ obj.*1 ->
  Marshal (VObject (buildSignable obj existing notary)) = Ok text ->
  Marshal (VObject (perspectiveFields notary resp)) <> Ok text.
Proof.
  intros Hty Hutf Hno Hraw Hstruct.
  pose proof (Marshal_parse _ _ Hty Hraw) as H1. pose proof (Marshal_parse _ _ (perspective_typed notary resp) Hstruct) as H2.
  rewrite H1 in H2. clear H1.
  assert (exists kvs, denote (VObject (perspectiveFields notary resp)) = Some (JObject kvs)) as [kvs Hk].
  { pose proof (writeValue_denote _ (perspective_typed notary resp)) as Ha. unfold Marshal in Hstruct. rewrite Hstruct in Ha.
    destruct (denote (VObject (perspectiveFields notary resp))) as [j|] eqn:Ed; [|done].
    cbn [denote] in Ed. unfold objectOf in Ed. destruct (sequence _); [|done]. injection Ed as <-. by eexists. }
  assert (bs "old_verify_keys" ∈ kvs.*1) as Hin.
  { apply (denote_keys _ _ Hk). exists (bs "old_verify_keys"). split; [|by vm_compute].
    unfold perspectiveFields, responseFields. do 3 right. left. }
  rewrite Hk in H2. apply (denote_keys _ _ H2) in Hin as (k & Hin & Hv).
  assert (k = bs "signatures" \/ k ∈ obj.*1) as [->|Hobj].
  { unfold buildSignable in Hin. assert (k ∈ (signedPart obj).*1 -> k ∈ obj.*1) as Hsub.
    { intros (kv & -> & Hkv)%list_elem_of_fmap. apply list_elem_of_filter in Hkv as [_ Hkv]. by apply list_elem_of_fmap_2. }
    case_decide; [right; by apply Hsub|]. apply list_elem_of_fmap in Hin as (kv & -> & Hkv).
    clear -Hkv Hsub. revert Hkv Hsub. generalize (signedPart obj) as l. induction l as [|x l IH]; simpl.
    - intros [= ->]%list_elem_of_singleton _. by left.
    - case_decide.
      + intros [->|Hkv]%elem_of_cons Hsub; [by left|]. right. apply Hsub. right. by apply list_elem_of_fmap_2.
      + intros [->|Hkv]%elem_of_cons Hsub; [right; apply Hsub; left|]. apply IH; [done|]. intros Hx. apply Hsub. by right. }
  - by vm_compute in Hv.
  - pose proof Hobj as (kv & -> & Hkv)%list_elem_of_fmap. rewrite toValidUTF8_valid in Hv; [congruence|].
    by apply (proj1 (Forall_forall _ _) Hutf).
Qed.

(** ** Instances *)

(** A scheme with the laws: the signature is the padded message. *)
Definition padded (m : bytes) : bytes := take 64 (m ++ replicate 64 Byte.x00).

#[local] Instance plainScheme : Ed25519 := {
  Public sk := take 32 sk;
  Sign _ m := padded m;
  Verify _ m s := bool_decide (s = padded m);
}.

#[local] Instance plainScheme_laws : Ed25519Laws plainScheme.
Proof.
  split; simpl; unfold PrivateKeySize, PublicKeySize, SignatureSize.
  - intros sk Hsk. rewrite length_take. lia.
  - intros sk m _. unfold padded. rewrite length_take, length_app, length_replicate. lia.
  - intros sk m _. by apply bool_decide_eq_true.
Qed.

Definition demo_notary : Notary := mkNotary (bs "notary.org") (bs "ed25519:n") (replicate 64 Byte.x01).

Definition demo_response : ServerKeysResponse :=
  mkResponse (bs "origin.org") {[bs "ed25519:a" := mkVerifyKey (bs "AQ")]} ∅ 1700000000000
    {[bs "origin.org" := {[bs "ed25519:a" := bs "c2ln"]}]} [].

Example perspective_signature_vector :
  exists resp', addNotarySignature demo_notary demo_response = Ok resp'
    /\ verifyNotarySignature {[bs "notary.org" := mkTrusted (bs "notary.org") (bs "ed25519:n") (replicate 32 Byte.x01)]}
         (bs "notary.org") resp' = None.
Proof.
  destruct (addNotarySignature demo_notary demo_response) as [resp'|e] eqn:Ha.
  - exists resp'. split; [reflexivity|].
    apply (perspective_signature_accepted demo_notary demo_response resp' _ (bs "notary.org")).
    + reflexivity.
    + apply lookup_singleton_eq.
    + exact Ha.
  - exfalso. assert (is_ok (addNotarySignature demo_notary demo_response) = true) as Hok by (vm_compute; reflexivity).
    rewrite Ha in Hok. discriminate Hok.
Qed.

Definition demo_origin : list (bytes * gvalue) :=
  [(bs "server_name", VString (bs "origin.org")); (bs "valid_until_ts", VNumber (bs "1700000000000"));
   (bs "verify_keys", VObject [(bs "ed25519:a", VObject [(bs "key", VString (bs "AQ"))])]);
   (bs "extra", VArray [VBool true; VNil]);
   (bs "signatures", VObject [(bs "origin.org", VObject [(bs "ed25519:a", VString (bs "c2ln"))])])].

Lemma raw_attach_preserves_witness :
  exists out obj' sig signBytes,
    AttachNotarySignature (fun _ => Some demo_origin) (bs "{}") (bs "notary.org") (bs "ed25519:n") (replicate 64 Byte.x01) = Ok out
    /\ Marshal (VObject obj') = Ok out /\ signedPart obj' = signedPart demo_origin
    /\ (extractSignatures obj' !! bs "notary.org" ≫= lookup (bs "ed25519:n")) = Some (EncodeRaw sig)
    /\ Marshal (VObject (buildSignable obj' (extractSignatures obj') (bs "notary.org"))) = Ok signBytes.
Proof.
  assert (exists out, AttachNotarySignature (fun _ => Some demo_origin) (bs "{}") (bs "notary.org") (bs "ed25519:n")
            (replicate 64 Byte.x01) = Ok out) as [out Ho] by (eexists; vm_compute; reflexivity).
  destruct (raw_attach_preserves _ _ _ _ _ _ Ho) as (obj & obj' & sig & signBytes & [= <-] & H1 & H2 & _ & H4 & H5 & _).
  exists out, obj', sig, signBytes. auto.
Defined.

(** The origin above sends no [old_verify_keys]: the two texts differ. *)
Example raw_text_vector :
  is_ok (Marshal (VObject (buildSignable demo_origin (extractSignatures demo_origin) (bs "notary.org")))) = true
  /\ Marshal (VObject (buildSignable demo_origin (extractSignatures demo_origin) (bs "notary.org")))
     <> Marshal (VObject (perspectiveFields (bs "notary.org") demo_response)).
Proof. split; [by vm_compute|]. intros H. vm_compute in H. discriminate H. Qed.
