(* ===== verification/Resolver.v ===== *)
(** * Server discovery and the private-address guard
    (keys/resolver.go, resolver_wellknown.go, resolver_srv.go, fetcher_ssrf.go)

    The resolver turns a server name into the host and port to dial: an IP
    literal, an explicit port, the well-known delegation, two SRV lookups, the
    default port. It keeps two caches with a lifetime per kind of answer. The
    guard then looks the host up and pins the addresses it found.

    The network is a parameter: what the n-th exchange answers. The well-known
    exchange is taken up to the decoded [m.server] field. Operations run in a
    state monad over the caches, the number of clock readings so far and the
    exchanges made, oldest first. The Prometheus counters and the log are not
    modelled. *)
From S2P Require Import Prelude Decimal GoTime GoStrings NetIP ServerNames TrustPolicy.
From Stdlib Require Import ZArith Lia.
From stdpp Require Import base gmap list strings fin_maps.
#[local] Open Scope Z_scope.

Inductive errorType : Type := errNone | errNotFound | errTemporary | errInvalid.

Record wellKnownEntry : Type := mkWK {
  wk_host : bytes;
  wk_port : Z;
  wk_fetchedAt : Z;
  wk_isError : bool;
  wk_errType : errorType;
}.

Record srvEntry : Type := mkSRV {
  srv_target : bytes;
  srv_port : Z;
  srv_fetchedAt : Z;
  srv_isError : bool;
  srv_isNotFound : bool;
}.

Record ResolvedServer : Type := mkResolved {
  Host : bytes;
  Port : Z;
  ServerName : bytes;
  PinnedIPs : list bytes;
}.

(** ** The network *)

(** A key request asks the origin for its keys, or a notary for those of a server. *)
Inductive key_request : Type := DirectKeys | NotaryKeys (notary : bytes).

Inductive event : Type :=
  | EvWellKnown (hostname : bytes)
  | EvSRV (service proto hostname : bytes)
  | EvLookupIP (host : bytes)
  | EvFetch (kind : key_request) (hosts : list bytes) (serverName : bytes).

(** The outcome of GET https://hostname/.well-known/matrix/server: no request
    could be built or it failed; a status; of a 200 a body that could not be
    read, does not decode, or decodes with this [m.server]. *)
Inductive wk_body : Type := BodyUnreadable | BodyInvalid | BodyServer (server : bytes).

Inductive wk_reply : Type :=
  | WkRequestError
  | WkTransportError
  | WkResponse (status : Z) (body : wk_body).

(** [net.LookupSRV]: the records, and the error with whether it is a
    [DNSError] that says not found. *)
Record srv_reply : Type := mkSrvReply {
  reply_addrs : list (bytes * Z);
  reply_err : option bool;
}.

Record network : Type := mkNetwork {
  net_wellKnown : nat -> bytes -> wk_reply;
  net_SRV : nat -> bytes -> bytes -> bytes -> srv_reply;
  net_LookupIP : nat -> bytes -> option (list IP);
  net_clock : nat -> Z;
}.

(** ** The state and its monad *)

Record Resolver : Type := mkResolver {
  cache : gmap bytes wellKnownEntry;
  srvCache : gmap bytes srvEntry;
  clockReads : nat;
  trace : list event;
}.

Definition M (A : Type) : Type := Resolver -> A * Resolver.
Definition rret {A} (a : A) : M A := fun r => (a, r).
Definition rbind {A B} (m : M A) (k : A -> M B) : M B := fun r => let '(a, r) := m r in k a r.

Declare Scope resolver_scope.
Delimit Scope resolver_scope with resolver.
Notation "x <-- m ;; k" := (rbind m (fun x => k)) (at level 20, m at level 99, k at level 200, only parsing) : resolver_scope.
Notation "m ;; k" := (rbind m (fun _ => k)) (at level 100, k at level 200, only parsing) : resolver_scope.
#[local] Open Scope resolver_scope.

Definition NewResolver : Resolver := mkResolver ∅ ∅ 0 [].

Definition wkSet (hostname : bytes) (e : wellKnownEntry) : M unit :=
  fun r => (tt, mkResolver (<[hostname := e]> (cache r)) (srvCache r) (clockReads r) (trace r)).

Definition srvSet (key : bytes) (e : srvEntry) : M unit :=
  fun r => (tt, mkResolver (cache r) (<[key := e]> (srvCache r)) (clockReads r) (trace r)).

Section Resolver.
Variable net : network.

(** [time.Now()]. *)
Definition now : M Z :=
  fun r => (net_clock net (clockReads r), mkResolver (cache r) (srvCache r) (S (clockReads r)) (trace r)).

Definition record_event (e : event) : M nat :=
  fun r => (length (trace r), mkResolver (cache r) (srvCache r) (clockReads r) (trace r ++ [e])).

Definition getWellKnown (hostname : bytes) : M wk_reply :=
  n <-- record_event (EvWellKnown hostname);; rret (net_wellKnown net n hostname).

Definition LookupSRV (service proto hostname : bytes) : M srv_reply :=
  n <-- record_event (EvSRV service proto hostname);; rret (net_SRV net n service proto hostname).

Definition LookupIP (host : bytes) : M (option (list IP)) :=
  n <-- record_event (EvLookupIP host);; rret (net_LookupIP net n host).

(** ** The well-known cache *)

Definition wkTTL (e : wellKnownEntry) : Z :=
  if negb (wk_isError e) then 24 * Hour
  else match wk_errType e with
       | errNotFound => Hour
       | errInvalid => 30 * Minute
       | errTemporary => 2 * Minute
       | errNone => 5 * Minute
       end.

Definition wkGet (hostname : bytes) : M (option wellKnownEntry) := fun r =>
  match cache r !! hostname with
  | None => (None, r)
  | Some entry =>
      (t <-- now;; rret (if decide (wkTTL entry < timeSub t (wk_fetchedAt entry)) then None else Some entry)) r
  end.

Definition cacheErrorWithType (hostname : bytes) (et : errorType) : M unit :=
  t <-- now;; wkSet hostname (mkWK [] 0 t true et).

(** The delegated host and port, as a cache entry; [None] is an error. *)
Definition resolveWellKnown (hostname : bytes) : M (option wellKnownEntry) :=
  cached <-- wkGet hostname;;
  match cached with
  | Some entry => rret (if wk_isError entry then None else Some entry)
  | None =>
      let fail et := cacheErrorWithType hostname et;; rret None in
      reply <-- getWellKnown hostname;;
      match reply with
      | WkRequestError | WkTransportError => fail errTemporary
      | WkResponse status body =>
          if decide (status = 404) then fail errNotFound
          else if decide (status <> 200) then fail errTemporary
          else match body with
               | BodyUnreadable => fail errTemporary
               | BodyInvalid => fail errInvalid
               | BodyServer server =>
                   if decide (server = []) then fail errInvalid
                   else
                     let '(delegatedHost, delegatedPort, _) := parseServerName server in
                     t <-- now;;
                     let entry := mkWK delegatedHost delegatedPort t false errNone in
                     wkSet hostname entry;; rret (Some entry)
               end
      end
  end.

(** ** The SRV cache *)

Definition srvTTL (e : srvEntry) : Z :=
  if negb (srv_isError e) then Hour
  else if srv_isNotFound e then 30 * Minute else 2 * Minute.

Definition srvGet (key : bytes) : M (option srvEntry) := fun r =>
  match srvCache r !! key with
  | None => (None, r)
  | Some entry =>
      (t <-- now;; rret (if decide (srvTTL entry < timeSub t (srv_fetchedAt entry)) then None else Some entry)) r
  end.

Definition srvKey (service proto hostname : bytes) : bytes := service ++ bs "." ++ proto ++ bs "." ++ hostname.

Definition isNXDOMAIN (err : option bool) : bool := match err with None => false | Some b => b end.

Definition lookupSRV (service proto hostname serverName : bytes) : M (option ResolvedServer) :=
  let cacheKey := srvKey service proto hostname in
  cached <-- srvGet cacheKey;;
  match cached with
  | Some entry =>
      rret (if srv_isError entry then None
            else Some (mkResolved (srv_target entry) (srv_port entry) serverName []))
  | None =>
      reply <-- LookupSRV service proto hostname;;
      match reply_err reply, reply_addrs reply with
      | None, (target, port) :: _ =>
          let target := TrimSuffix target (bs ".") in
          t <-- now;;
          srvSet cacheKey (mkSRV target port t false false);;
          rret (Some (mkResolved target port serverName []))
      | err, addrs =>
          let isNotFound := bool_decide (addrs = []) || isNXDOMAIN err in
          t <-- now;;
          srvSet cacheKey (mkSRV [] 0 t true isNotFound);; rret None
      end
  end.

Definition resolveSRV (hostname serverName : bytes) : M (option ResolvedServer) :=
  lookupSRV (bs "_matrix-fed") (bs "_tcp") hostname serverName.

Definition resolveSRVLegacy (hostname serverName : bytes) : M (option ResolvedServer) :=
  lookupSRV (bs "_matrix") (bs "_tcp") hostname serverName.

(** ** Resolution *)

Definition resolveDelegated (wk : wellKnownEntry) (originalServerName : bytes) : M ResolvedServer :=
  let hostname := wk_host wk in
  let port := wk_port wk in
  if isIP hostname then
    rret (mkResolved hostname (if decide (port = 0) then 8448 else port) originalServerName [])
  else if decide (port <> 0) then rret (mkResolved hostname port originalServerName [])
  else
    resolved <-- resolveSRV hostname originalServerName;;
    match resolved with
    | Some r => rret r
    | None =>
        resolved <-- resolveSRVLegacy hostname originalServerName;;
        match resolved with
        | Some r => rret r
        | None => rret (mkResolved hostname 8448 originalServerName [])
        end
    end.

Definition ResolveServerName (serverName : bytes) : M ResolvedServer :=
  let '(hostname, port, literal) := parseServerName serverName in
  if (literal : bool) then
    rret (mkResolved hostname (if decide (port = 0) then 8448 else port) serverName [])
  else if decide (port <> 0) then rret (mkResolved hostname port serverName [])
  else
    delegated <-- resolveWellKnown hostname;;
    match delegated with
    | Some wk => resolveDelegated wk serverName
    | None =>
        resolved <-- resolveSRV hostname serverName;;
        match resolved with
        | Some r => rret r
        | None =>
            resolved <-- resolveSRVLegacy hostname serverName;;
            match resolved with
            | Some r => rret r
            | None => rret (mkResolved hostname 8448 serverName [])
            end
        end
    end.

(** ** The guard ([fetcher_ssrf.go]) *)

(** [None] is the error; otherwise the server with its pinned addresses. *)
Definition rejectPrivateAddress (blockPrivateIPs : bool) (resolved : ResolvedServer) : M (option ResolvedServer) :=
  if negb blockPrivateIPs then rret (Some resolved)
  else match ParseIP (Host resolved) with
       | Some ip => rret (if isPrivateIP ip then None else Some resolved)
       | None =>
           ips <-- LookupIP (Host resolved);;
           match ips with
           | None | Some [] => rret None
           | Some ips =>
               if existsb isPrivateIP ips then rret None
               else rret (Some (mkResolved (Host resolved) (Port resolved) (ServerName resolved) (map IP_String ips)))
           end
       end.

(** The hosts the client of [clientForResolved] dials, in order. *)
Definition dialHosts (resolved : ResolvedServer) : list bytes :=
  match PinnedIPs resolved with [] => [Host resolved] | pinned => pinned end.

(** The start of [fetchDirect] and of [fetchFromNotary]: what they dial. *)
Definition fetchHosts (blockPrivateIPs : bool) (serverName : bytes) : M (option (list bytes)) :=
  resolved <-- ResolveServerName serverName;;
  guarded <-- rejectPrivateAddress blockPrivateIPs resolved;;
  rret (dialHosts <$> guarded).

End Resolver.
