(* ===== verification/ResolverProofs.v ===== *)
(** * Discovery through the caches, and the guard

    The caches are transparent on a network that does not change, and no
    address the fetcher dials after the guard is private. *)
From S2P Require Import Prelude Decimal GoTime GoStrings NetIP NetIPProofs ServerNames TrustPolicy.
From S2P Require Import Resolver.
From Stdlib Require Import ZArith Lia.
From stdpp Require Import base gmap list strings fin_maps.
#[local] Open Scope Z_scope.
#[local] Open Scope resolver_scope.

(** ** Discovery as a function of the network *)

(** The network answers the same question always in the same way. *)
Definition static (net : network) : Prop :=
  (forall n h, net_wellKnown net n h = net_wellKnown net 0 h)
  /\ (forall n s p h, net_SRV net n s p h = net_SRV net 0 s p h).

Section Discovery.
Variable net : network.

Definition delegation (hostname : bytes) : option (bytes * Z) :=
  match net_wellKnown net 0 hostname with
  | WkResponse status (BodyServer server) =>
      if decide (status = 200 /\ server <> []) then Some (parseServerName server).1 else None
  | _ => None
  end.

Definition srvRecord (service hostname : bytes) : option (bytes * Z) :=
  match net_SRV net 0 service (bs "_tcp") hostname with
  | mkSrvReply ((target, port) :: _) None => Some (TrimSuffix target (bs "."), port)
  | _ => None
  end.

(** The SRV records of a host, the current service first, or the host itself. *)
Definition srvOrDefault (hostname : bytes) : bytes * Z :=
  match srvRecord (bs "_matrix-fed") hostname with
  | Some r => r
  | None => default (hostname, 8448) (srvRecord (bs "_matrix") hostname)
  end.

Definition endpoint (hostname : bytes) (port : Z) (literal : bool) (otherwise : bytes * Z) : bytes * Z :=
  if literal then (hostname, if decide (port = 0) then 8448 else port)
  else if decide (port <> 0) then (hostname, port) else otherwise.

(** The steps of Matrix server discovery. *)
Definition discover (serverName : bytes) : bytes * Z :=
  let '(hostname, port, literal) := parseServerName serverName in
  endpoint hostname port literal
    match delegation hostname with
    | Some (host, port) => endpoint host port (isIP host) (srvOrDefault host)
    | None => srvOrDefault hostname
    end.

(** Every cached answer is the network's. *)
Record cache_ok (r : Resolver) : Prop := {
  cache_wk : forall h e, cache r !! h = Some e ->
    delegation h = if wk_isError e then None else Some (wk_host e, wk_port e);
  cache_srv : forall service h e, service ∈ [bs "_matrix-fed"; bs "_matrix"] ->
    srvCache r !! srvKey service (bs "_tcp") h = Some e ->
    srvRecord service h = if srv_isError e then None else Some (srv_target e, srv_port e);
}.

Lemma cache_ok_frame r r' : cache r' = cache r -> srvCache r' = srvCache r -> cache_ok r -> cache_ok r'.
Proof. intros E1 E2 [H1 H2]. split; [by rewrite E1|by rewrite E2]. Qed.

(** [m] returns a value of [Q] and leaves the caches in order. *)
Definition ensures {A} (m : M A) (r : Resolver) (Q : A -> Prop) : Prop := Q (m r).1 /\ cache_ok (m r).2.

Lemma ensures_ret {A} (a : A) r (Q : A -> Prop) : cache_ok r -> Q a -> ensures (rret a) r Q.
Proof. by split. Qed.

Lemma ensures_bind {A B} (m : M A) (k : A -> M B) r (P : A -> Prop) (Q : B -> Prop) :
  ensures m r P -> (forall a r', P a -> cache_ok r' -> ensures (k a) r' Q) -> ensures (rbind m k) r Q.
Proof. unfold ensures, rbind. intros [HP H] Hk. destruct (m r) as [x r']. by apply Hk. Qed.

Lemma ensures_now {B} (k : Z -> M B) r (Q : B -> Prop) :
  cache_ok r -> (forall t r', cache_ok r' -> ensures (k t) r' Q) -> ensures (rbind (now net) k) r Q.
Proof.
  intros H Hk. apply (ensures_bind _ _ _ (fun _ => True)); [|intros a r' _; apply Hk].
  split; [done|]. by apply (cache_ok_frame r).
Qed.

Lemma ensures_event {B} e (k : nat -> M B) r (Q : B -> Prop) :
  cache_ok r -> (forall n r', cache_ok r' -> ensures (k n) r' Q) -> ensures (n <-- record_event e;; k n) r Q.
Proof.
  intros H Hk. apply (ensures_bind _ _ _ (fun _ => True)); [|intros a r' _; apply Hk].
  split; [done|]. by apply (cache_ok_frame r).
Qed.

Lemma srvKey_inj s s' h h' :
  s ∈ [bs "_matrix-fed"; bs "_matrix"] -> s' ∈ [bs "_matrix-fed"; bs "_matrix"] ->
  srvKey s (bs "_tcp") h = srvKey s' (bs "_tcp") h' -> s = s' /\ h = h'.
Proof.
  unfold srvKey. rewrite !elem_of_cons, !elem_of_nil. intros [->|[->|[]]] [->|[->|[]]] E; try done.
  all: split; [done|]. all: by repeat (injection E as E).
Qed.

Lemma ensures_srvSet {B} (k : M B) r s h e (Q : B -> Prop) :
  cache_ok r -> s ∈ [bs "_matrix-fed"; bs "_matrix"] ->
  srvRecord s h = (if srv_isError e then None else Some (srv_target e, srv_port e)) ->
  (forall r', cache_ok r' -> ensures k r' Q) -> ensures (srvSet (srvKey s (bs "_tcp") h) e;; k) r Q.
Proof.
  intros [H1 H2] Hs He Hk. apply (ensures_bind _ _ _ (fun _ => True)); [|intros _ r' _; apply Hk].
  split; [done|]. split; [done|].
  intros s' h' e' Hs'. simpl. rewrite lookup_insert_Some. intros [[Hkey <-]|[_ Hl]]; [|by apply H2].
  by apply srvKey_inj in Hkey as [<- <-].
Qed.

Lemma ensures_wkSet {B} (k : M B) r h e (Q : B -> Prop) :
  cache_ok r -> delegation h = (if wk_isError e then None else Some (wk_host e, wk_port e)) ->
  (forall r', cache_ok r' -> ensures k r' Q) -> ensures (wkSet h e;; k) r Q.
Proof.
  intros [H1 H2] He Hk. apply (ensures_bind _ _ _ (fun _ => True)); [|intros _ r' _; apply Hk].
  split; [done|]. split; [|done].
  intros h' e'. simpl. rewrite lookup_insert_Some. intros [[<- <-]|[_ Hl]]; [done|by apply H1].
Qed.

Hypothesis Hstatic : static net.

Lemma lookupSRV_ensures service hostname serverName r :
  cache_ok r -> service ∈ [bs "_matrix-fed"; bs "_matrix"] ->
  ensures (lookupSRV net service (bs "_tcp") hostname serverName) r
    (eq ((fun tp => mkResolved tp.1 tp.2 serverName []) <$> srvRecord service hostname)).
Proof.
  intros Hr Hs. unfold lookupSRV.
  eapply (ensures_bind _ _ _ (fun c => forall e, c = Some e ->
    srvRecord service hostname = if srv_isError e then None else Some (srv_target e, srv_port e))).
  { unfold ensures, srvGet. destruct (srvCache r !! srvKey service (bs "_tcp") hostname) as [e|] eqn:E; [|by split].
    split; [|by apply (cache_ok_frame r)]. simpl. intros e'. case_decide; [done|].
    intros [= <-]. by apply (cache_srv r Hr). }
  intros c r1 Hc Hr1. destruct c as [e|].
  { rewrite (Hc e eq_refl). by destruct (srv_isError e); apply ensures_ret. }
  unfold LookupSRV. apply (ensures_bind _ _ _ (eq (net_SRV net 0 service (bs "_tcp") hostname))).
  { apply ensures_event; [done|]. intros n r' Hr'. destruct Hstatic as [_ ->]. by apply ensures_ret. }
  intros reply r2 <- Hr2. unfold srvRecord.
  destruct (net_SRV net 0 service (bs "_tcp") hostname) as [[|[target port] addrs] [b|]] eqn:E.
  all: cbn [reply_addrs reply_err]; apply ensures_now; [done|]; intros t r3 Hr3; apply ensures_srvSet; try done.
  all: try (unfold srvRecord; by rewrite E). all: intros; by apply ensures_ret.
Qed.

Lemma ensures_cacheError {A} hostname et (a : A) r (Q : A -> Prop) :
  cache_ok r -> delegation hostname = None -> Q a ->
  ensures (cacheErrorWithType net hostname et;; rret a) r Q.
Proof.
  intros Hr Hd HQ. eapply (ensures_bind _ _ _ (fun _ => True)); [|intros _ r' _ Hr'; by apply ensures_ret].
  unfold ensures, cacheErrorWithType, rbind, now, wkSet. simpl. split; [done|]. destruct Hr as [H1 H2]. split; [|done].
  intros h e. simpl. rewrite lookup_insert_Some. intros [[<- <-]|[_ Hl]]; [done|by apply H1].
Qed.

Lemma resolveWellKnown_ensures hostname r :
  cache_ok r ->
  ensures (resolveWellKnown net hostname) r
    (fun entry => (fun e => (wk_host e, wk_port e)) <$> entry = delegation hostname).
Proof.
  intros Hr. unfold resolveWellKnown.
  eapply (ensures_bind _ _ _ (fun c => forall e, c = Some e ->
    delegation hostname = if wk_isError e then None else Some (wk_host e, wk_port e))).
  { unfold ensures, wkGet. destruct (cache r !! hostname) as [e|] eqn:E; [|by split].
    split; [|by apply (cache_ok_frame r)]. simpl. intros e'. case_decide; [done|].
    intros [= <-]. by apply (cache_wk r Hr). }
  intros c r1 Hc Hr1. destruct c as [e|].
  { rewrite (Hc e eq_refl). apply ensures_ret; [done|]. by destruct (wk_isError e). }
  unfold getWellKnown. apply (ensures_bind _ _ _ (eq (net_wellKnown net 0 hostname))).
  { apply ensures_event; [done|]. intros n r' Hr'. destruct Hstatic as [-> _]. by apply ensures_ret. }
  intros reply r2 <- Hr2. assert (delegation hostname = delegation hostname) as Hd by done. unfold delegation in Hd at 2.
  destruct (net_wellKnown net 0 hostname) as [| |status body]; [by apply ensures_cacheError..|].
  destruct (decide (status = 404)) as [->|].
  { assert (delegation hostname = None) by (by destruct body). by apply ensures_cacheError. }
  destruct (decide (status <> 200)) as [|Hok].
  { assert (delegation hostname = None); [|by apply ensures_cacheError].
    destruct body; try done. by rewrite decide_False in Hd by tauto. }
  apply dec_stable in Hok as ->. destruct body as [| |server]; [by apply ensures_cacheError..|].
  destruct (decide (server = [])) as [->|Hne].
  { rewrite decide_False in Hd by tauto. by apply ensures_cacheError. }
  rewrite decide_True in Hd by done. destruct (parseServerName server) as [[h p] l] eqn:Ep.
  apply ensures_now; [done|]. intros t r3 Hr3. apply ensures_wkSet; [done..|].
  intros r4 Hr4. by apply ensures_ret.
Qed.

(** The result names this endpoint, for this server, with nothing pinned. *)
Definition resolves_to (serverName : bytes) (e : bytes * Z) (res : ResolvedServer) : Prop :=
  res = mkResolved e.1 e.2 serverName [].

Lemma srv_chain_ensures hostname serverName r :
  cache_ok r ->
  ensures (resolved <-- resolveSRV net hostname serverName;;
           match resolved with
           | Some res => rret res
           | None =>
               resolved <-- resolveSRVLegacy net hostname serverName;;
               match resolved with
               | Some res => rret res
               | None => rret (mkResolved hostname 8448 serverName [])
               end
           end) r (resolves_to serverName (srvOrDefault hostname)).
Proof.
  intros Hr. eapply ensures_bind; [by apply lookupSRV_ensures; [|left]|]. intros a r1 <- Hr1. unfold srvOrDefault.
  destruct (srvRecord (bs "_matrix-fed") hostname) as [[t p]|]; [by apply ensures_ret|].
  eapply ensures_bind; [by apply lookupSRV_ensures; [|right; left]|]. intros a r2 <- Hr2.
  by destruct (srvRecord (bs "_matrix") hostname) as [[t p]|]; apply ensures_ret.
Qed.

Lemma endpoint_ensures hostname port literal otherwise serverName (k : M ResolvedServer) r :
  cache_ok r -> ensures k r (resolves_to serverName otherwise) ->
  ensures (if (literal : bool) then rret (mkResolved hostname (if decide (port = 0) then 8448 else port) serverName [])
           else if decide (port <> 0) then rret (mkResolved hostname port serverName []) else k)
    r (resolves_to serverName (endpoint hostname port literal otherwise)).
Proof. intros Hr Hk. unfold endpoint. destruct literal; [by apply ensures_ret|]. case_decide; [by apply ensures_ret|done]. Qed.

Lemma ResolveServerName_ensures serverName r :
  cache_ok r -> ensures (ResolveServerName net serverName) r (resolves_to serverName (discover serverName)).
Proof.
  intros Hr. unfold ResolveServerName, discover. destruct (parseServerName serverName) as [[hostname port] literal].
  apply endpoint_ensures; [done|]. eapply ensures_bind; [by apply resolveWellKnown_ensures|].
  intros [e|] r1 <- Hr1; [|by apply srv_chain_ensures].
  apply endpoint_ensures; [done|]. by apply srv_chain_ensures.
Qed.

End Discovery.


Definition demo_net : network :=
  mkNetwork
    (fun _ h => if decide (h = bs "example.org") then WkResponse 200 (BodyServer (bs "chat.example.org")) else WkTransportError)
    (fun _ s _ h => if decide (s = bs "_matrix" /\ h = bs "chat.example.org")
                    then mkSrvReply [(bs "node.example.org.", 443)] None else mkSrvReply [] (Some true))
    (fun _ h => if decide (h = bs "node.example.org") then Some [1] else Some [mapped 134744072; 42540766411282592856906245548098208122])
    (fun n => Z.of_nat n * Minute).

Lemma demo_static : static demo_net.
Proof. by split. Qed.

Lemma cache_ok_new net : cache_ok net NewResolver.
Proof. split; simpl; intros *; [|intros _]; by rewrite lookup_empty. Qed.


(** ** The guard *)

(** Resolution pins nothing itself. *)
Definition yields {A} (m : M A) (P : A -> Prop) : Prop := forall r, P (m r).1.

Lemma yields_bind {A B} (m : M A) (k : A -> M B) (P : A -> Prop) (Q : B -> Prop) :
  yields m P -> (forall a, P a -> yields (k a) Q) -> yields (rbind m k) Q.
Proof. intros Hm Hk r. unfold rbind. specialize (Hm r). destruct (m r) as [a r']. by apply Hk. Qed.

Lemma yields_any {A B} (m : M A) (k : A -> M B) (Q : B -> Prop) :
  (forall a, yields (k a) Q) -> yields (rbind m k) Q.
Proof. intros Hk. by apply (yields_bind _ _ (fun _ => True)). Qed.

Definition unpinned (res : ResolvedServer) : Prop := PinnedIPs res = [].

Lemma lookupSRV_pins net service proto hostname serverName :
  yields (lookupSRV net service proto hostname serverName) (fun o => forall res, o = Some res -> unpinned res).
Proof.
  apply yields_any. intros [e|].
  { intros r res. simpl. destruct (srv_isError e); [done|]. by intros [= <-]. }
  apply yields_any. intros [[|[t p] addrs] [b|]]; cbn [reply_addrs reply_err].
  all: do 2 (apply yields_any; intros ?). all: intros r res; simpl; [done..|]. all: by intros [= <-].
Qed.

Lemma srv_chain_pins net hostname serverName :
  yields (resolved <-- resolveSRV net hostname serverName;;
          match resolved with
          | Some res => rret res
          | None =>
              resolved <-- resolveSRVLegacy net hostname serverName;;
              match resolved with
              | Some res => rret res
              | None => rret (mkResolved hostname 8448 serverName [])
              end
          end) unpinned.
Proof.
  eapply yields_bind; [apply lookupSRV_pins|]. intros [res|] Hres; [intros r; by apply Hres|].
  eapply yields_bind; [apply lookupSRV_pins|]. intros [res|] Hres'; [intros r; by apply Hres'|done].
Qed.

Lemma ResolveServerName_pins net serverName : yields (ResolveServerName net serverName) unpinned.
Proof.
  unfold ResolveServerName. destruct (parseServerName serverName) as [[hostname port] literal].
  destruct literal; [done|]. case_decide; [done|]. apply yields_any. intros [wk|]; [|apply srv_chain_pins].
  unfold resolveDelegated. destruct (isIP (wk_host wk)); [done|]. case_decide; [done|]. apply srv_chain_pins.
Qed.

(** [LookupIP] returns addresses. *)
Definition lookup_ok (net : network) : Prop :=
  forall n h ips, net_LookupIP net n h = Some ips -> Forall ip_ok ips.

(** C19. With private addresses blocked, whatever the resolver and the caches
    answered, every host the fetcher dials for its key request is the text of one
    address that is not private; for that request names are never dialled, only the
    addresses that were looked up and checked. The lookup is assumed to return
    addresses (128 bits, IPv4 mapped). The well-known request that discovery makes
    before is not covered: it dials the name unguarded
    ([well_known_before_guard]). *)
Theorem guard_dials_public net serverName r hosts r' :
  lookup_ok net ->
  fetchHosts net true serverName r = (Some hosts, r') ->
  hosts <> [] /\ Forall (fun host => exists ip, ParseIP host = Some ip /\ isPrivateIP ip = false) hosts.
Proof.
  intros Hnet. unfold fetchHosts, rbind at 1. destruct (ResolveServerName net serverName r) as [res r1] eqn:Er.
  pose proof (ResolveServerName_pins net serverName r) as Hpin. rewrite Er in Hpin. cbn [fst] in Hpin.
  unfold rejectPrivateAddress, rbind. cbn [negb].
  destruct (ParseIP (Host res)) as [ip|] eqn:Eip.
  - destruct (isPrivateIP ip) eqn:Epriv; [done|]. intros [= <- <-]. unfold dialHosts. rewrite Hpin.
    split; [done|]. constructor; [eauto|constructor].
  - unfold LookupIP, rbind, record_event, rret. simpl.
    destruct (net_LookupIP net (length (trace r1)) (Host res)) as [[|ip ips]|] eqn:El; [done| |done].
    destruct (existsb isPrivateIP (ip :: ips)) eqn:Ex; [done|]. intros [= <- <-].
    split; [done|]. apply Hnet in El as Hok. change (Forall (fun host => exists a, ParseIP host = Some a /\ isPrivateIP a = false) (map IP_String (ip :: ips))).
    revert Hok Ex. generalize (ip :: ips) as l. induction l as [|a l IH]; intros Hok Ex; [constructor|].
    inversion Hok as [|? ? Ha Hl]; subst. simpl in Ex. apply orb_false_elim in Ex as [Ea Ex].
    constructor; [exists a; split; [by apply ParseIP_String|done]|by apply IH].
Qed.

Lemma guard_dials_public_witness :
  lookup_ok demo_net
  /\ (let hosts := [bs "8.8.8.8"; bs "2001:db8::8:800:200c:417a"] in
      hosts <> [] /\ Forall (fun host => exists ip, ParseIP host = Some ip /\ isPrivateIP ip = false) hosts).
Proof.
  assert (lookup_ok demo_net) as Hok.
  { intros n h ips. simpl. case_decide; intros [= <-]; repeat constructor; by vm_compute. }
  split; [exact Hok|].
  refine (guard_dials_public demo_net (bs "other.org:8448") NewResolver _ _ Hok _). by vm_compute.
Defined.

(** The name whose only address is the loopback is refused. *)
Example guard_refuses : (fetchHosts demo_net true (bs "example.org") NewResolver).1 = None.
Proof. by vm_compute. Qed.

(** ** What the code does beside its intent *)

(** Discovery only adds exchanges of its own. *)
Definition ofDiscovery (e : event) : Prop := match e with EvFetch _ _ _ => False | _ => True end.

Definition grows {A} (m : M A) : Prop := forall r, exists l, trace (m r).2 = trace r ++ l /\ Forall ofDiscovery l.

Lemma grows_ret {A} (a : A) : grows (rret a).
Proof. intros r. exists []. by rewrite app_nil_r. Qed.

Lemma grows_bind {A B} (m : M A) (k : A -> M B) : grows m -> (forall a, grows (k a)) -> grows (rbind m k).
Proof.
  intros Hm Hk r. unfold rbind. destruct (Hm r) as (l & Hl & Hd). destruct (m r) as [a r']. simpl in Hl.
  destruct (Hk a r') as (l' & Hl' & Hd'). exists (l ++ l'). rewrite Hl', Hl, app_assoc. split; [done|]. by apply Forall_app.
Qed.

Lemma grows_quiet {A} (m : M A) : (forall r, trace (m r).2 = trace r) -> grows m.
Proof. intros H r. exists []. by rewrite app_nil_r. Qed.

Lemma grows_event e : ofDiscovery e -> grows (record_event e).
Proof. intros He r. exists [e]. split; [done|]. by constructor. Qed.

Lemma lookupSRV_grows net service proto hostname serverName : grows (lookupSRV net service proto hostname serverName).
Proof.
  apply grows_bind; [apply grows_quiet; intros r; unfold srvGet; by destruct (srvCache r !! _)|].
  intros [e|]; [apply grows_ret|]. apply grows_bind; [apply grows_bind; [by apply grows_event|intros; apply grows_ret]|].
  intros [[|[t p] addrs] [b|]]; cbn [reply_addrs reply_err].
  all: apply grows_bind; [by apply grows_quiet|]; intros ?; apply grows_bind; [by apply grows_quiet|]; intros; apply grows_ret.
Qed.

Lemma srv_chain_grows net hostname serverName (otherwise : ResolvedServer) :
  grows (resolved <-- resolveSRV net hostname serverName;;
         match resolved with
         | Some res => rret res
         | None =>
             resolved <-- resolveSRVLegacy net hostname serverName;;
             match resolved with
             | Some res => rret res
             | None => rret otherwise
             end
         end).
Proof.
  apply grows_bind; [apply lookupSRV_grows|]. intros [res|]; [apply grows_ret|].
  apply grows_bind; [apply lookupSRV_grows|]. intros [res|]; apply grows_ret.
Qed.

Lemma resolveDelegated_grows net wk serverName : grows (resolveDelegated net wk serverName).
Proof.
  unfold resolveDelegated. destruct (isIP (wk_host wk)); [apply grows_ret|]. case_decide; [apply grows_ret|].
  apply srv_chain_grows.
Qed.

Lemma rejectPrivateAddress_grows net block res : grows (rejectPrivateAddress net block res).
Proof.
  unfold rejectPrivateAddress. destruct block; [|apply grows_ret]. cbn [negb].
  destruct (ParseIP (Host res)); [apply grows_ret|].
  apply grows_bind; [apply grows_bind; [by apply grows_event|intros; apply grows_ret]|].
  intros [[|ip ips]|]; [apply grows_ret| |apply grows_ret]. destruct (existsb isPrivateIP (ip :: ips)); apply grows_ret.
Qed.

Lemma resolveWellKnown_grows net hostname : grows (resolveWellKnown net hostname).
Proof.
  apply grows_bind; [apply grows_quiet; intros r; unfold wkGet; by destruct (cache r !! _)|].
  intros [e|]; [apply grows_ret|].
  assert (forall et, grows (cacheErrorWithType net hostname et;; @rret (option wellKnownEntry) None)) as Hfail.
  { intros et. by apply grows_quiet. }
  apply grows_bind; [apply grows_bind; [by apply grows_event|intros; apply grows_ret]|].
  intros [| |status body]; [apply Hfail..|]. case_decide; [apply Hfail|]. case_decide; [apply Hfail|].
  destruct body as [| |server]; [apply Hfail..|]. case_decide; [apply Hfail|].
  destruct (parseServerName server) as [[h p] l]. by apply grows_quiet.
Qed.

Lemma ResolveServerName_grows net serverName : grows (ResolveServerName net serverName).
Proof.
  unfold ResolveServerName. destruct (parseServerName serverName) as [[hostname port] literal].
  destruct literal; [apply grows_ret|]. case_decide; [apply grows_ret|].
  apply grows_bind; [apply resolveWellKnown_grows|]. intros [wk|]; [apply resolveDelegated_grows|apply srv_chain_grows].
Qed.

Lemma fetchHosts_grows net block serverName : grows (fetchHosts net block serverName).
Proof.
  apply grows_bind; [apply ResolveServerName_grows|]. intros res.
  apply grows_bind; [apply rejectPrivateAddress_grows|]. intros; apply grows_ret.
Qed.

(** [m] begins with this exchange. *)
Definition starts {A} (m : M A) (r : Resolver) (e : event) : Prop := exists l, trace (m r).2 = trace r ++ e :: l.

Lemma starts_bind {A B} (m : M A) (k : A -> M B) r e : starts m r e -> (forall a, grows (k a)) -> starts (rbind m k) r e.
Proof.
  intros [l Hl] Hk. unfold starts, rbind. destruct (m r) as [a r']. simpl in Hl.
  destruct (Hk a r') as (l' & Hl' & _). exists (l ++ l'). by rewrite Hl', Hl, <- app_assoc.
Qed.

Lemma resolveWellKnown_starts net hostname r :
  cache r !! hostname = None -> starts (resolveWellKnown net hostname) r (EvWellKnown hostname).
Proof.
  intros Hc. unfold starts, resolveWellKnown, wkGet. unfold rbind at 1. rewrite Hc.
  apply (starts_bind (getWellKnown net hostname)).
  - by exists [].
  - assert (forall et, grows (cacheErrorWithType net hostname et;; @rret (option wellKnownEntry) None)) as Hfail.
    { intros et. by apply grows_quiet. }
    intros [| |status body]; [apply Hfail..|]. case_decide; [apply Hfail|]. case_decide; [apply Hfail|].
    destruct body as [| |server]; [apply Hfail..|]. case_decide; [apply Hfail|].
    destruct (parseServerName server) as [[h p] l]. by apply grows_quiet.
Qed.

(** The well-known document is requested from the host of the name before the
    guard looks at any address, and whatever it would find. *)
Theorem well_known_before_guard net blockPrivateIPs serverName hostname r :
  parseServerName serverName = (hostname, 0, false) -> cache r !! hostname = None ->
  starts (fetchHosts net blockPrivateIPs serverName) r (EvWellKnown hostname).
Proof.
  intros Hp Hc. unfold fetchHosts. apply starts_bind.
  - unfold ResolveServerName. rewrite Hp. apply starts_bind; [by apply resolveWellKnown_starts|].
    intros [wk|]; [apply resolveDelegated_grows|apply srv_chain_grows].
  - intros res. apply grows_bind; [apply rejectPrivateAddress_grows|]. intros; apply grows_ret.
Qed.

(** A lookup that fails without an answer (a timeout, say) is cached as the
    absence of records: for thirty minutes, not for the two of a temporary
    error. *)
Theorem temporary_dns_error_cached_as_absent net service proto hostname serverName r :
  srvCache r !! srvKey service proto hostname = None ->
  net_SRV net (length (trace r)) service proto hostname = mkSrvReply [] (Some false) ->
  exists entry, srvCache (lookupSRV net service proto hostname serverName r).2 !! srvKey service proto hostname = Some entry
    /\ srv_isError entry = true /\ srvTTL entry = 30 * Minute.
Proof.
  intros Hc Hn. unfold lookupSRV, rbind, srvGet. rewrite Hc. unfold LookupSRV, rbind, record_event, rret. simpl. rewrite Hn.
  simpl. eexists. split; [by rewrite lookup_insert_eq|done].
Qed.
