(* ===== verification/Auth.v ===== *)
(** * Message authentication (internal/zero/raft/auth.go, internal/cluster/auth.go)

    Both transports sign the canonical JSON of the type, the sender, the
    timestamp and the hex payload with HMAC-SHA256 under the shared secret, and
    remember the signatures they accepted. [time.Now()] is read once for the skew
    and once more for the purge of the memory: [now] and [now'] are the two
    readings. *)
From S2P Require Import Prelude Crypto Decimal GoTime GoStrings Canonical CanonicalProofs.
From Stdlib Require Import ZArith Lia.
From stdpp Require Import base gmap list strings fin_maps.
#[local] Open Scope Z_scope.

(** [RPCMessage] and [ClusterMessage]. *)
Record RPCMessage : Type := mkRPC {
  Type_ : bytes;
  From_ : bytes;
  Timestamp : Z;
  Payload : bytes;
  Signature : bytes;
}.

Definition maxRPCSkew : Z := 5 * Minute.
Definition maxMessageSkew : Z := 5 * Minute.

Inductive auth_err : Type :=
  | ErrSignatureMissing | ErrTimestampSkew | ErrSign (e : canon_err) | ErrSignatureMismatch | ErrReplay.

(** [rpcMACPayload] and [messageMACPayload]. *)
Definition macFields (msg : RPCMessage) : gvalue :=
  VObject [(bs "type", VString (Type_ msg)); (bs "from", VString (From_ msg));
           (bs "timestamp", VString (FormatRFC3339Nano (Timestamp msg)));
           (bs "payload_hex", VString (Hex.EncodeToString (Payload msg)))].

Definition rpcMACPayload (msg : RPCMessage) : result canon_err bytes := Marshal (macFields msg).

Definition set_signature (sig : bytes) (msg : RPCMessage) : RPCMessage :=
  mkRPC (Type_ msg) (From_ msg) (Timestamp msg) (Payload msg) sig.

(** [signRPC]: a zero timestamp is replaced by the clock. *)
Definition signRPC (now : Z) (secret : bytes) (msg : RPCMessage) : result canon_err RPCMessage :=
  let msg := if decide (Timestamp msg = zeroTime)
             then mkRPC (Type_ msg) (From_ msg) now (Payload msg) (Signature msg) else msg in
  match rpcMACPayload msg with
  | Err e => Err e
  | Ok payload => Ok (set_signature (Hex.EncodeToString (Hmac.hmac_sha256 secret payload)) msg)
  end.

(** [signMessage] of the cluster transport has no clock fallback. *)
Definition signMessage (secret : bytes) (msg : RPCMessage) : result canon_err RPCMessage :=
  match rpcMACPayload msg with
  | Err e => Err e
  | Ok payload => Ok (set_signature (Hex.EncodeToString (Hmac.hmac_sha256 secret payload)) msg)
  end.

(** [trackRPCSignature] and [trackMessageMAC]: purge what is older than the
    window, then refuse a signature that is still remembered. *)
Definition trackSignature (skew now : Z) (signature : bytes) (timestamp : Z) (seen : gmap bytes Z) : bool * gmap bytes Z :=
  let cutoff := now - skew in
  let seen := filter (fun kv => ~ kv.2 < cutoff) seen in
  match seen !! signature with
  | Some seenAt => if decide (~ seenAt < cutoff) then (false, seen) else (true, <[signature := timestamp]> seen)
  | None => (true, <[signature := timestamp]> seen)
  end.

(** The common body of the two verifiers, over their signer. *)
Definition verifySigned (sign : RPCMessage -> result canon_err RPCMessage) (skew now now' : Z)
    (msg : RPCMessage) (seen : gmap bytes Z) : option auth_err * gmap bytes Z :=
  if decide (Signature msg = []) then (Some ErrSignatureMissing, seen)
  else if decide (skew < timeSub now (Timestamp msg) \/ timeSub now (Timestamp msg) < - skew)
  then (Some ErrTimestampSkew, seen)
  else
    match sign (mkRPC (Type_ msg) (From_ msg) (Timestamp msg) (Payload msg) []) with
    | Err e => (Some (ErrSign e), seen)
    | Ok expected =>
        if decide (Signature expected <> Signature msg) then (Some ErrSignatureMismatch, seen)
        else
          let '(fresh, seen) := trackSignature skew now' (Signature msg) (Timestamp msg) seen in
          (if fresh : bool then None else Some ErrReplay, seen)
    end.

Definition verifyRPC (secret : bytes) (now now' : Z) (msg : RPCMessage) (seen : gmap bytes Z)
  : option auth_err * gmap bytes Z :=
  verifySigned (signRPC now secret) maxRPCSkew now now' msg seen.

Definition verifyMessage (secret : bytes) (now now' : Z) (msg : RPCMessage) (seen : gmap bytes Z)
  : option auth_err * gmap bytes Z :=
  verifySigned (signMessage secret) maxMessageSkew now now' msg seen.

(** ** What is signed *)

Lemma macFields_typed msg : wellTyped (macFields msg).
Proof. split; [|by repeat split]. apply (bool_decide_unpack (NoDup _)). vm_compute. exact I. Qed.

(** The JSON object that is signed, its keys in order. *)
Lemma object_of_fields a b c d :
  objectOf [(bs "type", Some a); (bs "from", Some b); (bs "timestamp", Some c); (bs "payload_hex", Some d)]
  = Some (JObject [(bs "from", b); (bs "payload_hex", d); (bs "timestamp", c); (bs "type", a)]).
Proof. vm_compute. reflexivity. Qed.

Lemma denote_macFields msg :
  denote (macFields msg) =
    Some (JObject [(bs "from", JString (toValidUTF8 (From_ msg)));
                   (bs "payload_hex", JString (toValidUTF8 (Hex.EncodeToString (Payload msg))));
                   (bs "timestamp", JString (toValidUTF8 (FormatRFC3339Nano (Timestamp msg))));
                   (bs "type", JString (toValidUTF8 (Type_ msg)))]).
Proof. apply object_of_fields. Qed.

Lemma rpcMACPayload_ok msg : exists payload, rpcMACPayload msg = Ok payload.
Proof.
  pose proof (writeValue_denote _ (macFields_typed msg)) as H. rewrite denote_macFields in H. by eexists.
Qed.

(** The signer of either transport, on a message with a timestamp. *)
Definition signs (secret : bytes) (sign : RPCMessage -> result canon_err RPCMessage) : Prop :=
  forall msg payload, Timestamp msg <> zeroTime -> rpcMACPayload msg = Ok payload ->
    sign msg = Ok (set_signature (Hex.EncodeToString (Hmac.hmac_sha256 secret payload)) msg).

Lemma signs_rpc now secret : signs secret (signRPC now secret).
Proof. intros msg payload Hz Hp. unfold signRPC. rewrite decide_False by done. by rewrite Hp. Qed.

Lemma signs_message secret : signs secret (signMessage secret).
Proof. intros msg payload Hz Hp. unfold signMessage. by rewrite Hp. Qed.

(** Hex digits and the text of an instant are ASCII. *)
Lemma nibble_ascii n : byte_to_Z (Hex.nibble n) < 128.
Proof.
  unfold Hex.nibble. assert (Forall (fun b => byte_to_Z b < 128) (Byte.x30 :: Hex.digits)) as H
    by (repeat constructor; vm_compute; reflexivity).
  rewrite List.Forall_forall in H. apply H.
  destruct (nth_in_or_default (Z.to_nat n) Hex.digits Byte.x30) as [Hin| ->]; [by right|by left].
Qed.

Lemma hex_ascii m : isAscii (Hex.EncodeToString m).
Proof. induction m; simpl; repeat constructor; try apply nibble_ascii. done. Qed.

Lemma digits_ascii d : Forall (fun b => is_digit b = true) d -> isAscii d.
Proof.
  intros H. eapply Forall_impl; [exact H|]. intros b. unfold is_digit. simpl. rewrite bool_decide_eq_true. lia.
Qed.

Lemma padded_ascii w n : isAscii (padded w n).
Proof.
  unfold padded. apply Forall_app. split; [|apply digits_ascii, FormatUint_digits].
  apply Forall_replicate. vm_compute. reflexivity.
Qed.

Lemma trimZeros_ascii s : isAscii s -> isAscii (trimZeros s).
Proof.
  intros H. rewrite (trimZeros_spec s) in H. by apply Forall_app in H as [H _].
Qed.

Lemma isAscii_cons b s : byte_to_Z b < 128 -> isAscii s -> isAscii (b :: s).
Proof. by constructor. Qed.

Lemma isAscii_app s t : isAscii s -> isAscii t -> isAscii (s ++ t).
Proof. intros. by apply Forall_app. Qed.

Lemma format_ascii t : isAscii (FormatRFC3339Nano t).
Proof.
  unfold FormatRFC3339Nano. destruct (civil _) as [[y m] d].
  assert (isAscii (appendYear y)) as Hy.
  { unfold appendYear. case_decide; [apply isAscii_cons; [vm_compute; reflexivity|]|]; apply padded_ascii. }
  assert (isAscii (fraction (t mod Second))) as Hf.
  { unfold fraction. pose proof (trimZeros_ascii (padded 9 (t mod Second)) (padded_ascii _ _)) as H.
    destruct (trimZeros _); [constructor|]. by apply isAscii_cons; [vm_compute; reflexivity|]. }
  repeat first [done | apply padded_ascii | apply isAscii_app | apply isAscii_cons; [vm_compute; reflexivity|] | constructor].
Qed.

#[local] Opaque FormatRFC3339Nano Hex.EncodeToString toValidUTF8 Hmac.hmac_sha256.

(** The text of the [i]-th member of an object. *)
Definition fieldText (i : nat) (j : jvalue) : bytes :=
  match j with
  | JObject l => match snd (nth i l ([], JNull)) with JString s => s | _ => [] end
  | _ => []
  end.

(** The text that the signature covers determines the fields. *)
Lemma macPayload_inj m1 m2 payload :
  ValidString (Type_ m1) = true -> ValidString (From_ m1) = true ->
  ValidString (Type_ m2) = true -> ValidString (From_ m2) = true ->
  fourDigitYear (Timestamp m1) -> fourDigitYear (Timestamp m2) ->
  rpcMACPayload m1 = Ok payload -> rpcMACPayload m2 = Ok payload ->
  Type_ m1 = Type_ m2 /\ From_ m1 = From_ m2 /\ Timestamp m1 = Timestamp m2 /\ Payload m1 = Payload m2.
Proof.
  intros Ht1 Hf1 Ht2 Hf2 Hy1 Hy2 H1 H2.
  pose proof (writeValue_denote _ (macFields_typed m1)) as D1. pose proof (writeValue_denote _ (macFields_typed m2)) as D2.
  rewrite denote_macFields in D1, D2. unfold agrees in D1, D2.
  assert (forall j k, Ok (E := canon_err) (render j) = Ok (render k) -> j = k) as Hinj.
  { intros j k [= E]. apply (f_equal parseJSON) in E. rewrite !parseJSON_render in E. congruence. }
  unfold rpcMACPayload, Marshal in *. rewrite D1 in H1. rewrite D2, <- H1 in H2. apply Hinj in H2. clear D1 D2 H1 Hinj.
  rewrite (toValidUTF8_valid (From_ m1)), (toValidUTF8_valid (From_ m2)), (toValidUTF8_valid (Type_ m1)), (toValidUTF8_valid (Type_ m2)) in H2 by done.
  rewrite !(toValidUTF8_valid (Hex.EncodeToString _)), !(toValidUTF8_valid (FormatRFC3339Nano _)) in H2
    by (apply isAscii_valid; apply hex_ascii || apply format_ascii).
  pose proof (f_equal (fieldText 0) H2) as Hfrom. pose proof (f_equal (fieldText 1) H2) as Hpay.
  pose proof (f_equal (fieldText 2) H2) as Htime. pose proof (f_equal (fieldText 3) H2) as Htype.
  cbn [fieldText nth snd] in *. split_and!; [done|done| |].
  - symmetry. by apply FormatRFC3339Nano_inj.
  - symmetry. by apply Hex.encode_inj.
Qed.

(** ** Acceptance *)

(** What an accepted message satisfies. *)
Lemma verify_accepts sign secret skew now now' msg seen seen' :
  signs secret sign -> Timestamp msg <> zeroTime ->
  verifySigned sign skew now now' msg seen = (None, seen') ->
  exists payload, rpcMACPayload msg = Ok payload
    /\ Signature msg = Hex.EncodeToString (Hmac.hmac_sha256 secret payload)
    /\ - skew <= timeSub now (Timestamp msg) <= skew
    /\ trackSignature skew now' (Signature msg) (Timestamp msg) seen = (true, seen').
Proof.
  intros Hsign Hz. unfold verifySigned. case_decide as Hs; [done|]. case_decide as Hskew; [done|].
  destruct (rpcMACPayload_ok msg) as [payload Hp].
  rewrite (Hsign _ payload) by done. destruct (decide _) as [Hm|Hm]; [done|]. apply dec_stable in Hm. simpl in Hm.
  destruct (trackSignature _ _ _ _ _) as [[] seen1]; [|done]. intros [= <-].
  exists payload. split_and!; [done|done|lia|lia|done].
Qed.

(** The signature binds the message: two accepted messages with the same
    signature have the same type, sender, timestamp and payload, unless their own
    signed texts are different and have the same HMAC under the shared secret. *)
Theorem mac_binds_message (secret : bytes) (m1 m2 : RPCMessage) (n1 n1' n2 n2' : Z) (s1 s1' s2 s2' : gmap bytes Z)
    (Hv1 : ValidString (Type_ m1) = true /\ ValidString (From_ m1) = true /\ fourDigitYear (Timestamp m1))
    (Hv2 : ValidString (Type_ m2) = true /\ ValidString (From_ m2) = true /\ fourDigitYear (Timestamp m2))
    (Hz : Timestamp m1 <> zeroTime /\ Timestamp m2 <> zeroTime)
    (Ha1 : verifyRPC secret n1 n1' m1 s1 = (None, s1') \/ verifyMessage secret n1 n1' m1 s1 = (None, s1'))
    (Ha2 : verifyRPC secret n2 n2' m2 s2 = (None, s2') \/ verifyMessage secret n2 n2' m2 s2 = (None, s2'))
    (Hsig : Signature m1 = Signature m2) :
  m1 = m2 \/ exists p1 p2, rpcMACPayload m1 = Ok p1 /\ rpcMACPayload m2 = Ok p2
    /\ p1 <> p2 /\ Hmac.hmac_sha256 secret p1 = Hmac.hmac_sha256 secret p2.
Proof.
  destruct Hz as [Hz1 Hz2].
  assert (exists p1, rpcMACPayload m1 = Ok p1 /\ Signature m1 = Hex.EncodeToString (Hmac.hmac_sha256 secret p1)) as (p1 & E1 & S1).
  { destruct Ha1 as [H|H]; eapply verify_accepts in H as (p & ? & ? & _); eauto using signs_rpc, signs_message. }
  assert (exists p2, rpcMACPayload m2 = Ok p2 /\ Signature m2 = Hex.EncodeToString (Hmac.hmac_sha256 secret p2)) as (p2 & E2 & S2).
  { destruct Ha2 as [H|H]; eapply verify_accepts in H as (p & ? & ? & _); eauto using signs_rpc, signs_message. }
  rewrite S1, S2 in Hsig. apply Hex.encode_inj in Hsig.
  destruct (decide (p1 = p2)) as [->|Hne]; [left|right; by exists p1, p2].
  destruct Hv1 as (? & ? & ?), Hv2 as (? & ? & ?).
  destruct (macPayload_inj m1 m2 p2) as (Et & Ef & Es & Ep); [done..|].
  destruct m1, m2. simpl in *. congruence.
Qed.

(** ** Replays *)

Lemma track_new skew now sig ts seen :
  seen !! sig = None \/ (exists t, seen !! sig = Some t /\ t < now - skew) -> trackSignature skew now sig ts seen =
    (true, <[sig := ts]> (filter (fun kv => ~ kv.2 < now - skew) seen)).
Proof.
  intros H. unfold trackSignature.
  assert (filter (fun kv : bytes * Z => ~ kv.2 < now - skew) seen !! sig = None) as ->; [|done].
  apply map_lookup_filter_None. destruct H as [H|(t & H & Ht)]; [by left|right].
  intros x Hx. simplify_eq. simpl. lia.
Qed.

Lemma filter_recent (seen : gmap bytes Z) cutoff s t :
  seen !! s = Some t -> cutoff <= t -> filter (fun kv => ~ kv.2 < cutoff) seen !! s = Some t.
Proof. intros Hs Ht. apply map_lookup_filter_Some. split; [done|]. simpl. lia. Qed.

Lemma track_refuses skew now sig ts seen t :
  seen !! sig = Some t -> now - skew <= t ->
  trackSignature skew now sig ts seen = (false, filter (fun kv => ~ kv.2 < now - skew) seen).
Proof.
  intros Hs Ht. unfold trackSignature. rewrite (filter_recent _ _ _ _ Hs Ht). by rewrite decide_True by lia.
Qed.

(** A remembered timestamp stays until the window has passed it. *)
Lemma track_keeps skew now sig ts seen s t :
  seen !! s = Some t -> now - skew <= t -> (trackSignature skew now sig ts seen).2 !! s = Some t.
Proof.
  intros Hs Ht. pose proof (filter_recent _ _ _ _ Hs Ht) as Hf. destruct (decide (s = sig)) as [->|Hne].
  - by rewrite (track_refuses _ _ _ _ _ _ Hs Ht).
  - unfold trackSignature. case_match; [case_decide|]; simpl; rewrite ?lookup_insert_ne by done; done.
Qed.

Lemma verify_keeps sign skew now now' msg seen s t :
  seen !! s = Some t -> now' - skew <= t -> (verifySigned sign skew now now' msg seen).2 !! s = Some t.
Proof.
  intros Hs Ht. unfold verifySigned. do 2 (destruct (decide _); [done|]).
  destruct (sign _) as [expected|e]; [|done]. destruct (decide _); [done|].
  pose proof (track_keeps skew now' (Signature msg) (Timestamp msg) seen s t Hs Ht) as H'.
  destruct (trackSignature _ _ _ _ _) as [fresh seen']. done.
Qed.

(** The two transports: the node-to-node calls of Raft, and the cluster's messages. *)
Inductive transport : Type := OnRaft | OnCluster.

Definition signOn (t : transport) (now : Z) (secret : bytes) : RPCMessage -> result canon_err RPCMessage :=
  match t with OnRaft => signRPC now secret | OnCluster => signMessage secret end.

Definition verifyOn (t : transport) : bytes -> Z -> Z -> RPCMessage -> gmap bytes Z -> option auth_err * gmap bytes Z :=
  match t with OnRaft => verifyRPC | OnCluster => verifyMessage end.

Lemma signs_on t now secret : signs secret (signOn t now secret).
Proof. destruct t; [apply signs_rpc|apply signs_message]. Qed.

Lemma verifyOn_signed t secret now now' msg seen :
  verifyOn t secret now now' msg seen = verifySigned (signOn t now secret) maxRPCSkew now now' msg seen.
Proof. by destruct t. Qed.

(** Any number of verifications, each with its two clock readings. *)
Definition verifyAll (t : transport) (secret : bytes) (calls : list (Z * Z * RPCMessage)) (seen : gmap bytes Z) : gmap bytes Z :=
  fold_left (fun seen c => (verifyOn t secret c.1.1 c.1.2 c.2 seen).2) calls seen.

Lemma verifyAll_keeps tr secret calls seen s t :
  seen !! s = Some t -> Forall (fun c => c.1.2 - maxRPCSkew <= t) calls -> verifyAll tr secret calls seen !! s = Some t.
Proof.
  unfold verifyAll. revert seen. induction calls as [|c calls IH]; intros seen Hs HF; [done|].
  inversion HF; subst. simpl. apply IH; [|done]. rewrite verifyOn_signed. by apply verify_keeps.
Qed.

(** A signed message inside the window is accepted by a receiver that does not
    remember it. *)
Lemma signed_accepted_on tr secret m now now' seen payload :
  Timestamp m <> zeroTime -> rpcMACPayload m = Ok payload ->
  - maxRPCSkew <= now - Timestamp m <= maxRPCSkew ->
  let sm := set_signature (Hex.EncodeToString (Hmac.hmac_sha256 secret payload)) m in
  seen !! Signature sm = None \/ (exists t, seen !! Signature sm = Some t /\ t < now' - maxRPCSkew) ->
  verifyOn tr secret now now' sm seen =
    (None, <[Signature sm := Timestamp m]> (filter (fun kv => ~ kv.2 < now' - maxRPCSkew) seen)).
Proof.
  intros Hz Hp Hskew sm Hnew. rewrite verifyOn_signed. unfold verifySigned. rewrite decide_False.
  2:{ simpl. pose proof (Hmac.length_hmac secret payload) as Hl. intros E.
      apply (f_equal Hex.DecodeString) in E. rewrite Hex.decode_encode in E. injection E as E.
      by rewrite E in Hl. }
  rewrite decide_False.
  2:{ change (Timestamp sm) with (Timestamp m). unfold timeSub. unfold maxRPCSkew, Minute, Second in *. lia. }
  rewrite (signs_on tr now secret _ payload) by done.
  rewrite decide_False by (intros Hne; by apply Hne). rewrite track_new by done. done.
Qed.

Lemma signed_accepted secret m now now' seen payload :
  Timestamp m <> zeroTime -> rpcMACPayload m = Ok payload ->
  - maxRPCSkew <= now - Timestamp m <= maxRPCSkew ->
  let sm := set_signature (Hex.EncodeToString (Hmac.hmac_sha256 secret payload)) m in
  seen !! Signature sm = None \/ (exists t, seen !! Signature sm = Some t /\ t < now' - maxRPCSkew) ->
  verifyRPC secret now now' sm seen =
    (None, <[Signature sm := Timestamp m]> (filter (fun kv => ~ kv.2 < now' - maxRPCSkew) seen)).
Proof. apply (signed_accepted_on OnRaft). Qed.

(** A remembered message is accepted again only by a call whose first reading is
    still in its window and whose second one is not. *)
Lemma replay_straddles tr secret m n2 n2' seen s2' :
  Timestamp m <> zeroTime -> (n2 <= Timestamp m + maxRPCSkew -> seen !! Signature m = Some (Timestamp m)) ->
  verifyOn tr secret n2 n2' m seen = (None, s2') -> n2 <= Timestamp m + maxRPCSkew < n2'.
Proof.
  intros Hz Hs H. rewrite verifyOn_signed in H.
  apply (verify_accepts _ secret) in H as (_ & _ & _ & Hw & H); [|apply signs_on|done].
  assert (n2 <= Timestamp m + maxRPCSkew) as Hn by (unfold timeSub, maxRPCSkew, Minute, Second in *; lia).
  split; [done|]. destruct (decide (Timestamp m + maxRPCSkew < n2')) as [|Hge]; [done|]. exfalso.
  rewrite (track_refuses _ _ _ _ _ _ (Hs Hn)) in H; [done|lia].
Qed.

(** C16. A message is accepted once, on either transport: a freshly signed message
    inside the skew window is accepted by a receiver that does not remember its
    signature, and after any other messages, with a clock that does not go back, a
    replay is refused, except in one case: a call during which the window of the
    message ends, that is whose reading for the skew is at most five minutes after
    the timestamp and whose later reading for the purge is more. *)
Theorem message_accepted_once (tr : transport) (secret : bytes) (m signed : RPCMessage) (n1 n1' n2 n2' : Z)
    (seen : gmap bytes Z) (calls : list (Z * Z * RPCMessage))
    (Hz : Timestamp m <> zeroTime) (Hsign : signOn tr n1 secret m = Ok signed)
    (Hskew : - maxRPCSkew <= n1 - Timestamp m <= maxRPCSkew) (Hnew : seen !! Signature signed = None)
    (Hmono : Forall (fun c => c.1.2 <= n2) calls) :
  exists seen', verifyOn tr secret n1 n1' signed seen = (None, seen')
    /\ forall s2', verifyOn tr secret n2 n2' signed (verifyAll tr secret calls seen') = (None, s2') ->
         n2 <= Timestamp m + maxRPCSkew < n2'.
Proof.
  destruct (rpcMACPayload_ok m) as [payload Hp].
  rewrite (signs_on tr n1 secret m payload Hz Hp) in Hsign. injection Hsign as <-.
  eexists. split; [apply signed_accepted_on; auto|]. intros s2'.
  apply (replay_straddles tr secret (set_signature _ m)); [done|]. intros Hn.
  apply verifyAll_keeps; [apply lookup_insert_eq|]. eapply Forall_impl; [exact Hmono|]. simpl in *. intros c Hc. lia.
Qed.

(** The window has a gap at its end: the skew is checked on one reading of
    the clock and the memory purged on a later one, so a message that is replayed
    exactly when its window ends is accepted a second time. *)
Theorem replay_at_window_end (secret : bytes) (m signed : RPCMessage) (n1' delay : Z)
    (Hz : Timestamp m <> zeroTime) (Hsign : signRPC (Timestamp m) secret m = Ok signed) (Hdelay : 0 < delay) :
  let arrival := Timestamp m + maxRPCSkew in
  exists seen1 seen2,
    verifyRPC secret (Timestamp m) n1' signed ∅ = (None, seen1)
    /\ verifyRPC secret arrival (arrival + delay) signed seen1 = (None, seen2).
Proof.
  destruct (rpcMACPayload_ok m) as [payload Hp].
  rewrite (signs_rpc _ secret m payload Hz Hp) in Hsign. injection Hsign as <-.
  intros arrival. do 2 eexists. split.
  - apply signed_accepted; [done|done|unfold maxRPCSkew, Minute, Second; lia|by left].
  - apply signed_accepted; [done|done|unfold arrival, maxRPCSkew, Minute, Second; lia|].
    right. eexists. split; [apply lookup_insert_eq|]. unfold arrival. lia.
Qed.

#[local] Abbreviation demo_msg := (mkRPC (bs "vote") (bs "n1") 1700000000000000000 (bs "{}") []).
#[local] Abbreviation demo_payload := (default [] (match rpcMACPayload demo_msg with Ok p => Some p | Err _ => None end)).
#[local] Abbreviation demo_signed :=
  (set_signature (Hex.EncodeToString (Hmac.hmac_sha256 (bs "secret") demo_payload)) demo_msg).

Lemma demo_payload_ok : rpcMACPayload demo_msg = Ok demo_payload.
Proof. destruct (rpcMACPayload_ok demo_msg) as [p Hp]. by rewrite Hp. Qed.

Lemma demo_sign now : signRPC now (bs "secret") demo_msg = Ok demo_signed.
Proof. apply (signs_rpc now (bs "secret") demo_msg demo_payload); [done|apply demo_payload_ok]. Qed.

Lemma demo_accepted : exists seen,
  verifyRPC (bs "secret") 1700000000000000000 1700000000000000000 demo_signed ∅ = (None, seen).
Proof.
  eexists. apply signed_accepted; [done|apply demo_payload_ok|unfold maxRPCSkew, Minute, Second; simpl; lia|by left].
Qed.

Lemma mac_binds_message_witness :
  demo_signed = demo_signed \/ exists p1 p2, rpcMACPayload demo_signed = Ok p1 /\ rpcMACPayload demo_signed = Ok p2
    /\ p1 <> p2 /\ Hmac.hmac_sha256 (bs "secret") p1 = Hmac.hmac_sha256 (bs "secret") p2.
Proof.
  destruct demo_accepted as [seen Hacc].
  assert (ValidString (Type_ demo_signed) = true /\ ValidString (From_ demo_signed) = true /\ fourDigitYear (Timestamp demo_signed)) as Hv.
  { split; [reflexivity|]. split; [reflexivity|]. split; vm_compute; discriminate. }
  eapply (mac_binds_message (bs "secret") demo_signed demo_signed);
    [exact Hv|exact Hv|split; discriminate|left; exact Hacc|left; exact Hacc|reflexivity].
Defined.

Lemma message_accepted_once_witness : exists seen',
  verifyOn OnRaft (bs "secret") 1700000000000000000 1700000000000000000 demo_signed ∅ = (None, seen')
  /\ forall s2', verifyOn OnRaft (bs "secret") 1700000000000000009 1700000000000000009 demo_signed
                   (verifyAll OnRaft (bs "secret") [] seen') <> (None, s2').
Proof.
  destruct (message_accepted_once OnRaft (bs "secret") demo_msg demo_signed 1700000000000000000 1700000000000000000
    1700000000000000009 1700000000000000009 ∅ []) as (seen' & Ha & Hr).
  - discriminate.
  - apply demo_sign.
  - unfold maxRPCSkew, Minute, Second. simpl. lia.
  - reflexivity.
  - constructor.
  - exists seen'. split; [exact Ha|]. intros s2' H. apply Hr in H. lia.
Defined.

Lemma replay_at_window_end_witness : exists seen1 seen2,
  verifyRPC (bs "secret") 1700000000000000000 1700000000000000000 demo_signed ∅ = (None, seen1)
  /\ verifyRPC (bs "secret") 1700000300000000000 1700000300000000001 demo_signed seen1 = (None, seen2).
Proof.
  apply (replay_at_window_end (bs "secret") demo_msg demo_signed 1700000000000000000 1); [discriminate|apply demo_sign|lia].
Defined.
