(* ===== verification/FileIO.v ===== *)
(** * The state directory and its system calls

    The Raft state directory is a map from base names to file contents.  Every
    system call that changes it (create, write, sync, close, rename, remove,
    mkdir, chmod) first consumes one [outcome] of the world's fault script:
    [IoOk], or [IoFail k] for a call that fails, where a failing write has
    already put the first [k] bytes of its buffer in the file.  An exhausted
    script means that every later call succeeds, so a theorem that quantifies
    over the script covers every pattern of I/O errors and torn writes.

    Operations that use the directory are programs of the state monad [IO];
    Go's error values are results inside it. *)
From S2P Require Import Prelude.
From Stdlib Require Import ZArith Lia.
From stdpp Require Import base gmap list.
#[local] Open Scope Z_scope.

Inductive outcome : Type :=
| IoOk
| IoFail (k : nat).

Record world : Type := World {
  files : gmap bytes bytes;
  faults : list outcome;
}.

Definition IO (A : Type) : Type := world -> A * world.

Definition ret {A} (a : A) : IO A := fun w => (a, w).
Definition bind {A B} (c : IO A) (f : A -> IO B) : IO B :=
  fun w => let '(a, w') := c w in f a w'.

Declare Scope io_scope.
Delimit Scope io_scope with io.
Notation "'do' x <- c ; k" := (bind c (fun x => k))
  (at level 10, x name, c at level 100, k at level 200) : io_scope.
Notation "'do' ' p <- c ; k" := (bind c (fun '(p) => k))
  (at level 10, p pattern, c at level 100, k at level 200) : io_scope.
#[local] Open Scope io_scope.

(** The contents of a file, [[]] when it does not exist. *)
Definition contents (w : world) (p : bytes) : bytes := default [] (files w !! p).

Definition with_files (f : gmap bytes bytes -> gmap bytes bytes) (w : world) : world :=
  World (f (files w)) (faults w).

(** The next outcome of the script. *)
Definition tick : IO outcome := fun w =>
  match faults w with
  | [] => (IoOk, w)
  | o :: os => (o, World (files w) os)
  end.

(** [f.Write(data)] on a handle positioned at the end of [p]. *)
Definition fs_write (p data : bytes) : IO bool :=
  do o <- tick;
  fun w => match o with
  | IoOk => (true, with_files <[p := contents w p ++ data]> w)
  | IoFail k => (false, with_files <[p := contents w p ++ take k data]> w)
  end.

(** [os.OpenFile(p, O_RDWR|O_CREATE|O_TRUNC, _)]. *)
Definition fs_create_trunc (p : bytes) : IO bool :=
  do o <- tick;
  fun w => match o with
  | IoOk => (true, with_files <[p := []]> w)
  | IoFail _ => (false, w)
  end.

(** [os.OpenFile(p, O_RDWR|O_CREATE|O_APPEND, _)]. *)
Definition fs_open_append (p : bytes) : IO bool :=
  do o <- tick;
  fun w => match o with
  | IoOk => (true, with_files <[p := contents w p]> w)
  | IoFail _ => (false, w)
  end.

(** A call whose only effect is its error: [Sync], [Close], [MkdirAll],
    [Chmod], [Stat]. *)
Definition fs_check : IO bool :=
  do o <- tick; ret (match o with IoOk => true | IoFail _ => false end).

(** [os.Rename(a, b)]: atomic, and it fails when [a] does not exist. *)
Definition fs_rename (a b : bytes) : IO bool :=
  do o <- tick;
  fun w => match o, files w !! a with
  | IoOk, Some d => (true, with_files (fun m => <[b := d]> (delete a m)) w)
  | _, _ => (false, w)
  end.

(** [os.Remove(p)]. *)
Definition fs_remove (p : bytes) : IO bool :=
  do o <- tick;
  fun w => match o, files w !! p with
  | IoOk, Some _ => (true, with_files (delete p) w)
  | _, _ => (false, w)
  end.

(** [f.WriteAt(data, off)] inside the current contents of [p]. *)
Definition overwrite (off : nat) (data s : bytes) : bytes :=
  take off s ++ data ++ drop (off + length data) s.

Definition fs_write_at (p : bytes) (off : nat) (data : bytes) : IO bool :=
  do o <- tick;
  fun w => match o with
  | IoOk => (true, with_files <[p := overwrite off data (contents w p)]> w)
  | IoFail k => (false, with_files <[p := overwrite off (take k data) (contents w p)]> w)
  end.

Arguments fs_write _ _ _ /.
Arguments fs_create_trunc _ _ /.
Arguments fs_open_append _ _ /.
Arguments fs_check _ /.
Arguments fs_rename _ _ _ /.
Arguments fs_remove _ _ /.
Arguments tick _ /.

(** ** What a call can change *)

Lemma contents_insert w p d fs : contents (World (<[p := d]> (files w)) fs) p = d.
Proof. unfold contents. simpl. by rewrite lookup_insert_eq. Qed.

Lemma contents_insert_ne w p q d fs :
  p <> q -> contents (World (<[p := d]> (files w)) fs) q = contents w q.
Proof. intros H. unfold contents. simpl. by rewrite lookup_insert_ne. Qed.

(** A program leaves the file [q] alone. *)
Definition preserves {A} (q : bytes) (c : IO A) : Prop :=
  forall w, files (c w).2 !! q = files w !! q.

Lemma preserves_ret {A} q (a : A) : preserves q (ret a).
Proof. done. Qed.

Lemma preserves_bind {A B} q (c : IO A) (f : A -> IO B) :
  preserves q c -> (forall a, preserves q (f a)) -> preserves q (bind c f).
Proof.
  intros Hc Hf w. unfold bind. specialize (Hc w).
  destruct (c w) as [a w']. simpl in *. by rewrite Hf.
Qed.

Lemma preserves_write q p d : p <> q -> preserves q (fs_write p d).
Proof.
  intros H w. unfold fs_write, bind, tick.
  destruct (faults w) as [|[|k] os]; simpl; by rewrite lookup_insert_ne.
Qed.

Lemma preserves_write_at q p k d : p <> q -> preserves q (fs_write_at p k d).
Proof.
  intros H w. unfold fs_write_at, bind, tick.
  destruct (faults w) as [|[|j] os]; simpl; by rewrite lookup_insert_ne.
Qed.

Lemma preserves_create q p : p <> q -> preserves q (fs_create_trunc p).
Proof.
  intros H w. unfold fs_create_trunc, bind, tick.
  destruct (faults w) as [|[|k] os]; simpl; try done; by rewrite lookup_insert_ne.
Qed.

Lemma preserves_check q : preserves q fs_check.
Proof.
  intros w. unfold fs_check, bind, tick.
  destruct (faults w) as [|[|k] os]; done.
Qed.

Lemma preserves_remove q p : p <> q -> preserves q (fs_remove p).
Proof.
  intros H w. unfold fs_remove, bind, tick.
  destruct (faults w) as [|[|k] os]; simpl;
    destruct (files w !! p); simpl; try done; by rewrite lookup_delete_ne.
Qed.

Lemma preserves_rename q a b : a <> q -> b <> q -> preserves q (fs_rename a b).
Proof.
  intros Ha Hb w. unfold fs_rename, bind, tick.
  destruct (faults w) as [|[|k] os]; simpl;
    destruct (files w !! a); simpl; try done; by rewrite lookup_insert_ne, lookup_delete_ne.
Qed.

Lemma preserves_open q p : p <> q -> preserves q (fs_open_append p).
Proof.
  intros H w. unfold fs_open_append, bind, tick.
  destruct (faults w) as [|[|k] os]; simpl; try done; by rewrite lookup_insert_ne.
Qed.

#[export] Hint Resolve preserves_ret preserves_bind preserves_write preserves_create
  preserves_check preserves_remove preserves_open preserves_write_at preserves_rename : mx.

(** Discharges [preserves q c] for a program that only touches other files. *)
Ltac pres :=
  repeat first
    [ apply preserves_ret | apply preserves_check
    | apply preserves_write; done | apply preserves_create; done
    | apply preserves_remove; done | apply preserves_open; done
    | apply preserves_write_at; done | apply preserves_rename; done
    | apply preserves_bind; [|intros ?; simpl]
    | case_match ].

(** The same, for a run. *)
Lemma preserves_run {A} q (c : IO A) w a w' :
  preserves q c -> c w = (a, w') -> files w' !! q = files w !! q.
Proof. intros H E. specialize (H w). by rewrite E in H. Qed.

(** Exact results of the calls when the script reports success. *)
Lemma fs_write_ok p d w w' :
  fs_write p d w = (true, w') -> files w' = <[p := contents w p ++ d]> (files w).
Proof.
  unfold fs_write, bind, tick.
  destruct (faults w) as [|[|k] os]; simpl; intros [= <-]; done.
Qed.

(** Every write, failing or not, extends the file by a prefix of the buffer. *)
Lemma fs_write_prefix p d w b w' :
  fs_write p d w = (b, w') ->
  exists k, files w' = <[p := contents w p ++ take k d]> (files w) /\
            (b = true -> take k d = d).
Proof.
  unfold fs_write, bind, tick.
  destruct (faults w) as [|[|k] os]; simpl; intros [= <- <-].
  - exists (length d). by rewrite firstn_all.
  - exists (length d). by rewrite firstn_all.
  - exists k. done.
Qed.

Lemma fs_check_files w : files (fs_check w).2 = files w.
Proof. unfold fs_check, bind, tick. destruct (faults w) as [|[|k] os]; done. Qed.

Lemma fs_check_nil w : faults w = [] -> fs_check w = (true, w).
Proof. intros H. unfold fs_check, bind, tick. by rewrite H. Qed.

Lemma fs_remove_faults p w b w' :
  faults w = [] -> fs_remove p w = (b, w') -> faults w' = [].
Proof.
  intros H. unfold fs_remove, bind, tick. rewrite H.
  destruct (files w !! p); by intros [= <- <-].
Qed.

Lemma fs_create_ok p w w' :
  fs_create_trunc p w = (true, w') -> files w' = <[p := []]> (files w).
Proof.
  unfold fs_create_trunc, bind, tick.
  destruct (faults w) as [|[|k] os]; simpl; intros [= <-]; done.
Qed.

Lemma fs_open_ok p w w' :
  fs_open_append p w = (true, w') -> files w' = <[p := contents w p]> (files w).
Proof.
  unfold fs_open_append, bind, tick.
  destruct (faults w) as [|[|k] os]; simpl; intros [= <-]; done.
Qed.

Lemma fs_open_fail p w w' :
  fs_open_append p w = (false, w') -> files w' !! p = files w !! p.
Proof.
  unfold fs_open_append, bind, tick.
  destruct (faults w) as [|[|k] os]; simpl; intros [= <-]; done.
Qed.

Lemma fs_rename_inv a b w r w' :
  fs_rename a b w = (r, w') ->
  (r = false /\ files w' = files w) \/
  (r = true /\ exists d, files w !! a = Some d /\ files w' = <[b := d]> (delete a (files w))).
Proof.
  unfold fs_rename, bind, tick.
  destruct (faults w) as [|[|k] os]; simpl;
    destruct (files w !! a) eqn:E; intros [= <- <-]; eauto.
Qed.

Lemma fs_remove_inv p w r w' :
  fs_remove p w = (r, w') ->
  (r = false /\ files w' = files w) \/ (r = true /\ files w' = delete p (files w)).
Proof.
  unfold fs_remove, bind, tick.
  destruct (faults w) as [|[|k] os]; simpl; destruct (files w !! p); intros [= <- <-]; eauto.
Qed.

(** With no fault to come, calls succeed and none comes. *)
Lemma fs_write_nil p d w : faults w = [] -> fs_write p d w = (true, with_files <[p := contents w p ++ d]> w).
Proof. intros Hn. unfold fs_write, bind, tick. by rewrite Hn. Qed.

Lemma fs_create_nil p w : faults w = [] -> fs_create_trunc p w = (true, with_files <[p := []]> w).
Proof. intros Hn. unfold fs_create_trunc, bind, tick. by rewrite Hn. Qed.

Lemma fs_rename_nil a b w d :
  faults w = [] -> files w !! a = Some d -> fs_rename a b w = (true, with_files (fun m => <[b := d]> (delete a m)) w).
Proof. intros Hn Ha. unfold fs_rename, bind, tick. by rewrite Hn, Ha. Qed.

Lemma fs_remove_nil p w d :
  faults w = [] -> files w !! p = Some d -> fs_remove p w = (true, with_files (delete p) w).
Proof. intros Hn Hp. unfold fs_remove, bind, tick. by rewrite Hn, Hp. Qed.

(** Steps through one bound call of a run recorded in hypothesis [H]. *)
Ltac io_step H a w' E :=
  cbv zeta in H; unfold bind at 1 in H;
  match type of H with
  | context [let '(_, _) := ?c ?wd in _] => destruct (c wd) as [a w'] eqn:E
  end.

Lemma check_files b wd wd' : fs_check wd = (b, wd') -> files wd' = files wd.
Proof. intros E. pose proof (fs_check_files wd) as F. rewrite E in F. done. Qed.

(** Refutes a run that took a clean-up branch and still reported success. *)
Ltac io_bail H :=
  unfold bind, ret in H;
  repeat match type of H with
  | context [let '(_, _) := ?c in _] => destruct c as [? ?]
  end; by simplify_eq.

Lemma fs_write_at_ok p k d w w' :
  fs_write_at p k d w = (true, w') ->
  files w' = <[p := overwrite k d (contents w p)]> (files w).
Proof.
  unfold fs_write_at, bind, tick.
  destruct (faults w) as [|[|j] os]; simpl; intros [= <-]; done.
Qed.

#[global] Opaque fs_write fs_create_trunc fs_open_append fs_check fs_rename fs_remove fs_write_at.
