(* ===== verification/RaftTypes.v ===== *)
(** * Data of the Raft package (internal/zero/raft)

    Node states, log entries, configuration and RPC payloads, with the
    source's constructors and field names; the error values that the package
    exports; and the codec interface through which the write-ahead log uses
    [encoding/json] for log entries.

    [uint64] fields are integers of [Z]; durations and instants are
    nanoseconds in [Z]; strings and byte slices are [bytes]. *)
From S2P Require Import Prelude.
From Stdlib Require Import ZArith Lia.
From stdpp Require Import base gmap list strings.
#[local] Open Scope Z_scope.

Inductive State : Type := Follower | Candidate | Leader.

#[export] Instance State_eq_dec : EqDecision State.
Proof. solve_decision. Defined.

(** [func (s State) String()]; the default branch is unreachable here. *)
Definition State_String (s : State) : bytes :=
  match s with
  | Follower => bs "follower"
  | Candidate => bs "candidate"
  | Leader => bs "leader"
  end.

Record LogEntry : Type := mkEntry {
  Index : Z;
  Term : Z;
  Command : bytes;
}.

#[export] Instance LogEntry_eq_dec : EqDecision LogEntry.
Proof. solve_decision. Defined.

(** The zero value [LogEntry{}]. *)
Definition zeroEntry : LogEntry := mkEntry 0 0 [].

Record Config : Type := mkConfig {
  NodeID : bytes;
  BindAddress : bytes;
  BindPort : Z;
  Peers : list bytes;
  ElectionTimeout : Z;
  HeartbeatInterval : Z;
  CommitTimeout : Z;
  SharedSecret : bytes;
  AdvertiseAddr : bytes;
}.

(** ** RPC payloads *)

Record RequestVoteRequest : Type := mkVoteReq {
  rv_Term : Z;
  rv_CandidateId : bytes;
  rv_LastLogIndex : Z;
  rv_LastLogTerm : Z;
}.

Record RequestVoteResponse : Type := mkVoteRes {
  rvr_Term : Z;
  rvr_VoteGranted : bool;
}.

Record PreVoteRequest : Type := mkPreVoteReq {
  pv_Term : Z;
  pv_CandidateId : bytes;
  pv_LastLogIndex : Z;
  pv_LastLogTerm : Z;
}.

Record PreVoteResponse : Type := mkPreVoteRes {
  pvr_Term : Z;
  pvr_VoteGranted : bool;
}.

Record AppendEntriesRequest : Type := mkAppendReq {
  ae_Term : Z;
  ae_LeaderId : bytes;
  ae_LeaderAddress : bytes;
  ae_PrevLogIndex : Z;
  ae_PrevLogTerm : Z;
  ae_Entries : list LogEntry;
  ae_LeaderCommit : Z;
}.

Record AppendEntriesResponse : Type := mkAppendRes {
  aer_Term : Z;
  aer_Success : bool;
}.

Record InstallSnapshotRequest : Type := mkSnapReq {
  is_Term : Z;
  is_LeaderID : bytes;
  is_LeaderAddress : bytes;
  is_LastIncludedIndex : Z;
  is_LastIncludedTerm : Z;
  is_Offset : Z;
  is_Done : bool;
  is_Data : bytes;
}.

Record InstallSnapshotResponse : Type := mkSnapRes {
  isr_Term : Z;
  isr_Success : bool;
  isr_BytesStored : Z;
}.

(** ** Errors *)

Inductive wal_err : Type :=
| ErrWALCorrupt
| ErrWALTampered
| ErrWALClosed
| ErrWALLegacyFormat
| WalDirRequired
| WalKeyRequired
| WalMkdir | WalChmod | WalOpen | WalStat
| WalWriteMagic | WalShortFile | WalUnknownFormat
| WalSeek
| WalMarshal | WalLength
| WalWriteHeader | WalWritePayload | WalFsync
| WalTruncateRead (e : wal_err)
| WalOpenTmp | WalTmpMagic | WalFsyncTmp | WalCloseTmp | WalRename | WalReopen
| WalOutOfFuel.

#[export] Instance wal_err_eq_dec : EqDecision wal_err.
Proof. solve_decision. Defined.

(** [errors.Is(err, ErrWALCorrupt)]: the sentinel, or an error that wraps it. *)
Fixpoint is_wal_corrupt (e : wal_err) : bool :=
  match e with
  | ErrWALCorrupt | WalShortFile | WalUnknownFormat => true
  | WalTruncateRead e => is_wal_corrupt e
  | _ => false
  end.

(** ** [encoding/json] for log entries

    [json.Marshal(entry)] and [json.Unmarshal(payload, &entry)].  Marshalling
    compacts a raw command and turns a nil one into [null], so the pair is a
    round trip on the entries whose command is already in the form
    [encoding/json] emits; [entry_stable] is that set. *)
Class EntryCodec : Type := {
  marshalEntry : LogEntry -> option bytes;
  unmarshalEntry : bytes -> option LogEntry;
  entry_stable : LogEntry -> Prop;
  codec_roundtrip : forall e p,
    entry_stable e -> marshalEntry e = Some p -> unmarshalEntry p = Some e;
  codec_nonempty : forall e p, marshalEntry e = Some p -> p <> [];
}.
