(* ===== verification/EntryJson.v ===== *)
(** * The JSON text of a log entry

    [json.Marshal(LogEntry{...})] for a command that is already compact JSON:
    [{"index":I,"term":T,"command":C}], and the decoder of that text.  It
    instantiates the codec interface of [RaftTypes] so that the write-ahead
    log can be run on concrete entries. *)
From S2P Require Import Prelude Decimal RaftTypes.
From Stdlib Require Import ZArith Lia.
From stdpp Require Import base list strings.
#[local] Open Scope Z_scope.

Definition q (s : bytes) : bytes := Byte.x22 :: s ++ [Byte.x22].
Definition key_index : bytes := bs "{" ++ q (bs "index") ++ bs ":".
Definition key_term : bytes := bs "," ++ q (bs "term") ++ bs ":".
Definition key_command : bytes := bs "," ++ q (bs "command") ++ bs ":".

(** A nil or empty raw message is emitted as [null]. *)
Definition marshal_entry (e : LogEntry) : bytes :=
  key_index ++ FormatUint (Index e) ++ key_term ++ FormatUint (Term e) ++
  key_command ++ (match Command e with [] => bs "null" | c => c end) ++ bs "}".

Fixpoint strip_prefix (p s : bytes) : option bytes :=
  match p, s with
  | [], _ => Some s
  | a :: p, b :: s => if decide (a = b) then strip_prefix p s else None
  | _ :: _, [] => None
  end.

(** Everything but a final closing brace. *)
Definition strip_brace (s : bytes) : option bytes :=
  match rev s with
  | Byte.x7d :: r => Some (rev r)
  | _ => None
  end.

Definition uint64_text (s : bytes) : option (Z * bytes) :=
  let '(d, r) := span_digits s in
  match d with
  | [] => None
  | _ => if decide (digits_value d < 2 ^ 64) then Some (digits_value d, r) else None
  end.

Definition unmarshal_entry (s : bytes) : option LogEntry :=
  s ← strip_prefix key_index s;
  '(i, s) ← uint64_text s;
  s ← strip_prefix key_term s;
  '(t, s) ← uint64_text s;
  s ← strip_prefix key_command s;
  c ← strip_brace s;
  Some (mkEntry i t c).

Definition json_stable (e : LogEntry) : Prop :=
  u64_ok (Index e) /\ u64_ok (Term e) /\ Command e <> [].

Lemma strip_prefix_app p s : strip_prefix p (p ++ s) = Some s.
Proof. induction p as [|b p IH]; [done|]. simpl. by rewrite decide_True. Qed.

Lemma strip_brace_app s : strip_brace (s ++ bs "}") = Some s.
Proof. unfold strip_brace. rewrite rev_app_distr. simpl. by rewrite rev_involutive. Qed.

Lemma uint64_text_app n r :
  u64_ok n -> match r with b :: _ => is_digit b = false | [] => True end ->
  uint64_text (FormatUint n ++ r) = Some (n, r).
Proof.
  intros [H0 H1] Hr. unfold uint64_text.
  rewrite span_digits_app by (done || apply FormatUint_digits).
  destruct (FormatUint n) as [|b d] eqn:E; [by apply FormatUint_nonempty in E|].
  rewrite <- E, FormatUint_value by done. by rewrite decide_True.
Qed.

Lemma unmarshal_marshal e : json_stable e -> unmarshal_entry (marshal_entry e) = Some e.
Proof.
  intros (Hi & Ht & Hc). unfold unmarshal_entry, marshal_entry.
  rewrite strip_prefix_app. cbn [mbind option_bind].
  rewrite uint64_text_app by done. cbn [mbind option_bind].
  rewrite strip_prefix_app. cbn [mbind option_bind].
  rewrite uint64_text_app by done. cbn [mbind option_bind].
  rewrite strip_prefix_app. cbn [mbind option_bind].
  destruct e as [i t [|b c]]; [done|]. simpl Command. by rewrite strip_brace_app.
Qed.

#[export] Instance jsonCodec : EntryCodec.
Proof.
  refine {| marshalEntry e := Some (marshal_entry e);
            unmarshalEntry := unmarshal_entry;
            entry_stable := json_stable |}.
  - intros e p Hs [= <-]. by apply unmarshal_marshal.
  - intros e p [= <-]. done.
Defined.
