(* ===== verification/Wal.v ===== *)
(** * The Raft write-ahead log (internal/zero/raft/wal*.go)

    The v3 record format, the append path with its group-commit batch, the
    reader, the truncating rewrite, [OpenWAL] and [Close], over the state
    directory of [FileIO].  A WAL file is the 12-byte magic followed by
    records [len(4) || crc32c(4) || hmac_sha256(32) || payload]. *)
From S2P Require Import Prelude Crypto FileIO RaftTypes.
From Stdlib Require Import ZArith Lia.
From stdpp Require Import base gmap list strings.
#[local] Open Scope Z_scope.
#[local] Open Scope io_scope.

Definition walFileName : bytes := bs "raft.wal".
Definition walRewriteName : bytes := bs "raft.wal.rewrite".
Definition walMagicV2 : bytes := bs "MXKS_WAL_v2" ++ [Byte.x00].
Definition walMagicV3 : bytes := bs "MXKS_WAL_v3" ++ [Byte.x00].
Definition walMagic : bytes := walMagicV3.
Definition walMagicSize : nat := 12.
Definition walHeaderSize : nat := 4 + 4 + 32.
Definition walMaxRecord : Z := Z.shiftl 8 20.
Definition walBatchBufferSize : nat := 1024.

(** An [*os.File]: never opened, open on a file of the directory, or closed. *)
Inductive handle : Type :=
| HNil
| HOpen (p : bytes)
| HClosed.

Record WAL : Type := mkWAL {
  wal_file : handle;
  wal_hmacKey : bytes;
  wal_syncAll : bool;
  wal_closed : bool;
}.

Definition set_wal_file (h : handle) (w : WAL) : WAL :=
  mkWAL h (wal_hmacKey w) (wal_syncAll w) (wal_closed w).

(** [lenUint32] (int_safety.go). *)
Definition lenUint32 (b : bytes) (max : Z) : option Z :=
  let n := len b in
  if decide (n < 0) then None
  else if decide (max < n) then None
  else if decide (MaxUint32 < n) then None
  else Some (wrap32 n).

(** Bytes [hdr[0:8]]: payload length and CRC. *)
Definition header_prefix (payload : bytes) : bytes :=
  put_uint32 (len payload) ++ put_uint32 (Crc32.checksum payload).

(** The 40-byte header of a record. *)
Definition record_header (key payload : bytes) : bytes :=
  let h8 := header_prefix payload in
  h8 ++ Hmac.hmac_sha256 key (h8 ++ payload).

Definition encode_record (key payload : bytes) : bytes :=
  record_header key payload ++ payload.

Section Operations.
Context `{EntryCodec}.

(** [w.file.Write(b)]: writing through a closed or nil handle is an error. *)
Definition file_write (h : handle) (b : bytes) : IO bool :=
  match h with
  | HOpen p => fs_write p b
  | _ => ret false
  end.

Definition appendLocked (w : WAL) (entry : LogEntry) : IO (option wal_err) :=
  match marshalEntry entry with
  | None => ret (Some WalMarshal)
  | Some payload =>
      match lenUint32 payload walMaxRecord with
      | None => ret (Some WalLength)
      | Some _ =>
          do ok <- file_write (wal_file w) (record_header (wal_hmacKey w) payload);
          if ok then
            do ok <- file_write (wal_file w) payload;
            if ok then ret None else ret (Some WalWritePayload)
          else ret (Some WalWriteHeader)
      end
  end.

Fixpoint append_all (w : WAL) (es : list LogEntry) : IO (option wal_err) :=
  match es with
  | [] => ret None
  | e :: es =>
      do r <- appendLocked w e;
      match r with
      | Some err => ret (Some err)
      | None => append_all w es
      end
  end.

Definition file_sync (h : handle) : IO bool :=
  match h with HOpen _ => fs_check | _ => ret false end.

(** [writeBatchLocked]: the records in order, then at most one fsync. *)
Definition writeBatchLocked (w : WAL) (items : list LogEntry) : IO (option wal_err) :=
  do r <- append_all w items;
  match r with
  | Some err => ret (Some err)
  | None =>
      if wal_syncAll w then
        do ok <- file_sync (wal_file w);
        if ok then ret None else ret (Some WalFsync)
      else ret None
  end.

(** [flush] of the batcher: one write for the pending items, then the same
    error value is sent on the done channel of every item. *)
Definition flush (w : WAL) (pending : list LogEntry) : IO (list (option wal_err)) :=
  match pending with
  | [] => ret []
  | _ => do r <- writeBatchLocked w pending; ret (replicate (length pending) r)
  end.

(** [Append] for a batch that holds this entry alone. *)
Definition Append (w : WAL) (entry : LogEntry) : IO (option wal_err) :=
  if wal_closed w then ret (Some ErrWALClosed)
  else
    do rs <- flush w [entry];
    ret (default None (head rs)).

(** ** Reading *)

Fixpoint readLoop (fuel : nat) (key : bytes) (s : bytes) (entries : list LogEntry)
  : list LogEntry * option wal_err :=
  match fuel with
  | O => (entries, Some WalOutOfFuel)
  | S fuel =>
      match ReadFull walHeaderSize s with
      | ReadEOF => (entries, None)
      | ReadUnexpectedEOF => (entries, Some ErrWALCorrupt)
      | ReadOk hdr rest =>
          let length := get_uint (take 4 hdr) in
          let declaredCRC := get_uint (take 4 (drop 4 hdr)) in
          let declaredMAC := drop 8 hdr in
          if decide (length = 0 \/ walMaxRecord < length) then (entries, Some ErrWALCorrupt)
          else
            match ReadFull (Z.to_nat length) rest with
            | ReadOk payload rest =>
                if decide (Crc32.checksum payload <> declaredCRC)
                then (entries, Some ErrWALCorrupt)
                else if decide (Hmac.hmac_sha256 key (take 8 hdr ++ payload) <> declaredMAC)
                then (entries, Some ErrWALTampered)
                else
                  match unmarshalEntry payload with
                  | None => (entries, Some ErrWALCorrupt)
                  | Some entry => readLoop fuel key rest (entries ++ [entry])
                  end
            | _ => (entries, Some ErrWALCorrupt)
            end
      end
  end.

(** The body of [readAllLocked] on the bytes of the file. *)
Definition readBytes (key : bytes) (s : bytes) : list LogEntry * option wal_err :=
  match ReadFull walMagicSize s with
  | ReadEOF => ([], None)
  | ReadUnexpectedEOF => ([], Some ErrWALCorrupt)
  | ReadOk magic rest =>
      if decide (magic <> walMagic) then ([], Some ErrWALCorrupt)
      else readLoop (S (length rest)) key rest []
  end.

Definition readAllLocked (w : WAL) : IO (list LogEntry * option wal_err) := fun wd =>
  match wal_file w with
  | HOpen p => (readBytes (wal_hmacKey w) (contents wd p), wd)
  | _ => (([], Some WalSeek), wd)
  end.

Definition ReadAll (w : WAL) : IO (list LogEntry * option wal_err) := readAllLocked w.

(** ** Truncation *)

(** The first half of [rewriteLocked]: the replacement file is written under
    a temporary name, synced and closed; on any failure it is removed. *)
Definition buildTmp (w : WAL) (keep : list LogEntry) : IO (option wal_err) :=
  let tmpPath := walRewriteName in
  do ok <- fs_create_trunc tmpPath;
  if negb ok then ret (Some WalOpenTmp) else
  do ok <- fs_write tmpPath walMagic;
  if negb ok then
    (do _ <- fs_check; do _ <- fs_remove tmpPath; ret (Some WalTmpMagic)) else
  do r <- append_all (set_wal_file (HOpen tmpPath) w) keep;
  match r with
  | Some err => do _ <- fs_check; do _ <- fs_remove tmpPath; ret (Some err)
  | None =>
      do ok <- fs_check; (* tmp.Sync *)
      if negb ok then
        (do _ <- fs_check; do _ <- fs_remove tmpPath; ret (Some WalFsyncTmp)) else
      do ok <- fs_check; (* tmp.Close *)
      if negb ok then (do _ <- fs_remove tmpPath; ret (Some WalCloseTmp)) else
      ret None
  end.

(** [rewriteLocked]: build the replacement, close the live file, rename over
    it, sync the directory, reopen.  Returns the WAL with its new handle. *)
Definition rewriteLocked (w : WAL) (keep : list LogEntry) : IO (option wal_err * WAL) :=
  do r <- buildTmp w keep;
  match r with
  | Some err => ret (Some err, w)
  | None =>
      do w' <- (match wal_file w with
                | HNil => ret w
                | _ => do _ <- fs_check; ret (set_wal_file HClosed w)
                end);
      do ok <- fs_rename walRewriteName walFileName;
      if negb ok then ret (Some WalRename, w') else
      do d <- fs_check; (* os.Open(dir) *)
      do _ <- (if d : bool then (do _ <- fs_check; fs_check) else ret true);
      do ok <- fs_open_append walFileName;
      if negb ok then ret (Some WalReopen, w')
      else ret (None, set_wal_file (HOpen walFileName) w')
  end.

Definition filterRewrite (w : WAL) (keep : LogEntry -> bool) : IO (option wal_err * WAL) :=
  do '(entries, err) <- readAllLocked w;
  match err with
  | Some e => if is_wal_corrupt e then rewriteLocked w (List.filter keep entries)
              else ret (Some (WalTruncateRead e), w)
  | None => rewriteLocked w (List.filter keep entries)
  end.

Definition TruncateAfter (w : WAL) (lastKeepIndex : Z) : IO (option wal_err * WAL) :=
  filterRewrite w (fun e => bool_decide (Index e <= lastKeepIndex)).

Definition TruncateBefore (w : WAL) (firstKeepIndex : Z) : IO (option wal_err * WAL) :=
  filterRewrite w (fun e => bool_decide (firstKeepIndex <= Index e)).

(** ** Opening and closing *)

Definition ensureMagic (p : bytes) : IO (option wal_err) :=
  do ok <- fs_check; (* f.Stat *)
  if negb ok then ret (Some WalStat) else
  fun wd =>
  let s := contents wd p in
  if decide (len s = 0) then
    (do ok <- fs_write p walMagic; ret (if ok : bool then None else Some WalWriteMagic)) wd
  else if decide (len s < Z.of_nat walMagicSize) then (Some WalShortFile, wd)
  else
    let got := take walMagicSize s in
    if decide (got = walMagic) then (None, wd)
    else if decide (got = walMagicV2) then (Some ErrWALLegacyFormat, wd)
    else (Some WalUnknownFormat, wd).

Definition OpenWAL (dir hmacKey : bytes) (syncOnAppend : bool) : IO (result wal_err WAL) :=
  if decide (dir = []) then ret (Err WalDirRequired) else
  if decide (len hmacKey = 0) then ret (Err WalKeyRequired) else
  do ok <- fs_check; (* MkdirAll *)
  if negb ok then ret (Err WalMkdir) else
  do ok <- fs_check; (* Chmod *)
  if negb ok then ret (Err WalChmod) else
  do ok <- fs_open_append walFileName;
  if negb ok then ret (Err WalOpen) else
  do e <- ensureMagic walFileName;
  match e with
  | Some err => do _ <- fs_check; ret (Err err)
  | None => ret (Ok (mkWAL (HOpen walFileName) hmacKey syncOnAppend false))
  end.

(** [Sync]: fsync of an open log, nothing on a released one. *)
Definition Sync (w : WAL) : IO bool :=
  match wal_file w with HNil => ret true | h => file_sync h end.

(** [Close]: drains the batcher's pending items, syncs, releases the file. *)
Definition Close (w : WAL) (pending : list LogEntry) : IO (bool * WAL) :=
  if wal_closed w then ret (true, w) else
  let w := mkWAL (wal_file w) (wal_hmacKey w) (wal_syncAll w) true in
  do _ <- flush w pending;
  match wal_file w with
  | HNil => ret (true, w)
  | _ => do _ <- file_sync (wal_file w); do ok <- fs_check; ret (ok, set_wal_file HNil w)
  end.

End Operations.

#[global] Arguments header_prefix : simpl never.
#[global] Arguments record_header : simpl never.
#[global] Arguments encode_record : simpl never.
#[global] Arguments walMagic : simpl never.
