(* ===== verification/Snapshot.v ===== *)
(** * Snapshot files (snapshot.go, snapshot_load.go)

    Layout, little-endian:
    [4 magic][8 last_index][8 last_term][4 data_len][4 data_crc][N data].
    Files are addressed by their base name inside the state directory; the
    directory path itself is only tested for emptiness.  A reader of a file is
    the bytes that are left in it. *)
From S2P Require Import Prelude Crypto FileIO RaftTypes Wal.
From Stdlib Require Import ZArith Lia.
From stdpp Require Import base gmap list strings.
#[local] Open Scope Z_scope.
#[local] Open Scope io_scope.

Definition snapshotFileName : bytes := bs "raft.snapshot".
Definition snapshotTmpName : bytes := bs "raft.snapshot.tmp".
Definition snapshotMagic : bytes := bs "MXKS".
Definition maxSnapshotSize : Z := Z.shiftl 256 20.
Definition snapshotHeaderSize : nat := 28.
Definition snapshotHeaderLenOffset : nat := 20.
Definition snapshotHeaderCRCOffset : nat := 24.

Record SnapshotMeta : Type := mkMeta {
  LastIncludedIndex : Z;
  LastIncludedTerm : Z;
  meta_Size : Z;
}.

Record Snapshot : Type := mkSnapshot {
  Meta : SnapshotMeta;
  Data : bytes;
}.

Inductive snap_err : Type :=
| ErrNoSnapshot
| ErrSnapshotCorrupt
| SnapDirRequired
| SnapMkdir | SnapChmod | SnapOpenTmp
| SnapWriteMagic | SnapLength | SnapWriteHeader | SnapWriteCRC | SnapWriteData
| SnapFsync | SnapClose | SnapRename
| SnapOpen | SnapStat | SnapSeek.

#[export] Instance snap_err_eq_dec : EqDecision snap_err.
Proof. solve_decision. Defined.

(** [closeRemove]. *)
Definition closeRemove (path : bytes) : IO unit :=
  do _ <- fs_check; do _ <- fs_remove path; ret tt.

(** [syncSnapshotDir]: open, sync and close the directory, errors ignored. *)
Definition syncSnapshotDir : IO unit :=
  do ok <- fs_check;
  if ok : bool then (do _ <- fs_check; do _ <- fs_check; ret tt) else ret tt.

(** The temporary file of [SaveSnapshot], up to and including its [Close]. *)
Definition writeSnapshotTmp (s : Snapshot) : IO (option snap_err) :=
  let tmpPath := snapshotTmpName in
  do ok <- fs_create_trunc tmpPath;
  if negb ok then ret (Some SnapOpenTmp) else
  do ok <- fs_write tmpPath snapshotMagic;
  if negb ok then (do _ <- closeRemove tmpPath; ret (Some SnapWriteMagic)) else
  match lenUint32 (Data s) maxSnapshotSize with
  | None => do _ <- closeRemove tmpPath; ret (Some SnapLength)
  | Some dataLen =>
      let hdr := put_uint64 (LastIncludedIndex (Meta s)) ++
                 put_uint64 (LastIncludedTerm (Meta s)) ++ put_uint32 dataLen in
      do ok <- fs_write tmpPath hdr;
      if negb ok then (do _ <- closeRemove tmpPath; ret (Some SnapWriteHeader)) else
      do ok <- fs_write tmpPath (put_uint32 (Crc32.checksum (Data s)));
      if negb ok then (do _ <- closeRemove tmpPath; ret (Some SnapWriteCRC)) else
      do ok <- fs_write tmpPath (Data s);
      if negb ok then (do _ <- closeRemove tmpPath; ret (Some SnapWriteData)) else
      do ok <- fs_check; (* f.Sync *)
      if negb ok then (do _ <- closeRemove tmpPath; ret (Some SnapFsync)) else
      do ok <- fs_check; (* f.Close *)
      if negb ok then (do _ <- fs_remove tmpPath; ret (Some SnapClose)) else
      ret None
  end.

Definition SaveSnapshot (dir : bytes) (s : Snapshot) : IO (option snap_err) :=
  if decide (dir = []) then ret (Some SnapDirRequired) else
  do ok <- fs_check; (* MkdirAll *)
  if negb ok then ret (Some SnapMkdir) else
  do ok <- fs_check; (* Chmod *)
  if negb ok then ret (Some SnapChmod) else
  do r <- writeSnapshotTmp s;
  match r with
  | Some err => ret (Some err)
  | None =>
      do ok <- fs_rename snapshotTmpName snapshotFileName;
      if negb ok then (do _ <- fs_remove snapshotTmpName; ret (Some SnapRename)) else
      do _ <- syncSnapshotDir; ret None
  end.

(** ** Reading *)

(** The metadata, the expected checksum and the rest of the reader; every
    failure is [ErrSnapshotCorrupt]. *)
Definition readSnapshotHeader (r : bytes) : option (SnapshotMeta * Z * bytes) :=
  match ReadFull 4 r with
  | ReadOk magic r =>
      if decide (magic <> snapshotMagic) then None else
      match ReadFull 20 r with
      | ReadOk hdr r =>
          match ReadFull 4 r with
          | ReadOk crcBuf r =>
              Some (mkMeta (get_uint (take 8 hdr)) (get_uint (take 8 (drop 8 hdr)))
                           (get_uint (take 4 (drop 16 hdr))),
                    get_uint crcBuf, r)
          | _ => None
          end
      | _ => None
      end
  | _ => None
  end.

(** [io.CopyN] of [size] bytes through the hasher. *)
Definition verifySnapshotPayloadCRC (r : bytes) (size expected : Z) : bool :=
  if decide (len r < size) then false
  else bool_decide (Crc32.checksum (take (Z.to_nat size) r) = expected).

Definition snapshot_open : IO (result snap_err bytes) :=
  do ok <- fs_check;
  fun w => (match ok, files w !! snapshotFileName with
            | true, Some s => Ok s
            | true, None => Err ErrNoSnapshot
            | false, _ => Err SnapOpen
            end, w).

Definition LoadSnapshot (dir : bytes) : IO (result snap_err Snapshot) :=
  do f <- snapshot_open;
  match f with
  | Err e => ret (Err e)
  | Ok f =>
      match readSnapshotHeader f with
      | None => ret (Err ErrSnapshotCorrupt)
      | Some (meta, expectedCRC, r) =>
          match ReadFull (Z.to_nat (meta_Size meta)) r with
          | ReadOk data _ =>
              if decide (Crc32.checksum data <> expectedCRC) then ret (Err ErrSnapshotCorrupt)
              else ret (Ok (mkSnapshot meta data))
          | _ => ret (Err ErrSnapshotCorrupt)
          end
      end
  end.

(** The reader that is handed out is the data portion of the file. *)
Definition LoadSnapshotReader (dir : bytes) : IO (result snap_err (bytes * SnapshotMeta)) :=
  do f <- snapshot_open;
  match f with
  | Err e => ret (Err e)
  | Ok f =>
      match readSnapshotHeader f with
      | None => do _ <- fs_check; ret (Err ErrSnapshotCorrupt)
      | Some (meta, expectedCRC, r) =>
          do ok <- fs_check; (* f.Stat *)
          if negb ok then (do _ <- fs_check; ret (Err SnapStat)) else
          if decide (len f <> Z.of_nat snapshotHeaderSize + meta_Size meta)
          then (do _ <- fs_check; ret (Err ErrSnapshotCorrupt)) else
          if negb (verifySnapshotPayloadCRC r (meta_Size meta) expectedCRC)
          then (do _ <- fs_check; ret (Err ErrSnapshotCorrupt)) else
          do ok <- fs_check; (* f.Seek *)
          if negb ok then (do _ <- fs_check; ret (Err SnapSeek)) else
          ret (Ok (drop snapshotHeaderSize f, meta))
      end
  end.

(** ** Lemmas *)

(** The bytes of a snapshot file. *)
Definition snapshot_image (idx term : Z) (data : bytes) : bytes :=
  snapshotMagic ++ (put_uint64 idx ++ put_uint64 term ++ put_uint32 (len data)) ++
  put_uint32 (Crc32.checksum data) ++ data.

Lemma length_snapshot_image idx term data :
  length (snapshot_image idx term data) = (28 + length data)%nat.
Proof.
  unfold snapshot_image. rewrite !length_app. autorewrite with mx. simpl. lia.
Qed.

Lemma drop_snapshot_image idx term data :
  drop snapshotHeaderSize (snapshot_image idx term data) = data.
Proof.
  unfold snapshot_image. rewrite !app_assoc. apply drop_app_length'.
  rewrite !length_app. by autorewrite with mx.
Qed.

(** The header of any file that starts like an image. *)
Lemma readSnapshotHeader_app idx term ln crc rest :
  u64_ok idx -> u64_ok term -> 0 <= ln < 2 ^ 32 -> 0 <= crc < 2 ^ 32 ->
  readSnapshotHeader (snapshotMagic ++ (put_uint64 idx ++ put_uint64 term ++ put_uint32 ln) ++
                      put_uint32 crc ++ rest)
  = Some (mkMeta idx term ln, crc, rest).
Proof.
  intros Hi Ht Hl Hc. unfold readSnapshotHeader. rewrite ReadFull_app by done.
  rewrite decide_False by tauto.
  rewrite ReadFull_app by (rewrite !length_app; by autorewrite with mx).
  rewrite ReadFull_app by apply length_put_uint32.
  pose proof (length_put_uint64 idx). pose proof (length_put_uint64 term).
  rewrite take_app_length', drop_app_length' by lia.
  rewrite take_app_length' by lia.
  rewrite (drop_app_add' _ _ 8 8) by lia. rewrite drop_app_length' by lia.
  rewrite take_ge by (rewrite length_put_uint32; lia).
  by rewrite !get_put_uint64, !get_put_uint32.
Qed.

Lemma readSnapshotHeader_image idx term data :
  u64_ok idx -> u64_ok term -> len data <= MaxUint32 ->
  readSnapshotHeader (snapshot_image idx term data) =
    Some (mkMeta idx term (len data), Crc32.checksum data, data).
Proof.
  intros. pose proof (len_nonneg data). unfold MaxUint32 in *.
  apply readSnapshotHeader_app; try done; [lia|apply Crc32.checksum_range].
Qed.

(** Conversely, what the header determines. *)
Lemma readSnapshotHeader_inv f meta crc r :
  readSnapshotHeader f = Some (meta, crc, r) ->
  f = snapshotMagic ++ (put_uint64 (LastIncludedIndex meta) ++
        put_uint64 (LastIncludedTerm meta) ++ put_uint32 (meta_Size meta)) ++ put_uint32 crc ++ r /\
  u64_ok (LastIncludedIndex meta) /\ u64_ok (LastIncludedTerm meta) /\
  0 <= meta_Size meta < 2 ^ 32 /\ 0 <= crc < 2 ^ 32.
Proof.
  unfold readSnapshotHeader.
  destruct (ReadFull 4 f) as [magic r1| |] eqn:E1; [|done..].
  case_decide as Hm; [done|]. assert (magic = snapshotMagic) as -> by (destruct (decide (magic = snapshotMagic)); tauto).
  destruct (ReadFull 20 r1) as [hdr r2| |] eqn:E2; [|done..].
  destruct (ReadFull 4 r2) as [cb r3| |] eqn:E3; [|done..].
  intros [= <- <- <-]. cbn [LastIncludedIndex LastIncludedTerm meta_Size].
  apply ReadFull_inv in E1 as [-> L1], E2 as [-> L2], E3 as [-> L3].
  assert (length (take 8 hdr) = 8%nat) as A1 by (rewrite length_take; lia).
  assert (length (take 8 (drop 8 hdr)) = 8%nat) as A2 by (rewrite length_take, length_drop; lia).
  assert (length (take 4 (drop 16 hdr)) = 4%nat) as A3 by (rewrite length_take, length_drop; lia).
  pose proof (le_combine_range (take 8 hdr)) as R1.
  pose proof (le_combine_range (take 8 (drop 8 hdr))) as R2.
  pose proof (le_combine_range (take 4 (drop 16 hdr))) as R3.
  pose proof (le_combine_range cb) as R4.
  unfold len in R1, R2, R3, R4. rewrite A1 in R1. rewrite A2 in R2. rewrite A3 in R3. rewrite L3 in R4.
  split; [|unfold u64_ok, get_uint; split_and!; lia].
  rewrite !put_get_uint64, !put_get_uint32 by done. f_equal. rewrite <- !app_assoc. rewrite <- (take_drop 8 hdr) at 1. rewrite <- app_assoc. f_equal.
  rewrite <- (take_drop 8 (drop 8 hdr)) at 1. rewrite <- app_assoc. f_equal.
  rewrite drop_drop. f_equal. rewrite take_ge; [done|]. rewrite length_drop. lia.
Qed.
