(* ===== verification/SnapshotProofs.v ===== *)
(** * Snapshot files: atomic replacement, round trip, integrity *)
From S2P Require Import Prelude Crypto FileIO RaftTypes Wal Snapshot.
From Stdlib Require Import ZArith Lia.
From stdpp Require Import base gmap list strings.
#[local] Open Scope Z_scope.
#[local] Open Scope io_scope.

(** ** Saving *)

Lemma preserves_closeRemove q p : p <> q -> preserves q (closeRemove p).
Proof. intros H. unfold closeRemove. pres. Qed.

Lemma preserves_syncDir q : preserves q syncSnapshotDir.
Proof. unfold syncSnapshotDir. pres. Qed.

Ltac snap_pres :=
  repeat first
    [ apply preserves_closeRemove; done | apply preserves_syncDir | progress pres ].

Lemma writeSnapshotTmp_preserves q s : q <> snapshotTmpName -> preserves q (writeSnapshotTmp s).
Proof. intros H. unfold writeSnapshotTmp. snap_pres. Qed.

Lemma writeSnapshotTmp_ok s w w' :
  writeSnapshotTmp s w = (None, w') ->
  len (Data s) <= maxSnapshotSize /\
  files w' !! snapshotTmpName =
    Some (snapshot_image (LastIncludedIndex (Meta s)) (LastIncludedTerm (Meta s)) (Data s)).
Proof.
  intros Hrun. unfold writeSnapshotTmp in Hrun.
  io_step Hrun b1 w1 E1. destruct b1; cbn [negb] in Hrun; [|io_bail Hrun]. apply fs_create_ok in E1.
  io_step Hrun b2 w2 E2. destruct b2; cbn [negb] in Hrun; [|io_bail Hrun]. apply fs_write_ok in E2.
  destruct (lenUint32 (Data s) maxSnapshotSize) as [dl|] eqn:El; [|io_bail Hrun].
  io_step Hrun b3 w3 E3. destruct b3; cbn [negb] in Hrun; [|io_bail Hrun]. apply fs_write_ok in E3.
  io_step Hrun b4 w4 E4. destruct b4; cbn [negb] in Hrun; [|io_bail Hrun]. apply fs_write_ok in E4.
  io_step Hrun b5 w5 E5. destruct b5; cbn [negb] in Hrun; [|io_bail Hrun]. apply fs_write_ok in E5.
  io_step Hrun b6 w6 E6. destruct b6; cbn [negb] in Hrun; [|io_bail Hrun]. apply check_files in E6.
  io_step Hrun b7 w7 E7. destruct b7; cbn [negb] in Hrun; [|io_bail Hrun]. apply check_files in E7.
  injection Hrun as <-.
  unfold lenUint32 in El. pose proof (len_nonneg (Data s)).
  rewrite decide_False in El by lia. case_decide as Hmax; [done|]. case_decide as Hu; [done|].
  unfold MaxUint32 in Hu. injection El as <-.
  split; [lia|]. unfold contents in *. rewrite E7, E6, E5, lookup_insert_eq. f_equal.
  rewrite E4, lookup_insert_eq, E3, lookup_insert_eq, E2, lookup_insert_eq, E1, lookup_insert_eq. simpl default.
  unfold snapshot_image, wrap32. rewrite Z.mod_small by lia. by rewrite <- !app_assoc.
Qed.

Lemma SaveSnapshot_preserves q dir s :
  q <> snapshotTmpName -> q <> snapshotFileName -> preserves q (SaveSnapshot dir s).
Proof.
  intros H1 H2. unfold SaveSnapshot. snap_pres; try (by apply writeSnapshotTmp_preserves).
Qed.

Lemma save_atomic dir s w r w' :
  SaveSnapshot dir s w = (r, w') ->
  (r <> None /\ files w' !! snapshotFileName = files w !! snapshotFileName) \/
  (r = None /\ len (Data s) <= maxSnapshotSize /\
   files w' !! snapshotFileName =
     Some (snapshot_image (LastIncludedIndex (Meta s)) (LastIncludedTerm (Meta s)) (Data s))).
Proof.
  intros Hrun. unfold SaveSnapshot in Hrun.
  case_decide; [injection Hrun as <- <-; by left|].
  io_step Hrun b1 w1 E1. apply check_files in E1.
  destruct b1; cbn [negb] in Hrun; [|injection Hrun as <- <-; left; by rewrite E1].
  io_step Hrun b2 w2 E2. apply check_files in E2.
  destruct b2; cbn [negb] in Hrun; [|injection Hrun as <- <-; left; by rewrite E2, E1].
  io_step Hrun r3 w3 E3.
  pose proof (preserves_run snapshotFileName _ _ _ _ (writeSnapshotTmp_preserves snapshotFileName s ltac:(done)) E3) as P3.
  destruct r3 as [err|]; [injection Hrun as <- <-; left; by rewrite P3, E2, E1|].
  apply writeSnapshotTmp_ok in E3 as [Hl Ht].
  io_step Hrun b4 w4 E4. apply fs_rename_inv in E4 as [[-> F4]|(-> & d & Hd & F4)]; cbn [negb] in Hrun.
  - io_step Hrun b5 w5 E5. injection Hrun as <- <-. left. split; [done|].
    apply (preserves_run snapshotFileName) in E5; [|by apply preserves_remove].
    by rewrite E5, F4, P3, E2, E1.
  - io_step Hrun u w5 E5. injection Hrun as <- <-. right. split; [done|]. split; [done|].
    apply (preserves_run snapshotFileName) in E5; [|apply preserves_syncDir].
    rewrite E5, F4, lookup_insert_eq, <- Hd. done.
Qed.

(** [SaveSnapshot] replaces the snapshot atomically.  Whatever calls fail
    on the way, [raft.snapshot] holds either exactly what it held before (and
    an error is returned) or the complete new snapshot; and success means the
    latter. *)
Theorem save_snapshot_atomic dir s w r w' :
  SaveSnapshot dir s w = (r, w') ->
  (r <> None /\ files w' !! snapshotFileName = files w !! snapshotFileName) \/
  (r = None /\ len (Data s) <= maxSnapshotSize /\
   files w' !! snapshotFileName =
     Some (snapshot_image (LastIncludedIndex (Meta s)) (LastIncludedTerm (Meta s)) (Data s))).
Proof. apply save_atomic. Qed.

(** ** Loading *)

Lemma snapshot_open_inv w f w' :
  snapshot_open w = (Ok f, w') -> files w !! snapshotFileName = Some f /\ files w' = files w.
Proof.
  intros Hrun. unfold snapshot_open in Hrun. io_step Hrun ok w1 E1. apply check_files in E1.
  destruct ok; [|done]. destruct (files w1 !! snapshotFileName) eqn:E; [|done].
  injection Hrun as <- <-. by rewrite <- E1.
Qed.

(** With no pending fault, opening succeeds on an existing file. *)
Lemma snapshot_open_ok w f :
  faults w = [] -> files w !! snapshotFileName = Some f -> snapshot_open w = (Ok f, w).
Proof.
  intros Hf Hs. unfold snapshot_open, bind. rewrite fs_check_nil by done. by rewrite Hs.
Qed.

(** An accepted file is exactly a snapshot image of what is handed out. *)
Lemma LoadSnapshotReader_inv dir w data meta w' :
  LoadSnapshotReader dir w = (Ok (data, meta), w') ->
  files w !! snapshotFileName =
    Some (snapshot_image (LastIncludedIndex meta) (LastIncludedTerm meta) data) /\
  meta_Size meta = len data /\ len data <= MaxUint32 /\
  u64_ok (LastIncludedIndex meta) /\ u64_ok (LastIncludedTerm meta) /\
  files w' = files w.
Proof.
  intros Hrun. unfold LoadSnapshotReader in Hrun. io_step Hrun f w1 E1.
  destruct f as [f|e]; [|done]. apply snapshot_open_inv in E1 as [Hf F1].
  destruct (readSnapshotHeader f) as [[[m crc] r]|] eqn:Eh; [|io_bail Hrun].
  io_step Hrun b2 w2 E2. apply check_files in E2. destruct b2; cbn [negb] in Hrun; [|io_bail Hrun].
  case_decide as Hsz; [io_bail Hrun|]. assert (len f = Z.of_nat snapshotHeaderSize + meta_Size m) as Hlen by lia.
  destruct (verifySnapshotPayloadCRC r (meta_Size m) crc) eqn:Ev; cbn [negb] in Hrun; [|io_bail Hrun].
  io_step Hrun b3 w3 E3. apply check_files in E3. destruct b3; cbn [negb] in Hrun; [|io_bail Hrun].
  injection Hrun as <- <- <-.
  apply readSnapshotHeader_inv in Eh as (Ef & Hi & Ht & Hs & Hc).
  assert (drop snapshotHeaderSize f = r) as ->.
  { rewrite Ef, !app_assoc. apply drop_app_length'. rewrite !length_app. autorewrite with mx. done. }
  assert (len f = 28 + len r) as Hlr.
  { rewrite Ef. unfold len. rewrite !length_app. autorewrite with mx. simpl length. lia. }
  assert (meta_Size m = len r) as Hsr by (unfold snapshotHeaderSize in Hlen; lia).
  unfold verifySnapshotPayloadCRC in Ev. rewrite decide_False in Ev by lia.
  apply bool_decide_eq_true in Ev. unfold len in Hsr.
  rewrite Hsr, Nat2Z.id, firstn_all in Ev.
  split; [|split; [done|]; split; [unfold len, MaxUint32; lia|];
           split; [done|]; split; [done|]; congruence].
  rewrite Hf. f_equal. rewrite Ef. unfold snapshot_image. by rewrite Ev, Hsr.
Qed.

Lemma LoadSnapshotReader_image dir w idx term data :
  faults w = [] -> u64_ok idx -> u64_ok term -> len data <= MaxUint32 ->
  files w !! snapshotFileName = Some (snapshot_image idx term data) ->
  LoadSnapshotReader dir w = (Ok (data, mkMeta idx term (len data)), w).
Proof.
  intros Hw Hi Ht Hl Hf. unfold LoadSnapshotReader, bind.
  rewrite (snapshot_open_ok w _ Hw Hf), readSnapshotHeader_image by done.
  rewrite fs_check_nil by done. cbn [negb meta_Size].
  rewrite decide_False by (unfold len; rewrite length_snapshot_image; unfold snapshotHeaderSize; lia).
  unfold verifySnapshotPayloadCRC. rewrite decide_False by lia.
  assert (take (Z.to_nat (len data)) data = data) as -> by (unfold len; by rewrite Nat2Z.id, firstn_all).
  rewrite bool_decide_eq_true_2 by done. cbn [negb]. rewrite fs_check_nil by done. cbn [negb].
  by rewrite drop_snapshot_image.
Qed.

Lemma LoadSnapshot_image dir w idx term data :
  faults w = [] -> u64_ok idx -> u64_ok term -> len data <= MaxUint32 ->
  files w !! snapshotFileName = Some (snapshot_image idx term data) ->
  LoadSnapshot dir w = (Ok (mkSnapshot (mkMeta idx term (len data)) data), w).
Proof.
  intros Hw Hi Ht Hl Hf. unfold LoadSnapshot, bind.
  rewrite (snapshot_open_ok w _ Hw Hf), readSnapshotHeader_image by done. cbn [meta_Size].
  unfold ReadFull. rewrite decide_True by (unfold len; lia).
  assert (take (Z.to_nat (len data)) data = data) as -> by (unfold len; by rewrite Nat2Z.id, firstn_all).
  by rewrite decide_False by tauto.
Qed.

(** The streaming reader accepts exactly the well-formed snapshot files.
    What it hands out determines every byte of the file on disk, so a file with
    any truncation, extension or altered payload, header or checksum is
    rejected; and a file that [SaveSnapshot] wrote is read back, by both
    readers, with its metadata and payload. *)
Theorem snapshot_reader_exact dir w data meta :
  faults w = [] ->
  (LoadSnapshotReader dir w).1 = Ok (data, meta) <->
  (meta_Size meta = len data /\ len data <= MaxUint32 /\
   u64_ok (LastIncludedIndex meta) /\ u64_ok (LastIncludedTerm meta) /\
   files w !! snapshotFileName =
     Some (snapshot_image (LastIncludedIndex meta) (LastIncludedTerm meta) data)).
Proof.
  intros Hw. split.
  - destruct (LoadSnapshotReader dir w) as [r w'] eqn:E. simpl. intros ->.
    by apply LoadSnapshotReader_inv in E as (Hf & Hs & Hm & Hi & Ht & _).
  - destruct meta as [idx term size]. simpl. intros (-> & Hl & Hi & Ht & Hf).
    by rewrite (LoadSnapshotReader_image dir w idx term data).
Qed.

(** ** Witnesses *)

Definition demo_snap : Snapshot := mkSnapshot (mkMeta 7 2 5) (bs "state").
Definition demo_old : bytes := bs "old contents".
Definition demo_dir (fs : list outcome) : world := World {[ snapshotFileName := demo_old ]} fs.

(** The rename is the eighth call after mkdir and chmod; here it fails. *)
Lemma save_snapshot_atomic_witness :
  let run := SaveSnapshot (bs "/var/raft") demo_snap
               (demo_dir [IoOk; IoOk; IoOk; IoOk; IoOk; IoOk; IoOk; IoOk; IoOk; IoFail 0]) in
  run.1 = Some SnapRename /\ files run.2 !! snapshotFileName = Some demo_old.
Proof.
  set (fs := [IoOk; IoOk; IoOk; IoOk; IoOk; IoOk; IoOk; IoOk; IoOk; IoFail 0]).
  assert ((SaveSnapshot (bs "/var/raft") demo_snap (demo_dir fs)).1 = Some SnapRename) as Hr
    by (vm_compute; reflexivity).
  split; [exact Hr|].
  destruct (save_snapshot_atomic (bs "/var/raft") demo_snap (demo_dir fs)
    (SaveSnapshot (bs "/var/raft") demo_snap (demo_dir fs)).1
    (SaveSnapshot (bs "/var/raft") demo_snap (demo_dir fs)).2 (surjective_pairing _))
    as [[_ Hf]|[Hn _]].
  - exact Hf.
  - rewrite Hr in Hn. discriminate Hn.
Defined.

Lemma snapshot_reader_exact_witness :
  (LoadSnapshotReader (bs "/var/raft")
     (World {[ snapshotFileName := snapshot_image 7 2 (bs "state") ]} [])).1
  = Ok (bs "state", mkMeta 7 2 5).
Proof.
  apply (snapshot_reader_exact (bs "/var/raft")
    (World {[ snapshotFileName := snapshot_image 7 2 (bs "state") ]} []) (bs "state") (mkMeta 7 2 5) eq_refl).
  split; [reflexivity|]. split; [vm_compute; discriminate|]. split; [split; done|]. split; [split; done|].
  vm_compute. reflexivity.
Defined.
