(* ===== verification/WalProofs.v ===== *)
(** * Correctness of the write-ahead log

    The reader inverts the writer, stops at the first damaged record with the
    well-formed prefix, and always terminates; a torn append costs at most the
    record being written; a truncating rewrite is atomic for the log file. *)
From S2P Require Import Prelude Crypto FileIO RaftTypes EntryJson Wal.
From Stdlib Require Import ZArith Lia.
From stdpp Require Import base gmap list strings.
#[local] Open Scope Z_scope.
#[local] Open Scope io_scope.

(** ** Lengths and header fields *)

Lemma walMaxRecord_val : walMaxRecord = 8388608.
Proof. done. Qed.

Lemma lenUint32_spec b max n :
  lenUint32 b max = Some n <-> n = len b /\ len b <= max /\ len b <= MaxUint32.
Proof.
  unfold lenUint32. pose proof (len_nonneg b). unfold MaxUint32.
  repeat case_decide; split; intros Hn; try done; try (destruct Hn as (-> & ? & ?); try lia).
  - injection Hn as <-. split; [|lia]. unfold wrap32. apply Z.mod_small. lia.
  - f_equal. unfold wrap32. apply Z.mod_small. lia.
Qed.

Lemma length_header_prefix p : length (header_prefix p) = 8%nat.
Proof. unfold header_prefix. by rewrite length_app, !length_put_uint32. Qed.

Lemma length_record_header key p : length (record_header key p) = walHeaderSize.
Proof.
  unfold record_header. by rewrite length_app, length_header_prefix, Hmac.length_hmac.
Qed.

(** A record as the writer emits it, read back field by field. *)
Lemma record_header_fields key p :
  len p < 2 ^ 32 ->
  get_uint (take 4 (record_header key p)) = len p /\
  get_uint (take 4 (drop 4 (record_header key p))) = Crc32.checksum p /\
  take 8 (record_header key p) = header_prefix p /\
  drop 8 (record_header key p) = Hmac.hmac_sha256 key (header_prefix p ++ p).
Proof.
  intros Hlen. unfold record_header.
  set (m := Hmac.hmac_sha256 _ _). unfold header_prefix at 1 2.
  pose proof (length_put_uint32 (len p)) as L1.
  pose proof (length_put_uint32 (Crc32.checksum p)) as L2.
  split_and!.
  - rewrite <- app_assoc, take_app_length' by done.
    apply get_put_uint32. pose proof (len_nonneg p). lia.
  - rewrite <- app_assoc, drop_app_length', take_app_length' by done.
    apply get_put_uint32, Crc32.checksum_range.
  - apply take_app_length'. by rewrite length_header_prefix.
  - apply drop_app_length'. by rewrite length_header_prefix.
Qed.

Section Reader.
Context `{EntryCodec}.
Implicit Types (key s t f : bytes) (es : list LogEntry) (e : LogEntry).

(** ** The reader terminates *)

Lemma readLoop_fuel key n1 n2 s acc :
  (length s < n1)%nat -> (length s < n2)%nat ->
  readLoop n1 key s acc = readLoop n2 key s acc.
Proof.
  revert n2 s acc. induction n1 as [|n1 IH]; intros [|n2] s acc H1 H2; try lia.
  simpl. destruct (ReadFull walHeaderSize s) as [hdr rest| |] eqn:E; try done.
  apply ReadFull_inv in E as [-> Lh].
  case_decide; [done|].
  destruct (ReadFull _ rest) as [p rest'| |] eqn:E'; try done.
  apply ReadFull_inv in E' as [-> Lp].
  repeat case_decide; try done.
  destruct (unmarshalEntry p); [|done].
  rewrite !length_app, Lh in *. unfold walHeaderSize in *. apply IH; lia.
Qed.

Lemma readLoop_no_fuel_error key n s acc :
  (length s < n)%nat -> (readLoop n key s acc).2 <> Some WalOutOfFuel.
Proof.
  revert s acc. induction n as [|n IH]; intros s acc Hn; [lia|].
  simpl. destruct (ReadFull walHeaderSize s) as [hdr rest| |] eqn:E; try done.
  apply ReadFull_inv in E as [-> Lh].
  case_decide; [done|].
  destruct (ReadFull _ rest) as [p rest'| |] eqn:E'; try done.
  apply ReadFull_inv in E' as [-> Lp].
  repeat case_decide; try done.
  destruct (unmarshalEntry p); [|done].
  rewrite !length_app, Lh in *. unfold walHeaderSize in *. apply IH. lia.
Qed.

(** The entries read so far are never dropped. *)
Lemma readLoop_extends key n s acc : exists es', (readLoop n key s acc).1 = acc ++ es'.
Proof.
  revert s acc. induction n as [|n IH]; intros s acc; [exists []; by rewrite app_nil_r|].
  simpl. destruct (ReadFull walHeaderSize s) as [hdr rest| |];
    try (exists []; by rewrite app_nil_r).
  case_decide; [exists []; by rewrite app_nil_r|].
  destruct (ReadFull _ rest) as [p rest'| |]; try (exists []; by rewrite app_nil_r).
  repeat case_decide; try (exists []; by rewrite app_nil_r).
  destruct (unmarshalEntry p) as [e|]; [|exists []; by rewrite app_nil_r].
  destruct (IH rest' (acc ++ [e])) as [es' ->]. exists (e :: es'). by rewrite <- app_assoc.
Qed.

(** The reader after the magic, with the fuel that is always enough. *)
Definition readRecs key s acc := readLoop (S (length s)) key s acc.

Lemma readRecs_nil key acc : readRecs key [] acc = (acc, None).
Proof. done. Qed.

(** One well-formed record is consumed and its entry appended. *)
Lemma readRecs_record key p e rest acc :
  unmarshalEntry p = Some e -> 0 < len p <= walMaxRecord ->
  readRecs key (encode_record key p ++ rest) acc = readRecs key rest (acc ++ [e]).
Proof.
  intros Hu [Hp0 Hp1]. rewrite walMaxRecord_val in Hp1.
  destruct (record_header_fields key p) as (F1 & F2 & F3 & F4); [lia|].
  unfold readRecs at 1, encode_record. rewrite <- app_assoc.
  cbn [readLoop]. rewrite ReadFull_app by apply length_record_header.
  rewrite F1, F2, F3, F4. rewrite walMaxRecord_val.
  rewrite decide_False by lia.
  rewrite ReadFull_app by (unfold len; by rewrite Nat2Z.id).
  rewrite decide_False, decide_False by (intros []; done). rewrite Hu.
  apply readLoop_fuel.
  - rewrite !length_app, length_record_header. unfold walHeaderSize. lia.
  - lia.
Qed.

(** A record whose bytes stop early ends the read as corrupt. *)
Lemma readRecs_torn key p k acc :
  0 < len p <= walMaxRecord ->
  (0 < k < length (encode_record key p))%nat ->
  readRecs key (take k (encode_record key p)) acc = (acc, Some ErrWALCorrupt).
Proof.
  intros [Hp0 Hp1] Hk. rewrite walMaxRecord_val in Hp1.
  destruct (record_header_fields key p) as (F1 & F2 & F3 & F4); [lia|].
  assert (length (record_header key p) = 40%nat) as Lh by apply length_record_header.
  unfold encode_record in *. rewrite length_app, Lh in Hk.
  set (h := record_header key p) in *.
  unfold readRecs. cbn [readLoop].
  destruct (decide (k < 40)%nat).
  - rewrite ReadFull_short; [done| |].
    + rewrite length_take, length_app, Lh. unfold walHeaderSize. lia.
    + intros E. apply (f_equal length) in E.
      rewrite length_take, length_app, Lh in E. simpl in E. lia.
  - rewrite take_app_ge by lia. rewrite ReadFull_app by done.
    rewrite F1, walMaxRecord_val, decide_False by lia.
    rewrite Lh. unfold ReadFull. rewrite decide_False; [by destruct (take _ p)|].
    rewrite length_take. unfold len. lia.
Qed.

(** ** The contents of a well-formed log *)

Inductive records (key : bytes) : list LogEntry -> bytes -> Prop :=
| records_nil : records key [] []
| records_cons e p es s :
    marshalEntry e = Some p -> entry_stable e ->
    0 < len p <= walMaxRecord ->
    records key es s ->
    records key (e :: es) (encode_record key p ++ s).

(** The file [f] is the magic followed by exactly the records of [es]. *)
Definition wal_image (key : bytes) (es : list LogEntry) (f : bytes) : Prop :=
  exists s, f = walMagic ++ s /\ records key es s.

Lemma records_app key es s es' s' :
  records key es s -> records key es' s' -> records key (es ++ es') (s ++ s').
Proof.
  induction 1 as [|e p es s Hm Hu Hl Hr IH]; intros H'; [done|].
  rewrite <- app_assoc. simpl. econstructor; eauto.
Qed.

Lemma records_one key e p :
  marshalEntry e = Some p -> entry_stable e -> 0 < len p <= walMaxRecord ->
  records key [e] (encode_record key p).
Proof. intros. rewrite <- (app_nil_r (encode_record _ _)). econstructor; eauto using records. Qed.

Lemma records_stable key es s : records key es s -> Forall entry_stable es.
Proof. induction 1; constructor; done. Qed.

Lemma readRecs_records key es s t acc :
  records key es s -> readRecs key (s ++ t) acc = readRecs key t (acc ++ es).
Proof.
  intros Hr. revert acc. induction Hr as [|e p es s Hm Hu Hl Hr IH]; intros acc.
  - by rewrite app_nil_r.
  - rewrite <- app_assoc, (readRecs_record _ p e) by eauto using codec_roundtrip. rewrite IH, <- app_assoc. done.
Qed.

Lemma readBytes_magic key s : readBytes key (walMagic ++ s) = readRecs key s [].
Proof.
  unfold readBytes. rewrite ReadFull_app by done.
  rewrite decide_False; [done|]. by intros [].
Qed.

Lemma readBytes_image key es f : wal_image key es f -> readBytes key f = (es, None).
Proof.
  intros (s & -> & Hr). rewrite readBytes_magic.
  rewrite <- (app_nil_r s), (readRecs_records _ es) by done. done.
Qed.

Lemma wal_image_inj key es es' f : wal_image key es f -> wal_image key es' f -> es = es'.
Proof. intros H1%readBytes_image H2%readBytes_image. congruence. Qed.

Lemma wal_image_app key es f es' s' :
  wal_image key es f -> records key es' s' -> wal_image key (es ++ es') (f ++ s').
Proof.
  intros (s & -> & Hr) Hr'. exists (s ++ s'). rewrite app_assoc. split; [done|].
  by apply records_app.
Qed.

(** Any prefix of the next record, appended to a well-formed log: the old
    entries survive, and the new one appears only if all its bytes are there. *)
Lemma readBytes_torn key es f e p k :
  wal_image key es f -> unmarshalEntry p = Some e -> 0 < len p <= walMaxRecord ->
  readBytes key (f ++ take k (encode_record key p)) =
    if decide (k = 0)%nat then (es, None)
    else if decide (length (encode_record key p) <= k)%nat then (es ++ [e], None)
    else (es, Some ErrWALCorrupt).
Proof.
  intros (s & -> & Hr) Hu Hl. rewrite <- app_assoc, readBytes_magic.
  rewrite (readRecs_records _ es) by done. rewrite app_nil_l.
  case_decide as H0; [by subst|]. case_decide as H1.
  - rewrite take_ge by done. rewrite <- (app_nil_r (encode_record _ _)).
    by rewrite (readRecs_record _ _ e).
  - apply readRecs_torn; [done|lia].
Qed.

(** A complete record whose payload fails its checksum hides every byte that
    follows it. *)
Lemma readRecs_bad_crc key hdr p rest acc :
  length hdr = walHeaderSize -> get_uint (take 4 hdr) = len p -> 0 < len p <= walMaxRecord ->
  Crc32.checksum p <> get_uint (take 4 (drop 4 hdr)) ->
  readRecs key (hdr ++ p ++ rest) acc = (acc, Some ErrWALCorrupt).
Proof.
  intros Lh Hl Hp Hc. unfold readRecs. cbn [readLoop].
  rewrite ReadFull_app by done. rewrite Hl, decide_False by lia.
  rewrite ReadFull_app by (unfold len; by rewrite Nat2Z.id).
  by rewrite decide_True.
Qed.

(** A complete record with a good checksum and a MAC that is not the keyed
    one stops the read with the distinct tampering error. *)
Lemma readRecs_bad_mac key hdr p rest acc :
  length hdr = walHeaderSize -> get_uint (take 4 hdr) = len p -> 0 < len p <= walMaxRecord ->
  Crc32.checksum p = get_uint (take 4 (drop 4 hdr)) ->
  Hmac.hmac_sha256 key (take 8 hdr ++ p) <> drop 8 hdr ->
  readRecs key (hdr ++ p ++ rest) acc = (acc, Some ErrWALTampered).
Proof.
  intros Lh Hl Hp Hc Hm. unfold readRecs. cbn [readLoop].
  rewrite ReadFull_app by done. rewrite Hl, decide_False by lia.
  rewrite ReadFull_app by (unfold len; by rewrite Nat2Z.id).
  rewrite decide_False by (intros []; done). by rewrite decide_True.
Qed.

End Reader.

Section Writer.
Context `{EntryCodec}.
Implicit Types (key s t f : bytes) (es : list LogEntry) (e : LogEntry).

(** [wd'] differs from [wd] at most in file [p], whose contents grew by [s]. *)
Definition grown (p s : bytes) (wd wd' : world) : Prop :=
  contents wd' p = contents wd p ++ s /\
  forall q, q <> p -> files wd' !! q = files wd !! q.

Lemma grown_refl p wd : grown p [] wd wd.
Proof. split; [by rewrite app_nil_r|done]. Qed.

Lemma grown_trans p s t w1 w2 w3 :
  grown p s w1 w2 -> grown p t w2 w3 -> grown p (s ++ t) w1 w3.
Proof.
  intros [C1 O1] [C2 O2]. split.
  - by rewrite C2, C1, app_assoc.
  - intros q Hq. by rewrite O2, O1.
Qed.

Lemma grown_files p d wd wd' :
  files wd' = <[p := contents wd p ++ d]> (files wd) -> grown p d wd wd'.
Proof.
  intros E. unfold grown, contents at 1. rewrite E, lookup_insert_eq. split; [done|].
  intros q Hq. by rewrite lookup_insert_ne.
Qed.

Lemma grown_same p wd wd' : files wd' = files wd -> grown p [] wd wd'.
Proof. intros E. unfold grown, contents. rewrite E, app_nil_r. done. Qed.

Lemma fs_write_grown p d wd b wd' :
  fs_write p d wd = (b, wd') ->
  exists k, grown p (take k d) wd wd' /\ (b = true -> take k d = d).
Proof. intros (k & Hk & Hb)%fs_write_prefix. exists k. split; [by apply grown_files|done]. Qed.

(** What one append can leave behind: a prefix of the record, all of it when
    it reports success. *)
Lemma appendLocked_grown w e p0 wd r wd' :
  wal_file w = HOpen p0 -> appendLocked w e wd = (r, wd') ->
  grown p0 [] wd wd' /\ r <> None \/
  exists p k, marshalEntry e = Some p /\ len p <= walMaxRecord /\
    grown p0 (take k (encode_record (wal_hmacKey w) p)) wd wd' /\
    (r = None -> take k (encode_record (wal_hmacKey w) p) = encode_record (wal_hmacKey w) p).
Proof.
  intros Hf. unfold appendLocked.
  destruct (marshalEntry e) as [p|] eqn:Em; [|intros [= <- <-]; left; split; [apply grown_refl|done]].
  destruct (lenUint32 p walMaxRecord) as [n|] eqn:El;
    [|intros [= <- <-]; left; split; [apply grown_refl|done]].
  apply lenUint32_spec in El as (_ & Hlen & _).
  unfold bind, file_write, ret. rewrite Hf. intros Hrun. right. exists p.
  set (h := record_header (wal_hmacKey w) p) in *. unfold encode_record. fold h.
  destruct (fs_write p0 h wd) as [b1 w1] eqn:E1.
  apply fs_write_grown in E1 as (k1 & G1 & F1). destruct b1.
  - rewrite (F1 eq_refl) in G1.
    destruct (fs_write p0 p w1) as [b2 w2] eqn:E2.
    apply fs_write_grown in E2 as (k2 & G2 & F2).
    exists (length h + k2)%nat. rewrite take_app_add.
    destruct b2; injection Hrun as <- <-; split_and!; eauto using grown_trans; intros; [|done].
    by rewrite F2.
  - injection Hrun as <- <-. exists (Nat.min k1 (length h)).
    rewrite take_app_le by lia.
    replace (take (Nat.min k1 (length h)) h) with (take k1 h); [by split_and!|].
    destruct (decide (k1 <= length h)%nat).
    + by rewrite Nat.min_l.
    + rewrite Nat.min_r by lia. by rewrite firstn_all, take_ge by lia.
Qed.

Lemma marshal_len_pos e p : marshalEntry e = Some p -> 0 < len p.
Proof.
  intros Hm%codec_nonempty. destruct p as [|b p]; [done|]. rewrite len_cons.
  pose proof (len_nonneg p). lia.
Qed.

Lemma appendLocked_ok w e p0 wd wd' :
  wal_file w = HOpen p0 -> entry_stable e -> appendLocked w e wd = (None, wd') ->
  exists s, records (wal_hmacKey w) [e] s /\ grown p0 s wd wd'.
Proof.
  intros Hf Hs Hrun. eapply appendLocked_grown in Hrun as [[_ ?]|(p & k & Hm & Hl & G & F)]; [done| |done].
  rewrite (F eq_refl) in G. eexists. split; [|done].
  apply records_one; [done..|]. split; [by eapply marshal_len_pos|done].
Qed.

Lemma append_all_ok w es p0 wd wd' :
  wal_file w = HOpen p0 -> Forall entry_stable es -> append_all w es wd = (None, wd') ->
  exists s, records (wal_hmacKey w) es s /\ grown p0 s wd wd'.
Proof.
  intros Hf Hs. revert wd. induction Hs as [|e es He Hs IH]; intros wd Hrun.
  - injection Hrun as <-. exists []. split; [constructor|apply grown_refl].
  - simpl in Hrun. unfold bind in Hrun.
    destruct (appendLocked w e wd) as [[err|] w1] eqn:E1; [done|].
    apply (appendLocked_ok _ _ p0) in E1 as (s1 & R1 & G1); [|done..].
    apply IH in Hrun as (s2 & R2 & G2).
    exists (s1 ++ s2). split; [by apply (records_app _ [e])|by eapply grown_trans].
Qed.

Lemma append_all_others w es p0 q wd :
  wal_file w = HOpen p0 -> q <> p0 -> files (append_all w es wd).2 !! q = files wd !! q.
Proof.
  intros Hf Hq. revert wd. induction es as [|e es IH]; intros wd; [done|].
  simpl. unfold bind. destruct (appendLocked w e wd) as [r w1] eqn:E1.
  assert (files w1 !! q = files wd !! q) as E.
  { apply (appendLocked_grown _ _ p0) in E1 as [[[_ O] _]|(? & ? & _ & _ & [_ O] & _)]; auto. }
  destruct r; [done|]. by rewrite IH, E.
Qed.

(** The WAL is open on [raft.wal], which holds exactly the records of [es]. *)
Definition wal_holds (w : WAL) (wd : world) (es : list LogEntry) : Prop :=
  wal_file w = HOpen walFileName /\
  wal_image (wal_hmacKey w) es (contents wd walFileName).

Lemma wal_holds_grown w wd wd' es es' s :
  wal_holds w wd es -> records (wal_hmacKey w) es' s -> grown walFileName s wd wd' ->
  wal_holds w wd' (es ++ es').
Proof. intros [Hf Hi] Hr [C _]. split; [done|]. rewrite C. by apply wal_image_app. Qed.

Lemma wal_holds_files w wd wd' es :
  wal_holds w wd es -> files wd' !! walFileName = files wd !! walFileName -> wal_holds w wd' es.
Proof. intros [Hf Hi] E. split; [done|]. unfold contents. by rewrite E. Qed.

Lemma file_sync_files h wd : files (file_sync h wd).2 = files wd.
Proof. destruct h; try done. apply fs_check_files. Qed.

Lemma writeBatch_ok w items es wd wd' :
  wal_holds w wd es -> Forall entry_stable items ->
  writeBatchLocked w items wd = (None, wd') -> wal_holds w wd' (es ++ items).
Proof.
  intros Hw Hs. unfold writeBatchLocked, bind.
  destruct (append_all w items wd) as [[err|] w1] eqn:E1; [done|].
  apply (append_all_ok _ _ walFileName) in E1 as (s & R & G); [|apply Hw|done].
  assert (wal_holds w w1 (es ++ items)) as Hw1 by eauto using wal_holds_grown.
  destruct (wal_syncAll w); [|by intros [= <-]].
  pose proof (file_sync_files (wal_file w) w1) as Ef.
  destruct (file_sync (wal_file w) w1) as [[] w2]; [|done].
  intros [= <-]. eapply wal_holds_files; [done|]. simpl in Ef. by rewrite Ef.
Qed.

Lemma Append_ok w e es wd wd' :
  wal_holds w wd es -> entry_stable e -> Append w e wd = (None, wd') ->
  wal_holds w wd' (es ++ [e]).
Proof.
  intros Hw Hs. unfold Append. destruct (wal_closed w); [done|].
  unfold flush, bind, ret. destruct (writeBatchLocked w [e] wd) as [r w1] eqn:E.
  simpl. intros [= -> <-]. eapply writeBatch_ok; eauto.
Qed.

(** ** Truncation *)

Lemma buildTmp_preserves w keep : preserves walFileName (buildTmp w keep).
Proof.
  unfold buildTmp. pres. intros wd. by apply (append_all_others _ _ walRewriteName).
Qed.

Lemma buildTmp_ok w keep wd wd' :
  Forall entry_stable keep -> buildTmp w keep wd = (None, wd') ->
  exists f, files wd' !! walRewriteName = Some f /\ wal_image (wal_hmacKey w) keep f.
Proof.
  intros Hs Hrun. unfold buildTmp in Hrun.
  io_step Hrun b1 w1 E1. destruct b1; [|done]. apply fs_create_ok in E1. simpl in Hrun.
  io_step Hrun b2 w2 E2. destruct b2; simpl in Hrun.
  2: { unfold bind, ret in Hrun. destruct (fs_check w2) as [? ?].
       by destruct (fs_remove _ _) as [? ?]. }
  apply fs_write_ok in E2.
  io_step Hrun r w3 E3. destruct r as [err|].
  { unfold bind, ret in Hrun. destruct (fs_check w3) as [? ?].
    by destruct (fs_remove _ _) as [? ?]. }
  apply (append_all_ok _ _ walRewriteName) in E3 as (s & R & C3 & _); [|done..].
  io_step Hrun b4 w4 E4. apply check_files in E4. destruct b4; simpl in Hrun.
  2: { unfold bind, ret in Hrun. destruct (fs_check w4) as [? ?].
       by destruct (fs_remove _ _) as [? ?]. }
  io_step Hrun b5 w5 E5. apply check_files in E5. destruct b5; simpl in Hrun.
  2: { unfold bind, ret in Hrun. by destruct (fs_remove _ _) as [? ?]. }
  injection Hrun as <-.
  assert (contents w5 walRewriteName = walMagic ++ s) as Hc.
  { unfold contents in *. rewrite E5, E4, C3, E2, lookup_insert_eq, E1, lookup_insert_eq. done. }
  exists (walMagic ++ s). split; [|by exists s].
  unfold contents in Hc. destruct (files w5 !! walRewriteName); simpl in Hc; [by subst|done].
Qed.

Lemma rewriteLocked_spec w keep wd r w' wd' :
  Forall entry_stable keep -> rewriteLocked w keep wd = ((r, w'), wd') ->
  wal_hmacKey w' = wal_hmacKey w /\
  (r <> None /\ files wd' !! walFileName = files wd !! walFileName \/
   wal_image (wal_hmacKey w) keep (contents wd' walFileName) /\
   (r = None -> wal_file w' = HOpen walFileName)).
Proof.
  intros Hs Hrun. unfold rewriteLocked in Hrun.
  io_step Hrun rb w1 E1.
  pose proof (buildTmp_preserves w keep wd) as P1. rewrite E1 in P1. simpl in P1.
  destruct rb as [err|]; [injection Hrun as <- <- <-; eauto|].
  apply buildTmp_ok in E1 as (f & Hf & Hi); [|done].
  io_step Hrun wc w2 E2.
  assert (files w2 = files w1 /\ wal_hmacKey wc = wal_hmacKey w) as [F2 K2].
  { unfold bind, ret in E2. destruct (wal_file w); destruct (fs_check w1) as [? ?] eqn:Ec;
      injection E2 as <- <-; try done; apply check_files in Ec; done. }
  io_step Hrun b3 w3 E3. apply fs_rename_inv in E3 as [[-> F3]|(-> & d & Hd & F3)]; simpl in Hrun.
  { injection Hrun as <- <- <-. split; [done|left]. split; [done|]. by rewrite F3, F2. }
  rewrite F2, Hf in Hd. injection Hd as <-.
  io_step Hrun b4 w4 E4. apply check_files in E4.
  io_step Hrun u w5 E5.
  assert (files w5 = files w4) as F5.
  { destruct b4; [|by injection E5 as <- <-]. unfold bind in E5.
    destruct (fs_check w4) as [? w4'] eqn:Ec. apply check_files in Ec, E5. congruence. }
  io_step Hrun b6 w6 E6. destruct b6; simpl in Hrun; injection Hrun as <- <- <-;
    (split; [done|right]).
  - apply fs_open_ok in E6. split; [|done].
    unfold contents. rewrite E6, lookup_insert_eq. unfold contents.
    by rewrite F5, E4, F3, lookup_insert_eq.
  - split; [|done].
    assert (files w6 !! walFileName = files w5 !! walFileName) as F6 by (by eapply fs_open_fail).
    unfold contents. by rewrite F6, F5, E4, F3, lookup_insert_eq.
Qed.

Lemma wal_holds_read w wd es :
  wal_holds w wd es -> ReadAll w wd = ((es, None), wd).
Proof.
  intros [Hf Hi]. unfold ReadAll, readAllLocked. rewrite Hf. by rewrite (readBytes_image _ es).
Qed.

Lemma filter_stable keep w wd es :
  wal_holds w wd es -> Forall entry_stable (List.filter keep es).
Proof.
  intros [_ (s & _ & R%records_stable)]. rewrite List.Forall_forall in R |- *.
  intros e [He _]%List.filter_In. by apply R.
Qed.

Lemma filterRewrite_spec w keep wd es r w' wd' :
  wal_holds w wd es -> filterRewrite w keep wd = ((r, w'), wd') ->
  wal_hmacKey w' = wal_hmacKey w /\
  (r <> None /\ files wd' !! walFileName = files wd !! walFileName \/
   wal_image (wal_hmacKey w) (List.filter keep es) (contents wd' walFileName) /\
   (r = None -> wal_file w' = HOpen walFileName)).
Proof.
  intros Hw. unfold filterRewrite, bind.
  pose proof (wal_holds_read w wd es Hw) as Hr. unfold ReadAll in Hr. rewrite Hr.
  apply rewriteLocked_spec. by eapply filter_stable.
Qed.

Lemma TruncateBefore_spec w k wd es r w' wd' :
  wal_holds w wd es -> TruncateBefore w k wd = ((r, w'), wd') ->
  wal_hmacKey w' = wal_hmacKey w /\
  (r <> None /\ files wd' !! walFileName = files wd !! walFileName \/
   wal_image (wal_hmacKey w) (List.filter (fun e => bool_decide (k <= Index e)) es)
     (contents wd' walFileName) /\
   (r = None -> wal_file w' = HOpen walFileName)).
Proof. apply filterRewrite_spec. Qed.

Lemma filterRewrite_ok w keep wd es w' wd' :
  wal_holds w wd es -> filterRewrite w keep wd = ((None, w'), wd') ->
  wal_holds w' wd' (List.filter keep es).
Proof.
  intros Hw Hr. eapply filterRewrite_spec in Hr as (K & [[? _]|[Hi Hf]]); [done| |done].
  split; [by apply Hf|]. by rewrite K.
Qed.

Lemma writeBatch_one_grown w e wd r wd' :
  wal_file w = HOpen walFileName -> writeBatchLocked w [e] wd = (r, wd') ->
  exists t, contents wd' walFileName = contents wd walFileName ++ t.
Proof.
  intros Hf. unfold writeBatchLocked, bind. simpl. unfold bind, ret.
  destruct (appendLocked w e wd) as [r1 w1] eqn:E1.
  apply (appendLocked_grown _ _ walFileName) in E1; [|done].
  assert (exists t, contents w1 walFileName = contents wd walFileName ++ t) as [t Ht]
    by (destruct E1 as [[[C _] _]|(? & ? & _ & _ & [C _] & _)]; eauto).
  destruct r1; [by intros [= _ <-]; eauto|].
  destruct (wal_syncAll w); [|by intros [= _ <-]; eauto].
  pose proof (file_sync_files (wal_file w) w1) as Ef.
  destruct (file_sync (wal_file w) w1) as [[] w2]; simpl in Ef;
    intros [= _ <-]; exists t; unfold contents in *; by rewrite Ef.
Qed.

(** Every way an append can end: the record is absent, torn or complete. *)
Lemma writeBatch_one_cases w e es wd r wd' :
  wal_holds w wd es -> entry_stable e -> writeBatchLocked w [e] wd = (r, wd') ->
  exists out, readBytes (wal_hmacKey w) (contents wd' walFileName) = out /\
    (out = (es, None) \/ out = (es, Some ErrWALCorrupt) \/ out = (es ++ [e], None)) /\
    (r = None -> out = (es ++ [e], None)).
Proof.
  intros [Hf Hi] Hs. unfold writeBatchLocked, bind. simpl. unfold bind.
  destruct (appendLocked w e wd) as [r1 w1] eqn:E1.
  apply (appendLocked_grown _ _ walFileName) in E1; [|done].
  assert (exists out, readBytes (wal_hmacKey w) (contents w1 walFileName) = out /\
    (out = (es, None) \/ out = (es, Some ErrWALCorrupt) \/ out = (es ++ [e], None)) /\
    (r1 = None -> out = (es ++ [e], None))) as (out & E & Hc & Hn).
  { destruct E1 as [[[C _] Hr1]|(p & k & Hm & Hl & [C _] & Hk)]; rewrite C; eexists; (split; [done|]).
    - rewrite app_nil_r, (readBytes_image _ es) by done. by split; [left|].
    - pose proof (marshal_len_pos _ _ Hm).
      rewrite (readBytes_torn _ es _ e) by eauto using codec_roundtrip.
      split; [repeat case_decide; eauto|]. intros Hlen%Hk%(f_equal length).
      rewrite length_take in Hlen.
      assert (length (encode_record (wal_hmacKey w) p) <> 0%nat).
      { unfold encode_record. rewrite length_app, length_record_header. done. }
      rewrite decide_False by lia. by rewrite decide_True by lia. }
  destruct r1 as [err|].
  - intros [= <- <-]. exists out. done.
  - unfold ret. destruct (wal_syncAll w).
    + pose proof (file_sync_files (wal_file w) w1) as Ef.
      destruct (file_sync (wal_file w) w1) as [b w2]. simpl in Ef.
      intros Hr. exists out. split; [|split; [done|auto]].
      destruct b; injection Hr as <- <-; unfold contents; by rewrite Ef.
    + intros [= <- <-]. exists out. auto.
Qed.

End Writer.

(** ** Main theorems *)

Section Main.
Context `{EntryCodec}.

(** A batch that the group-commit writer acknowledges to every caller is
    read back, in order, after the entries that were already in the log, and
    the reader reports no error. *)
Theorem flush_read_back w wd es items rs wd' :
  wal_holds w wd es -> Forall entry_stable items -> items <> [] ->
  flush w items wd = (rs, wd') -> Forall (eq None) rs ->
  ReadAll w wd' = ((es ++ items, None), wd').
Proof.
  intros Hw Hs Hne Hf Hn. apply wal_holds_read. destruct items as [|e items]; [done|].
  unfold flush, bind, ret in Hf. destruct (writeBatchLocked _ _ _) as [r w1] eqn:E.
  injection Hf as <- <-. simpl in Hn. apply Forall_cons in Hn as [<- _].
  by eapply writeBatch_ok.
Qed.

(** C2. Take a log that is open and reads as [es] without an error, and append an
    entry that its JSON text gives back. Whatever the disk does during this append
    (any script of failed and torn writes), the log still reads as the old entries,
    with at most the new one after them; a damaged tail is reported as corrupt and
    never as tampered; and if the append is acknowledged, the log reads as the old
    entries and the new one. An append to a log whose tail is already damaged is
    outside of this: it may be acknowledged and not be read back
    ([append_after_corrupt_lost]). *)
Theorem append_crash_safe w wd es e r wd' :
  wal_holds w wd es -> entry_stable e -> wal_closed w = false ->
  Append w e wd = (r, wd') ->
  let out := (ReadAll w wd').1 in
  (out = (es, None) \/ out = (es, Some ErrWALCorrupt) \/ out = (es ++ [e], None)) /\
  (r = None -> out = (es ++ [e], None)).
Proof.
  intros Hw Hs Hc. unfold Append. rewrite Hc. unfold flush, bind, ret.
  destruct (writeBatchLocked w [e] wd) as [r1 w1] eqn:E. intros [= <- <-].
  eapply writeBatch_one_cases in E as (out & E & Ho & Hr); [|done..].
  unfold ReadAll, readAllLocked. destruct Hw as [-> _]. simpl. rewrite E. auto.
Qed.

(** [TruncateAfter] is atomic: under any fault script the bytes of
    [raft.wal] are the old ones or exactly the records with
    [Index <= lastKeepIndex]; when it reports success the latter, and the log
    is open again for appending. *)
Theorem truncate_after_atomic w wd es k r w' wd' :
  wal_holds w wd es -> TruncateAfter w k wd = ((r, w'), wd') ->
  (files wd' !! walFileName = files wd !! walFileName \/
   wal_image (wal_hmacKey w) (List.filter (fun e => bool_decide (Index e <= k)) es)
     (contents wd' walFileName)) /\
  (r = None -> wal_holds w' wd' (List.filter (fun e => bool_decide (Index e <= k)) es)).
Proof.
  intros Hw Hr. split.
  - eapply filterRewrite_spec in Hr as (_ & [[_ ?]|[? _]]); eauto.
  - intros ->. by eapply filterRewrite_ok.
Qed.

(** The reader always returns: on every file it stops with a list of
    entries and an error other than running out of fuel, and what it returns
    on a file that a well-formed log is a prefix of starts with that log. *)
Theorem reader_total_prefix key es f t :
  wal_image key es f ->
  (readBytes key (f ++ t)).2 <> Some WalOutOfFuel /\
  exists es', (readBytes key (f ++ t)).1 = es ++ es'.
Proof.
  intros (s & -> & Hr). rewrite <- app_assoc, readBytes_magic, (readRecs_records _ es) by done.
  split; [apply readLoop_no_fuel_error; lia|]. apply readLoop_extends.
Qed.

(** A record whose checksum verifies but whose MAC is not the one keyed
    with the cluster secret stops the reader with [ErrWALTampered], and the
    entries before it are all returned. *)
Theorem tampered_record_detected key es f hdr p rest :
  wal_image key es f ->
  length hdr = walHeaderSize -> get_uint (take 4 hdr) = len p -> 0 < len p <= walMaxRecord ->
  get_uint (take 4 (drop 4 hdr)) = Crc32.checksum p ->
  drop 8 hdr <> Hmac.hmac_sha256 key (take 8 hdr ++ p) ->
  readBytes key (f ++ hdr ++ p ++ rest) = (es, Some ErrWALTampered).
Proof.
  intros (s & -> & Hr) Lh Hl Hp Hc Hm. rewrite <- app_assoc, readBytes_magic.
  rewrite (readRecs_records _ es) by done. by apply readRecs_bad_mac.
Qed.

(** A log whose tail is a complete record with a wrong checksum accepts
    appends that no reader will ever see: [Append] acknowledges the entry as
    durable, and [ReadAll] still returns only the entries before the damaged
    record. *)
Theorem append_after_corrupt_lost w wd es f hdr p e wd' :
  wal_image (wal_hmacKey w) es f -> wal_file w = HOpen walFileName -> wal_closed w = false ->
  length hdr = walHeaderSize -> get_uint (take 4 hdr) = len p -> 0 < len p <= walMaxRecord ->
  Crc32.checksum p <> get_uint (take 4 (drop 4 hdr)) ->
  contents wd walFileName = f ++ hdr ++ p ->
  Append w e wd = (None, wd') ->
  (ReadAll w wd').1 = (es, Some ErrWALCorrupt).
Proof.
  intros (s & -> & Hr) Hf Hcl Lh Hl Hp Hc Hcont HA.
  unfold Append in HA. rewrite Hcl in HA. unfold flush, bind, ret in HA.
  destruct (writeBatchLocked w [e] wd) as [r1 w1] eqn:E. injection HA as -> ->.
  assert (exists t, contents wd' walFileName = contents wd walFileName ++ t) as [t Ht]
    by (by eapply writeBatch_one_grown).
  unfold ReadAll, readAllLocked. rewrite Hf. simpl. rewrite Ht, Hcont.
  rewrite <- !app_assoc, readBytes_magic, (readRecs_records _ es) by done.
  by apply readRecs_bad_crc.
Qed.

End Main.

(** ** Witnesses: a log of two JSON entries under the key [secret] *)

Definition demo_key : bytes := bs "secret".
Definition demo_wal : WAL := mkWAL (HOpen walFileName) demo_key true false.
Definition demo_e1 : LogEntry := mkEntry 1 1 (bs "10").
Definition demo_e2 : LogEntry := mkEntry 2 1 (bs "20").
Definition demo_world (script : list outcome) : world := World {[walFileName := walMagic]} script.

Lemma demo_holds script : wal_holds demo_wal (demo_world script) [].
Proof. split; [done|]. exists []. split; [done|constructor]. Qed.

Lemma demo_stable : Forall entry_stable [demo_e1; demo_e2].
Proof. repeat constructor; done. Qed.

Lemma flush_read_back_witness :
  let run := flush demo_wal [demo_e1; demo_e2] (demo_world []) in
  run.1 = [None; None] /\ ReadAll demo_wal run.2 = (([demo_e1; demo_e2], None), run.2).
Proof.
  split; [vm_compute; reflexivity|].
  apply (flush_read_back demo_wal (demo_world []) [] [demo_e1; demo_e2] [None; None]).
  - apply demo_holds.
  - apply demo_stable.
  - done.
  - vm_compute. reflexivity.
  - repeat constructor.
Defined.

(** The second write of the append (the payload) fails after three bytes. *)
Lemma append_crash_safe_witness :
  let run := Append demo_wal demo_e1 (demo_world [IoOk; IoFail 3]) in
  run.1 = Some WalWritePayload /\
  (ReadAll demo_wal run.2).1 = ([], Some ErrWALCorrupt) /\
  (ReadAll demo_wal run.2).1 <> ([], Some ErrWALTampered).
Proof.
  assert (Append demo_wal demo_e1 (demo_world [IoOk; IoFail 3])
          = (Some WalWritePayload, (Append demo_wal demo_e1 (demo_world [IoOk; IoFail 3])).2)) as E
    by (vm_compute; reflexivity).
  destruct (append_crash_safe demo_wal (demo_world [IoOk; IoFail 3]) [] demo_e1 _ _
              (demo_holds _) ltac:(repeat constructor; done) eq_refl E) as [[H|[H|H]] _];
    split_and!; try (vm_compute; reflexivity); rewrite H; done.
Defined.

(** The two entries on disk; truncating after index 1 keeps the first. *)
#[local] Abbreviation demo_world2 := ((writeBatchLocked demo_wal [demo_e1; demo_e2] (demo_world [])).2).

Lemma demo_holds2 : wal_holds demo_wal demo_world2 [demo_e1; demo_e2].
Proof.
  apply (writeBatch_ok demo_wal [demo_e1; demo_e2] [] (demo_world []) demo_world2 (demo_holds _) demo_stable).
  vm_compute. reflexivity.
Qed.

Lemma truncate_after_atomic_witness :
  let run := TruncateAfter demo_wal 1 demo_world2 in
  run.1.1 = None /\ wal_holds run.1.2 run.2 [demo_e1].
Proof.
  assert ((TruncateAfter demo_wal 1 demo_world2).1.1 = None) as E by (vm_compute; reflexivity).
  split; [exact E|].
  apply (truncate_after_atomic demo_wal demo_world2 [demo_e1; demo_e2] 1 None _ _ demo_holds2
           (triple_eta_fst _ None E)).
  reflexivity.
Defined.

Lemma reader_total_prefix_witness :
  (readBytes demo_key (walMagic ++ [Byte.x01])).2 <> Some WalOutOfFuel /\
  exists es', (readBytes demo_key (walMagic ++ [Byte.x01])).1 = [] ++ es'.
Proof.
  apply (reader_total_prefix demo_key [] walMagic [Byte.x01]).
  exists []. split; [done|constructor].
Defined.

(** A header with the right length and checksum and an all-zero MAC. *)
Lemma tampered_record_detected_witness :
  readBytes demo_key (walMagic ++ (header_prefix (bs "1") ++ replicate 32 Byte.x00) ++ bs "1" ++ [])
  = ([], Some ErrWALTampered).
Proof.
  apply (tampered_record_detected demo_key [] walMagic
           (header_prefix (bs "1") ++ replicate 32 Byte.x00) (bs "1") []).
  - exists []. split; [done|constructor].
  - reflexivity.
  - reflexivity.
  - split; reflexivity || (vm_compute; discriminate).
  - reflexivity.
  - vm_compute. discriminate.
Defined.

(** The header declares checksum 0 for the payload [1]; the append after it
    succeeds and is never read. *)
Lemma append_after_corrupt_lost_witness :
  let hdr := put_uint32 1 ++ replicate 36 Byte.x00 in
  let wd := World {[walFileName := walMagic ++ hdr ++ bs "1"]} [] in
  (Append demo_wal demo_e1 wd).1 = None /\
  (ReadAll demo_wal (Append demo_wal demo_e1 wd).2).1 = ([], Some ErrWALCorrupt).
Proof.
  split; [vm_compute; reflexivity|].
  apply (append_after_corrupt_lost demo_wal
           (World {[walFileName := walMagic ++ (put_uint32 1 ++ replicate 36 Byte.x00) ++ bs "1"]} [])
           [] walMagic (put_uint32 1 ++ replicate 36 Byte.x00) (bs "1") demo_e1).
  - exists []. split; [done|constructor].
  - reflexivity.
  - reflexivity.
  - reflexivity.
  - reflexivity.
  - split; reflexivity || (vm_compute; discriminate).
  - vm_compute. discriminate.
  - reflexivity.
  - vm_compute. reflexivity.
Defined.
