(* ===== verification/WalUpgrade.v ===== *)
(** * Upgrading a version 2 log (internal/zero/raft/walupgrade/walupgrade.go)

    The offline conversion of a log without record MACs. [readV2] pulls the
    payloads of the well-formed records out of the old file, [writeV3] writes
    them with MACs under a temporary name, and [Upgrade] puts the result in the
    place of the original. Constants that the package repeats from the log are
    those of [Wal]. Reading an open file does not fail, as in [Wal]. *)
From S2P Require Import Prelude Crypto FileIO RaftTypes EntryJson Wal WalProofs.
From Stdlib Require Import ZArith Lia.
From stdpp Require Import base gmap list strings.
#[local] Open Scope Z_scope.
#[local] Open Scope io_scope.

Definition walUpgradeName : bytes := bs "raft.wal.upgrade".
Definition walV2BackupName : bytes := bs "raft.wal.v2-backup".
Definition walV2HeaderSize : nat := 8.

Record Options : Type := mkOptions {
  opt_Dir : bytes;
  opt_HMACKey : bytes;
  opt_KeepV2 : bool;
}.

Record Report : Type := mkReport {
  rep_Records : Z;
  rep_V3Path : bytes;
  rep_V2BackupPath : bytes;
}.

Inductive upgrade_err : Type :=
| UpDirRequired | UpKeyRequired
| UpOpen | UpReadMagic | UpAlreadyV3 | ErrNotV2 | UpOutOfFuel
| UpCreate | UpWriteMagic | UpRecordLength | UpRecordWrite | UpFsync | UpClose
| UpBackupRename | UpRemoveV2 | UpRenameV3.

(** The loop of [readV2]: a short header, a length out of range, a short
    payload or a wrong checksum end it with the records so far. [None] is a
    lack of fuel. *)
Fixpoint readV2Loop (fuel : nat) (s : bytes) (records : list bytes) : option (list bytes) :=
  match fuel with
  | O => None
  | S fuel =>
      match ReadFull walV2HeaderSize s with
      | ReadOk hdr rest =>
          let length := get_uint (take 4 hdr) in
          let declaredCRC := get_uint (drop 4 hdr) in
          if decide (length = 0 \/ walMaxRecord < length) then Some records
          else
            match ReadFull (Z.to_nat length) rest with
            | ReadOk payload rest =>
                if decide (Crc32.checksum payload <> declaredCRC) then Some records
                else readV2Loop fuel rest (records ++ [payload])
            | _ => Some records
            end
      | _ => Some records
      end
  end.

Definition readV2Bytes (f : bytes) : result upgrade_err (list bytes) :=
  match ReadFull walMagicSize f with
  | ReadOk magic rest =>
      if decide (magic = walMagicV3) then Err UpAlreadyV3
      else if decide (magic <> walMagicV2) then Err ErrNotV2
      else match readV2Loop (S (length rest)) rest [] with Some records => Ok records | None => Err UpOutOfFuel end
  | _ => Err UpReadMagic
  end.

(** The handle is only read; the error of its deferred [Close] is dropped. *)
Definition readV2 (path : bytes) : IO (result upgrade_err (list bytes)) :=
  do ok <- fs_check; (* os.Open *)
  fun w => (match ok, files w !! path with
            | true, Some f => readV2Bytes f
            | _, _ => Err UpOpen
            end, w).

Definition writeV3Record (path payload key : bytes) : IO (option upgrade_err) :=
  let n := len payload in
  if decide (walMaxRecord < n) then ret (Some UpRecordLength)
  else if decide (n < 0 \/ MaxUint32 < n) then ret (Some UpRecordLength)
  else
    do ok <- fs_write path (record_header key payload);
    if negb ok then ret (Some UpRecordWrite) else
    do ok <- fs_write path payload;
    if negb ok then ret (Some UpRecordWrite) else ret None.

Fixpoint writeV3Records (path : bytes) (records : list bytes) (key : bytes) : IO (option upgrade_err) :=
  match records with
  | [] => ret None
  | payload :: records =>
      do r <- writeV3Record path payload key;
      match r with Some e => ret (Some e) | None => writeV3Records path records key end
  end.

Definition writeV3 (path : bytes) (records : list bytes) (key : bytes) : IO (option upgrade_err) :=
  do ok <- fs_create_trunc path;
  if negb ok then ret (Some UpCreate) else
  do ok <- fs_write path walMagicV3;
  if negb ok then (do _ <- fs_check; ret (Some UpWriteMagic)) else
  do r <- writeV3Records path records key;
  match r with
  | Some e => do _ <- fs_check; ret (Some e)
  | None =>
      do ok <- fs_check; (* f.Sync *)
      if negb ok then (do _ <- fs_check; ret (Some UpFsync)) else
      do ok <- fs_check; (* f.Close *)
      ret (if ok : bool then None else Some UpClose)
  end.

(** The original is moved away or removed before the new file takes its name. *)
Definition setAside (keepV2 : bool) (src tmp : bytes) : IO (option upgrade_err) :=
  if keepV2 then
    do ok <- fs_rename src walV2BackupName;
    if negb ok then (do _ <- fs_remove tmp; ret (Some UpBackupRename)) else ret None
  else
    do ok <- fs_remove src;
    if negb ok then (do _ <- fs_remove tmp; ret (Some UpRemoveV2)) else ret None.

Definition Upgrade (opts : Options) : IO (result upgrade_err Report) :=
  if decide (opt_Dir opts = []) then ret (Err UpDirRequired) else
  if decide (opt_HMACKey opts = []) then ret (Err UpKeyRequired) else
  let src := walFileName in
  do records <- readV2 src;
  match records with
  | Err e => ret (Err e)
  | Ok records =>
      let tmp := walUpgradeName in
      do r <- writeV3 tmp records (opt_HMACKey opts);
      match r with
      | Some e => do _ <- fs_remove tmp; ret (Err e)
      | None =>
          do r <- setAside (opt_KeepV2 opts) src tmp;
          match r with
          | Some e => ret (Err e)
          | None =>
              do ok <- fs_rename tmp src;
              if negb ok then ret (Err UpRenameV3) else
              ret (Ok (mkReport (Z.of_nat (length records)) src (if opt_KeepV2 opts then walV2BackupName else [])))
          end
      end
  end.

(** ** Reading the old format *)

Definition encode_v2 (payload : bytes) : bytes := header_prefix payload ++ payload.

(** The end of the file: nothing, or the beginning of one more record. *)
Definition torn_v2 (t : bytes) : Prop :=
  exists p k, 0 < len p <= walMaxRecord /\ (k < length (encode_v2 p))%nat /\ t = take k (encode_v2 p).

Lemma length_encode_v2 p : length (encode_v2 p) = (8 + length p)%nat.
Proof. unfold encode_v2. by rewrite length_app, length_header_prefix. Qed.

Lemma header_prefix_fields p :
  len p <= walMaxRecord ->
  get_uint (take 4 (header_prefix p)) = len p /\ get_uint (drop 4 (header_prefix p)) = Crc32.checksum p.
Proof.
  intros Hl. rewrite walMaxRecord_val in Hl. pose proof (len_nonneg p). unfold header_prefix.
  pose proof (length_put_uint32 (len p)) as L. split.
  - rewrite take_app_length' by done. apply get_put_uint32. lia.
  - rewrite drop_app_length' by done. apply get_put_uint32, Crc32.checksum_range.
Qed.

Lemma ReadFull_lt n s : (length s < n)%nat -> ReadFull n s = ReadEOF \/ ReadFull n s = ReadUnexpectedEOF.
Proof. intros Hl. unfold ReadFull. rewrite decide_False by lia. destruct s; auto. Qed.

Lemma readV2Loop_torn fuel t acc : torn_v2 t -> readV2Loop (S fuel) t acc = Some acc.
Proof.
  intros (p & k & [H0 H1] & Hk & ->). rewrite length_encode_v2 in Hk. cbn [readV2Loop].
  destruct (decide (k < 8)%nat) as [Hs|Hs].
  - destruct (ReadFull_lt walV2HeaderSize (take k (encode_v2 p))) as [-> | ->]; try done.
    rewrite length_take, length_encode_v2. unfold walV2HeaderSize. lia.
  - unfold encode_v2. rewrite take_app_ge by (rewrite length_header_prefix; lia). rewrite length_header_prefix.
    rewrite ReadFull_app by apply length_header_prefix. destruct (header_prefix_fields p H1) as [-> ->].
    rewrite decide_False by lia. destruct (ReadFull_lt (Z.to_nat (len p)) (take (k - 8) p)) as [-> | ->]; try done.
    rewrite length_take. unfold len in *. lia.
Qed.

Lemma readV2Loop_records ps t acc fuel :
  Forall (fun p => 0 < len p <= walMaxRecord) ps -> torn_v2 t ->
  (length (concat (map encode_v2 ps) ++ t) < fuel)%nat ->
  readV2Loop fuel (concat (map encode_v2 ps) ++ t) acc = Some (acc ++ ps).
Proof.
  intros Hps Ht. revert acc fuel. induction Hps as [|p ps [H0 H1] Hps IH]; intros acc fuel Hf.
  - destruct fuel; [lia|]. rewrite app_nil_r. by apply readV2Loop_torn.
  - destruct fuel as [|fuel]; [lia|]. cbn [map concat] in *. unfold encode_v2 in *. rewrite <- !app_assoc in *.
    cbn [readV2Loop]. rewrite ReadFull_app by apply length_header_prefix.
    destruct (header_prefix_fields p H1) as [-> ->]. rewrite decide_False by lia.
    rewrite ReadFull_app by (unfold len; by rewrite Nat2Z.id). rewrite decide_False by (intros []; done).
    rewrite IH, <- app_assoc; [done|]. rewrite !length_app, length_header_prefix in Hf. rewrite length_app. lia.
Qed.

(** The reader returns on every file. *)
Lemma readV2Loop_total fuel s acc : (length s < fuel)%nat -> is_Some (readV2Loop fuel s acc).
Proof.
  revert s acc. induction fuel as [|fuel IH]; intros s acc Hf; [lia|]. cbn [readV2Loop].
  destruct (ReadFull walV2HeaderSize s) as [hdr rest| |] eqn:E1; try by eexists.
  apply ReadFull_inv in E1 as [-> L1]. case_decide; [by eexists|].
  destruct (ReadFull _ rest) as [payload rest'| |] eqn:E2; try by eexists.
  apply ReadFull_inv in E2 as [-> _]. case_decide; [by eexists|]. apply IH.
  rewrite !length_app in Hf. unfold walV2HeaderSize in L1. lia.
Qed.

Lemma readV2Bytes_total f : readV2Bytes f <> Err UpOutOfFuel.
Proof.
  unfold readV2Bytes. destruct (ReadFull walMagicSize f) as [magic rest| |]; try done. case_decide; [done|].
  case_decide; [done|]. destruct (readV2Loop_total (S (length rest)) rest []) as [ps ->]; [lia|done].
Qed.

(** ** Writing the new one *)

Lemma writeV3Record_ok path payload key w w' :
  writeV3Record path payload key w = (None, w') ->
  grown path (encode_record key payload) w w' /\ len payload <= walMaxRecord.
Proof.
  unfold writeV3Record. case_decide as H1; [done|]. case_decide; [done|]. intros Hrun.
  io_step Hrun b1 w1 E1. destruct b1; cbn [negb] in Hrun; [|done]. apply fs_write_ok, grown_files in E1.
  io_step Hrun b2 w2 E2. destruct b2; cbn [negb] in Hrun; [|done]. apply fs_write_ok, grown_files in E2.
  injection Hrun as <-. split; [|lia]. unfold encode_record. by eapply grown_trans.
Qed.

Lemma writeV3Records_ok path ps key w w' :
  writeV3Records path ps key w = (None, w') -> grown path (concat (map (encode_record key) ps)) w w'.
Proof.
  revert w. induction ps as [|p ps IH]; intros w Hrun; cbn [writeV3Records] in Hrun.
  - injection Hrun as <-. apply grown_refl.
  - io_step Hrun r w1 E1. destruct r; [done|]. apply writeV3Record_ok in E1 as [E1 _].
    cbn [map concat]. eapply grown_trans; [exact E1|by apply IH].
Qed.

Lemma writeV3Records_preserves q path ps key : path <> q -> preserves q (writeV3Records path ps key).
Proof.
  intros Hq. induction ps as [|p ps IH]; cbn [writeV3Records]; [pres|].
  apply preserves_bind; [unfold writeV3Record; pres|]. intros [e|]; [pres|exact IH].
Qed.

Lemma writeV3_preserves q path ps key : path <> q -> preserves q (writeV3 path ps key).
Proof. intros Hq. unfold writeV3. pres; by apply writeV3Records_preserves. Qed.

Lemma writeV3_ok path ps key w w' :
  writeV3 path ps key w = (None, w') ->
  files w' !! path = Some (walMagic ++ concat (map (encode_record key) ps)).
Proof.
  intros Hrun. unfold writeV3 in Hrun.
  io_step Hrun b1 w1 E1. destruct b1; cbn [negb] in Hrun; [|done]. apply fs_create_ok in E1.
  io_step Hrun b2 w2 E2. destruct b2; cbn [negb] in Hrun; [|io_bail Hrun]. apply fs_write_ok in E2.
  io_step Hrun r w3 E3. destruct r as [e|]; [io_bail Hrun|]. apply writeV3Records_ok in E3 as [C3 _].
  io_step Hrun b4 w4 E4. destruct b4; cbn [negb] in Hrun; [|io_bail Hrun]. apply check_files in E4.
  io_step Hrun b5 w5 E5. destruct b5; [|io_bail Hrun]. apply check_files in E5. injection Hrun as <-.
  unfold contents in C3. rewrite E2, lookup_insert_eq in C3. unfold contents in C3. rewrite E1, lookup_insert_eq in C3.
  rewrite E5, E4. destruct (files w3 !! path); simpl in C3; [by subst|done].
Qed.

Lemma writeV3Records_err path ps key w : (writeV3Records path ps key w).1 <> Some UpRenameV3.
Proof.
  revert w. induction ps as [|p ps IH]; intros w; cbn [writeV3Records]; [done|]. unfold bind at 1.
  destruct (writeV3Record path p key w) as [[e|] w1] eqn:E1; [|apply IH]. simpl. intros [= ->].
  unfold writeV3Record in E1. case_decide; [done|]. case_decide; [done|].
  io_step E1 b1 w2 E2. destruct b1; cbn [negb] in E1; [|done]. io_step E1 b2 w3 E3. by destruct b2.
Qed.

Lemma writeV3_err path ps key w w' : writeV3 path ps key w <> (Some UpRenameV3, w').
Proof.
  intros Hrun. unfold writeV3 in Hrun.
  io_step Hrun b1 w1 E1. destruct b1; cbn [negb] in Hrun; [|done].
  io_step Hrun b2 w2 E2. destruct b2; cbn [negb] in Hrun; [|io_bail Hrun].
  io_step Hrun r w3 E3. pose proof (writeV3Records_err path ps key w2) as He. rewrite E3 in He. simpl in He.
  destruct r as [e|]; [io_step Hrun b4 w4 E4; injection Hrun as -> _; done|].
  io_step Hrun b4 w4 E4. destruct b4; cbn [negb] in Hrun; [|io_bail Hrun].
  io_step Hrun b5 w5 E5. by destruct b5.
Qed.

(** Without faults the new file is written. *)
Lemma writeV3Records_quiet path ps key w :
  faults w = [] -> Forall (fun p => 0 < len p <= walMaxRecord) ps ->
  exists w', writeV3Records path ps key w = (None, w') /\ faults w' = [].
Proof.
  intros Hn Hps. revert w Hn. induction Hps as [|p ps [H0 H1] Hps IH]; intros w Hn; cbn [writeV3Records]; [by exists w|].
  unfold writeV3Record. rewrite walMaxRecord_val in *. rewrite decide_False by lia.
  rewrite decide_False by (unfold MaxUint32; lia). unfold bind, ret. rewrite fs_write_nil by done. cbn [negb].
  rewrite fs_write_nil by done. cbn [negb]. by apply IH.
Qed.

Lemma writeV3_quiet path ps key w :
  faults w = [] -> Forall (fun p => 0 < len p <= walMaxRecord) ps ->
  exists w', writeV3 path ps key w = (None, w') /\ faults w' = [].
Proof.
  intros Hn Hps. unfold writeV3, bind, ret. rewrite fs_create_nil by done. cbn [negb].
  rewrite fs_write_nil by done. cbn [negb].
  destruct (writeV3Records_quiet path ps key (with_files <[path := contents (with_files <[path := []]> w) path ++ walMagicV3]>
    (with_files <[path := []]> w)) Hn Hps) as (w3 & -> & H3).
  rewrite fs_check_nil by done. cbn [negb]. rewrite fs_check_nil by done. by exists w3.
Qed.

(** ** The upgrade *)

Section Upgrade.
Context `{EntryCodec}.

(** The payload of an entry in a record. *)
Definition payload_of (e : LogEntry) (p : bytes) : Prop :=
  marshalEntry e = Some p /\ entry_stable e /\ 0 < len p <= walMaxRecord.

(** A version 2 file that holds the entries, up to a torn last record. *)
Definition v2_log (es : list LogEntry) (f : bytes) : Prop :=
  exists ps t, Forall2 payload_of es ps /\ torn_v2 t /\ f = walMagicV2 ++ concat (map encode_v2 ps) ++ t.

Lemma payloads_sized es ps : Forall2 payload_of es ps -> Forall (fun p => 0 < len p <= walMaxRecord) ps.
Proof. induction 1 as [|e p es ps (_ & _ & Hl)]; by constructor. Qed.

Lemma payloads_records key es ps :
  Forall2 payload_of es ps -> records key es (concat (map (encode_record key) ps)).
Proof. induction 1 as [|e p es ps (Hm & Hs & Hl) Hps IH]; simpl; by econstructor. Qed.

Lemma v2_log_read es f : v2_log es f -> exists ps, readV2Bytes f = Ok ps /\ Forall2 payload_of es ps.
Proof.
  intros (ps & t & Hps & Ht & ->). exists ps. split; [|done]. unfold readV2Bytes. rewrite ReadFull_app by done.
  rewrite decide_False, decide_False by (try done; by intros []).
  rewrite readV2Loop_records by (eauto using payloads_sized || lia). done.
Qed.

(** What the file system holds after an upgrade of the log [f] of [es]. *)
Definition upgraded (opts : Options) (es : list LogEntry) (f : bytes) (r : result upgrade_err Report) (w : world) : Prop :=
  match r with
  | Ok report =>
      rep_Records report = Z.of_nat (length es)
      /\ readBytes (opt_HMACKey opts) (contents w walFileName) = (es, None)
      /\ (opt_KeepV2 opts = true -> files w !! walV2BackupName = Some f)
  | Err UpRenameV3 =>
      files w !! walFileName = None
      /\ readBytes (opt_HMACKey opts) (contents w walUpgradeName) = (es, None)
      /\ (opt_KeepV2 opts = true -> files w !! walV2BackupName = Some f)
  | Err _ => files w !! walFileName = Some f
  end.

Lemma setAside_spec keep src tmp w r w' :
  src <> tmp -> src <> walV2BackupName -> tmp <> walV2BackupName ->
  setAside keep src tmp w = (r, w') ->
  match r with
  | Some e => files w' !! src = files w !! src /\ e <> UpRenameV3
  | None => files w' !! src = None /\ files w' !! tmp = files w !! tmp
            /\ (keep = true -> files w' !! walV2BackupName = files w !! src)
  end.
Proof.
  intros H1 H2 H3 Hrun. unfold setAside in Hrun. destruct keep.
  - io_step Hrun b1 w1 E1. apply fs_rename_inv in E1 as [[-> F1]|(-> & d & Hd & F1)]; cbn [negb] in Hrun.
    + io_step Hrun b2 w2 E2. injection Hrun as <- <-. split; [|done].
      apply (preserves_run src) in E2; [by rewrite E2, F1|by apply preserves_remove].
    + injection Hrun as <- <-. rewrite F1. split; [by rewrite lookup_insert_ne, lookup_delete_eq|].
      split; [by rewrite lookup_insert_ne, lookup_delete_ne|]. intros _. by rewrite lookup_insert_eq.
  - io_step Hrun b1 w1 E1. apply fs_remove_inv in E1 as [[-> F1]|(-> & F1)]; cbn [negb] in Hrun.
    + io_step Hrun b2 w2 E2. injection Hrun as <- <-. split; [|done].
      apply (preserves_run src) in E2; [by rewrite E2, F1|by apply preserves_remove].
    + injection Hrun as <- <-. rewrite F1. by rewrite lookup_delete_eq, lookup_delete_ne.
Qed.

Lemma upgrade_outcome opts es f w r w' :
  files w !! walFileName = Some f -> v2_log es f -> Upgrade opts w = (r, w') -> upgraded opts es f r w'.
Proof.
  intros Hf Hlog Hrun. destruct (v2_log_read _ _ Hlog) as (ps & Hread & Hps). unfold Upgrade in Hrun.
  case_decide; [by injection Hrun as <- <-|]. case_decide; [by injection Hrun as <- <-|].
  unfold readV2 in Hrun. io_step Hrun recs w1 E1. io_step E1 b0 w0 E0. apply check_files in E0. injection E1 as <- <-.
  rewrite E0, Hf in Hrun. destruct b0; [rewrite Hread in Hrun|injection Hrun as <- <-; simpl; by rewrite E0].
  io_step Hrun r2 w2 E2. pose proof (preserves_run walFileName _ _ _ _ (writeV3_preserves walFileName walUpgradeName _ _ ltac:(done)) E2) as P2.
  destruct r2 as [e|].
  { io_step Hrun b3 w3 E3. injection Hrun as <- <-. apply (preserves_run walFileName) in E3; [|by apply preserves_remove].
    destruct e; try (simpl; congruence). by apply writeV3_err in E2. }
  apply writeV3_ok in E2. io_step Hrun r3 w3 E3. apply setAside_spec in E3; [|done..].
  destruct r3 as [e|]; [injection Hrun as <- <-; destruct E3 as [F3 He]; destruct e; try (simpl; congruence); done|].
  destruct E3 as (F3 & T3 & K3). rewrite P2, E0, Hf in K3.
  assert (readBytes (opt_HMACKey opts) (walMagic ++ concat (map (encode_record (opt_HMACKey opts)) ps)) = (es, None)) as Hnew.
  { apply readBytes_image. eexists. split; [done|]. by apply payloads_records. }
  io_step Hrun b4 w4 E4. apply fs_rename_inv in E4 as [[-> F4]|(-> & d & Hd & F4)]; cbn [negb] in Hrun; injection Hrun as <- <-.
  - unfold upgraded, contents. rewrite F4, T3, E2. done.
  - rewrite T3, E2 in Hd. injection Hd as <-. split; [|split].
    + simpl. by rewrite <- (Forall2_length _ _ _ Hps).
    + unfold contents. by rewrite F4, lookup_insert_eq.
    + intros Hk. by rewrite F4, lookup_insert_ne, lookup_delete_ne, K3.
Qed.

Lemma upgrade_quiet opts es f w :
  faults w = [] -> files w !! walFileName = Some f -> v2_log es f -> opt_Dir opts <> [] -> opt_HMACKey opts <> [] ->
  is_ok (Upgrade opts w).1 = true.
Proof.
  intros Hn Hf Hlog Hd Hk. destruct (v2_log_read _ _ Hlog) as (ps & Hread & Hps). unfold Upgrade.
  rewrite decide_False, decide_False by done. unfold readV2, bind at 1 2. rewrite fs_check_nil, Hf, Hread by done.
  destruct (writeV3_quiet walUpgradeName ps (opt_HMACKey opts) w Hn (payloads_sized _ _ Hps)) as (w2 & E2 & Hn2).
  unfold bind at 1. rewrite E2. pose proof (preserves_run walFileName _ _ _ _ (writeV3_preserves walFileName walUpgradeName _ _ ltac:(done)) E2) as P2.
  apply writeV3_ok in E2. unfold bind, ret, setAside, bind, ret. destruct (opt_KeepV2 opts).
  - rewrite (fs_rename_nil _ _ _ f) by congruence. cbn [negb].
    rewrite (fs_rename_nil _ _ _ (walMagic ++ concat (map (encode_record (opt_HMACKey opts)) ps))); [done|done|].
    simpl. by rewrite lookup_insert_ne, lookup_delete_ne.
  - rewrite (fs_remove_nil _ _ f) by congruence. cbn [negb].
    rewrite (fs_rename_nil _ _ _ (walMagic ++ concat (map (encode_record (opt_HMACKey opts)) ps))); [done|done|].
    simpl. by rewrite lookup_delete_ne.
Qed.

(** The upgrade of a version 2 log, torn or not at its end, converts it or keeps
    it, whatever system calls fail: after success the log reads as exactly the
    old entries under the key; after an error the old file is in its place,
    except when the last rename fails, and then the converted log is complete
    under the temporary name; a backup that was asked for holds the old file.
    Without failures it succeeds. *)
Theorem wal_upgrade_converts opts es f w r w' :
  files w !! walFileName = Some f -> v2_log es f -> Upgrade opts w = (r, w') ->
  upgraded opts es f r w'
  /\ (faults w = [] -> opt_Dir opts <> [] -> opt_HMACKey opts <> [] -> is_ok r = true).
Proof.
  intros Hf Hlog Hrun. split; [by eapply upgrade_outcome|]. intros Hn Hd Hk.
  pose proof (upgrade_quiet opts es f w Hn Hf Hlog Hd Hk) as Hok. by rewrite Hrun in Hok.
Qed.

End Upgrade.

(** ** Instances: a version 2 log of one JSON entry *)

Definition demo_payload : bytes := default [] (marshalEntry demo_e1).
Definition demo_v2 : bytes := walMagicV2 ++ concat (map encode_v2 [demo_payload]) ++ [].
Definition demo_options : Options := mkOptions (bs "/var/lib/mxkeys") demo_key false.

Lemma demo_v2_log : v2_log [demo_e1] demo_v2.
Proof.
  exists [demo_payload], []. split; [|split; [|done]].
  - constructor; [|constructor]. split; [vm_compute; reflexivity|]. split; [repeat constructor; done|].
    vm_compute. split; [reflexivity|discriminate].
  - exists demo_payload, 0%nat. split; [vm_compute; split; [reflexivity|discriminate]|].
    split; [apply Nat.ltb_lt; vm_compute; reflexivity|done].
Qed.

Lemma wal_upgrade_converts_witness :
  let run := Upgrade demo_options (World {[walFileName := demo_v2]} []) in
  is_ok run.1 = true /\ upgraded demo_options [demo_e1] demo_v2 run.1 run.2.
Proof.
  intros run. destruct (wal_upgrade_converts demo_options [demo_e1] demo_v2 (World {[walFileName := demo_v2]} []) run.1 run.2)
    as [Hup Hok].
  - apply lookup_singleton_eq.
  - apply demo_v2_log.
  - apply surjective_pairing.
  - split; [|exact Hup]. apply Hok; done.
Defined.

(** The package says that a crash during the upgrade leaves the original file
    untouched. When the last rename does not happen, the original is gone, and
    the next [OpenWAL] creates an empty log in its place. *)
Theorem upgrade_gap_starts_empty :
  let run := Upgrade demo_options (World {[walFileName := demo_v2]} (replicate 8 IoOk ++ [IoFail 0])) in
  let opened := OpenWAL (bs "/var/lib/mxkeys") demo_key true run.2 in
  run.1 = Err UpRenameV3 /\ files run.2 !! walFileName = None /\ files run.2 !! walV2BackupName = None
  /\ is_ok opened.1 = true /\ readBytes demo_key (contents opened.2 walFileName) = ([], None).
Proof. vm_compute. split_and!; reflexivity. Qed.
