(* ===== verification/RaftNode.v ===== *)
(** * The Raft node and its log accessors (raft.go, log_view.go, int_safety.go)

    [Node] has one field per field of the Go struct that the protocol reads or
    writes.  [walAttached] is [n.wal != nil] (the WAL itself is the store of
    [WalStore]); [pendingSnapshotFile] is [n.pendingSnapshotFile != nil];
    [hasProvider] and [hasInstaller] are the nil tests on the callbacks.
    Instants and durations are nanoseconds.

    The accessors translate absolute 1-based log indices to slots of the
    in-memory slice; arithmetic on [uint64] wraps. *)
From S2P Require Import Prelude Decimal RaftTypes.
From Stdlib Require Import ZArith Lia.
From stdpp Require Import base gmap list strings.
#[local] Open Scope Z_scope.

Record Node : Type := mkNode {
  config : Config;
  state : State;
  currentTerm : Z;
  votedFor : bytes;
  log : list LogEntry;
  commitIndex : Z;
  lastApplied : Z;
  logOffset : Z;
  snapshotIndex : Z;
  snapshotTerm : Z;
  pendingSnapshot : bytes;
  pendingSnapshotFile : bool;
  pendingSnapshotPath : bytes;
  pendingSnapshotIndex : Z;
  pendingSnapshotTerm : Z;
  pendingSnapshotExpected : Z;
  pendingSnapshotCRC : option Z;
  nextIndex : gmap bytes Z;
  matchIndex : gmap bytes Z;
  leaderId : bytes;
  leaderAddr : bytes;
  lastContact : Z;
  applyCh : list LogEntry;
  seenRPCs : gmap bytes Z;
  walAttached : bool;
  stateDir : bytes;
  hasProvider : bool;
  hasInstaller : bool;
}.

(** ** Field assignment *)

Definition set_config (v : Config) (n : Node) : Node :=
  mkNode v (state n) (currentTerm n) (votedFor n) (log n) (commitIndex n) (lastApplied n) (logOffset n) (snapshotIndex n) (snapshotTerm n) (pendingSnapshot n) (pendingSnapshotFile n) (pendingSnapshotPath n) (pendingSnapshotIndex n) (pendingSnapshotTerm n) (pendingSnapshotExpected n) (pendingSnapshotCRC n) (nextIndex n) (matchIndex n) (leaderId n) (leaderAddr n) (lastContact n) (applyCh n) (seenRPCs n) (walAttached n) (stateDir n) (hasProvider n) (hasInstaller n).
Definition set_state (v : State) (n : Node) : Node :=
  mkNode (config n) v (currentTerm n) (votedFor n) (log n) (commitIndex n) (lastApplied n) (logOffset n) (snapshotIndex n) (snapshotTerm n) (pendingSnapshot n) (pendingSnapshotFile n) (pendingSnapshotPath n) (pendingSnapshotIndex n) (pendingSnapshotTerm n) (pendingSnapshotExpected n) (pendingSnapshotCRC n) (nextIndex n) (matchIndex n) (leaderId n) (leaderAddr n) (lastContact n) (applyCh n) (seenRPCs n) (walAttached n) (stateDir n) (hasProvider n) (hasInstaller n).
Definition set_currentTerm (v : Z) (n : Node) : Node :=
  mkNode (config n) (state n) v (votedFor n) (log n) (commitIndex n) (lastApplied n) (logOffset n) (snapshotIndex n) (snapshotTerm n) (pendingSnapshot n) (pendingSnapshotFile n) (pendingSnapshotPath n) (pendingSnapshotIndex n) (pendingSnapshotTerm n) (pendingSnapshotExpected n) (pendingSnapshotCRC n) (nextIndex n) (matchIndex n) (leaderId n) (leaderAddr n) (lastContact n) (applyCh n) (seenRPCs n) (walAttached n) (stateDir n) (hasProvider n) (hasInstaller n).
Definition set_votedFor (v : bytes) (n : Node) : Node :=
  mkNode (config n) (state n) (currentTerm n) v (log n) (commitIndex n) (lastApplied n) (logOffset n) (snapshotIndex n) (snapshotTerm n) (pendingSnapshot n) (pendingSnapshotFile n) (pendingSnapshotPath n) (pendingSnapshotIndex n) (pendingSnapshotTerm n) (pendingSnapshotExpected n) (pendingSnapshotCRC n) (nextIndex n) (matchIndex n) (leaderId n) (leaderAddr n) (lastContact n) (applyCh n) (seenRPCs n) (walAttached n) (stateDir n) (hasProvider n) (hasInstaller n).
Definition set_log (v : list LogEntry) (n : Node) : Node :=
  mkNode (config n) (state n) (currentTerm n) (votedFor n) v (commitIndex n) (lastApplied n) (logOffset n) (snapshotIndex n) (snapshotTerm n) (pendingSnapshot n) (pendingSnapshotFile n) (pendingSnapshotPath n) (pendingSnapshotIndex n) (pendingSnapshotTerm n) (pendingSnapshotExpected n) (pendingSnapshotCRC n) (nextIndex n) (matchIndex n) (leaderId n) (leaderAddr n) (lastContact n) (applyCh n) (seenRPCs n) (walAttached n) (stateDir n) (hasProvider n) (hasInstaller n).
Definition set_commitIndex (v : Z) (n : Node) : Node :=
  mkNode (config n) (state n) (currentTerm n) (votedFor n) (log n) v (lastApplied n) (logOffset n) (snapshotIndex n) (snapshotTerm n) (pendingSnapshot n) (pendingSnapshotFile n) (pendingSnapshotPath n) (pendingSnapshotIndex n) (pendingSnapshotTerm n) (pendingSnapshotExpected n) (pendingSnapshotCRC n) (nextIndex n) (matchIndex n) (leaderId n) (leaderAddr n) (lastContact n) (applyCh n) (seenRPCs n) (walAttached n) (stateDir n) (hasProvider n) (hasInstaller n).
Definition set_lastApplied (v : Z) (n : Node) : Node :=
  mkNode (config n) (state n) (currentTerm n) (votedFor n) (log n) (commitIndex n) v (logOffset n) (snapshotIndex n) (snapshotTerm n) (pendingSnapshot n) (pendingSnapshotFile n) (pendingSnapshotPath n) (pendingSnapshotIndex n) (pendingSnapshotTerm n) (pendingSnapshotExpected n) (pendingSnapshotCRC n) (nextIndex n) (matchIndex n) (leaderId n) (leaderAddr n) (lastContact n) (applyCh n) (seenRPCs n) (walAttached n) (stateDir n) (hasProvider n) (hasInstaller n).
Definition set_logOffset (v : Z) (n : Node) : Node :=
  mkNode (config n) (state n) (currentTerm n) (votedFor n) (log n) (commitIndex n) (lastApplied n) v (snapshotIndex n) (snapshotTerm n) (pendingSnapshot n) (pendingSnapshotFile n) (pendingSnapshotPath n) (pendingSnapshotIndex n) (pendingSnapshotTerm n) (pendingSnapshotExpected n) (pendingSnapshotCRC n) (nextIndex n) (matchIndex n) (leaderId n) (leaderAddr n) (lastContact n) (applyCh n) (seenRPCs n) (walAttached n) (stateDir n) (hasProvider n) (hasInstaller n).
Definition set_snapshotIndex (v : Z) (n : Node) : Node :=
  mkNode (config n) (state n) (currentTerm n) (votedFor n) (log n) (commitIndex n) (lastApplied n) (logOffset n) v (snapshotTerm n) (pendingSnapshot n) (pendingSnapshotFile n) (pendingSnapshotPath n) (pendingSnapshotIndex n) (pendingSnapshotTerm n) (pendingSnapshotExpected n) (pendingSnapshotCRC n) (nextIndex n) (matchIndex n) (leaderId n) (leaderAddr n) (lastContact n) (applyCh n) (seenRPCs n) (walAttached n) (stateDir n) (hasProvider n) (hasInstaller n).
Definition set_snapshotTerm (v : Z) (n : Node) : Node :=
  mkNode (config n) (state n) (currentTerm n) (votedFor n) (log n) (commitIndex n) (lastApplied n) (logOffset n) (snapshotIndex n) v (pendingSnapshot n) (pendingSnapshotFile n) (pendingSnapshotPath n) (pendingSnapshotIndex n) (pendingSnapshotTerm n) (pendingSnapshotExpected n) (pendingSnapshotCRC n) (nextIndex n) (matchIndex n) (leaderId n) (leaderAddr n) (lastContact n) (applyCh n) (seenRPCs n) (walAttached n) (stateDir n) (hasProvider n) (hasInstaller n).
Definition set_pendingSnapshot (v : bytes) (n : Node) : Node :=
  mkNode (config n) (state n) (currentTerm n) (votedFor n) (log n) (commitIndex n) (lastApplied n) (logOffset n) (snapshotIndex n) (snapshotTerm n) v (pendingSnapshotFile n) (pendingSnapshotPath n) (pendingSnapshotIndex n) (pendingSnapshotTerm n) (pendingSnapshotExpected n) (pendingSnapshotCRC n) (nextIndex n) (matchIndex n) (leaderId n) (leaderAddr n) (lastContact n) (applyCh n) (seenRPCs n) (walAttached n) (stateDir n) (hasProvider n) (hasInstaller n).
Definition set_pendingSnapshotFile (v : bool) (n : Node) : Node :=
  mkNode (config n) (state n) (currentTerm n) (votedFor n) (log n) (commitIndex n) (lastApplied n) (logOffset n) (snapshotIndex n) (snapshotTerm n) (pendingSnapshot n) v (pendingSnapshotPath n) (pendingSnapshotIndex n) (pendingSnapshotTerm n) (pendingSnapshotExpected n) (pendingSnapshotCRC n) (nextIndex n) (matchIndex n) (leaderId n) (leaderAddr n) (lastContact n) (applyCh n) (seenRPCs n) (walAttached n) (stateDir n) (hasProvider n) (hasInstaller n).
Definition set_pendingSnapshotPath (v : bytes) (n : Node) : Node :=
  mkNode (config n) (state n) (currentTerm n) (votedFor n) (log n) (commitIndex n) (lastApplied n) (logOffset n) (snapshotIndex n) (snapshotTerm n) (pendingSnapshot n) (pendingSnapshotFile n) v (pendingSnapshotIndex n) (pendingSnapshotTerm n) (pendingSnapshotExpected n) (pendingSnapshotCRC n) (nextIndex n) (matchIndex n) (leaderId n) (leaderAddr n) (lastContact n) (applyCh n) (seenRPCs n) (walAttached n) (stateDir n) (hasProvider n) (hasInstaller n).
Definition set_pendingSnapshotIndex (v : Z) (n : Node) : Node :=
  mkNode (config n) (state n) (currentTerm n) (votedFor n) (log n) (commitIndex n) (lastApplied n) (logOffset n) (snapshotIndex n) (snapshotTerm n) (pendingSnapshot n) (pendingSnapshotFile n) (pendingSnapshotPath n) v (pendingSnapshotTerm n) (pendingSnapshotExpected n) (pendingSnapshotCRC n) (nextIndex n) (matchIndex n) (leaderId n) (leaderAddr n) (lastContact n) (applyCh n) (seenRPCs n) (walAttached n) (stateDir n) (hasProvider n) (hasInstaller n).
Definition set_pendingSnapshotTerm (v : Z) (n : Node) : Node :=
  mkNode (config n) (state n) (currentTerm n) (votedFor n) (log n) (commitIndex n) (lastApplied n) (logOffset n) (snapshotIndex n) (snapshotTerm n) (pendingSnapshot n) (pendingSnapshotFile n) (pendingSnapshotPath n) (pendingSnapshotIndex n) v (pendingSnapshotExpected n) (pendingSnapshotCRC n) (nextIndex n) (matchIndex n) (leaderId n) (leaderAddr n) (lastContact n) (applyCh n) (seenRPCs n) (walAttached n) (stateDir n) (hasProvider n) (hasInstaller n).
Definition set_pendingSnapshotExpected (v : Z) (n : Node) : Node :=
  mkNode (config n) (state n) (currentTerm n) (votedFor n) (log n) (commitIndex n) (lastApplied n) (logOffset n) (snapshotIndex n) (snapshotTerm n) (pendingSnapshot n) (pendingSnapshotFile n) (pendingSnapshotPath n) (pendingSnapshotIndex n) (pendingSnapshotTerm n) v (pendingSnapshotCRC n) (nextIndex n) (matchIndex n) (leaderId n) (leaderAddr n) (lastContact n) (applyCh n) (seenRPCs n) (walAttached n) (stateDir n) (hasProvider n) (hasInstaller n).
Definition set_pendingSnapshotCRC (v : option Z) (n : Node) : Node :=
  mkNode (config n) (state n) (currentTerm n) (votedFor n) (log n) (commitIndex n) (lastApplied n) (logOffset n) (snapshotIndex n) (snapshotTerm n) (pendingSnapshot n) (pendingSnapshotFile n) (pendingSnapshotPath n) (pendingSnapshotIndex n) (pendingSnapshotTerm n) (pendingSnapshotExpected n) v (nextIndex n) (matchIndex n) (leaderId n) (leaderAddr n) (lastContact n) (applyCh n) (seenRPCs n) (walAttached n) (stateDir n) (hasProvider n) (hasInstaller n).
Definition set_nextIndex (v : gmap bytes Z) (n : Node) : Node :=
  mkNode (config n) (state n) (currentTerm n) (votedFor n) (log n) (commitIndex n) (lastApplied n) (logOffset n) (snapshotIndex n) (snapshotTerm n) (pendingSnapshot n) (pendingSnapshotFile n) (pendingSnapshotPath n) (pendingSnapshotIndex n) (pendingSnapshotTerm n) (pendingSnapshotExpected n) (pendingSnapshotCRC n) v (matchIndex n) (leaderId n) (leaderAddr n) (lastContact n) (applyCh n) (seenRPCs n) (walAttached n) (stateDir n) (hasProvider n) (hasInstaller n).
Definition set_matchIndex (v : gmap bytes Z) (n : Node) : Node :=
  mkNode (config n) (state n) (currentTerm n) (votedFor n) (log n) (commitIndex n) (lastApplied n) (logOffset n) (snapshotIndex n) (snapshotTerm n) (pendingSnapshot n) (pendingSnapshotFile n) (pendingSnapshotPath n) (pendingSnapshotIndex n) (pendingSnapshotTerm n) (pendingSnapshotExpected n) (pendingSnapshotCRC n) (nextIndex n) v (leaderId n) (leaderAddr n) (lastContact n) (applyCh n) (seenRPCs n) (walAttached n) (stateDir n) (hasProvider n) (hasInstaller n).
Definition set_leaderId (v : bytes) (n : Node) : Node :=
  mkNode (config n) (state n) (currentTerm n) (votedFor n) (log n) (commitIndex n) (lastApplied n) (logOffset n) (snapshotIndex n) (snapshotTerm n) (pendingSnapshot n) (pendingSnapshotFile n) (pendingSnapshotPath n) (pendingSnapshotIndex n) (pendingSnapshotTerm n) (pendingSnapshotExpected n) (pendingSnapshotCRC n) (nextIndex n) (matchIndex n) v (leaderAddr n) (lastContact n) (applyCh n) (seenRPCs n) (walAttached n) (stateDir n) (hasProvider n) (hasInstaller n).
Definition set_leaderAddr (v : bytes) (n : Node) : Node :=
  mkNode (config n) (state n) (currentTerm n) (votedFor n) (log n) (commitIndex n) (lastApplied n) (logOffset n) (snapshotIndex n) (snapshotTerm n) (pendingSnapshot n) (pendingSnapshotFile n) (pendingSnapshotPath n) (pendingSnapshotIndex n) (pendingSnapshotTerm n) (pendingSnapshotExpected n) (pendingSnapshotCRC n) (nextIndex n) (matchIndex n) (leaderId n) v (lastContact n) (applyCh n) (seenRPCs n) (walAttached n) (stateDir n) (hasProvider n) (hasInstaller n).
Definition set_lastContact (v : Z) (n : Node) : Node :=
  mkNode (config n) (state n) (currentTerm n) (votedFor n) (log n) (commitIndex n) (lastApplied n) (logOffset n) (snapshotIndex n) (snapshotTerm n) (pendingSnapshot n) (pendingSnapshotFile n) (pendingSnapshotPath n) (pendingSnapshotIndex n) (pendingSnapshotTerm n) (pendingSnapshotExpected n) (pendingSnapshotCRC n) (nextIndex n) (matchIndex n) (leaderId n) (leaderAddr n) v (applyCh n) (seenRPCs n) (walAttached n) (stateDir n) (hasProvider n) (hasInstaller n).
Definition set_applyCh (v : list LogEntry) (n : Node) : Node :=
  mkNode (config n) (state n) (currentTerm n) (votedFor n) (log n) (commitIndex n) (lastApplied n) (logOffset n) (snapshotIndex n) (snapshotTerm n) (pendingSnapshot n) (pendingSnapshotFile n) (pendingSnapshotPath n) (pendingSnapshotIndex n) (pendingSnapshotTerm n) (pendingSnapshotExpected n) (pendingSnapshotCRC n) (nextIndex n) (matchIndex n) (leaderId n) (leaderAddr n) (lastContact n) v (seenRPCs n) (walAttached n) (stateDir n) (hasProvider n) (hasInstaller n).
Definition set_seenRPCs (v : gmap bytes Z) (n : Node) : Node :=
  mkNode (config n) (state n) (currentTerm n) (votedFor n) (log n) (commitIndex n) (lastApplied n) (logOffset n) (snapshotIndex n) (snapshotTerm n) (pendingSnapshot n) (pendingSnapshotFile n) (pendingSnapshotPath n) (pendingSnapshotIndex n) (pendingSnapshotTerm n) (pendingSnapshotExpected n) (pendingSnapshotCRC n) (nextIndex n) (matchIndex n) (leaderId n) (leaderAddr n) (lastContact n) (applyCh n) v (walAttached n) (stateDir n) (hasProvider n) (hasInstaller n).
Definition set_walAttached (v : bool) (n : Node) : Node :=
  mkNode (config n) (state n) (currentTerm n) (votedFor n) (log n) (commitIndex n) (lastApplied n) (logOffset n) (snapshotIndex n) (snapshotTerm n) (pendingSnapshot n) (pendingSnapshotFile n) (pendingSnapshotPath n) (pendingSnapshotIndex n) (pendingSnapshotTerm n) (pendingSnapshotExpected n) (pendingSnapshotCRC n) (nextIndex n) (matchIndex n) (leaderId n) (leaderAddr n) (lastContact n) (applyCh n) (seenRPCs n) v (stateDir n) (hasProvider n) (hasInstaller n).
Definition set_stateDir (v : bytes) (n : Node) : Node :=
  mkNode (config n) (state n) (currentTerm n) (votedFor n) (log n) (commitIndex n) (lastApplied n) (logOffset n) (snapshotIndex n) (snapshotTerm n) (pendingSnapshot n) (pendingSnapshotFile n) (pendingSnapshotPath n) (pendingSnapshotIndex n) (pendingSnapshotTerm n) (pendingSnapshotExpected n) (pendingSnapshotCRC n) (nextIndex n) (matchIndex n) (leaderId n) (leaderAddr n) (lastContact n) (applyCh n) (seenRPCs n) (walAttached n) v (hasProvider n) (hasInstaller n).
Definition set_hasProvider (v : bool) (n : Node) : Node :=
  mkNode (config n) (state n) (currentTerm n) (votedFor n) (log n) (commitIndex n) (lastApplied n) (logOffset n) (snapshotIndex n) (snapshotTerm n) (pendingSnapshot n) (pendingSnapshotFile n) (pendingSnapshotPath n) (pendingSnapshotIndex n) (pendingSnapshotTerm n) (pendingSnapshotExpected n) (pendingSnapshotCRC n) (nextIndex n) (matchIndex n) (leaderId n) (leaderAddr n) (lastContact n) (applyCh n) (seenRPCs n) (walAttached n) (stateDir n) v (hasInstaller n).
Definition set_hasInstaller (v : bool) (n : Node) : Node :=
  mkNode (config n) (state n) (currentTerm n) (votedFor n) (log n) (commitIndex n) (lastApplied n) (logOffset n) (snapshotIndex n) (snapshotTerm n) (pendingSnapshot n) (pendingSnapshotFile n) (pendingSnapshotPath n) (pendingSnapshotIndex n) (pendingSnapshotTerm n) (pendingSnapshotExpected n) (pendingSnapshotCRC n) (nextIndex n) (matchIndex n) (leaderId n) (leaderAddr n) (lastContact n) (applyCh n) (seenRPCs n) (walAttached n) (stateDir n) (hasProvider n) v.

(** ** Construction *)

(** The defaults that [NewNode] fills in; durations are [int64] nanoseconds
    and Go's division truncates. *)
Definition second : Z := 1000000000.
Definition millisecond : Z := 1000000.

Definition normalizeConfig (cfg : Config) : Config :=
  let et := if decide (ElectionTimeout cfg = 0) then 1 * second else ElectionTimeout cfg in
  let hb := if decide (HeartbeatInterval cfg = 0) then Z.quot et 4 else HeartbeatInterval cfg in
  let hb := if decide (hb <= 0) then 250 * millisecond else hb in
  let hb := if decide (et <= hb) then Z.quot et 2 else hb in
  let ct := if decide (CommitTimeout cfg = 0) then 5 * second else CommitTimeout cfg in
  mkConfig (NodeID cfg) (BindAddress cfg) (BindPort cfg) (Peers cfg) et hb ct
           (SharedSecret cfg) (AdvertiseAddr cfg).

Definition NewNode (cfg : Config) (now : Z) : Node :=
  mkNode (normalizeConfig cfg) Follower 0 [] [] 0 0 0 0 0
         [] false [] 0 0 0 None ∅ ∅ [] [] now [] ∅ false [] false false.

(** ** Slots *)

(** [offsetToSlot]: [None] is the [(-1, false)] result. *)
Definition offsetToSlot (absoluteIndex logOffset logLen : Z) : option Z :=
  if decide (absoluteIndex = 0 \/ absoluteIndex <= logOffset) then None
  else if decide (logLen < 0) then None
  else
    let diff := wrap64 (wrap64 (absoluteIndex - logOffset) - 1) in
    if decide (wrap64 logLen <= diff) then None
    else if decide (MaxInt < diff) then None
    else Some diff.

Definition logLen (n : Node) : Z := wrap64 (logOffset n + wrap64 (len (log n))).

Definition sliceIndex (n : Node) (absoluteIndex : Z) : option Z :=
  offsetToSlot absoluteIndex (logOffset n) (len (log n)).

(** [n.log[slot]] after [sliceIndex] returned [ok]; an out-of-range slot would
    be a run-time panic, which the slot lemmas below exclude. *)
Definition entryAt (n : Node) (absoluteIndex : Z) : option LogEntry :=
  match sliceIndex n absoluteIndex with
  | None => None
  | Some slot => log n !! Z.to_nat slot
  end.

Definition termAt (n : Node) (absoluteIndex : Z) : option Z :=
  if decide (absoluteIndex = 0) then Some 0
  else if decide (absoluteIndex = snapshotIndex n) then Some (snapshotTerm n)
  else match entryAt n absoluteIndex with
       | None => None
       | Some e => Some (Term e)
       end.

Definition lastLogIndexTerm (n : Node) : Z * Z :=
  match last (log n) with
  | None => (snapshotIndex n, snapshotTerm n)
  | Some e => (Index e, Term e)
  end.

Definition truncateSliceAfter (lastKeepIndex : Z) (n : Node) : Node :=
  if decide (lastKeepIndex <= logOffset n) then set_log [] n
  else match offsetToSlot (wrap64 (lastKeepIndex + 1)) (logOffset n) (len (log n)) with
       | None => n
       | Some slot => set_log (take (Z.to_nat slot) (log n)) n
       end.

Definition isLogUpToDate (n : Node) (lastLogIndex lastLogTerm : Z) : bool :=
  let '(myLastIndex, myLastTerm) := lastLogIndexTerm n in
  if decide (lastLogTerm <> myLastTerm) then bool_decide (myLastTerm < lastLogTerm)
  else bool_decide (myLastIndex <= lastLogIndex).

(** [fmt.Sprintf("%s:%d", host, port)]. *)
Definition hostPort (host : bytes) (port : Z) : bytes := host ++ bs ":" ++ FormatInt port.

Definition advertiseAddr (n : Node) : bytes :=
  let cfg := config n in
  if decide (AdvertiseAddr cfg <> []) then AdvertiseAddr cfg
  else if decide (BindAddress cfg <> [] /\ 0 < BindPort cfg)
  then hostPort (BindAddress cfg) (BindPort cfg)
  else [].

(** ** Well-formed logs

    The struct comment's invariant [n.log[i].Index == n.logOffset + i + 1],
    with indices that never wrap. *)
Fixpoint contiguous (from : Z) (l : list LogEntry) : Prop :=
  match l with
  | [] => True
  | e :: l => Index e = from /\ contiguous (from + 1) l
  end.

Record log_wf (n : Node) : Prop := {
  wf_offset : 0 <= logOffset n;
  wf_bound : logOffset n + len (log n) < 2 ^ 63;
  wf_contiguous : contiguous (logOffset n + 1) (log n);
  wf_snapshot : snapshotIndex n = logOffset n;
}.

(** ** Lemmas on contiguous logs *)

Lemma contiguous_app from l k :
  contiguous from (l ++ k) <-> contiguous from l /\ contiguous (from + len l) k.
Proof.
  revert from. induction l as [|e l IH]; intros from.
  - simpl. rewrite len_nil, Z.add_0_r. tauto.
  - simpl. rewrite IH, len_cons.
    replace (from + 1 + len l) with (from + (1 + len l)) by lia. tauto.
Qed.

Lemma contiguous_lookup from l k e :
  contiguous from l -> l !! k = Some e -> Index e = from + Z.of_nat k.
Proof.
  revert from k. induction l as [|x l IH]; intros from [|k] Hc Hl; try done; simpl in *.
  - destruct Hc as [? _]. simplify_eq. lia.
  - destruct Hc as [_ Hc]. rewrite (IH _ _ Hc Hl). lia.
Qed.

Lemma contiguous_take from l k : contiguous from l -> contiguous from (take k l).
Proof.
  revert from k. induction l as [|x l IH]; intros from [|k] Hc; try done; simpl in *.
  destruct Hc as [? Hc]. split; [done|]. by apply IH.
Qed.

Lemma contiguous_drop from l k :
  (k <= length l)%nat -> contiguous from l -> contiguous (from + Z.of_nat k) (drop k l).
Proof.
  intros Hk Hc. rewrite <- (take_drop k l), contiguous_app in Hc. destruct Hc as [_ Hc].
  unfold len in Hc. rewrite length_take, Nat.min_l in Hc by done. done.
Qed.

(** Filtering a contiguous log by index is dropping a prefix. *)
Lemma contiguous_filter_gt from l k :
  contiguous from l -> from <= k + 1 ->
  List.filter (fun e => bool_decide (k < Index e)) l = drop (Z.to_nat (k + 1 - from)) l.
Proof.
  revert from. induction l as [|e l IH]; intros from Hc Hk; [by rewrite drop_nil|].
  destruct Hc as [He Hc]. simpl. case_bool_decide as Hb.
  - assert (k + 1 - from = 0) as -> by lia. simpl. f_equal.
    rewrite (List.forallb_filter_id); [done|].
    apply forallb_forall. intros x Hx. apply bool_decide_eq_true.
    apply list_elem_of_In, list_elem_of_lookup in Hx as [i Hi].
    rewrite (contiguous_lookup _ _ _ _ Hc Hi). lia.
  - replace (Z.to_nat (k + 1 - from)) with (S (Z.to_nat (k + 1 - (from + 1)))) by lia.
    simpl. apply IH; [done|lia].
Qed.

Lemma contiguous_filter_le from l k :
  contiguous from l ->
  List.filter (fun e => bool_decide (Index e <= k)) l = take (Z.to_nat (k + 1 - from)) l.
Proof.
  revert from. induction l as [|e l IH]; intros from Hc; [by rewrite take_nil|].
  destruct Hc as [He Hc]. simpl. rewrite (IH _ Hc). case_bool_decide as Hb.
  - replace (Z.to_nat (k + 1 - from)) with (S (Z.to_nat (k + 1 - (from + 1)))) by lia. done.
  - replace (Z.to_nat (k + 1 - from)) with 0%nat by lia.
    by replace (Z.to_nat (k + 1 - (from + 1))) with 0%nat by lia.
Qed.

(** ** Lemmas on slots *)

Lemma offsetToSlot_spec a o l :
  u64_ok a -> u64_ok o -> 0 <= l <= MaxInt ->
  offsetToSlot a o l = if decide (o < a <= o + l) then Some (a - o - 1) else None.
Proof.
  unfold u64_ok, MaxInt, offsetToSlot. intros Ha Ho Hl.
  assert (wrap64 l = l) as -> by (apply wrap64_small; unfold u64_ok; lia).
  case_decide as H1; [by rewrite decide_False by lia|].
  rewrite decide_False by lia. rewrite (wrap64_small (a - o)) by (unfold u64_ok; lia).
  rewrite wrap64_small by (unfold u64_ok; lia).
  unfold MaxInt. repeat case_decide; try done; lia.
Qed.

Lemma log_wf_len n : log_wf n -> 0 <= len (log n) <= MaxInt /\ u64_ok (logOffset n).
Proof.
  intros W. pose proof (wf_offset n W). pose proof (wf_bound n W).
  pose proof (len_nonneg (log n)). unfold u64_ok, MaxInt. lia.
Qed.

Lemma logLen_wf n : log_wf n -> logLen n = logOffset n + len (log n).
Proof.
  intros W. destruct (log_wf_len n W) as [H1 H2]. pose proof (wf_bound n W).
  unfold logLen, u64_ok, MaxInt in *.
  rewrite (wrap64_small (len _)) by (unfold u64_ok; lia).
  apply wrap64_small. unfold u64_ok. lia.
Qed.

Lemma entryAt_wf n i :
  log_wf n -> u64_ok i ->
  entryAt n i = if decide (logOffset n < i <= logLen n)
                then log n !! Z.to_nat (i - logOffset n - 1) else None.
Proof.
  intros W Hi. destruct (log_wf_len n W) as [H1 H2].
  unfold entryAt, sliceIndex. rewrite offsetToSlot_spec, logLen_wf by done. by case_decide.
Qed.

(** Inside the window there is an entry, and it carries its own index. *)
Lemma entryAt_in n i :
  log_wf n -> logOffset n < i <= logLen n ->
  exists e, entryAt n i = Some e /\ Index e = i.
Proof.
  intros W Hi. pose proof (logLen_wf n W) as HL. pose proof (wf_bound n W). pose proof (wf_offset n W).
  rewrite entryAt_wf by (done || unfold u64_ok; lia). rewrite decide_True by done.
  destruct (lookup_lt_is_Some_2 (log n) (Z.to_nat (i - logOffset n - 1))) as [e He].
  { unfold len in *. lia. }
  exists e. split; [done|].
  rewrite (contiguous_lookup _ _ _ _ (wf_contiguous n W) He). lia.
Qed.

Lemma entryAt_out n i :
  log_wf n -> u64_ok i -> ~ (logOffset n < i <= logLen n) -> entryAt n i = None.
Proof. intros W Hi Hn. rewrite entryAt_wf by done. by rewrite decide_False. Qed.

Lemma entryAt_lookup n i e :
  log_wf n -> u64_ok i -> entryAt n i = Some e ->
  logOffset n < i <= logLen n /\ log n !! Z.to_nat (i - logOffset n - 1) = Some e /\ Index e = i.
Proof.
  intros W Hi. rewrite entryAt_wf by done. case_decide; [|done]. intros He.
  split; [done|]. split; [done|].
  rewrite (contiguous_lookup _ _ _ _ (wf_contiguous n W) He). lia.
Qed.

(** [truncateSliceAfter k] keeps exactly the entries with [Index <= k]. *)
Lemma truncateSliceAfter_log k n :
  log_wf n -> 0 <= k < 2 ^ 64 - 1 ->
  log (truncateSliceAfter k n) = List.filter (fun e => bool_decide (Index e <= k)) (log n).
Proof.
  intros W Hk. destruct (log_wf_len n W) as [H1 H2]. pose proof (wf_offset n W).
  unfold truncateSliceAfter.
  rewrite (contiguous_filter_le _ _ k (wf_contiguous n W)).
  case_decide.
  - by replace (Z.to_nat (k + 1 - (logOffset n + 1))) with 0%nat by lia.
  - rewrite wrap64_small by (unfold u64_ok; lia).
    rewrite offsetToSlot_spec by (done || unfold u64_ok; lia).
    case_decide; simpl.
    + f_equal. lia.
    + rewrite take_ge; [done|]. unfold len in *. lia.
Qed.

Lemma truncateSliceAfter_other k n :
  truncateSliceAfter k n = set_log (log (truncateSliceAfter k n)) n.
Proof. unfold truncateSliceAfter. repeat case_match; by destruct n. Qed.
