(* ===== verification/WalStore.v ===== *)
(** * What the Raft node needs from its write-ahead log

    [WalStore W] is the interface between the node and its log file: the four
    operations the node calls, a predicate [ws_holds w l] for "the durable
    contents of [w] are exactly [l]", and the laws the node's theorems use.
    The instance at the end discharges it with the file-backed log of [Wal]
    over any fault script. *)
From S2P Require Import Prelude FileIO RaftTypes Wal WalProofs.
From Stdlib Require Import ZArith Lia.
From stdpp Require Import base gmap list.
#[local] Open Scope Z_scope.

Class WalStore (W : Type) : Type := {
  ws_append : LogEntry -> W -> option wal_err * W;
  ws_truncateAfter : Z -> W -> option wal_err * W;
  ws_truncateBefore : Z -> W -> option wal_err * W;
  ws_readAll : W -> list LogEntry * option wal_err;

  ws_storable : LogEntry -> Prop;
  ws_holds : W -> list LogEntry -> Prop;

  ws_read_law : forall w l, ws_holds w l -> ws_readAll w = (l, None);
  ws_append_law : forall e w w' l,
    ws_holds w l -> ws_storable e -> ws_append e w = (None, w') -> ws_holds w' (l ++ [e]);
  ws_truncateAfter_law : forall k w w' l,
    ws_holds w l -> ws_truncateAfter k w = (None, w') ->
    ws_holds w' (List.filter (fun e => bool_decide (Index e <= k)) l);
  ws_truncateBefore_law : forall k w w' l,
    ws_holds w l -> ws_truncateBefore k w = (None, w') ->
    ws_holds w' (List.filter (fun e => bool_decide (k <= Index e)) l);
}.

(** The file-backed log: the WAL object and the state directory. *)
Definition fileStore : Type := WAL * world.

Section Instance_.
Context `{EntryCodec}.

Definition fs_append (e : LogEntry) (s : fileStore) : option wal_err * fileStore :=
  let '(r, wd) := Append s.1 e s.2 in (r, (s.1, wd)).

Definition fs_truncateAfter (k : Z) (s : fileStore) : option wal_err * fileStore :=
  let '((r, w), wd) := TruncateAfter s.1 k s.2 in (r, (w, wd)).

Definition fs_truncateBefore (k : Z) (s : fileStore) : option wal_err * fileStore :=
  let '((r, w), wd) := TruncateBefore s.1 k s.2 in (r, (w, wd)).

#[export] Instance fileWalStore : WalStore fileStore.
Proof.
  refine {| ws_append := fs_append;
            ws_truncateAfter := fs_truncateAfter;
            ws_truncateBefore := fs_truncateBefore;
            ws_readAll s := (ReadAll s.1 s.2).1;
            ws_storable := entry_stable;
            ws_holds s l := wal_holds s.1 s.2 l |}.
  - intros w l Hw. by rewrite (wal_holds_read _ _ l).
  - intros e [w wd] w' l Hw Hs. unfold fs_append. simpl in *.
    destruct (Append w e wd) as [r wd'] eqn:E. intros [= -> <-]. by eapply Append_ok.
  - intros k [w wd] w' l Hw. unfold fs_truncateAfter, TruncateAfter. simpl in *.
    destruct (filterRewrite w _ wd) as [[r w1] wd'] eqn:E. intros [= -> <-].
    by eapply filterRewrite_ok.
  - intros k [w wd] w' l Hw. unfold fs_truncateBefore, TruncateBefore. simpl in *.
    destruct (filterRewrite w _ wd) as [[r w1] wd'] eqn:E. intros [= -> <-].
    by eapply filterRewrite_ok.
Defined.

End Instance_.
