(* ===== verification/RaftAppend.v ===== *)
(** * AppendEntries on the follower (rpc_handlers.go, persistence.go)

    [persistEntry], [truncateLogAfter] and [handleAppendEntries], over any
    store that implements [WalStore].  A handler takes the decoded request
    ([None] when [json.Unmarshal] fails), the clock, the node and the store,
    and returns the response with the new node and store. *)
From S2P Require Import Prelude RaftTypes RaftNode WalStore.
From Stdlib Require Import ZArith Lia.
From stdpp Require Import base gmap list.
#[local] Open Scope Z_scope.

Section Append.
Context {W : Type} `{!WalStore W}.

Definition persistEntry (entry : LogEntry) (n : Node) (w : W) : option wal_err * W :=
  if walAttached n then ws_append entry w else (None, w).

Definition truncateLogAfter (lastKeepIndex : Z) (n : Node) (w : W)
  : option wal_err * Node * W :=
  let n := truncateSliceAfter lastKeepIndex n in
  if walAttached n then
    let '(r, w) := ws_truncateAfter lastKeepIndex w in (r, n, w)
  else (None, n, w).

(** Persist, then [n.log = append(n.log, entry)]; [false] is the early return. *)
Definition appendOne (entry : LogEntry) (n : Node) (w : W) : bool * Node * W :=
  match persistEntry entry n w with
  | (Some _, w) => (false, n, w)
  | (None, w) => (true, set_log (log n ++ [entry]) n, w)
  end.

(** The loop body for [entry] at absolute index [idx]. *)
Definition appendStep (idx : Z) (entry : LogEntry) (n : Node) (w : W) : bool * Node * W :=
  match entryAt n idx with
  | Some existing =>
      if decide (Term existing <> Term entry) then
        match truncateLogAfter (wrap64 (idx - 1)) n w with
        | (Some _, n, w) => (false, n, w)
        | (None, n, w) => appendOne entry n w
        end
      else (true, n, w)
  | None =>
      if decide (logLen n < idx) then appendOne entry n w
      else (true, n, w)
  end.

Fixpoint appendLoop (prev i : Z) (entries : list LogEntry) (n : Node) (w : W)
  : bool * Node * W :=
  match entries with
  | [] => (true, n, w)
  | entry :: entries =>
      match appendStep (wrap64 (wrap64 (prev + i) + 1)) entry n w with
      | (false, n, w) => (false, n, w)
      | (true, n, w) => appendLoop prev (i + 1) entries n w
      end
  end.

(** [n.commitIndex] after a request with [LeaderCommit] and last index [lastNew]. *)
Definition advanceCommit (leaderCommit lastNew : Z) (n : Node) : Node :=
  if decide (commitIndex n < leaderCommit) then
    if decide (leaderCommit < lastNew) then set_commitIndex leaderCommit n
    else set_commitIndex lastNew n
  else n.

(** The leader's identity and the follower's clock, before the log check. *)
Definition acceptLeader (term : Z) (leaderId leaderAddress : bytes) (now : Z) (n : Node) : Node :=
  let n := if decide (currentTerm n < term)
           then set_votedFor [] (set_currentTerm term n) else n in
  let n := set_leaderId leaderId (set_state Follower n) in
  let n := if decide (leaderAddress <> []) then set_leaderAddr leaderAddress n else n in
  set_lastContact now n.

Definition handleAppendEntries (now : Z) (msg : option AppendEntriesRequest) (n : Node) (w : W)
  : AppendEntriesResponse * Node * W :=
  match msg with
  | None => (mkAppendRes (currentTerm n) false, n, w)
  | Some req =>
      let response := mkAppendRes (currentTerm n) false in
      if decide (ae_Term req < currentTerm n) then (response, n, w)
      else
        let n := acceptLeader (ae_Term req) (ae_LeaderId req) (ae_LeaderAddress req) now n in
        if decide (0 < ae_PrevLogIndex req /\ termAt n (ae_PrevLogIndex req) <> Some (ae_PrevLogTerm req))
        then (response, n, w)
        else
          match appendLoop (ae_PrevLogIndex req) 0 (ae_Entries req) n w with
          | (false, n, w) => (response, n, w)
          | (true, n, w) =>
              let n := advanceCommit (ae_LeaderCommit req)
                         (wrap64 (ae_PrevLogIndex req + len (ae_Entries req))) n in
              (mkAppendRes (currentTerm n) true, n, w)
          end
  end.

End Append.
