(* ===== verification/RaftAppendProofs.v ===== *)
(** * AppendEntries: the log a follower ends with

    The handler's loop, index by index over the compacted in-memory slice,
    implements the merge rule of the Raft paper, keeps the log well formed,
    and keeps the write-ahead log in step with memory. *)
From S2P Require Import Prelude Crypto FileIO RaftTypes EntryJson Wal WalProofs RaftNode.
From S2P Require Import WalStore RaftAppend.
From Stdlib Require Import ZArith Lia.
From stdpp Require Import base gmap list strings.
#[local] Open Scope Z_scope.

(** ** The reference rule

    [mergeLog local new]: keep local entries while terms agree; at the first
    conflict drop the rest of the local log and take the leader's entries;
    append what is not there yet. *)
Fixpoint mergeLog (local new : list LogEntry) : list LogEntry :=
  match new, local with
  | [], _ => local
  | _, [] => new
  | e :: new', x :: local' =>
      if decide (Term x = Term e) then x :: mergeLog local' new' else new
  end.

Lemma merge_nil_r l : mergeLog l [] = l.
Proof. by destruct l. Qed.

Lemma merge_nil_l es : mergeLog [] es = es.
Proof. by destruct es. Qed.

(** The part of the request above the compaction boundary, and the position
    in the slice where it starts. *)
Definition merged (off : Z) (l : list LogEntry) (prev : Z) (es : list LogEntry) : list LogEntry :=
  take (Z.to_nat (prev - off)) l ++
  mergeLog (drop (Z.to_nat (prev - off)) l) (drop (Z.to_nat (off - prev)) es).

(** Merging one entry at slot [k] and the rest at slot [k+1]. *)
Lemma merge_step k (l : list LogEntry) e es :
  (k <= length l)%nat ->
  let l1 := take k l ++ mergeLog (drop k l) [e] in
  take (S k) l1 ++ mergeLog (drop (S k) l1) es = take k l ++ mergeLog (drop k l) (e :: es).
Proof.
  intros Hk l1. unfold l1. clear l1.
  assert (length (take k l) = k) as Lk by (rewrite length_take; lia).
  rewrite take_app_ge, drop_app_ge, Lk by lia. replace (S k - k)%nat with 1%nat by lia.
  rewrite <- app_assoc. f_equal.
  destruct (drop k l) as [|x d]; simpl; [by destruct es|].
  case_decide; simpl; [by rewrite merge_nil_r|by destruct es].
Qed.

Lemma set_log_id n : set_log (log n) n = n.
Proof. by destruct n. Qed.

Lemma set_log_log v n : log (set_log v n) = v.
Proof. done. Qed.

Lemma log_wf_set_log l n :
  log_wf n -> contiguous (logOffset n + 1) l -> logOffset n + len l < 2 ^ 63 ->
  log_wf (set_log l n).
Proof. intros W Hc Hb. split; simpl; [apply W|done|done|apply W]. Qed.

Section Loop.
Context {W : Type} `{!WalStore W}.
Implicit Types (n : Node) (w : W) (e : LogEntry) (es l : list LogEntry).

(** Memory and disk agree: above the snapshot, the durable records are the
    in-memory log. *)
Definition durable n w : Prop :=
  exists l, ws_holds w l /\ List.filter (fun e => bool_decide (snapshotIndex n < Index e)) l = log n.

Lemma persistEntry_durable n w e w' :
  walAttached n = true -> ws_storable e -> snapshotIndex n < Index e ->
  durable n w -> persistEntry e n w = (None, w') ->
  durable (set_log (log n ++ [e]) n) w'.
Proof.
  intros Ha Hs Hi (l & Hl & Hf) Hp. unfold persistEntry in Hp. rewrite Ha in Hp.
  exists (l ++ [e]). split; [by eapply ws_append_law|].
  rewrite List.filter_app, <- Hf. simpl. by rewrite bool_decide_eq_true_2.
Qed.

Lemma filter_filter_comm {A} (f g : A -> bool) (l : list A) :
  List.filter f (List.filter g l) = List.filter g (List.filter f l).
Proof.
  induction l as [|x l IH]; [done|]. simpl.
  destruct (f x) eqn:Ef, (g x) eqn:Eg; simpl; rewrite ?Ef, ?Eg; by rewrite IH.
Qed.

Lemma truncateLogAfter_spec k n w r n' w' :
  log_wf n -> 0 <= k < 2 ^ 64 - 1 -> truncateLogAfter k n w = (r, n', w') ->
  n' = set_log (List.filter (fun e => bool_decide (Index e <= k)) (log n)) n /\
  (r = None -> walAttached n = true -> durable n w -> durable n' w').
Proof.
  intros Hwf Hk. unfold truncateLogAfter. rewrite truncateSliceAfter_other, truncateSliceAfter_log by done.
  simpl. set (n1 := set_log _ n). destruct (walAttached n) eqn:Ha.
  - destruct (ws_truncateAfter k w) as [r1 w1] eqn:E. intros [= <- <- <-].
    split; [done|]. intros -> _ (l & Hl & Hf).
    exists (List.filter (fun e => bool_decide (Index e <= k)) l).
    split; [by eapply ws_truncateAfter_law|]. simpl. rewrite filter_filter_comm. by rewrite Hf.
  - intros [= <- <- <-]. done.
Qed.

Lemma appendOne_spec e n w ok n' w' :
  appendOne e n w = (ok, n', w') ->
  n' = (if ok then set_log (log n ++ [e]) n else n) /\
  (ok = true -> walAttached n = true -> ws_storable e -> snapshotIndex n < Index e ->
   durable n w -> durable n' w').
Proof.
  unfold appendOne. destruct (persistEntry e n w) as [[err|] w1] eqn:E; intros [= <- <- <-].
  - done.
  - split; [done|]. intros. by eapply persistEntry_durable.
Qed.

(** What one iteration must achieve at slot [k], i.e. index [off + k + 1]. *)
Definition step_post (k : nat) e n w (ok : bool) n' (w' : W) : Prop :=
  n' = set_log (log n') n /\ log_wf n' /\
  (ok = true -> log n' = take k (log n) ++ mergeLog (drop k (log n)) [e] /\
    (walAttached n = true -> ws_storable e -> durable n w -> durable n' w')).

(** A log cut at slot [k] and extended by the entry of that index. *)
Lemma log_wf_snoc k e n :
  log_wf n -> (k <= length (log n))%nat -> Index e = logOffset n + 1 + Z.of_nat k ->
  Index e < 2 ^ 63 -> log_wf (set_log (take k (log n) ++ [e]) n).
Proof.
  intros Hwf Hk He Hb.
  assert (len (take k (log n)) = Z.of_nat k) as Hl by (unfold len; rewrite length_take; lia).
  apply log_wf_set_log; [done| |].
  - rewrite contiguous_app. split; [apply contiguous_take, Hwf|]. rewrite Hl. simpl. lia.
  - rewrite len_app, Hl, len_cons, len_nil. lia.
Qed.

Lemma log_wf_cut k n : log_wf n -> log_wf (set_log (take k (log n)) n).
Proof.
  intros Hwf. apply log_wf_set_log; [done|apply contiguous_take, Hwf|].
  pose proof (wf_bound n Hwf). unfold len in *. rewrite length_take. lia.
Qed.

(** Terms disagree at slot [k]: cut there and take the leader's entry. *)
Lemma step_conflict k x e n w ok n' w' :
  log_wf n -> log n !! k = Some x -> Term x <> Term e ->
  Index e = logOffset n + 1 + Z.of_nat k -> Index e < 2 ^ 63 ->
  match truncateLogAfter (Index e - 1) n w with
  | (Some _, n, w) => (false, n, w)
  | (None, n, w) => appendOne e n w
  end = (ok, n', w') -> step_post k e n w ok n' w'.
Proof.
  intros Hwf Hx Ht He Hb. pose proof (wf_offset n Hwf). pose proof (wf_snapshot n Hwf).
  pose proof (lookup_lt_Some _ _ _ Hx).
  destruct (truncateLogAfter (Index e - 1) n w) as [[r n1] w1] eqn:Et.
  apply truncateLogAfter_spec in Et as [-> Hdur1]; [|done|lia].
  rewrite (contiguous_filter_le _ _ _ (wf_contiguous n Hwf)) in *.
  replace (Z.to_nat (Index e - 1 + 1 - (logOffset n + 1))) with k in * by lia.
  destruct r as [err|]; [intros [= <- <- <-]; split; [done|split; [by apply log_wf_cut|done]]|].
  intros Hr. apply appendOne_spec in Hr as [-> Hdur2].
  destruct ok; [|split; [done|split; [by apply log_wf_cut|done]]].
  split; [done|]. split; [exact (log_wf_snoc k e n Hwf ltac:(lia) He Hb)|]. intros _.
  rewrite (drop_S _ _ _ Hx). simpl. rewrite decide_False by done.
  split; [done|]. intros. apply Hdur2; auto. simpl. lia.
Qed.

(** The index is one past the end: plain append. *)
Lemma step_extend e n w ok n' w' :
  log_wf n -> Index e = logOffset n + 1 + len (log n) -> Index e < 2 ^ 63 ->
  appendOne e n w = (ok, n', w') -> step_post (length (log n)) e n w ok n' w'.
Proof.
  intros Hwf He Hb Hr. pose proof (wf_snapshot n Hwf). pose proof (len_nonneg (log n)).
  pose proof (log_wf_snoc (length (log n)) e n Hwf ltac:(lia) He Hb) as Hs.
  rewrite firstn_all in Hs.
  apply appendOne_spec in Hr as [-> Hdur]. destruct ok.
  - split; [done|]. split; [done|]. intros _. rewrite drop_all, firstn_all. split; [done|].
    intros. apply Hdur; auto. lia.
  - split; [by rewrite set_log_id|]. by split.
Qed.

(** One iteration of the loop above the compaction boundary. *)
Lemma appendStep_spec k e n w ok n' w' :
  log_wf n -> (k <= length (log n))%nat ->
  Index e = logOffset n + 1 + Z.of_nat k -> Index e < 2 ^ 63 ->
  appendStep (Index e) e n w = (ok, n', w') -> step_post k e n w ok n' w'.
Proof.
  intros Hwf Hk He Hb. pose proof (logLen_wf n Hwf) as HL. pose proof (wf_offset n Hwf) as H0.
  unfold appendStep. destruct (entryAt n (Index e)) as [x|] eqn:Ex.
  - apply entryAt_lookup in Ex as (Hin & Hx & _); [|done|unfold u64_ok; lia].
    replace (Z.to_nat _) with k in Hx by lia. case_decide as Ht.
    + rewrite wrap64_small by (unfold u64_ok; lia). by eapply step_conflict.
    + intros [= <- <- <-]. split; [by rewrite set_log_id|]. split; [done|]. intros _. split; [|done].
      rewrite (drop_S _ _ _ Hx). simpl.
      rewrite decide_True, merge_nil_r by (destruct (decide (Term x = Term e)); [done|by destruct Ht]).
      by rewrite <- (drop_S _ _ _ Hx), take_drop.
  - destruct (decide (k < length (log n))%nat).
    { destruct (entryAt_in n (Index e) Hwf) as (? & E & _); [unfold len in *; lia|congruence]. }
    assert (k = length (log n)) as -> by lia.
    rewrite decide_True by (unfold len in *; lia). by apply step_extend.
Qed.

(** Below the boundary the entry is skipped. *)
Lemma appendStep_skip idx e n w :
  log_wf n -> 0 <= idx <= logOffset n -> appendStep idx e n w = (true, n, w).
Proof.
  intros Hwf Hi. pose proof (logLen_wf n Hwf). pose proof (wf_bound n Hwf). pose proof (len_nonneg (log n)).
  unfold appendStep. rewrite entryAt_out by (done || unfold u64_ok; lia).
  by rewrite decide_False by lia.
Qed.

(** The loop from slot [k] merges the remaining entries there. *)
Lemma appendLoop_above prev k es i n w ok n' w' :
  log_wf n -> (k <= length (log n))%nat -> 0 <= prev -> 0 <= i ->
  prev + i = logOffset n + Z.of_nat k -> contiguous (prev + i + 1) es ->
  prev + i + len es < 2 ^ 63 ->
  appendLoop prev i es n w = (ok, n', w') ->
  n' = set_log (log n') n /\ log_wf n' /\
  (ok = true -> log n' = take k (log n) ++ mergeLog (drop k (log n)) es /\
    (walAttached n = true -> Forall ws_storable es -> durable n w -> durable n' w')).
Proof.
  revert k i n w. induction es as [|e es IH]; intros k i n w Hwf Hk Hp Hi0 Hi Hc Hb.
  { intros [= <- <- <-]. rewrite merge_nil_r, take_drop, set_log_id. done. }
  destruct Hc as [He Hc]. rewrite len_cons in Hb. pose proof (len_nonneg es).
  pose proof (wf_offset n Hwf). cbn [appendLoop].
  rewrite (wrap64_small (prev + i)), wrap64_small by (unfold u64_ok; lia). rewrite <- He.
  destruct (appendStep (Index e) e n w) as [[ok1 n1] w1] eqn:E.
  apply (appendStep_spec k) in E as (En & Hwf1 & Hok); [|done|lia|lia|lia].
  destruct ok1; [|intros [= <- <- <-]; done].
  destruct (Hok eq_refl) as [Hl1 Hd1].
  assert (logOffset n1 = logOffset n /\ walAttached n1 = walAttached n) as [Ho Ha] by (by rewrite En).
  assert (S k <= length (log n1))%nat as Hk1.
  { rewrite Hl1, length_app, length_take. destruct (drop k (log n)); simpl; [lia|].
    case_decide; simpl; lia. }
  intros Hrun. apply (IH (S k)) in Hrun as (En' & Hwf' & Hok');
    [|done|done|done|lia|rewrite Ho; lia|by replace (prev + (i + 1) + 1) with (prev + i + 1 + 1) by lia|lia].
  split; [rewrite En' at 1; by rewrite En|]. split; [done|]. intros Hk'.
  destruct (Hok' Hk') as [Hl' Hd']. split.
  - rewrite Hl', Hl1. apply merge_step. lia.
  - intros Hat [Hs1 Hs2]%Forall_cons Hd0. rewrite Ha in Hd'. auto.
Qed.

(** Entries at or below the boundary are passed over. *)
Lemma appendLoop_skip prev es i n w :
  log_wf n -> 0 <= prev -> 0 <= i -> prev + i + len es < 2 ^ 63 -> prev + i <= logOffset n ->
  let j := Z.to_nat (logOffset n - (prev + i)) in
  appendLoop prev i es n w = appendLoop prev (i + Z.of_nat j) (drop j es) n w.
Proof.
  revert i. induction es as [|e es IH]; intros i Hwf Hp Hi Hb Ho j; [by rewrite drop_nil|].
  rewrite len_cons in Hb. pose proof (len_nonneg es). destruct j as [|j'] eqn:Ej.
  { rewrite drop_0. f_equal. lia. }
  cbn [appendLoop drop].
  rewrite (wrap64_small (prev + i)), wrap64_small by (unfold u64_ok; lia).
  rewrite appendStep_skip by (done || lia). rewrite (IH (i + 1)) by (done || lia).
  replace (Z.to_nat (logOffset n - (prev + (i + 1)))) with j' by lia. f_equal. lia.
Qed.

(** The whole loop, from the request's [PrevLogIndex]. *)
Lemma appendLoop_spec prev es n w ok n' w' :
  log_wf n -> 0 <= prev <= logLen n -> contiguous (prev + 1) es -> prev + len es < 2 ^ 63 ->
  appendLoop prev 0 es n w = (ok, n', w') ->
  n' = set_log (log n') n /\ log_wf n' /\
  (ok = true -> log n' = merged (logOffset n) (log n) prev es /\
    (walAttached n = true -> Forall ws_storable es -> durable n w -> durable n' w')).
Proof.
  intros Hwf Hp Hc Hb. pose proof (logLen_wf n Hwf) as HL. unfold merged.
  destruct (decide (logOffset n <= prev)) as [Hge|Hlt].
  - replace (Z.to_nat (logOffset n - prev)) with 0%nat by lia. rewrite drop_0.
    apply appendLoop_above; [done|unfold len in *; lia|lia|lia|lia| |lia].
    by rewrite Z.add_0_r.
  - rewrite appendLoop_skip by (done || lia). rewrite Z.add_0_r.
    set (j := Z.to_nat (logOffset n - prev)).
    replace (Z.to_nat (prev - logOffset n)) with 0%nat by lia. intros Hrun.
    destruct (decide (j <= length es)%nat) as [Hj|Hj].
    + apply (appendLoop_above _ 0) in Hrun as (? & ? & Hok);
        [|done|lia|lia|lia|lia| |unfold len in *; rewrite length_drop; lia].
      * split; [done|]. split; [done|]. intros Ht. destruct (Hok Ht) as [? Hd].
        split; [done|]. intros. apply Hd; auto. by apply Forall_drop.
      * replace (prev + (0 + Z.of_nat j) + 1) with (prev + 1 + Z.of_nat j) by lia.
        by apply contiguous_drop.
    + rewrite (drop_ge es j) in Hrun |- * by lia. injection Hrun as <- <- <-.
      rewrite merge_nil_r, take_drop, set_log_id. done.
Qed.

(** ** The handler *)

Lemma acceptLeader_log t li la now n :
  let n' := acceptLeader t li la now n in
  log n' = log n /\ logOffset n' = logOffset n /\ snapshotIndex n' = snapshotIndex n /\
  snapshotTerm n' = snapshotTerm n /\ commitIndex n' = commitIndex n /\
  lastApplied n' = lastApplied n /\ walAttached n' = walAttached n /\
  currentTerm n' = Z.max (currentTerm n) t /\ state n' = Follower /\ config n' = config n /\
  votedFor n' = if decide (currentTerm n < t) then [] else votedFor n.
Proof. unfold acceptLeader. repeat case_decide; simpl; repeat split; try done; lia. Qed.

Lemma acceptLeader_wf t li la now n : log_wf n -> log_wf (acceptLeader t li la now n).
Proof.
  intros [H1 H2 H3 H4]. destruct (acceptLeader_log t li la now n) as (E1 & E2 & E3 & _).
  by split; rewrite ?E1, ?E2, ?E3.
Qed.

Lemma termAt_bound n i t : log_wf n -> u64_ok i -> termAt n i = Some t -> i <= logLen n.
Proof.
  intros Hwf Hi. pose proof (logLen_wf n Hwf). pose proof (wf_snapshot n Hwf).
  pose proof (wf_offset n Hwf). pose proof (len_nonneg (log n)).
  unfold termAt. repeat case_decide; try lia.
  destruct (entryAt n i) as [e|] eqn:E; [|done]. intros _.
  apply entryAt_lookup in E as [? _]; [lia|done..].
Qed.

Lemma termAt_ext n n' i :
  log n' = log n -> logOffset n' = logOffset n -> snapshotIndex n' = snapshotIndex n ->
  snapshotTerm n' = snapshotTerm n -> termAt n' i = termAt n i.
Proof. intros E1 E2 E3 E4. unfold termAt, entryAt, sliceIndex. by rewrite E1, E2, E3, E4. Qed.

Lemma advanceCommit_log lc ln n :
  let n' := advanceCommit lc ln n in
  n' = set_commitIndex (commitIndex n') n /\
  commitIndex n' = if decide (commitIndex n < lc) then Z.min lc ln else commitIndex n.
Proof. unfold advanceCommit. repeat case_decide; destruct n; simpl; split; try done; lia. Qed.

(** Everything the handler does to a well-formed node on a request it does
    not reject as stale. *)
Lemma handleAppendEntries_spec now req n w res n' w' :
  log_wf n -> u64_ok (ae_PrevLogIndex req) ->
  contiguous (ae_PrevLogIndex req + 1) (ae_Entries req) ->
  ae_PrevLogIndex req + len (ae_Entries req) < 2 ^ 63 ->
  currentTerm n <= ae_Term req ->
  handleAppendEntries now (Some req) n w = (res, n', w') ->
  log_wf n' /\ currentTerm n' = ae_Term req /\ logOffset n' = logOffset n /\
  snapshotIndex n' = snapshotIndex n /\ walAttached n' = walAttached n /\
  (aer_Success res = true ->
     (ae_PrevLogIndex req = 0 \/ termAt n (ae_PrevLogIndex req) = Some (ae_PrevLogTerm req)) /\
     log n' = merged (logOffset n) (log n) (ae_PrevLogIndex req) (ae_Entries req) /\
     commitIndex n' = (if decide (commitIndex n < ae_LeaderCommit req)
        then Z.min (ae_LeaderCommit req) (ae_PrevLogIndex req + len (ae_Entries req))
        else commitIndex n) /\
     (walAttached n = true -> Forall ws_storable (ae_Entries req) -> durable n w -> durable n' w')).
Proof.
  intros Hwf Hu Hc Hb Ht. unfold handleAppendEntries. rewrite decide_False by lia.
  set (n1 := acceptLeader _ _ _ _ n).
  pose proof (acceptLeader_log (ae_Term req) (ae_LeaderId req) (ae_LeaderAddress req) now n)
    as (E1 & E2 & E3 & E4 & E5 & _ & E7 & E8 & _). fold n1 in E1, E2, E3, E4, E5, E7, E8.
  assert (log_wf n1) as Hwf1 by (by apply acceptLeader_wf).
  rewrite (termAt_ext n n1) by done.
  pose proof (len_nonneg (ae_Entries req)). pose proof (len_nonneg (log n)).
  case_decide as Hrej.
  { intros [= <- <- <-]. repeat split; try apply Hwf1; try done; lia. }
  assert (ae_PrevLogIndex req = 0 \/ termAt n (ae_PrevLogIndex req) = Some (ae_PrevLogTerm req)) as Hprev.
  { destruct (decide (termAt n (ae_PrevLogIndex req) = Some (ae_PrevLogTerm req))); [by right|].
    unfold u64_ok in Hu. left. destruct (decide (0 < ae_PrevLogIndex req)); [|lia]. by destruct Hrej. }
  assert (0 <= ae_PrevLogIndex req <= logLen n1) as Hp.
  { unfold u64_ok in Hu. rewrite (logLen_wf n1), E1, E2 by done. pose proof (wf_offset n Hwf).
    destruct Hprev as [->|Hpt]; [lia|].
    apply termAt_bound in Hpt; [|done..]. rewrite logLen_wf in Hpt by done. lia. }
  destruct (appendLoop _ _ _ n1 w) as [[ok n2] w2] eqn:El.
  apply appendLoop_spec in El as (En2 & Hwf2 & Hok); [|done..].
  assert (logOffset n2 = logOffset n1 /\ snapshotIndex n2 = snapshotIndex n1 /\
    walAttached n2 = walAttached n1 /\ currentTerm n2 = currentTerm n1 /\
    commitIndex n2 = commitIndex n1) as (F2 & F3 & F7 & F8 & F5) by (by rewrite En2).
  destruct ok.
  2: { intros [= <- <- <-]. repeat split; try apply Hwf2; try done; try congruence; lia. }
  destruct (Hok eq_refl) as [Hl Hd].
  destruct (advanceCommit_log (ae_LeaderCommit req)
    (wrap64 (ae_PrevLogIndex req + len (ae_Entries req))) n2) as [Ec Ev].
  set (n3 := advanceCommit _ _ n2) in *.
  rewrite wrap64_small in Ev by (unfold u64_ok in *; lia).
  intros [= <- <- <-].
  assert (log n3 = log n2 /\ logOffset n3 = logOffset n2 /\ snapshotIndex n3 = snapshotIndex n2 /\
    walAttached n3 = walAttached n2 /\ currentTerm n3 = currentTerm n2) as (G1 & G2 & G3 & G7 & G8)
    by (by rewrite Ec).
  split. { destruct Hwf2 as [A B C D]. split; by rewrite ?G1, ?G2, ?G3. }
  split; [lia|]. split; [congruence|]. split; [congruence|]. split; [congruence|]. intros _.
  split; [done|]. split; [by rewrite G1, Hl, E1, E2|]. split; [by rewrite Ev, F5, E5|].
  intros Ha Hs Hdn. rewrite E7 in Hd. unfold durable in *. rewrite E1, E3 in Hd.
  destruct (Hd Ha Hs Hdn) as (l & Hl1 & Hl2). exists l. split; [done|]. by rewrite G1, G3.
Qed.

End Loop.

(** ** Consequences of the merge rule *)

Lemma len_merge l es : len es <= len (mergeLog l es).
Proof.
  revert l. induction es as [|e es IH]; intros l; [rewrite len_nil; apply len_nonneg|].
  destruct l as [|x l]; simpl; [lia|]. case_decide; [|lia].
  rewrite !len_cons. specialize (IH l). lia.
Qed.

Lemma len_merged off l prev es :
  0 <= prev <= off + len l -> off <= prev + len es -> prev + len es <= off + len (merged off l prev es).
Proof.
  intros Hp He. unfold merged. rewrite len_app.
  pose proof (len_merge (drop (Z.to_nat (prev - off)) l) (drop (Z.to_nat (off - prev)) es)) as Hm.
  unfold len in *. rewrite length_take, length_drop in *. lia.
Qed.

Lemma len_merged_off off l prev es : 0 <= len (merged off l prev es).
Proof. apply len_nonneg. Qed.

Section Shape.
Context {W : Type} `{!WalStore W}.

Lemma appendOne_shape e n (w : W) : (appendOne e n w).1.2 = set_log (log (appendOne e n w).1.2) n.
Proof. unfold appendOne. destruct (persistEntry _ _ _) as [[] ?]; by destruct n. Qed.

Lemma appendStep_shape idx e n (w : W) :
  (appendStep idx e n w).1.2 = set_log (log (appendStep idx e n w).1.2) n.
Proof.
  unfold appendStep, truncateLogAfter.
  destruct (entryAt n idx) as [x|]; case_decide; try (by destruct n); [|apply appendOne_shape].
  rewrite truncateSliceAfter_other.
  destruct (walAttached _); [destruct (ws_truncateAfter _ _) as [[] ?]; [done|]|].
  - rewrite appendOne_shape. done.
  - rewrite appendOne_shape. done.
Qed.

Lemma appendLoop_shape prev i es n (w : W) :
  (appendLoop prev i es n w).1.2 = set_log (log (appendLoop prev i es n w).1.2) n.
Proof.
  revert i n w. induction es as [|e es IH]; intros i n w; [by destruct n|].
  cbn [appendLoop]. pose proof (appendStep_shape (wrap64 (wrap64 (prev + i) + 1)) e n w) as Hs.
  destruct (appendStep _ e n w) as [[[] n1] w1]; simpl in Hs; [|done].
  rewrite IH, Hs. done.
Qed.

End Shape.

(** ** Main theorems *)

Section Main.
Context {W : Type} `{!WalStore W}.

(** C3. When a follower answers Success, the consistency check held and its
    in-memory log is exactly the merge of its old log with the request's
    entries at [PrevLogIndex] (local entries kept while terms agree, the rest
    replaced, compacted indices skipped), and the log is still contiguous. *)
Theorem append_entries_merge now req n (w : W) res n' w' :
  log_wf n -> u64_ok (ae_PrevLogIndex req) ->
  contiguous (ae_PrevLogIndex req + 1) (ae_Entries req) ->
  ae_PrevLogIndex req + len (ae_Entries req) < 2 ^ 63 ->
  handleAppendEntries now (Some req) n w = (res, n', w') -> aer_Success res = true ->
  (ae_PrevLogIndex req = 0 \/ termAt n (ae_PrevLogIndex req) = Some (ae_PrevLogTerm req)) /\
  log n' = merged (logOffset n) (log n) (ae_PrevLogIndex req) (ae_Entries req) /\
  log_wf n'.
Proof.
  intros Hwf Hu Hc Hb Hrun Hs.
  destruct (decide (ae_Term req < currentTerm n)).
  { unfold handleAppendEntries in Hrun. rewrite decide_True in Hrun by done.
    injection Hrun as <- _ _. done. }
  eapply handleAppendEntries_spec in Hrun as (Hwf' & _ & _ & _ & _ & Hok); [|done..|lia].
  by destruct (Hok Hs) as (? & ? & _).
Qed.

(** C4. A Success answer is a durable answer: if memory and WAL agreed before
    the request, then after it the WAL reads back without error and its
    records above the snapshot are the follower's in-memory log. *)
Theorem append_entries_durable now req n (w : W) res n' w' :
  log_wf n -> u64_ok (ae_PrevLogIndex req) ->
  contiguous (ae_PrevLogIndex req + 1) (ae_Entries req) ->
  ae_PrevLogIndex req + len (ae_Entries req) < 2 ^ 63 ->
  walAttached n = true -> Forall ws_storable (ae_Entries req) -> durable n w ->
  handleAppendEntries now (Some req) n w = (res, n', w') -> aer_Success res = true ->
  durable n' w' /\
  exists l, ws_readAll w' = (l, None) /\
    List.filter (fun e => bool_decide (snapshotIndex n' < Index e)) l = log n'.
Proof.
  intros Hwf Hu Hc Hb Ha Hst Hd Hrun Hs.
  destruct (decide (ae_Term req < currentTerm n)).
  { unfold handleAppendEntries in Hrun. rewrite decide_True in Hrun by done.
    injection Hrun as <- _ _. done. }
  eapply handleAppendEntries_spec in Hrun as (_ & _ & _ & _ & _ & Hok); [|done..|lia].
  destruct (Hok Hs) as (_ & _ & _ & Hd'). destruct (Hd' Ha Hst Hd) as (l & Hl & Hf).
  split; [by exists l|]. exists l. split; [by apply ws_read_law|done].
Qed.

(** The follower's term never decreases and its vote is forgotten only
    when the term grows; a request from a past term changes neither the node
    nor the store and is answered with the current term and Success=false. *)
Theorem append_entries_term_monotone now msg n (w : W) res n' w' :
  handleAppendEntries now msg n w = (res, n', w') ->
  currentTerm n <= currentTerm n' /\
  (votedFor n' <> votedFor n -> currentTerm n < currentTerm n') /\
  (forall req, msg = Some req -> ae_Term req < currentTerm n ->
     n' = n /\ w' = w /\ res = mkAppendRes (currentTerm n) false).
Proof.
  unfold handleAppendEntries. destruct msg as [req|]; [|intros [= <- <- <-]; done].
  case_decide as Hst; [intros [= <- <- <-]; split_and!; try done; by intros ? [= <-]|].
  pose proof (acceptLeader_log (ae_Term req) (ae_LeaderId req) (ae_LeaderAddress req) now n)
    as (_ & _ & _ & _ & _ & _ & _ & Et & _ & _ & Ev). set (n1 := acceptLeader _ _ _ _ n) in *.
  intros Hrun. enough (currentTerm n' = currentTerm n1 /\ votedFor n' = votedFor n1) as [E1 E2].
  { rewrite E1, E2, Et, Ev. split; [lia|]. split; [intros Hv; case_decide; [lia|done]|].
    intros ? [= <-]. lia. }
  clear Et Ev. revert Hrun. case_decide; [by intros [= <- <- <-]|].
  pose proof (appendLoop_shape (ae_PrevLogIndex req) 0 (ae_Entries req) n1 w) as Hs.
  destruct (appendLoop _ _ _ n1 w) as [[[] n2] w2]; simpl in Hs; intros [= <- <- <-].
  - destruct (advanceCommit_log (ae_LeaderCommit req)
      (wrap64 (ae_PrevLogIndex req + len (ae_Entries req))) n2) as [-> _]. by rewrite Hs.
  - by rewrite Hs.
Qed.

(** The commit index after a successful request is the smaller of the
    leader's commit and the last index of the request whenever the leader is
    ahead; it then never decreases and never passes the end of the log,
    provided the request reaches the follower's commit index. *)
Theorem append_entries_commit now req n (w : W) res n' w' :
  log_wf n -> u64_ok (ae_PrevLogIndex req) ->
  contiguous (ae_PrevLogIndex req + 1) (ae_Entries req) ->
  ae_PrevLogIndex req + len (ae_Entries req) < 2 ^ 63 ->
  logOffset n <= commitIndex n <= ae_PrevLogIndex req + len (ae_Entries req) ->
  handleAppendEntries now (Some req) n w = (res, n', w') -> aer_Success res = true ->
  commitIndex n <= commitIndex n' <= logLen n' /\
  commitIndex n' = Z.max (commitIndex n)
    (Z.min (ae_LeaderCommit req) (ae_PrevLogIndex req + len (ae_Entries req))).
Proof.
  intros Hwf Hu Hc Hb Hci Hrun Hs.
  destruct (decide (ae_Term req < currentTerm n)).
  { unfold handleAppendEntries in Hrun. rewrite decide_True in Hrun by done.
    injection Hrun as <- _ _. done. }
  eapply handleAppendEntries_spec in Hrun as (Hwf' & _ & Ho & _ & _ & Hok); [|done..|lia].
  destruct (Hok Hs) as (Hprev & Hl & Hcm & _). rewrite (logLen_wf n') by done.
  assert (0 <= ae_PrevLogIndex req <= logOffset n + len (log n)).
  { unfold u64_ok in Hu. rewrite <- (logLen_wf n) by done. split; [lia|].
    destruct Hprev as [->|Ht%termAt_bound]; [|done..].
    rewrite logLen_wf by done. pose proof (wf_offset n Hwf). pose proof (len_nonneg (log n)). lia. }
  pose proof (len_merged (logOffset n) (log n) (ae_PrevLogIndex req) (ae_Entries req)) as Hlen.
  rewrite <- Hl in Hlen. specialize (Hlen ltac:(lia) ltac:(lia)). rewrite Ho.
  rewrite Hcm. case_decide; split; lia.
Qed.

(** Without that provision it can go backwards: a heartbeat (no entries)
    for an index below the follower's commit index, from a leader whose commit
    is above it, is accepted and moves the commit index down to
    [PrevLogIndex]. *)
Theorem append_entries_commit_regression now req n (w : W) t :
  log_wf n -> currentTerm n <= ae_Term req -> ae_Entries req = [] ->
  0 < ae_PrevLogIndex req < commitIndex n -> commitIndex n <= logLen n ->
  termAt n (ae_PrevLogIndex req) = Some t -> ae_PrevLogTerm req = t ->
  commitIndex n < ae_LeaderCommit req ->
  exists n', handleAppendEntries now (Some req) n w = (mkAppendRes (ae_Term req) true, n', w) /\
    commitIndex n' = ae_PrevLogIndex req /\ commitIndex n' < commitIndex n.
Proof.
  intros Hwf Ht He Hp Hc Hta Htq Hlc. pose proof (wf_bound n Hwf). pose proof (logLen_wf n Hwf).
  destruct (handleAppendEntries now (Some req) n w) as [[res n'] w'] eqn:Hrun.
  assert (Hrun' := Hrun). eapply handleAppendEntries_spec in Hrun' as (_ & Hct & _ & _ & _ & Hok);
    [|done|unfold u64_ok; lia|by rewrite He|rewrite He, len_nil; lia|done].
  assert (res = mkAppendRes (ae_Term req) true /\ w' = w) as [-> ->].
  { unfold handleAppendEntries in Hrun. rewrite decide_False in Hrun by lia.
    pose proof (acceptLeader_log (ae_Term req) (ae_LeaderId req) (ae_LeaderAddress req) now n)
      as (E1 & E2 & E3 & E4 & _). rewrite (termAt_ext n) in Hrun by done.
    rewrite Hta, Htq in Hrun. rewrite decide_False in Hrun by (intros [_ []]; done).
    rewrite He in Hrun. simpl in Hrun. injection Hrun as <- <- <-. by rewrite Hct. }
  exists n'. split; [done|]. destruct (Hok eq_refl) as (_ & _ & Hcm & _).
  rewrite Hcm, He, len_nil, decide_True by lia. lia.
Qed.

End Main.

(** ** Witnesses: a two-entry follower and a conflicting request *)

Definition demo_cfg : Config :=
  mkConfig (bs "a") (bs "10.0.0.1") 7000 [bs "b"; bs "c"] 300000000 100000000 5000000000
           demo_key [].
Definition demo_node : Node :=
  set_commitIndex 1 (set_walAttached true (set_currentTerm 1
    (set_log [demo_e1; demo_e2] (NewNode demo_cfg 0)))).
Definition demo_store : fileStore :=
  (demo_wal, (writeBatchLocked demo_wal [demo_e1; demo_e2] (demo_world [])).2).
Definition demo_req : AppendEntriesRequest :=
  mkAppendReq 2 (bs "b") [] 1 1 [mkEntry 2 2 (bs "30"); mkEntry 3 2 (bs "40")] 3.
Definition demo_heartbeat : AppendEntriesRequest := mkAppendReq 2 (bs "b") [] 1 1 [] 7.
Abbreviation demo_run := (handleAppendEntries 5 (Some demo_req) demo_node demo_store).

Lemma demo_run_eta : demo_run = (demo_run.1.1, demo_run.1.2, demo_run.2).
Proof. apply triple_eta. Qed.

Lemma demo_node_wf : log_wf demo_node.
Proof. split; done. Qed.

Lemma demo_durable : durable demo_node demo_store.
Proof.
  exists [demo_e1; demo_e2]. split; [|done].
  apply (writeBatch_ok _ _ [] (demo_world [])); [apply demo_holds|apply demo_stable|].
  vm_compute. reflexivity.
Qed.

Lemma append_entries_merge_witness :
  aer_Success demo_run.1.1 = true /\
  log demo_run.1.2 = [demo_e1; mkEntry 2 2 (bs "30"); mkEntry 3 2 (bs "40")] /\ log_wf demo_run.1.2.
Proof.
  assert (aer_Success demo_run.1.1 = true) as Hs by (vm_compute; reflexivity).
  destruct (append_entries_merge 5 demo_req demo_node demo_store
    demo_run.1.1 demo_run.1.2 demo_run.2 demo_node_wf ltac:(split; done) ltac:(repeat split) ltac:(done) demo_run_eta Hs)
    as (_ & Hl & Hwf).
  split; [exact Hs|]. split; [|exact Hwf]. rewrite Hl. reflexivity.
Defined.

Lemma append_entries_durable_witness :
  durable demo_run.1.2 demo_run.2 /\
  exists l, ws_readAll demo_run.2 = (l, None) /\
    List.filter (fun e => bool_decide (snapshotIndex demo_run.1.2 < Index e)) l = log demo_run.1.2.
Proof.
  apply (append_entries_durable 5 demo_req demo_node demo_store
    demo_run.1.1 demo_run.1.2 demo_run.2).
  - apply demo_node_wf.
  - split; done.
  - repeat split.
  - done.
  - done.
  - repeat constructor; done.
  - apply demo_durable.
  - apply demo_run_eta.
  - vm_compute. reflexivity.
Defined.

Lemma append_entries_term_monotone_witness :
  1 <= currentTerm demo_run.1.2 /\ currentTerm demo_run.1.2 = 2.
Proof.
  split; [|vm_compute; reflexivity].
  exact (proj1 (append_entries_term_monotone 5 (Some demo_req) demo_node demo_store
    demo_run.1.1 demo_run.1.2 demo_run.2 demo_run_eta)).
Defined.

Lemma append_entries_commit_witness :
  1 <= commitIndex demo_run.1.2 <= logLen demo_run.1.2 /\ commitIndex demo_run.1.2 = 3.
Proof.
  pose proof (append_entries_commit 5 demo_req demo_node demo_store
    demo_run.1.1 demo_run.1.2 demo_run.2 demo_node_wf ltac:(split; done) ltac:(repeat split)
    ltac:(done) ltac:(split; done) demo_run_eta) as Hc.
  assert (aer_Success demo_run.1.1 = true) as Hs by (vm_compute; reflexivity).
  destruct (Hc Hs) as [Hle Heq].
  split; [exact Hle|]. rewrite Heq. reflexivity.
Defined.

Lemma append_entries_commit_regression_witness :
  let n := set_commitIndex 2 demo_node in
  exists n', handleAppendEntries 5 (Some demo_heartbeat) n demo_store
             = (mkAppendRes 2 true, n', demo_store) /\
    commitIndex n' = 1 /\ commitIndex n' < 2.
Proof.
  apply (append_entries_commit_regression 5 demo_heartbeat (set_commitIndex 2 demo_node) demo_store 1).
  - split; done.
  - done.
  - done.
  - done.
  - done.
  - reflexivity.
  - done.
  - done.
Defined.
