(* ===== verification/RaftElection.v ===== *)
(** * Elections (election.go and the vote handlers of rpc_handlers.go)

    Pre-vote and vote handlers, the candidate's side of both rounds, and the
    transition to leader.  A handler takes the decoded request ([None] when
    the payload does not decode) and the clock.  The two collection loops
    ([runPreVote], [startElection]) consume an explicit list of the events
    their [select] statements receive. *)
From S2P Require Import Prelude RaftTypes RaftNode.
From Stdlib Require Import ZArith Lia.
From stdpp Require Import base gmap list.
#[local] Open Scope Z_scope.

(** ** Handlers *)

Definition handlePreVote (now : Z) (msg : option PreVoteRequest) (n : Node) : PreVoteResponse :=
  match msg with
  | None => mkPreVoteRes (currentTerm n) false
  | Some req =>
      let resp := mkPreVoteRes (currentTerm n) false in
      if decide (pv_Term req < currentTerm n) then resp
      else if decide (now - lastContact n < ElectionTimeout (config n) /\ leaderId n <> []) then resp
      else if negb (isLogUpToDate n (pv_LastLogIndex req) (pv_LastLogTerm req)) then resp
      else mkPreVoteRes (currentTerm n) true
  end.

Definition handleRequestVote (now : Z) (msg : option RequestVoteRequest) (n : Node)
  : RequestVoteResponse * Node :=
  match msg with
  | None => (mkVoteRes (currentTerm n) false, n)
  | Some req =>
      if decide (rv_Term req < currentTerm n) then (mkVoteRes (currentTerm n) false, n)
      else
        let n := if decide (currentTerm n < rv_Term req)
                 then set_votedFor [] (set_state Follower (set_currentTerm (rv_Term req) n))
                 else n in
        if bool_decide (votedFor n = [] \/ votedFor n = rv_CandidateId req)
           && isLogUpToDate n (rv_LastLogIndex req) (rv_LastLogTerm req)
        then (mkVoteRes (currentTerm n) true,
              set_lastContact now (set_votedFor (rv_CandidateId req) n))
        else (mkVoteRes (currentTerm n) false, n)
  end.

(** ** The pre-vote round *)

(** [needed := (len(peers)+1)/2 + 1]. *)
Definition needed (peers : list bytes) : Z := Z.quot (len peers + 1) 2 + 1.

(** The reply evaluation of [sendPreVote]; [None] is a transport or decode
    error. *)
Definition preVoteGranted (term : Z) (resp : option PreVoteResponse) : bool :=
  match resp with
  | None => false
  | Some r => if decide (term < pvr_Term r) then false else pvr_VoteGranted r
  end.

Inductive prevote_event : Type :=
| PreVoteResult (granted : bool)
| PreVoteDeadline
| PreVoteStop.

(** The loop of [runPreVote]; [None] while it is still waiting for events. *)
Fixpoint preVoteLoop (remaining : nat) (need grants : Z) (events : list prevote_event)
  : option bool :=
  match remaining with
  | O => Some (bool_decide (need <= grants))
  | S remaining =>
      match events with
      | [] => None
      | PreVoteResult true :: events =>
          if decide (need <= grants + 1) then Some true
          else preVoteLoop remaining need (grants + 1) events
      | PreVoteResult false :: events => preVoteLoop remaining need grants events
      | PreVoteDeadline :: _ => Some (bool_decide (need <= grants))
      | PreVoteStop :: _ => Some false
      end
  end.

Definition runPreVote (n : Node) (events : list prevote_event) : option bool :=
  let peers := Peers (config n) in
  match peers with
  | [] => Some true
  | _ => preVoteLoop (length peers) (needed peers) 1 events
  end.

(** The request that [runPreVote] sends: the hypothetical next term. *)
Definition preVoteRequest (n : Node) : PreVoteRequest :=
  let '(lastLogIndex, lastLogTerm) := lastLogIndexTerm n in
  mkPreVoteReq (wrap64 (currentTerm n + 1)) (NodeID (config n)) lastLogIndex lastLogTerm.

(** The guard of [runElectionTimer]. *)
Definition shouldStart (now timeout : Z) (n : Node) : bool :=
  bool_decide (state n <> Leader /\ timeout <= now - lastContact n).

(** ** The election round *)

(** The first critical section of [startElection]. *)
Definition beginElection (now : Z) (n : Node) : Node :=
  set_lastContact now
    (set_votedFor (NodeID (config n))
      (set_state Candidate (set_currentTerm (wrap64 (currentTerm n + 1)) n))).

Definition voteRequest (n : Node) : RequestVoteRequest :=
  let '(lastLogIndex, lastLogTerm) := lastLogIndexTerm n in
  mkVoteReq (currentTerm n) (NodeID (config n)) lastLogIndex lastLogTerm.

(** The reply processing of [requestVote]. *)
Definition requestVote (resp : option RequestVoteResponse) (n : Node) : bool * Node :=
  match resp with
  | None => (false, n)
  | Some r =>
      if decide (currentTerm n < rvr_Term r)
      then (false, set_votedFor [] (set_state Follower (set_currentTerm (rvr_Term r) n)))
      else (rvr_VoteGranted r, n)
  end.

Definition setAll (peers : list bytes) (v : Z) (m : gmap bytes Z) : gmap bytes Z :=
  foldl (fun m peer => <[peer := v]> m) m peers.

Definition becomeLeader (n : Node) : Node :=
  let n := set_leaderId (NodeID (config n)) (set_state Leader n) in
  let nextAbs := wrap64 (logLen n + 1) in
  set_matchIndex (setAll (Peers (config n)) 0 (matchIndex n))
    (set_nextIndex (setAll (Peers (config n)) nextAbs (nextIndex n)) n).

(** The promotion under the lock: only a candidate still in the term of its
    election becomes leader. *)
Definition winElection (term : Z) (n : Node) : Node :=
  if decide (state n = Candidate /\ currentTerm n = term) then becomeLeader n else n.

Inductive vote_event : Type :=
| VoteResult (granted : bool)
| VoteTimeout
| VoteStop.

Inductive tally : Type := Won | Lost | Stopped | Waiting.

(** The collection loop of [startElection]: one event per peer, and the
    majority test after each. *)
Fixpoint voteLoop (remaining : nat) (need votes : Z) (events : list vote_event) : tally :=
  match remaining with
  | O => Lost
  | S remaining =>
      match events with
      | [] => Waiting
      | VoteStop :: _ => Stopped
      | ev :: events =>
          let votes := match ev with VoteResult true => votes + 1 | _ => votes end in
          if decide (need <= votes) then Won else voteLoop remaining need votes events
      end
  end.

(** [startElection] after its first critical section. *)
Definition collectVotes (n : Node) (events : list vote_event) : tally :=
  let peers := Peers (config n) in
  if decide (needed peers <= 1) then Won
  else voteLoop (length peers) (needed peers) 1 events.

(** ** Lemmas *)

Lemma needed_majority peers : needed peers = (len peers + 1) / 2 + 1.
Proof.
  unfold needed. pose proof (len_nonneg peers). rewrite Z.quot_div_nonneg by lia. done.
Qed.

(** The up-to-date test is the lexicographic order on (term, index). *)
Lemma isLogUpToDate_spec n li lt :
  isLogUpToDate n li lt = true <->
  let '(mi, mt) := lastLogIndexTerm n in mt < lt \/ mt = lt /\ mi <= li.
Proof.
  unfold isLogUpToDate. destruct (lastLogIndexTerm n) as [mi mt].
  case_decide; rewrite bool_decide_eq_true; lia.
Qed.

(** What a vote request can do to the voter. *)
Lemma handleRequestVote_cases now req n res n' :
  handleRequestVote now (Some req) n = (res, n') ->
  (rvr_VoteGranted res = false /\
    (n' = n \/ currentTerm n < rv_Term req /\
       n' = set_votedFor [] (set_state Follower (set_currentTerm (rv_Term req) n)))) \/
  (rvr_VoteGranted res = true /\ rvr_Term res = rv_Term req /\
   currentTerm n <= rv_Term req /\ currentTerm n' = rv_Term req /\
   votedFor n' = rv_CandidateId req /\ config n' = config n /\
   isLogUpToDate n (rv_LastLogIndex req) (rv_LastLogTerm req) = true /\
   (currentTerm n = rv_Term req ->
      (votedFor n = [] \/ votedFor n = rv_CandidateId req) /\ state n' = state n) /\
   (currentTerm n < rv_Term req -> state n' = Follower)).
Proof.
  unfold handleRequestVote. case_decide; [intros [= <- <-]; auto|].
  case_decide as Ht.
  - simpl. destruct (isLogUpToDate _ _ _) eqn:Eu; rewrite ?andb_true_r, ?andb_false_r.
    + intros [= <- <-]. right. simpl.
      assert (isLogUpToDate n (rv_LastLogIndex req) (rv_LastLogTerm req) = true) by exact Eu.
      repeat split; try done; try lia; intros; lia.
    + intros [= <- <-]. left. simpl. auto.
  - destruct (isLogUpToDate _ _ _) eqn:Eu; rewrite ?andb_true_r, ?andb_false_r.
    + case_bool_decide as Hv; intros [= <- <-]; [right|left]; simpl; [|auto].
      repeat split; try done; try lia; intros; lia.
    + intros [= <- <-]. left. simpl. auto.
Qed.
