(* ===== verification/RaftReplication.v ===== *)
(** * Replication on the leader (replication.go, propose.go, Submit)

    The snapshot of leader state that an AppendEntries RPC carries, the
    processing of its reply, the commit rule, the apply loop, and the client
    entry points.  Blocking waits consume an explicit list of events. *)
From S2P Require Import Prelude RaftTypes RaftNode WalStore RaftAppend.
From Stdlib Require Import ZArith Lia.
From stdpp Require Import base gmap list strings.
#[local] Open Scope Z_scope.

(** A read of a Go [map[string]uint64]: the zero value when absent. *)
Definition mapGet (m : gmap bytes Z) (k : bytes) : Z := default 0 (m !! k).

(** ** Sending *)

Definition needsSnapshotCatchUp (peer : bytes) (n : Node) : bool :=
  if decide (state n <> Leader) then false
  else if decide (snapshotIndex n = 0) then false
  else match nextIndex n !! peer with
       | None => false
       | Some nextIdx => bool_decide (nextIdx <= snapshotIndex n)
       end.

Record appendSnapshot : Type := mkAppendSnapshot {
  as_term : Z;
  as_nextIdx : Z;
  as_prevLogIndex : Z;
  as_prevLogTerm : Z;
  as_leaderCommit : Z;
  as_entries : list LogEntry;
}.

(** [cloneLogEntries] copies: the result has the same fields. *)
Definition cloneLogEntries (entries : list LogEntry) : list LogEntry :=
  (fun e => mkEntry (Index e) (Term e) (Command e)) <$> entries.

Definition appendEntriesSnapshot (peer : bytes) (n : Node) : option appendSnapshot :=
  if decide (state n <> Leader) then None
  else
    let nextIdx := mapGet (nextIndex n) peer in
    let prevLogIndex := wrap64 (nextIdx - 1) in
    let prevLogTerm :=
      if decide (0 < prevLogIndex) then default 0 (termAt n prevLogIndex) else 0 in
    let entries :=
      match sliceIndex n nextIdx with
      | Some slot => cloneLogEntries (drop (Z.to_nat slot) (log n))
      | None => []
      end in
    Some (mkAppendSnapshot (currentTerm n) nextIdx prevLogIndex prevLogTerm (commitIndex n) entries).

(** The request that [sendAppendEntries] builds from it. *)
Definition appendRequest (n : Node) (s : appendSnapshot) : AppendEntriesRequest :=
  mkAppendReq (as_term s) (NodeID (config n)) (advertiseAddr n) (as_prevLogIndex s)
              (as_prevLogTerm s) (as_entries s) (as_leaderCommit s).

(** ** Commitment *)

Definition countMatches (i : Z) (peers : list bytes) (m : gmap bytes Z) : Z :=
  foldl (fun c peer => if decide (i <= mapGet m peer) then c + 1 else c) 1 peers.

Definition committable (n : Node) (i : Z) : Prop :=
  termAt n i = Some (currentTerm n) /\
  Z.quot (len (Peers (config n)) + 1) 2 < countMatches i (Peers (config n)) (matchIndex n).

#[export] Instance committable_dec n i : Decision (committable n i).
Proof. unfold committable. apply _. Defined.

(** The loop [for i := ...; i <= n.logLen(); i++]. *)
Fixpoint commitLoop (fuel : nat) (i : Z) (n : Node) : Node :=
  match fuel with
  | O => n
  | S fuel =>
      if decide (i <= logLen n) then
        commitLoop fuel (wrap64 (i + 1)) (if decide (committable n i) then set_commitIndex i n else n)
      else n
  end.

(** One iteration per index above the commit index; the last unit of fuel is
    the failing loop test. *)
Definition updateCommitIndex (n : Node) : Node :=
  commitLoop (S (Z.to_nat (logLen n - commitIndex n))) (wrap64 (commitIndex n + 1)) n.

(** A reply with a larger term: back to follower. *)
Definition stepDown (term : Z) (n : Node) : Node :=
  set_votedFor [] (set_state Follower (set_currentTerm term n)).

(** [sendAppendEntries] after the RPC; [None] is a transport or decode error. *)
Definition handleAppendReply (peer : bytes) (s : appendSnapshot)
    (resp : option AppendEntriesResponse) (n : Node) : Node :=
  match resp with
  | None => n
  | Some r =>
      if decide (currentTerm n < aer_Term r) then stepDown (aer_Term r) n
      else if decide (state n <> Leader \/ currentTerm n <> as_term s \/
                      mapGet (nextIndex n) peer <> as_nextIdx s) then n
      else if aer_Success r then
        let next := wrap64 (as_nextIdx s + len (as_entries s)) in
        updateCommitIndex
          (set_matchIndex (<[peer := wrap64 (next - 1)]> (matchIndex n))
            (set_nextIndex (<[peer := next]> (nextIndex n)) n))
      else if decide (1 < mapGet (nextIndex n) peer)
      then set_nextIndex (<[peer := wrap64 (mapGet (nextIndex n) peer - 1)]> (nextIndex n)) n
      else n
  end.

(** ** Application *)

(** [applyCh] is buffered with capacity 100 and the send never blocks. *)
Definition offerApply (e : LogEntry) (n : Node) : Node :=
  if decide (length (applyCh n) < 100)%nat then set_applyCh (applyCh n ++ [e]) n else n.

(** One turn of the inner loop of [applyLoop]: the entry handed to [onApply],
    if it is in memory. *)
Definition applyStep (n : Node) : option (option LogEntry * Node) :=
  if decide (lastApplied n < commitIndex n) then
    let n := set_lastApplied (wrap64 (lastApplied n + 1)) n in
    match entryAt n (lastApplied n) with
    | None => Some (None, n)
    | Some e => Some (Some e, offerApply e n)
    end
  else None.

Fixpoint applyPass (fuel : nat) (n : Node) : list LogEntry * Node :=
  match fuel with
  | O => ([], n)
  | S fuel =>
      match applyStep n with
      | None => ([], n)
      | Some (oe, n) =>
          let '(es, n) := applyPass fuel n in
          (match oe with Some e => e :: es | None => es end, n)
      end
  end.

(** The inner loop of [applyLoop] until it catches up with the commit index. *)
Definition applyCommitted (n : Node) : list LogEntry * Node :=
  applyPass (Z.to_nat (commitIndex n - lastApplied n)) n.

(** ** Client entry points *)

Inductive submit_err : Type :=
| ErrNotLeader | ErrTimeout | ErrShutdown | ErrContext
| ErrPersist (e : wal_err).

(** First critical section of [Submit]: the reserved entry, the published
    length and the node with the entry appended. *)
Definition submitReserve (command : bytes) (n : Node) : option (LogEntry * Z * Node) :=
  if decide (state n <> Leader) then None
  else
    let entry := mkEntry (wrap64 (logLen n + 1)) (currentTerm n) command in
    let n := set_log (log n ++ [entry]) n in
    Some (entry, len (log n), n).

(** Critical section of the persist-failure branch. *)
Definition submitRollback (entry : LogEntry) (publishedLen : Z) (n : Node) : Node :=
  match last (log n) with
  | Some e =>
      if decide (len (log n) = publishedLen /\ Index e = Index entry)
      then set_log (take (length (log n) - 1) (log n)) n else n
  | None => n
  end.

Inductive wait_event : Type :=
| WaitCtxDone | WaitDeadline | WaitStop | WaitPoll (commitIndex : Z).

(** The polling loop of [replicateEntry]; [None] while still waiting. *)
Fixpoint replicateWait (entry : LogEntry) (events : list wait_event) : option (result submit_err unit) :=
  match events with
  | [] => None
  | WaitCtxDone :: _ => Some (Err ErrContext)
  | WaitDeadline :: _ => Some (Err ErrTimeout)
  | WaitStop :: _ => Some (Err ErrShutdown)
  | WaitPoll c :: events =>
      if decide (Index entry <= c) then Some (Ok tt) else replicateWait entry events
  end.

Section Submit.
Context {W : Type} `{!WalStore W}.

(** [Submit] up to [replicateEntry], without another goroutine in between:
    an error, or the entry whose commitment is awaited. *)
Definition Submit (command : bytes) (n : Node) (w : W) : result submit_err LogEntry * Node * W :=
  match submitReserve command n with
  | None => (Err ErrNotLeader, n, w)
  | Some (entry, publishedLen, n) =>
      match persistEntry entry n w with
      | (Some e, w) => (Err (ErrPersist e), submitRollback entry publishedLen n, w)
      | (None, w) => (Ok entry, updateCommitIndex n, w)
      end
  end.

End Submit.

Inductive propose_route : Type :=
| ProposeContextErr
| ProposeSubmit
| ProposeNoLeader
| ProposeForward (leaderAddr : bytes) (command : bytes).

(** The routing decision of [Propose]. *)
Definition Propose (ctxDone : bool) (command : bytes) (n : Node) : propose_route :=
  if ctxDone then ProposeContextErr
  else if decide (state n = Leader) then ProposeSubmit
  else if decide (leaderAddr n = []) then ProposeNoLeader
  else ProposeForward (leaderAddr n) command.

Inductive forward_decision : Type :=
| ForwardDecodeError | ForwardEmpty | ForwardNotLeader
| ForwardSubmit (command : bytes) (timeout : Z).

(** [handleForwardProposal] up to its call of [Submit]. *)
Definition handleForwardProposal (msg : option bytes) (n : Node) : forward_decision :=
  match msg with
  | None => ForwardDecodeError
  | Some command =>
      if decide (len command = 0) then ForwardEmpty
      else if decide (state n <> Leader) then ForwardNotLeader
      else ForwardSubmit command
             (if decide (CommitTimeout (config n) <= 0) then 5 * second else CommitTimeout (config n))
  end.
