(* ===== verification/RaftReplicationProofs.v ===== *)
(** * Replication: commitment, one AppendEntries round, application

    The commit rule picks the largest index of the current term that a
    majority stores; a successful round makes the follower agree with the
    leader on every index the leader records as matched; the apply loop hands
    over each committed entry once and in order; and [Submit] either leaves a
    durable entry or no trace in the log. *)
From S2P Require Import Prelude Crypto FileIO RaftTypes EntryJson Wal WalProofs RaftNode.
From S2P Require Import WalStore RaftAppend RaftAppendProofs RaftReplication.
From Stdlib Require Import ZArith Lia.
From stdpp Require Import base gmap list strings.
#[local] Open Scope Z_scope.

(** ** The commit rule *)

Lemma committable_set_commit c n i : committable (set_commitIndex c n) i <-> committable n i.
Proof. done. Qed.

Lemma set_commitIndex_twice c d n : set_commitIndex c (set_commitIndex d n) = set_commitIndex c n.
Proof. done. Qed.

Lemma set_commitIndex_id n : set_commitIndex (commitIndex n) n = n.
Proof. by destruct n. Qed.

(** The loop from [i] with enough fuel: only [commitIndex] changes, to the
    largest committable index from [i] on. *)
Lemma commitLoop_spec fuel i n :
  0 <= i -> logLen n < 2 ^ 64 - 1 -> logLen n - i < Z.of_nat fuel -> i <= logLen n + 1 ->
  exists c, commitLoop fuel i n = set_commitIndex c n /\
    (c = commitIndex n \/ i <= c <= logLen n /\ committable n c) /\
    (forall j, i <= j <= logLen n -> committable n j -> j <= c).
Proof.
  revert i n. induction fuel as [|fuel IH]; intros i n Hi Hl Hf Hle.
  - exists (commitIndex n). simpl. rewrite set_commitIndex_id.
    split; [done|]. split; [auto|]. lia.
  - simpl. case_decide as Hd.
    + rewrite wrap64_small by (unfold u64_ok; lia).
      set (n1 := if decide (committable n i) then set_commitIndex i n else n).
      assert (logLen n1 = logLen n) as El by (unfold n1; by case_decide).
      destruct (IH (i + 1) n1) as (c & Hc & Hor & Hmax); [lia..|].
      assert (forall j, committable n1 j <-> committable n j) as Hcom
        by (intros j; unfold n1; by case_decide).
      exists c. rewrite Hc. split; [unfold n1; by case_decide|].
      rewrite El in *. setoid_rewrite Hcom in Hmax. rewrite Hcom in Hor. split.
      * destruct Hor as [->|[? ?]]; [|right; split; [lia|done]].
        unfold n1. case_decide; [right; simpl; split; [lia|done]|by left].
      * intros j Hj Hcj. destruct (decide (j = i)) as [->|]; [|apply Hmax; [lia|done]].
        destruct Hor as [->|[? ?]]; [|lia]. unfold n1. rewrite decide_True by done. done.
    + exists (commitIndex n). rewrite set_commitIndex_id. split; [done|]. split; [auto|]. lia.
Qed.

Lemma updateCommitIndex_full n :
  0 <= commitIndex n < 2 ^ 64 - 1 -> logLen n < 2 ^ 64 - 1 ->
  exists c, updateCommitIndex n = set_commitIndex c n /\
    (c = commitIndex n \/ commitIndex n < c <= logLen n /\ committable n c) /\
    (forall j, commitIndex n < j <= logLen n -> committable n j -> j <= c).
Proof.
  intros Hc Hl. unfold updateCommitIndex. rewrite wrap64_small by (unfold u64_ok; lia).
  destruct (decide (commitIndex n <= logLen n)) as [Hle|Hgt].
  - destruct (commitLoop_spec (S (Z.to_nat (logLen n - commitIndex n))) (commitIndex n + 1) n)
      as (c & E & Hor & Hm); [lia..|].
    exists c. split; [done|]. split.
    + destruct Hor as [|[]]; [by left|right; split; [lia|done]].
    + intros j Hj. apply Hm. lia.
  - exists (commitIndex n). simpl. rewrite decide_False by lia. rewrite set_commitIndex_id.
    split; [done|]. split; [auto|lia].
Qed.

Lemma commitLoop_set fuel i n : exists c, commitLoop fuel i n = set_commitIndex c n.
Proof.
  revert i n. induction fuel as [|fuel IH]; intros i n; simpl.
  - exists (commitIndex n). by rewrite set_commitIndex_id.
  - case_decide; [|exists (commitIndex n); by rewrite set_commitIndex_id].
    edestruct IH as [c ->]. exists c. by case_decide.
Qed.

Lemma updateCommitIndex_match n : matchIndex (updateCommitIndex n) = matchIndex n.
Proof. unfold updateCommitIndex. edestruct commitLoop_set as [c ->]. done. Qed.

Lemma updateCommitIndex_next n : nextIndex (updateCommitIndex n) = nextIndex n.
Proof. unfold updateCommitIndex. edestruct commitLoop_set as [c ->]. done. Qed.

(** The number of matching peers. *)
Lemma countMatches_count i peers m :
  countMatches i peers m = 1 + len (filter (fun p => i <= mapGet m p) peers).
Proof.
  unfold countMatches.
  enough (forall a, foldl (fun c p => if decide (i <= mapGet m p) then c + 1 else c) a peers
                    = a + len (filter (fun p => i <= mapGet m p) peers)) as H by apply H.
  induction peers as [|p ps IH]; intros a; simpl; [by rewrite Z.add_0_r|].
  rewrite IH, filter_cons. case_decide; rewrite ?len_cons; lia.
Qed.

(** C6. [updateCommitIndex] changes nothing but [commitIndex]; it never lowers
    it; a raised value is an index of the leader's own term whose entry, by the
    leader's records, is stored by more than half of the cluster (the leader
    included); and no larger index of the log has both properties.  In
    particular the fuel of the loop always suffices. *)
Theorem update_commit_index n :
  log_wf n -> 0 <= commitIndex n < 2 ^ 64 - 1 ->
  let n' := updateCommitIndex n in
  n' = set_commitIndex (commitIndex n') n /\ commitIndex n <= commitIndex n' /\
  (commitIndex n < commitIndex n' ->
     commitIndex n' <= logLen n /\ termAt n (commitIndex n') = Some (currentTerm n) /\
     len (Peers (config n)) + 1 <
       2 * (1 + len (filter (fun p => commitIndex n' <= mapGet (matchIndex n) p) (Peers (config n))))) /\
  (forall j, commitIndex n' < j <= logLen n -> termAt n j = Some (currentTerm n) ->
     2 * (1 + len (filter (fun p => j <= mapGet (matchIndex n) p) (Peers (config n))))
       <= len (Peers (config n)) + 1).
Proof.
  intros Hwf Hc. pose proof (logLen_wf n Hwf). pose proof (wf_bound n Hwf).
  destruct (updateCommitIndex_full n) as (c & -> & Hor & Hm); [lia..|]. simpl.
  split; [done|]. split; [destruct Hor; lia|].
  pose proof (len_nonneg (Peers (config n))).
  split.
  - intros Hlt. destruct Hor as [|[? [Ht Hq]]]; [lia|].
    rewrite countMatches_count in Hq. split; [lia|]. split; [done|].
    rewrite Z.quot_div_nonneg in Hq by lia.
    pose proof (Z.div_mod (len (Peers (config n)) + 1) 2 ltac:(lia)).
    pose proof (Z.mod_pos_bound (len (Peers (config n)) + 1) 2 ltac:(lia)). lia.
  - intros j Hj Ht. apply Z.nlt_ge. intros Hlt. enough (j <= c) by lia.
    apply Hm; [destruct Hor; lia|]. split; [done|]. rewrite countMatches_count.
    rewrite Z.quot_div_nonneg by lia.
    apply Z.div_lt_upper_bound; lia.
Qed.

(** ** One AppendEntries round *)

Lemma cloneLogEntries_id es : cloneLogEntries es = es.
Proof. unfold cloneLogEntries. rewrite <- (list_fmap_id es) at 2. apply list_fmap_ext. by intros ? []. Qed.

(** The snapshot of the leader's state for a peer inside the in-memory window. *)
Lemma appendEntriesSnapshot_wf peer n s :
  log_wf n -> appendEntriesSnapshot peer n = Some s ->
  snapshotIndex n < as_nextIdx s <= logLen n + 1 ->
  as_term s = currentTerm n /\ as_prevLogIndex s = as_nextIdx s - 1 /\
  as_entries s = drop (Z.to_nat (as_prevLogIndex s - logOffset n)) (log n) /\
  as_prevLogIndex s + len (as_entries s) = logLen n /\
  contiguous (as_prevLogIndex s + 1) (as_entries s).
Proof.
  intros Hwf Hs Hn. pose proof (logLen_wf n Hwf) as HL. pose proof (wf_bound n Hwf).
  pose proof (wf_offset n Hwf). destruct (log_wf_len n Hwf) as [Hl1 Hl2].
  rewrite (wf_snapshot n Hwf) in Hn. unfold appendEntriesSnapshot in Hs.
  case_decide; [done|]. injection Hs as <-. simpl in *.
  rewrite wrap64_small by (unfold u64_ok; lia).
  assert (match sliceIndex n (mapGet (nextIndex n) peer) with
          | Some slot => cloneLogEntries (drop (Z.to_nat slot) (log n)) | None => [] end
          = drop (Z.to_nat (mapGet (nextIndex n) peer - 1 - logOffset n)) (log n)) as ->.
  { unfold sliceIndex. rewrite offsetToSlot_spec by (done || unfold u64_ok; lia).
    case_decide; [rewrite cloneLogEntries_id; f_equal; lia|].
    rewrite drop_ge; [done|]. unfold len in *. lia. }
  split; [done|]. split; [done|]. split; [done|]. split.
  - unfold len in *. rewrite length_drop. lia.
  - replace (mapGet (nextIndex n) peer - 1 + 1)
      with (logOffset n + 1 + Z.of_nat (Z.to_nat (mapGet (nextIndex n) peer - 1 - logOffset n))) by lia.
    apply contiguous_drop; [unfold len in *; lia|apply Hwf].
Qed.

(** Every entry of the request is in the merged log, or is shadowed by a local
    entry of the same term. *)
Lemma merge_lookup l es j e :
  es !! j = Some e ->
  exists x, mergeLog l es !! j = Some x /\ Term x = Term e /\ (x = e \/ l !! j = Some x).
Proof.
  revert l j. induction es as [|y es IH]; intros l j Hj; [done|].
  destruct l as [|x l]; simpl; [eauto|]. case_decide as Ht; [|eauto].
  destruct j as [|j]; simpl in *; [simplify_eq; eauto|]. by apply IH.
Qed.

Lemma merged_lookup off l prev es i e :
  off < i -> prev < i -> (Z.to_nat (prev - off) <= length l)%nat ->
  es !! Z.to_nat (i - prev - 1) = Some e ->
  exists x, merged off l prev es !! Z.to_nat (i - off - 1) = Some x /\ Term x = Term e /\
            (x = e \/ l !! Z.to_nat (i - off - 1) = Some x).
Proof.
  intros Ho Hp Hl He. unfold merged.
  assert (length (take (Z.to_nat (prev - off)) l) = Z.to_nat (prev - off)) as Lt
    by (rewrite length_take; lia).
  rewrite lookup_app_r, Lt by lia.
  destruct (merge_lookup (drop (Z.to_nat (prev - off)) l) (drop (Z.to_nat (off - prev)) es)
              (Z.to_nat (i - off - 1) - Z.to_nat (prev - off)) e) as (x & Hx & Ht & Hor).
  { rewrite lookup_drop. rewrite <- He. f_equal. lia. }
  exists x. split; [done|]. split; [done|]. destruct Hor as [|Hor]; [by left|right].
  rewrite lookup_drop in Hor. rewrite <- Hor. f_equal. lia.
Qed.

Section Round.
Context {W : Type} `{!WalStore W}.

Lemma handleAppendEntries_success_term now req n (w : W) res n' w' :
  handleAppendEntries now (Some req) n w = (res, n', w') -> aer_Success res = true ->
  currentTerm n <= ae_Term req /\ aer_Term res = currentTerm n'.
Proof.
  unfold handleAppendEntries. case_decide; [by intros [= <- <- <-]|].
  case_decide; [by intros [= <- <- <-]|].
  destruct (appendLoop _ _ _ _ _) as [[[] n1] w1]; intros [= <- <- <-]; [|done].
  intros _. split; [lia|done].
Qed.

(** A prefix check that passed lies in the log or at its boundary. *)
Lemma termAt_Some_bound n i t :
  log_wf n -> u64_ok i -> termAt n i = Some t -> i <= logLen n.
Proof.
  intros Hwf Hu. unfold termAt. pose proof (logLen_wf n Hwf). pose proof (wf_offset n Hwf).
  pose proof (len_nonneg (log n)). pose proof (wf_snapshot n Hwf).
  case_decide; [lia|]. case_decide; [lia|]. destruct (entryAt n i) as [e|] eqn:E; [|done].
  apply entryAt_lookup in E as [? _]; [lia|done|done].
Qed.

(** C5. One complete round that succeeds. A leader takes its snapshot for a peer whose
    [nextIndex] lies in the in-memory window, both logs being well formed; the peer
    processes the request and answers success. Then at every index above the previous
    one and above the peer's own log offset, up to the end of the leader's log at send
    time, the peer holds an entry of the leader's term there, which is the leader's
    entry or one that the peer already had; and a leader that is still leader in that
    term with the same [nextIndex] for the peer records exactly the end of the sent
    log as matched. Of indices that the peer has compacted, of a peer that answers
    otherwise and of a leader that has moved on nothing is said. *)
Theorem replication_round now peer n1 s n2 (w : W) res n2' w' m :
  log_wf n1 -> log_wf n2 ->
  appendEntriesSnapshot peer n1 = Some s ->
  snapshotIndex n1 < as_nextIdx s <= logLen n1 + 1 ->
  handleAppendEntries now (Some (appendRequest n1 s)) n2 w = (res, n2', w') ->
  aer_Success res = true ->
  state m = Leader -> currentTerm m = as_term s -> mapGet (nextIndex m) peer = as_nextIdx s ->
  log_wf n2' /\
  (forall i, Z.max (as_prevLogIndex s) (logOffset n2) < i <= logLen n1 ->
     exists e x, entryAt n1 i = Some e /\ entryAt n2' i = Some x /\ Term x = Term e /\
       (x = e \/ entryAt n2 i = Some x)) /\
  mapGet (matchIndex (handleAppendReply peer s (Some res) m)) peer = logLen n1 /\
  mapGet (nextIndex (handleAppendReply peer s (Some res) m)) peer = logLen n1 + 1.
Proof.
  intros W1 W2 Hs Hn Hrun Hok Hst Htm Hnx.
  destruct (appendEntriesSnapshot_wf _ _ _ W1 Hs Hn) as (Eterm & Eprev & Ees & Elen & Hc).
  pose proof (logLen_wf n1 W1). pose proof (wf_bound n1 W1). pose proof (wf_offset n1 W1).
  pose proof (wf_snapshot n1 W1). pose proof (logLen_wf n2 W2). pose proof (wf_bound n2 W2).
  pose proof (wf_offset n2 W2).
  destruct (handleAppendEntries_success_term _ _ _ _ _ _ _ Hrun Hok) as [Hle Hrt].
  assert (u64_ok (as_prevLogIndex s)) as Hu by (unfold u64_ok; lia).
  assert (Hrun' := Hrun).
  eapply handleAppendEntries_spec in Hrun' as (W2' & Hct & Hoff & _ & _ & Hres); [|simpl; done || lia..].
  destruct (Hres Hok) as (Hprev & Hlog & _). clear Hres.
  simpl in Hct, Hprev, Hlog, Hle.
  split; [done|]. split.
  - intros i Hi. destruct (entryAt_in n1 i W1) as (e & He & _); [lia|].
    assert (Z.to_nat (as_prevLogIndex s - logOffset n2) <= length (log n2))%nat as Hl2.
    { destruct Hprev as [->|Ht]; [lia|]. apply termAt_Some_bound in Ht; [unfold len in *; lia|done..]. }
    apply entryAt_lookup in He as (Hi1 & Hlk & _); [|done|unfold u64_ok; lia].
    destruct (merged_lookup (logOffset n2) (log n2) (as_prevLogIndex s) (as_entries s) i e)
      as (x & Hx & Ht & Hor); [lia|lia|done| |].
    { rewrite Ees, lookup_drop. rewrite <- Hlk. f_equal. lia. }
    assert (i <= logLen n2') as Hin.
    { rewrite (logLen_wf n2' W2'), Hoff, Hlog. apply lookup_lt_Some in Hx. unfold len. lia. }
    exists e, x. rewrite !entryAt_wf by (done || unfold u64_ok; lia).
    rewrite Hoff, Hlog, !decide_True by lia. split; [done|]. split; [done|]. split; [done|].
    destruct Hor as [|Hor]; [by left|right]. rewrite decide_True; [done|].
    apply lookup_lt_Some in Hor. unfold len in *. lia.
  - assert (handleAppendReply peer s (Some res) m =
      updateCommitIndex (set_matchIndex (<[peer := logLen n1]> (matchIndex m))
        (set_nextIndex (<[peer := logLen n1 + 1]> (nextIndex m)) m))) as ->.
    { unfold handleAppendReply. rewrite decide_False by (rewrite Hrt, Hct; lia).
      rewrite decide_False by tauto. rewrite Hok. cbv zeta.
      replace (as_nextIdx s + len (as_entries s)) with (logLen n1 + 1) by lia.
      rewrite (wrap64_small (logLen n1 + 1)), Z.add_simpl_r, wrap64_small by (unfold u64_ok; lia).
      done. }
    rewrite updateCommitIndex_match, updateCommitIndex_next. simpl. unfold mapGet.
    by rewrite !lookup_insert_eq.
Qed.

End Round.

(** ** Application *)

(** The entries with index in [(a, c]] of a log whose slice starts after [off]. *)
Definition applied_range (off : Z) (l : list LogEntry) (a c : Z) : list LogEntry :=
  drop (Z.to_nat (a - off)) (take (Z.to_nat (c - off)) l).

Lemma applied_range_step off l a c :
  off <= a < c -> c <= off + len l ->
  exists e, l !! Z.to_nat (a - off) = Some e /\
            applied_range off l a c = e :: applied_range off l (a + 1) c.
Proof.
  intros Ha Hc. unfold applied_range, len in *.
  destruct (lookup_lt_is_Some_2 l (Z.to_nat (a - off))) as [e He]; [lia|].
  exists e. split; [done|]. rewrite (drop_S _ e (Z.to_nat (a - off))).
  - f_equal. f_equal. lia.
  - rewrite lookup_take_lt by lia. done.
Qed.

Definition offerAll (es : list LogEntry) (n : Node) : Node :=
  set_applyCh (applyCh n ++ take (100 - length (applyCh n)) es) n.

Lemma offerAll_nil n : offerAll [] n = n.
Proof. unfold offerAll. rewrite take_nil, app_nil_r. by destruct n. Qed.

Lemma offerAll_cons e es n : offerAll es (offerApply e n) = offerAll (e :: es) n.
Proof.
  unfold offerAll, offerApply. case_decide as Hd; simpl.
  - rewrite length_app, <- app_assoc. simpl.
    by replace (100 - length (applyCh n))%nat with (S (100 - (length (applyCh n) + 1)))%nat by lia.
  - replace (100 - length (applyCh n))%nat with 0%nat by lia. done.
Qed.

Lemma applyPass_spec fuel n :
  log_wf n -> 0 <= lastApplied n -> commitIndex n <= logLen n ->
  commitIndex n - lastApplied n = Z.of_nat fuel ->
  applyPass fuel n =
    (applied_range (logOffset n) (log n) (lastApplied n) (commitIndex n),
     set_lastApplied (commitIndex n)
       (offerAll (applied_range (logOffset n) (log n) (lastApplied n) (commitIndex n)) n)).
Proof.
  revert n. induction fuel as [|fuel IH]; intros n Hwf Ha Hc Hf.
  - assert (lastApplied n = commitIndex n) as E by lia.
    unfold applied_range. rewrite E, drop_ge by (rewrite length_take; lia).
    rewrite offerAll_nil, <- E. simpl. by destruct n.
  - pose proof (logLen_wf n Hwf). pose proof (wf_bound n Hwf). pose proof (wf_offset n Hwf).
    simpl. unfold applyStep. rewrite decide_True by lia.
    rewrite (wrap64_small (lastApplied n + 1)) by (unfold u64_ok; lia). simpl.
    change (entryAt (set_lastApplied (lastApplied n + 1) n) (lastApplied n + 1))
      with (entryAt n (lastApplied n + 1)).
    destruct (decide (logOffset n <= lastApplied n)) as [Hin|Hout].
    + destruct (applied_range_step (logOffset n) (log n) (lastApplied n) (commitIndex n))
        as (e & He & ->); [lia..|].
      rewrite entryAt_wf, decide_True by (done || unfold u64_ok; lia).
      replace (lastApplied n + 1 - logOffset n - 1) with (lastApplied n - logOffset n) by lia.
      rewrite He, IH.
      * rewrite <- offerAll_cons. unfold offerApply. simpl. case_decide; done.
      * unfold offerApply. simpl. case_decide; split; apply Hwf.
      * unfold offerApply. case_decide; simpl; lia.
      * unfold offerApply. case_decide; exact Hc.
      * unfold offerApply. case_decide; simpl; lia.
    + rewrite entryAt_out by (done || unfold u64_ok; lia).
      rewrite IH; [|split; apply Hwf|simpl; lia|exact Hc|simpl; lia]. simpl.
      unfold applied_range. replace (Z.to_nat (lastApplied n + 1 - logOffset n)) with 0%nat by lia.
      by replace (Z.to_nat (lastApplied n - logOffset n)) with 0%nat by lia.
Qed.

(** C7. The apply loop hands the state machine exactly the entries with
    indices above [lastApplied] (and above the snapshot that already contains
    the others) up to the commit index, each once and in index order, whatever
    the later commits; [lastApplied] ends at the commit index; the buffered
    channel receives the prefix that fits its capacity; a second pass without
    a new commit applies nothing. *)
Theorem apply_committed_once n es n' :
  log_wf n -> 0 <= lastApplied n <= commitIndex n -> commitIndex n <= logLen n ->
  applyCommitted n = (es, n') ->
  es = drop (Z.to_nat (lastApplied n - logOffset n))
         (take (Z.to_nat (commitIndex n - logOffset n)) (log n)) /\
  (forall k e, es !! k = Some e ->
     Index e = Z.max (lastApplied n) (logOffset n) + 1 + Z.of_nat k /\ entryAt n (Index e) = Some e) /\
  lastApplied n' = commitIndex n /\ log n' = log n /\
  applyCh n' = applyCh n ++ take (100 - length (applyCh n)) es /\
  applyCommitted n' = ([], n').
Proof.
  intros Hwf Ha Hc Hrun. unfold applyCommitted in Hrun.
  rewrite applyPass_spec in Hrun by (done || lia). injection Hrun as <- <-.
  split; [done|]. split; [|split; [done|]; split; [done|]; split; [done|]].
  - intros k e. unfold applied_range. rewrite lookup_drop.
    intros Hk. apply lookup_take_Some in Hk as [Hk Hlt].
    pose proof (logLen_wf n Hwf). pose proof (wf_bound n Hwf). pose proof (wf_offset n Hwf).
    assert (Index e = Z.max (lastApplied n) (logOffset n) + 1 + Z.of_nat k) as Hi.
    { rewrite (contiguous_lookup _ _ _ _ (wf_contiguous n Hwf) Hk). lia. }
    split; [done|]. assert (Hln := lookup_lt_Some _ _ _ Hk).
    rewrite entryAt_wf by (done || unfold u64_ok, len in *; lia).
    rewrite decide_True by (unfold len in *; lia). rewrite <- Hk. f_equal. lia.
  - unfold applyCommitted. simpl. by rewrite Z.sub_diag.
Qed.

(** ** Client submissions *)

Section SubmitProofs.
Context {W : Type} `{!WalStore W}.

(** [Submit].  On a node that is not the leader nothing changes.  On the
    leader, either the new entry has the next index and the current term, is
    the last entry of the log, and memory and write-ahead log agree again; or
    persistence failed, the node is exactly as before and the error is
    reported. *)
Theorem submit_durable_or_rolled_back command n (w : W) r n' w' :
  log_wf n -> logLen n + 1 < 2 ^ 63 -> walAttached n = true -> durable n w ->
  ws_storable (mkEntry (logLen n + 1) (currentTerm n) command) ->
  Submit command n w = (r, n', w') ->
  match r with
  | Ok e =>
      state n = Leader /\ e = mkEntry (logLen n + 1) (currentTerm n) command /\
      log n' = log n ++ [e] /\ log_wf n' /\ durable n' w' /\
      n' = updateCommitIndex (set_log (log n ++ [e]) n)
  | Err ErrNotLeader => state n <> Leader /\ n' = n /\ w' = w
  | Err err => state n = Leader /\ n' = n /\ exists pe, err = ErrPersist pe
  end.
Proof.
  intros Hwf Hb Hatt Hd Hst. pose proof (logLen_wf n Hwf). pose proof (wf_offset n Hwf).
  pose proof (len_nonneg (log n)).
  unfold Submit, submitReserve. case_decide as Hs; [by intros [= <- <- <-]|].
  assert (state n = Leader) as Hl by (destruct (state n); done || (exfalso; by apply Hs)).
  rewrite wrap64_small by (unfold u64_ok; lia). set (e := mkEntry (logLen n + 1) (currentTerm n) command).
  simpl. destruct (persistEntry e (set_log (log n ++ [e]) n) w) as [[err|] w1] eqn:E; intros [= <- <- <-].
  - split; [done|]. split; [|eauto]. unfold submitRollback. simpl. rewrite last_snoc.
    rewrite decide_True by done. simpl. rewrite length_app, take_app_length' by (simpl; lia).
    by destruct n.
  - assert (durable (set_log (log n ++ [e]) n) w1) as Hd'.
    { eapply persistEntry_durable; [done|exact Hst| |done|exact E].
      rewrite (wf_snapshot n Hwf). simpl. lia. }
    assert (log_wf (set_log (log n ++ [e]) n)) as Hwf'.
    { apply log_wf_set_log; [done| |rewrite len_app, len_cons, len_nil; lia].
      apply contiguous_app. split; [apply Hwf|]. simpl. split; [lia|done]. }
    unfold updateCommitIndex. edestruct commitLoop_set as [c ->].
    split_and!; try done. split; apply Hwf'.
Qed.

End SubmitProofs.

(** ** Witnesses: a leader of three, one peer ahead of its records *)

Definition demo_leader : Node :=
  set_matchIndex {[ bs "b" := 2; bs "c" := 0 ]}
    (set_nextIndex {[ bs "b" := 3; bs "c" := 2 ]} (set_state Leader demo_node)).
Definition demo_follower : Node :=
  set_log [demo_e1] (set_currentTerm 1 (NewNode demo_cfg 0)).
Definition demo_snapshot : appendSnapshot :=
  mkAppendSnapshot 1 2 1 1 1 [demo_e2].

Lemma demo_leader_wf : log_wf demo_leader.
Proof. split; done. Qed.

Lemma update_commit_index_witness :
  commitIndex demo_leader = 1 /\ commitIndex (updateCommitIndex demo_leader) = 2 /\
  commitIndex demo_leader <= commitIndex (updateCommitIndex demo_leader).
Proof.
  split; [done|]. split; [reflexivity|].
  exact (proj1 (proj2 (update_commit_index demo_leader demo_leader_wf ltac:(split; done)))).
Defined.

Abbreviation demo_round :=
  (handleAppendEntries 7 (Some (appendRequest demo_leader demo_snapshot)) demo_follower demo_store).

Lemma replication_round_witness :
  aer_Success demo_round.1.1 = true /\
  (exists e x, entryAt demo_leader 2 = Some e /\ entryAt demo_round.1.2 2 = Some x /\ Term x = Term e /\
     (x = e \/ entryAt demo_follower 2 = Some x)) /\
  mapGet (matchIndex (handleAppendReply (bs "c") demo_snapshot (Some demo_round.1.1) demo_leader)) (bs "c")
    = logLen demo_leader.
Proof.
  assert (aer_Success demo_round.1.1 = true) as Hs by (vm_compute; reflexivity).
  destruct (replication_round 7 (bs "c") demo_leader demo_snapshot demo_follower demo_store
    demo_round.1.1 demo_round.1.2 demo_round.2 demo_leader demo_leader_wf ltac:(split; done)
    ltac:(vm_compute; reflexivity) ltac:(split; done) (triple_eta demo_round) Hs eq_refl eq_refl
    ltac:(vm_compute; reflexivity)) as (_ & Hag & Hm & _).
  split; [exact Hs|]. split; [|exact Hm]. exact (Hag 2 ltac:(split; done)).
Defined.

Lemma apply_committed_once_witness :
  exists n', applyCommitted (set_commitIndex 2 demo_leader) = ([demo_e1; demo_e2], n') /\
    lastApplied n' = 2 /\ applyCommitted n' = ([], n').
Proof.
  eexists. split; [reflexivity|].
  destruct (apply_committed_once (set_commitIndex 2 demo_leader) [demo_e1; demo_e2] _
    ltac:(split; done) ltac:(split; done) ltac:(done) ltac:(reflexivity)) as (_ & _ & Hl & _ & _ & Hn).
  split; [exact Hl|exact Hn].
Defined.

Abbreviation demo_submit := (Submit (bs "77") demo_leader demo_store).

Lemma submit_durable_or_rolled_back_witness :
  demo_submit.1.1 = Ok (mkEntry 3 1 (bs "77")) /\ durable demo_submit.1.2 demo_submit.2.
Proof.
  assert (demo_submit.1.1 = Ok (mkEntry 3 1 (bs "77"))) as Hok by (vm_compute; reflexivity).
  split; [exact Hok|].
  pose proof (submit_durable_or_rolled_back (bs "77") demo_leader demo_store
    demo_submit.1.1 demo_submit.1.2 demo_submit.2 demo_leader_wf ltac:(done) eq_refl demo_durable
    ltac:(repeat constructor; done) (triple_eta demo_submit)) as H.
  rewrite Hok in H. exact (proj1 (proj2 (proj2 (proj2 (proj2 H))))).
Defined.
