(* ===== verification/RaftSnapshot.v ===== *)
(** * Snapshot transfer, compaction and start-up
    (pending_snapshot.go, snapshot_rpc.go, snapshot_send.go, compact.go,
    persistence.go)

    Every operation runs in the state directory of [FileIO].  The node's write-
    ahead log is passed next to the node ([walAttached n] is [n.wal != nil]).
    The application's callbacks are parameters: [installer payload size index
    term a] is the [SnapshotInstaller] on a reader that yields [payload], and
    returns whether it succeeded, how many bytes it consumed, and the new
    application state; [provider a] is the [SnapshotProvider]. *)
From S2P Require Import Prelude Crypto FileIO RaftTypes Wal Snapshot RaftNode.
From Stdlib Require Import ZArith Lia.
From stdpp Require Import base gmap list strings.
#[local] Open Scope Z_scope.
#[local] Open Scope io_scope.

Definition pendingSnapshotFileName : bytes := bs "raft.snapshot.recv".

Inductive pend_err : Type :=
| ErrPendingSnapshotOverflow
| PendMkdir | PendOpen
| PendWriteMagic | PendWriteHeader | PendWriteCRC | PendWriteChunk
| PendNoFile | PendSizeOverflow | PendPatch | PendFsync | PendSeek
| PendRename.

#[export] Instance pend_err_eq_dec : EqDecision pend_err.
Proof. solve_decision. Defined.

Definition pendingSnapshotPathFor (stateDir : bytes) : bytes :=
  if decide (stateDir = []) then [] else pendingSnapshotFileName.

(** Removal of a spill file that a crashed transfer left behind. *)
Definition cleanupStalePendingSnapshot (stateDir : bytes) : IO unit :=
  let path := pendingSnapshotPathFor stateDir in
  if decide (path = []) then ret tt else do _ <- fs_remove path; ret tt.

(** ** The pending transfer *)

(** The in-memory fields that every reset clears. *)
Definition clearPending (n : Node) : Node :=
  set_pendingSnapshotCRC None (set_pendingSnapshotTerm 0
    (set_pendingSnapshotIndex 0 (set_pendingSnapshotExpected 0 n))).

(** The handle is closed, then the file removed; errors are only logged. *)
Definition closeSpill (n : Node) : IO Node :=
  if pendingSnapshotFile n
  then do _ <- fs_check; ret (set_pendingSnapshotFile false n)
  else ret n.

Definition removeSpill (n : Node) : IO Node :=
  if decide (pendingSnapshotPath n <> [])
  then do _ <- fs_remove (pendingSnapshotPath n); ret (set_pendingSnapshotPath [] n)
  else ret n.

Definition releasePendingSnapshot (n : Node) : IO Node :=
  do n <- closeSpill (clearPending (set_pendingSnapshot [] n));
  removeSpill n.

Definition writePendingSnapshotHeader (path : bytes) (lastIncludedIndex lastIncludedTerm : Z)
  : IO (option pend_err) :=
  do ok <- fs_write path snapshotMagic;
  if negb ok then ret (Some PendWriteMagic) else
  do ok <- fs_write path (put_uint64 lastIncludedIndex ++ put_uint64 lastIncludedTerm ++ put_uint32 0);
  if negb ok then ret (Some PendWriteHeader) else
  do ok <- fs_write path (put_uint32 0);
  if negb ok then ret (Some PendWriteCRC) else ret None.

(** [beginPendingSnapshot] after the release: the spill file and its header. *)
Definition openSpill (lastIncludedIndex lastIncludedTerm : Z) (n : Node) : IO (option pend_err * Node) :=
  if decide (stateDir n = []) then ret (None, n) else
  do ok <- fs_check; (* MkdirAll *)
  if negb ok then ret (Some PendMkdir, n) else
  do ok <- fs_create_trunc (pendingSnapshotPathFor (stateDir n));
  if negb ok then ret (Some PendOpen, n) else
  do e <- writePendingSnapshotHeader (pendingSnapshotPathFor (stateDir n))
            lastIncludedIndex lastIncludedTerm;
  match e with
  | Some err =>
      do _ <- fs_check; do _ <- fs_remove (pendingSnapshotPathFor (stateDir n)); ret (Some err, n)
  | None =>
      ret (None, set_pendingSnapshotCRC (Some 0)
                   (set_pendingSnapshotPath (pendingSnapshotPathFor (stateDir n))
                      (set_pendingSnapshotFile true n)))
  end.

Definition beginPendingSnapshot (lastIncludedIndex lastIncludedTerm : Z) (n : Node)
  : IO (option pend_err * Node) :=
  do n <- releasePendingSnapshot n;
  openSpill lastIncludedIndex lastIncludedTerm
    (set_pendingSnapshotTerm lastIncludedTerm (set_pendingSnapshotIndex lastIncludedIndex n)).

Definition appendPendingSnapshot (data : bytes) (n : Node) : IO (option pend_err * Node) :=
  let newSize := wrap64 (pendingSnapshotExpected n + len data) in
  if decide (maxSnapshotSize < newSize) then ret (Some ErrPendingSnapshotOverflow, n)
  else if pendingSnapshotFile n then
    do ok <- fs_write (pendingSnapshotPath n) data;
    if negb ok then ret (Some PendWriteChunk, n) else
    let n := set_pendingSnapshotCRC ((fun c => Crc32.update c data) <$> pendingSnapshotCRC n) n in
    ret (None, set_pendingSnapshotExpected newSize n)
  else
    ret (None, set_pendingSnapshotExpected newSize
                 (set_pendingSnapshot (pendingSnapshot n ++ data) n)).

Definition crcSum (h : option Z) : Z := default 0 h.

(** Ownership of the spill file passes to the caller: its path and the size of
    its data portion.  The spill handle is already detached when an I/O call
    fails. *)
Definition finalizePendingSnapshot (n : Node) : IO (result pend_err (bytes * Z) * Node) :=
  if negb (pendingSnapshotFile n) then ret (Err PendNoFile, n)
  else
    let path := pendingSnapshotPath n in
    let size := pendingSnapshotExpected n in
    let crc := pendingSnapshotCRC n in
    let n := clearPending (set_pendingSnapshotPath [] (set_pendingSnapshotFile false n)) in
    let fail e := (do _ <- fs_check; do _ <- fs_remove path; ret (Err e, n)) in
    if decide (MaxUint32 < size) then fail PendSizeOverflow else
    do ok <- fs_write_at path snapshotHeaderLenOffset (put_uint32 size ++ put_uint32 (crcSum crc));
    if negb ok then fail PendPatch else
    do ok <- fs_check; (* f.Sync *)
    if negb ok then fail PendFsync else
    do ok <- fs_check; (* f.Seek *)
    if negb ok then fail PendSeek else
    ret (Ok (path, size), n).

Definition drainPendingSnapshotInMemory (n : Node) : bytes * Node :=
  (pendingSnapshot n,
   set_pendingSnapshotTerm 0 (set_pendingSnapshotIndex 0
     (set_pendingSnapshotExpected 0 (set_pendingSnapshot [] n)))).

Definition finalizeAndRenamePendingSnapshot (spillPath : bytes) : IO (option pend_err) :=
  do ok <- fs_rename spillPath snapshotFileName;
  if negb ok then (do _ <- fs_remove spillPath; ret (Some PendRename)) else
  do _ <- syncSnapshotDir; ret None.

(** ** InstallSnapshot on the follower *)

(** The outcome of the handler's first critical section: a reply, or the
    spill file (or memory buffer) to install. *)
Inductive chunk_outcome : Type :=
| ChunkReply (r : InstallSnapshotResponse)
| ChunkFinalFile (path : bytes) (size : Z)
| ChunkFinalMem (data : bytes).

Definition snapReject (n : Node) : InstallSnapshotResponse := mkSnapRes (currentTerm n) false 0.

(** [newTransfer]. *)
Definition newTransfer (req : InstallSnapshotRequest) (n : Node) : bool :=
  bool_decide (is_Offset req = 0 \/ is_LastIncludedIndex req <> pendingSnapshotIndex n \/
               is_LastIncludedTerm req <> pendingSnapshotTerm n).

(** Term, identity and clock, as in AppendEntries. *)
Definition acceptSnapshotLeader (req : InstallSnapshotRequest) (now : Z) (n : Node) : Node :=
  let n := if decide (currentTerm n < is_Term req)
           then set_votedFor [] (set_currentTerm (is_Term req) n) else n in
  let n := set_leaderId (is_LeaderID req) (set_state Follower n) in
  let n := if decide (is_LeaderAddress req <> []) then set_leaderAddr (is_LeaderAddress req) n else n in
  set_lastContact now n.

(** From the reset of the transfer to the end of the first critical section. *)
Definition receiveChunk (req : InstallSnapshotRequest) (n : Node) : IO (chunk_outcome * Node) :=
  do '(e, n) <- (if newTransfer req n
                 then beginPendingSnapshot (is_LastIncludedIndex req) (is_LastIncludedTerm req) n
                 else ret (None, n));
  match e with
  | Some _ => ret (ChunkReply (snapReject n), n)
  | None =>
      if decide (is_Offset req <> pendingSnapshotExpected n) then
        do n <- releasePendingSnapshot n; ret (ChunkReply (snapReject n), n)
      else
        do '(e, n) <- appendPendingSnapshot (is_Data req) n;
        match e with
        | Some _ => do n <- releasePendingSnapshot n; ret (ChunkReply (snapReject n), n)
        | None =>
            if negb (is_Done req) then
              ret (ChunkReply (mkSnapRes (currentTerm n) true (pendingSnapshotExpected n)), n)
            else if decide (stateDir n <> []) then
              do '(r, n) <- finalizePendingSnapshot n;
              match r with
              | Err _ => ret (ChunkReply (snapReject n), n)
              | Ok (path, size) => ret (ChunkFinalFile path size, n)
              end
            else
              let '(data, n) := drainPendingSnapshotInMemory n in
              ret (ChunkFinalMem data, n)
        end
  end.

(** The last critical section: the node moves to the installed snapshot. *)
Definition adoptSnapshot (req : InstallSnapshotRequest) (n : Node) : Node :=
  let idx := is_LastIncludedIndex req in
  let n := set_snapshotTerm (is_LastIncludedTerm req) (set_snapshotIndex idx n) in
  let n := if decide (commitIndex n < idx) then set_commitIndex idx n else n in
  let n := if decide (lastApplied n < idx) then set_lastApplied idx n else n in
  let n := set_log (List.filter (fun e => bool_decide (idx < Index e)) (log n)) n in
  if decide (logOffset n < idx) then set_logOffset idx n else n.

Section Callbacks.
Context {A : Type}.
Context (installer : bytes -> Z -> Z -> Z -> A -> (bool * Z) * A).
Context (provider : A -> option (bytes * Z)).
Context `{EntryCodec}.

(** Running the installer over the assembled payload, and moving the spill
    file into place. *)
Definition installPayload (req : InstallSnapshotRequest) (file : option bytes)
    (payload : bytes) (size : Z) (a : A) : IO (bool * A) :=
  let '((ok, count), a) :=
    installer payload size (is_LastIncludedIndex req) (is_LastIncludedTerm req) a in
  let drop_spill := match file with
                    | Some path => do _ <- fs_check; do _ <- fs_remove path; ret tt
                    | None => ret tt
                    end in
  if negb ok then (do _ <- drop_spill; ret (false, a))
  else if decide (count <> size) then (do _ <- drop_spill; ret (false, a))
  else match file with
       | None => ret (true, a)
       | Some path =>
           do _ <- fs_check; (* f.Close *)
           do e <- finalizeAndRenamePendingSnapshot path;
           match e with Some _ => ret (false, a) | None => ret (true, a) end
       end.

(** The second half of the handler, from the installer on. *)
Definition finishInstall (req : InstallSnapshotRequest) (file : option bytes) (payload : bytes)
    (size : Z) (n : Node) (wal : WAL) (a : A)
  : IO (InstallSnapshotResponse * Node * WAL * A) :=
  do '(ok, a) <- installPayload req file payload size a;
  if negb ok then ret (snapReject n, n, wal, a)
  else
    let n := adoptSnapshot req n in
    let response := mkSnapRes (currentTerm n) true (wrap64 size) in
    if walAttached n then
      do '(warn, wal) <- TruncateBefore wal (wrap64 (is_LastIncludedIndex req + 1));
      ret (response, n, wal, a)
    else ret (response, n, wal, a).

Definition handleInstallSnapshot (now : Z) (msg : option InstallSnapshotRequest)
    (n : Node) (wal : WAL) (a : A) : IO (InstallSnapshotResponse * Node * WAL * A) :=
  match msg with
  | None => ret (snapReject n, n, wal, a)
  | Some req =>
      if decide (is_Term req < currentTerm n) then ret (snapReject n, n, wal, a)
      else if negb (hasInstaller n) then ret (snapReject n, n, wal, a)
      else
        let n := acceptSnapshotLeader req now n in
        if decide (is_LastIncludedIndex req <= snapshotIndex n /\ 0 < snapshotIndex n)
        then ret (mkSnapRes (currentTerm n) true 0, n, wal, a)
        else
          do '(out, n) <- receiveChunk req n;
          match out with
          | ChunkReply r => ret (r, n, wal, a)
          | ChunkFinalFile path size =>
              fun w => finishInstall req (Some path) (drop snapshotHeaderSize (contents w path))
                         size n wal a w
          | ChunkFinalMem data => finishInstall req None data (len data) n wal a
          end
  end.

(** ** Compaction *)

Inductive compact_err : Type :=
| CompactUnconfigured | CompactProvider | CompactNothing
| CompactNotAbove | CompactAboveCommit | CompactOutside
| CompactSave (e : snap_err) | CompactWal (e : wal_err).

(** The in-memory half of [CompactLog], after the snapshot is on disk. *)
Definition dropPrefix (appliedIdx lastTerm : Z) (n : Node) : Node :=
  let n := if decide (logOffset n < appliedIdx) then
             let k := match offsetToSlot (wrap64 (appliedIdx + 1)) (logOffset n) (len (log n)) with
                      | Some slot => slot
                      | None => len (log n)
                      end in
             set_log (drop (Z.to_nat k) (log n)) n
           else n in
  set_snapshotTerm lastTerm (set_snapshotIndex appliedIdx (set_logOffset appliedIdx n)).

Definition CompactLog (n : Node) (wal : WAL) (a : A) : IO (option compact_err * Node * WAL) :=
  if decide (stateDir n = [] \/ hasProvider n = false) then ret (Some CompactUnconfigured, n, wal)
  else
  match provider a with
  | None => ret (Some CompactProvider, n, wal)
  | Some (data, appliedIdx) =>
      if decide (appliedIdx = 0) then ret (Some CompactNothing, n, wal)
      else if decide (appliedIdx <= snapshotIndex n) then ret (Some CompactNotAbove, n, wal)
      else if decide (commitIndex n < appliedIdx) then ret (Some CompactAboveCommit, n, wal)
      else
        match termAt n appliedIdx with
        | None => ret (Some CompactOutside, n, wal)
        | Some lastTerm =>
            do e <- SaveSnapshot (stateDir n)
                      (mkSnapshot (mkMeta appliedIdx lastTerm (len data)) data);
            match e with
            | Some err => ret (Some (CompactSave err), n, wal)
            | None =>
                if decide (appliedIdx <= snapshotIndex n) then ret (None, n, wal)
                else
                  let n := dropPrefix appliedIdx lastTerm n in
                  if walAttached n then
                    do '(e, wal) <- TruncateBefore wal (wrap64 (appliedIdx + 1));
                    match e with
                    | Some err => ret (Some (CompactWal err), n, wal)
                    | None => ret (None, n, wal)
                    end
                  else ret (None, n, wal)
            end
        end
  end.

(** ** Start-up *)

Inductive load_err : Type :=
| LoadSnapshotErr (e : snap_err)
| ErrSnapshotInstallerRequired
| LoadWal (e : wal_err)
| LoadInstall
| LoadShortRead.

(** The replay loop of phase 5. *)
Definition replayEntry (n : Node) (e : LogEntry) : Node :=
  if decide (Index e <= snapshotIndex n) then n
  else
    let n := set_log (log n ++ [e]) n in
    if decide (currentTerm n < Term e) then set_currentTerm (Term e) n else n.

Definition adoptDiskSnapshot (meta : SnapshotMeta) (n : Node) : Node :=
  let idx := LastIncludedIndex meta in
  let n := set_lastApplied idx (set_commitIndex idx (set_logOffset idx
             (set_snapshotTerm (LastIncludedTerm meta) (set_snapshotIndex idx n)))) in
  if decide (currentTerm n < LastIncludedTerm meta)
  then set_currentTerm (LastIncludedTerm meta) n else n.

(** Phases 4 and 5: the installer, then the node's fields. *)
Definition loadApply (snap : option (bytes * SnapshotMeta)) (walEntries : list LogEntry)
    (n : Node) (a : A) : option load_err * Node * A :=
  match snap with
  | None => (None, foldl replayEntry n walEntries, a)
  | Some (r, meta) =>
      let '((ok, count), a) :=
        installer r (meta_Size meta) (LastIncludedIndex meta) (LastIncludedTerm meta) a in
      if negb ok then (Some LoadInstall, n, a)
      else if decide (count <> meta_Size meta) then (Some LoadShortRead, n, a)
      else (None, foldl replayEntry (adoptDiskSnapshot meta n) walEntries, a)
  end.

Definition LoadFromDisk (n : Node) (wal : WAL) (a : A) : IO (option load_err * Node * A) :=
  if decide (stateDir n = []) then ret (None, n, a) else
  do _ <- cleanupStalePendingSnapshot (stateDir n);
  do f <- LoadSnapshotReader (stateDir n);
  match (match f with
         | Ok (r, meta) => Ok (Some (r, meta))
         | Err ErrNoSnapshot => Ok None
         | Err e => Err e
         end) with
  | Err e => ret (Some (LoadSnapshotErr e), n, a)
  | Ok snap =>
      if decide (snap <> None /\ hasInstaller n = false)
      then ret (Some ErrSnapshotInstallerRequired, n, a)
      else
        do '(walEntries, werr) <- (if walAttached n then ReadAll wal else ret ([], None));
        match werr with
        | Some e =>
            if is_wal_corrupt e then ret (loadApply snap walEntries n a)
            else ret (Some (LoadWal e), n, a)
        | None => ret (loadApply snap walEntries n a)
        end
  end.

(** [SetStateDir]: binds the directory and opens the log, once. *)
Inductive attach_err : Type :=
| AttachDirRequired | AttachSecretRequired | AttachOpen (e : wal_err).

Definition SetStateDir (dir : bytes) (syncOnAppend : bool) (n : Node) (wal : WAL)
  : IO (option attach_err * Node * WAL) :=
  if decide (dir = []) then ret (Some AttachDirRequired, n, wal)
  else if walAttached n then ret (None, n, wal)
  else if decide (SharedSecret (config n) = []) then ret (Some AttachSecretRequired, n, wal)
  else
    do r <- OpenWAL dir (SharedSecret (config n)) syncOnAppend;
    match r with
    | Err e => ret (Some (AttachOpen e), n, wal)
    | Ok w => ret (None, set_stateDir dir (set_walAttached true n), w)
    end.

End Callbacks.

Definition SetSnapshotProvider (registered : bool) (n : Node) : Node := set_hasProvider registered n.
Definition SetSnapshotInstaller (registered : bool) (n : Node) : Node := set_hasInstaller registered n.

(** ** Sending a snapshot *)

Definition snapshotChunkSize : Z := 512 * 1024.

Inductive send_err : Type :=
| SendNoStateDir | SendLoad (e : snap_err) | SendContext
| SendTransport | ErrSnapshotRejected | SendOutOfFuel.

(** The reply processing of [exchangeSnapshotChunk]: [None] is a transport or
    decode error. *)
Definition exchangeSnapshotChunk (resp : option InstallSnapshotResponse) (n : Node)
  : result send_err bool * Node :=
  match resp with
  | None => (Err SendTransport, n)
  | Some out =>
      let n := if decide (currentTerm n < isr_Term out)
               then set_votedFor [] (set_state Follower (set_currentTerm (isr_Term out) n)) else n in
      (Ok (isr_Success out), n)
  end.

(** The peer as a transition system: how it answers one request. *)
Section Sending.
Context {P : Type} (peerStep : InstallSnapshotRequest -> P -> option InstallSnapshotResponse * P).

Definition chunkRequest (term : Z) (leaderID leaderAddr : bytes) (meta : SnapshotMeta)
    (offset : Z) (done : bool) (data : bytes) : InstallSnapshotRequest :=
  mkSnapReq term leaderID leaderAddr (LastIncludedIndex meta) (LastIncludedTerm meta) offset done data.

Definition sendChunk (req : InstallSnapshotRequest) (n : Node) (p : P)
  : option send_err * Node * P :=
  let '(resp, p) := peerStep req p in
  let '(r, n) := exchangeSnapshotChunk resp n in
  match r with
  | Err e => (Some e, n, p)
  | Ok false => (Some ErrSnapshotRejected, n, p)
  | Ok true => (None, n, p)
  end.

(** The chunk loop; [ctxErr] is [ctx.Err() != nil] before each chunk. *)
Fixpoint sendChunks (fuel : nat) (term : Z) (leaderID leaderAddr : bytes) (meta : SnapshotMeta)
    (data : bytes) (ctxErr : Z -> bool) (offset : Z) (n : Node) (p : P)
  : option send_err * Node * P :=
  if decide (offset < len data) then
    match fuel with
    | O => (Some SendOutOfFuel, n, p)
    | S fuel =>
        if ctxErr offset then (Some SendContext, n, p)
        else
          let e := offset + snapshotChunkSize in
          let e := if decide (len data < e) then len data else e in
          let chunk := take (Z.to_nat (e - offset)) (drop (Z.to_nat offset) data) in
          match sendChunk (chunkRequest term leaderID leaderAddr meta offset (bool_decide (e = len data)) chunk) n p with
          | (Some err, n, p) => (Some err, n, p)
          | (None, n, p) => sendChunks fuel term leaderID leaderAddr meta data ctxErr e n p
          end
    end
  else (None, n, p).

(** [SendInstallSnapshot] on a loaded snapshot. *)
Definition sendLoaded (peer : bytes) (snap : Snapshot) (ctxErr : Z -> bool) (n : Node) (p : P)
  : option send_err * Node * P :=
  let term := currentTerm n in
  let leaderID := NodeID (config n) in
  let addr := advertiseAddr n in
  let meta := Meta snap in
  let r :=
    if decide (len (Data snap) = 0)
    then sendChunk (chunkRequest term leaderID addr meta 0 true []) n p
    else sendChunks (S (length (Data snap))) term leaderID addr meta (Data snap) ctxErr 0 n p in
  match r with
  | (Some err, n, p) => (Some err, n, p)
  | (None, n, p) =>
      (None, set_matchIndex (<[peer := LastIncludedIndex meta]> (matchIndex n))
               (set_nextIndex (<[peer := wrap64 (LastIncludedIndex meta + 1)]> (nextIndex n)) n), p)
  end.

Definition SendInstallSnapshot (peer : bytes) (ctxErr : Z -> bool) (n : Node) (p : P)
  : IO (option send_err * Node * P) :=
  if decide (stateDir n = []) then ret (Some SendNoStateDir, n, p) else
  do s <- LoadSnapshot (stateDir n);
  match s with
  | Err e => ret (Some (SendLoad e), n, p)
  | Ok snap => ret (sendLoaded peer snap ctxErr n p)
  end.

End Sending.
