(* ===== verification/RaftSnapshotProofs.v ===== *)
(** * Snapshot transfer: what the follower ends with

    A transfer assembles, in the spill file, exactly the snapshot that the
    leader reads chunks from; the node adopts it only after the installer has
    consumed the whole payload and the file is in place; the node's log stays
    well formed. *)
From S2P Require Import Prelude Crypto FileIO RaftTypes EntryJson Wal Snapshot SnapshotProofs.
From S2P Require Import WalProofs RaftNode RaftSnapshot.
From Stdlib Require Import ZArith Lia.
From stdpp Require Import base gmap list strings.
#[local] Open Scope Z_scope.
#[local] Open Scope io_scope.

(** ** The node without its pending transfer *)

Definition core (n : Node) : Node :=
  clearPending (set_pendingSnapshotPath [] (set_pendingSnapshotFile false (set_pendingSnapshot [] n))).

(** A transfer in progress: the spill file holds the placeholder header and
    the payload [acc] so far, and the fields agree with it. *)
Record pending_ok (idx term : Z) (acc : bytes) (n : Node) (w : world) : Prop := {
  po_file : pendingSnapshotFile n = true;
  po_path : pendingSnapshotPath n = pendingSnapshotFileName;
  po_index : pendingSnapshotIndex n = idx;
  po_term : pendingSnapshotTerm n = term;
  po_expected : pendingSnapshotExpected n = len acc;
  po_bound : len acc <= maxSnapshotSize;
  po_crc : pendingSnapshotCRC n = Some (Crc32.checksum acc);
  po_contents : files w !! pendingSnapshotFileName =
    Some (snapshotMagic ++ (put_uint64 idx ++ put_uint64 term ++ put_uint32 0) ++ put_uint32 0 ++ acc);
}.

(** Nodes whose spill path, if any, is the spill file's. *)
Definition spill_named (n : Node) : Prop :=
  pendingSnapshotPath n = [] \/ pendingSnapshotPath n = pendingSnapshotFileName.

(** The pending fields do not show in the core. *)
Lemma core_idem n : core (core n) = core n.
Proof. destruct n. vm_compute. reflexivity. Qed.
Lemma core_clearPending n : core (clearPending n) = core n.
Proof. destruct n. vm_compute. reflexivity. Qed.
Lemma core_pendingSnapshot v n : core (set_pendingSnapshot v n) = core n.
Proof. destruct n. vm_compute. reflexivity. Qed.
Lemma core_pendingFile v n : core (set_pendingSnapshotFile v n) = core n.
Proof. destruct n. vm_compute. reflexivity. Qed.
Lemma core_pendingPath v n : core (set_pendingSnapshotPath v n) = core n.
Proof. destruct n. vm_compute. reflexivity. Qed.
Lemma core_pendingIndex v n : core (set_pendingSnapshotIndex v n) = core n.
Proof. destruct n. vm_compute. reflexivity. Qed.
Lemma core_pendingTerm v n : core (set_pendingSnapshotTerm v n) = core n.
Proof. destruct n. vm_compute. reflexivity. Qed.
Lemma core_pendingExpected v n : core (set_pendingSnapshotExpected v n) = core n.
Proof. destruct n. vm_compute. reflexivity. Qed.
Lemma core_pendingCRC v n : core (set_pendingSnapshotCRC v n) = core n.
Proof. destruct n. vm_compute. reflexivity. Qed.

Create Rewrite HintDb node.
#[export] Hint Rewrite core_idem core_clearPending core_pendingSnapshot core_pendingFile core_pendingPath
  core_pendingIndex core_pendingTerm core_pendingExpected core_pendingCRC : node.

Lemma closeSpill_spec n w n' w' :
  closeSpill n w = (n', w') -> n' = set_pendingSnapshotFile false n.
Proof.
  unfold closeSpill. destruct (pendingSnapshotFile n) eqn:Ef; intros Hrun.
  - io_step Hrun b w2 Ec. by injection Hrun as <- _.
  - injection Hrun as <- _. destruct n. simpl in Ef. by subst.
Qed.

Lemma removeSpill_spec n w n' w' :
  removeSpill n w = (n', w') -> n' = set_pendingSnapshotPath [] n.
Proof.
  unfold removeSpill. case_decide as Hp; intros Hrun.
  - io_step Hrun b w2 Ec. by injection Hrun as <- _.
  - injection Hrun as <- _. destruct n. simpl in *. by subst.
Qed.

#[local] Opaque closeSpill removeSpill.

Lemma core_eq n :
  set_pendingSnapshotPath [] (set_pendingSnapshotFile false (clearPending (set_pendingSnapshot [] n)))
  = core n.
Proof. destruct n. vm_compute. reflexivity. Qed.

Lemma releasePendingSnapshot_spec n w n' w' :
  releasePendingSnapshot n w = (n', w') -> n' = core n.
Proof.
  unfold releasePendingSnapshot. intros Hrun. io_step Hrun n1 w1 E1.
  apply closeSpill_spec in E1 as ->. apply removeSpill_spec in Hrun as ->. apply core_eq.
Qed.

#[local] Opaque releasePendingSnapshot.

Lemma writePendingSnapshotHeader_ok p idx term w w' :
  writePendingSnapshotHeader p idx term w = (None, w') ->
  files w' !! p = Some (contents w p ++ snapshotMagic ++
    (put_uint64 idx ++ put_uint64 term ++ put_uint32 0) ++ put_uint32 0).
Proof.
  intros Hrun. unfold writePendingSnapshotHeader in Hrun.
  io_step Hrun b1 w1 E1. destruct b1; cbn [negb] in Hrun; [|done]. apply fs_write_ok in E1.
  io_step Hrun b2 w2 E2. destruct b2; cbn [negb] in Hrun; [|done]. apply fs_write_ok in E2.
  io_step Hrun b3 w3 E3. destruct b3; cbn [negb] in Hrun; [|done]. apply fs_write_ok in E3.
  injection Hrun as <-. unfold contents in *.
  rewrite E3, lookup_insert_eq, E2, lookup_insert_eq, E1, lookup_insert_eq. simpl default.
  by rewrite <- !app_assoc.
Qed.

Lemma openSpill_ok idx term n w n' w' :
  stateDir n <> [] -> pendingSnapshotIndex n = idx -> pendingSnapshotTerm n = term ->
  pendingSnapshotExpected n = 0 -> openSpill idx term n w = ((None, n'), w') ->
  core n' = core n /\ pending_ok idx term [] n' w'.
Proof.
  intros Hd Hi Ht He. unfold openSpill. rewrite decide_False by done.
  assert (pendingSnapshotPathFor (stateDir n) = pendingSnapshotFileName) as ->
    by (unfold pendingSnapshotPathFor; by rewrite decide_False).
  intros Hrun. io_step Hrun b2 w2 E2. destruct b2; cbn [negb] in Hrun; [|done].
  io_step Hrun b3 w3 E3. destruct b3; cbn [negb] in Hrun; [|done]. apply fs_create_ok in E3.
  io_step Hrun e w4 E4. destruct e as [err|]; [io_bail Hrun|].
  apply writePendingSnapshotHeader_ok in E4. injection Hrun as <- <-.
  split; [by autorewrite with node|]. split; try done.
  rewrite E4. unfold contents. rewrite E3, lookup_insert_eq. simpl default. by rewrite app_nil_l, app_nil_r.
Qed.

#[local] Opaque openSpill.

Lemma beginPendingSnapshot_ok idx term n w n' w' :
  stateDir n <> [] -> beginPendingSnapshot idx term n w = ((None, n'), w') ->
  core n' = core n /\ pending_ok idx term [] n' w'.
Proof.
  intros Hd. unfold beginPendingSnapshot. intros Hrun. io_step Hrun n1 w1 E1.
  apply releasePendingSnapshot_spec in E1 as ->.
  apply openSpill_ok in Hrun as [Hc Hp]; [|done..]. split; [|done].
  rewrite Hc. by autorewrite with node.
Qed.

Lemma appendPendingSnapshot_ok idx term acc data n w n' w' :
  pending_ok idx term acc n w -> len data < 2 ^ 63 ->
  appendPendingSnapshot data n w = ((None, n'), w') ->
  core n' = core n /\ pending_ok idx term (acc ++ data) n' w'.
Proof.
  intros [Pf Pp Pi Pt Pe Pb Pc Pk] Hl Hrun. unfold appendPendingSnapshot in Hrun.
  pose proof (len_nonneg acc). pose proof (len_nonneg data).
  assert (maxSnapshotSize < 2 ^ 63) by done.
  rewrite Pe, Pf, Pp in Hrun. rewrite wrap64_small in Hrun by (unfold u64_ok; lia).
  case_decide; [done|]. io_step Hrun b1 w1 E1. destruct b1; cbn [negb] in Hrun; [|done].
  apply fs_write_ok in E1. injection Hrun as <- <-. split; [by autorewrite with node|].
  split; try done.
  - simpl. by rewrite len_app.
  - rewrite len_app. lia.
  - simpl. rewrite Pc. simpl. unfold Crc32.checksum. by rewrite Crc32.update_app.
  - rewrite E1, lookup_insert_eq. unfold contents. rewrite Pk. simpl default. by rewrite <- !app_assoc.
Qed.

Lemma overwrite_app a b d c :
  length b = length d -> overwrite (length a) d (a ++ b ++ c) = a ++ d ++ c.
Proof.
  intros Hl. unfold overwrite. rewrite take_app_length. f_equal. f_equal.
  rewrite <- Hl, <- length_app, app_assoc. apply drop_app_length.
Qed.

Lemma finalizePendingSnapshot_ok idx term acc n w path size n' w' :
  pending_ok idx term acc n w ->
  finalizePendingSnapshot n w = ((Ok (path, size), n'), w') ->
  path = pendingSnapshotFileName /\ size = len acc /\ core n' = core n /\
  pendingSnapshotPath n' = [] /\
  files w' !! pendingSnapshotFileName = Some (snapshot_image idx term acc).
Proof.
  intros [Pf Pp Pi Pt Pe Pb Pc Pk] Hrun. unfold finalizePendingSnapshot in Hrun.
  rewrite Pf in Hrun. cbn [negb] in Hrun. cbv zeta in Hrun. rewrite Pp, Pe, Pc in Hrun.
  case_decide; [io_bail Hrun|].
  io_step Hrun b1 w1 E1. destruct b1; cbn [negb] in Hrun; [|io_bail Hrun]. apply fs_write_at_ok in E1.
  io_step Hrun b2 w2 E2. apply check_files in E2. destruct b2; cbn [negb] in Hrun; [|io_bail Hrun].
  io_step Hrun b3 w3 E3. apply check_files in E3. destruct b3; cbn [negb] in Hrun; [|io_bail Hrun].
  injection Hrun as <- <- <- <-. split; [done|]. split; [done|].
  split; [by autorewrite with node|]. split; [done|].
  rewrite E3, E2, E1, lookup_insert_eq. f_equal. unfold contents. rewrite Pk. simpl default. simpl crcSum.
  unfold snapshot_image.
  pose proof (overwrite_app (snapshotMagic ++ put_uint64 idx ++ put_uint64 term)
    (put_uint32 0 ++ put_uint32 0) (put_uint32 (len acc) ++ put_uint32 (Crc32.checksum acc)) acc) as Ho.
  rewrite <- !app_assoc in Ho. rewrite <- !app_assoc. rewrite <- Ho; [done|].
  rewrite !length_app. by autorewrite with mx.
Qed.

#[local] Opaque beginPendingSnapshot appendPendingSnapshot finalizePendingSnapshot.

(** ** One chunk *)

(** A request that continues the transfer of [acc], or starts a new one. *)
Definition transfers (req : InstallSnapshotRequest) (acc : bytes) (n : Node) (w : world) : Prop :=
  newTransfer req n = true /\ acc = [] \/
  newTransfer req n = false /\
    pending_ok (is_LastIncludedIndex req) (is_LastIncludedTerm req) acc n w.

Lemma core_stateDir n m : core n = core m -> stateDir n = stateDir m.
Proof. intros H. exact (f_equal stateDir H). Qed.

Lemma core_log_wf n m : core n = core m -> log_wf m -> log_wf n.
Proof.
  intros C [H1 H2 H3 H4]. pose proof (f_equal logOffset C : logOffset n = logOffset m) as Eo.
  pose proof (f_equal log C : log n = log m) as El.
  pose proof (f_equal snapshotIndex C : snapshotIndex n = snapshotIndex m) as Es.
  split; rewrite ?Eo, ?El, ?Es; done.
Qed.

(** The state after the reset, if any. *)
Lemma receiveChunk_start req acc n w e n1 w1 :
  stateDir n <> [] -> transfers req acc n w ->
  (if newTransfer req n
   then beginPendingSnapshot (is_LastIncludedIndex req) (is_LastIncludedTerm req) n
   else ret (None, n)) w = ((e, n1), w1) ->
  e = None -> core n1 = core n /\
    pending_ok (is_LastIncludedIndex req) (is_LastIncludedTerm req) acc n1 w1.
Proof.
  intros Hd [[-> ->]|[-> Hp]] Hrun ->.
  - by apply beginPendingSnapshot_ok in Hrun.
  - by injection Hrun as <- <-.
Qed.

Definition is_reject (o : chunk_outcome) : bool :=
  match o with ChunkReply r => negb (isr_Success r) | _ => false end.

(** What an accepted chunk leaves: a longer transfer, or the finished file. *)
Lemma receiveChunk_ok req acc n w out n' w' :
  stateDir n <> [] -> transfers req acc n w -> len (is_Data req) < 2 ^ 63 ->
  receiveChunk req n w = ((out, n'), w') -> is_reject out = false ->
  core n' = core n /\ is_Offset req = len acc /\
  if is_Done req then
    out = ChunkFinalFile pendingSnapshotFileName (len (acc ++ is_Data req)) /\
    pendingSnapshotPath n' = [] /\
    files w' !! pendingSnapshotFileName =
      Some (snapshot_image (is_LastIncludedIndex req) (is_LastIncludedTerm req) (acc ++ is_Data req))
  else
    out = ChunkReply (mkSnapRes (currentTerm n) true (len (acc ++ is_Data req))) /\
    pending_ok (is_LastIncludedIndex req) (is_LastIncludedTerm req) (acc ++ is_Data req) n' w'.
Proof.
  intros Hd Ht Hl Hrun Hrej. unfold receiveChunk in Hrun. io_step Hrun p1 w1 E1.
  destruct p1 as [e n1]. destruct e as [err|]; [injection Hrun as <- <- <-; done|].
  eapply receiveChunk_start in E1 as [C1 P1]; [|done..].
  case_decide as Ho.
  { io_step Hrun n2 w2 E2. injection Hrun as <- <- <-. done. }
  io_step Hrun p2 w2 E2. destruct p2 as [e n2]. destruct e as [err|].
  { io_step Hrun n3 w3 E3. injection Hrun as <- <- <-. done. }
  rewrite (po_expected _ _ _ _ _ P1) in Ho.
  eapply appendPendingSnapshot_ok in E2 as [C2 P2]; [|done..].
  destruct (is_Done req); cbn [negb] in Hrun.
  - rewrite decide_True in Hrun by (rewrite (core_stateDir n2 n1), (core_stateDir n1 n); done).
    io_step Hrun p3 w3 E3. destruct p3 as [[[path size]|err] n3]; [|injection Hrun as <- <- <-; done].
    injection Hrun as <- <- <-.
    eapply finalizePendingSnapshot_ok in E3 as (-> & -> & C3 & Hp & Hf); [|done].
    split; [congruence|]. split; [lia|]. done.
  - injection Hrun as <- <- <-. split; [congruence|]. split; [lia|]. split; [|done].
    rewrite (po_expected _ _ _ _ _ P2). f_equal. f_equal.
    exact (f_equal currentTerm (eq_trans C2 C1)).
Qed.

#[local] Opaque receiveChunk.

(** ** Adopting the snapshot *)

Lemma adoptSnapshot_wf req n :
  log_wf n -> 0 <= is_LastIncludedIndex req < 2 ^ 63 ->
  ~ (is_LastIncludedIndex req <= snapshotIndex n /\ 0 < snapshotIndex n) ->
  let n' := adoptSnapshot req n in
  log_wf n' /\ snapshotIndex n' = is_LastIncludedIndex req /\
  snapshotTerm n' = is_LastIncludedTerm req /\
  commitIndex n' = Z.max (commitIndex n) (is_LastIncludedIndex req) /\
  lastApplied n' = Z.max (lastApplied n) (is_LastIncludedIndex req) /\
  log n' = List.filter (fun e => bool_decide (is_LastIncludedIndex req < Index e)) (log n).
Proof.
  intros Hwf Hi Hnb. rewrite (wf_snapshot n Hwf) in Hnb. pose proof (wf_offset n Hwf).
  pose proof (wf_bound n Hwf). set (idx := is_LastIncludedIndex req) in *.
  assert (logOffset (adoptSnapshot req n) = idx) as Ho.
  { unfold adoptSnapshot. fold idx. repeat case_decide; simpl in *; lia. }
  assert (log (adoptSnapshot req n) = List.filter (fun e => bool_decide (idx < Index e)) (log n)) as El.
  { unfold adoptSnapshot. fold idx. repeat case_decide; done. }
  cbv zeta. split.
  - rewrite (contiguous_filter_gt (logOffset n + 1)) in El by (apply Hwf || lia).
    split; rewrite ?Ho, ?El.
    + lia.
    + unfold len in *. rewrite length_drop. lia.
    + destruct (decide (Z.to_nat (idx + 1 - (logOffset n + 1)) <= length (log n))%nat).
      * replace (idx + 1) with (logOffset n + 1 + Z.of_nat (Z.to_nat (idx + 1 - (logOffset n + 1)))) at 1 by lia.
        apply contiguous_drop; [done|apply Hwf].
      * by rewrite drop_ge by lia.
    + unfold adoptSnapshot. fold idx. repeat case_decide; done.
  - unfold adoptSnapshot. fold idx. split_and!; repeat case_decide; simpl in *; try done; lia.
Qed.

(** The log never touches the snapshot file. *)
Lemma append_all_snap `{EntryCodec} w p es :
  wal_file w = HOpen p -> p <> snapshotFileName -> preserves snapshotFileName (append_all w es).
Proof.
  intros Hp Hne. induction es as [|e es IH]; simpl; [pres|].
  apply preserves_bind; [|intros []; [pres|done]].
  unfold appendLocked, file_write. rewrite Hp. pres.
Qed.

Lemma TruncateBefore_snap `{EntryCodec} w k : preserves snapshotFileName (TruncateBefore w k).
Proof.
  unfold TruncateBefore, filterRewrite. apply preserves_bind.
  { intros wd. unfold readAllLocked. by destruct (wal_file w). }
  assert (forall keep, preserves snapshotFileName (rewriteLocked w keep)) as Hr.
  { intros keep. unfold rewriteLocked. apply preserves_bind.
    - unfold buildTmp. pres. by apply (append_all_snap _ walRewriteName).
    - intros []; [pres|]. pres. }
  intros [entries [err|]]; [case_match|]; [apply Hr|pres|apply Hr].
Qed.

#[local] Opaque TruncateBefore adoptSnapshot.

Lemma acceptSnapshotLeader_fields req now n :
  let m := acceptSnapshotLeader req now n in
  log m = log n /\ logOffset m = logOffset n /\ snapshotIndex m = snapshotIndex n /\
  snapshotTerm m = snapshotTerm n /\ commitIndex m = commitIndex n /\ lastApplied m = lastApplied n /\
  stateDir m = stateDir n /\ walAttached m = walAttached n /\ hasInstaller m = hasInstaller n /\
  currentTerm m = Z.max (currentTerm n) (is_Term req).
Proof. unfold acceptSnapshotLeader. repeat case_decide; split_and!; simpl; try done; lia. Qed.

Lemma acceptSnapshotLeader_wf req now n : log_wf n -> log_wf (acceptSnapshotLeader req now n).
Proof.
  intros [H1 H2 H3 H4]. pose proof (acceptSnapshotLeader_fields req now n) as (El & Eo & Es & _).
  split; rewrite ?El, ?Eo, ?Es; done.
Qed.

Lemma acceptSnapshotLeader_pending idx term acc req now n w :
  pending_ok idx term acc n w -> pending_ok idx term acc (acceptSnapshotLeader req now n) w.
Proof. intros [H1 H2 H3 H4 H5 H6 H7 H8]. unfold acceptSnapshotLeader. repeat case_decide; by split. Qed.

Lemma acceptSnapshotLeader_transfers req acc now n w :
  transfers req acc n w -> transfers req acc (acceptSnapshotLeader req now n) w.
Proof.
  assert (newTransfer req (acceptSnapshotLeader req now n) = newTransfer req n) as E
    by (unfold acceptSnapshotLeader; repeat case_decide; done).
  unfold transfers. rewrite E. intros [?|[? ?]]; [by left|right]. split; [done|].
  by apply acceptSnapshotLeader_pending.
Qed.

(** The log and the snapshot are as before. *)
Definition same_log (n n' : Node) : Prop :=
  log n' = log n /\ logOffset n' = logOffset n /\ snapshotIndex n' = snapshotIndex n /\ snapshotTerm n' = snapshotTerm n
  /\ commitIndex n' = commitIndex n /\ lastApplied n' = lastApplied n.

Lemma same_log_accept req now n : same_log n (acceptSnapshotLeader req now n).
Proof. unfold acceptSnapshotLeader. by repeat case_decide. Qed.

#[local] Opaque acceptSnapshotLeader.

Section Handler.
Context {A : Type} (installer : bytes -> Z -> Z -> Z -> A -> (bool * Z) * A) `{EntryCodec}.
Implicit Types (a : A) (n : Node) (w : world).

Lemma installPayload_ok req path payload size a w a' w' :
  path <> snapshotFileName ->
  installPayload installer req (Some path) payload size a w = ((true, a'), w') ->
  installer payload size (is_LastIncludedIndex req) (is_LastIncludedTerm req) a = ((true, size), a') /\
  files w' !! snapshotFileName = files w !! path.
Proof.
  intros Hne. unfold installPayload.
  destruct (installer _ _ _ _ _) as [[ok count] a1] eqn:Ei. intros Hrun.
  destruct ok; cbn [negb] in Hrun; [|io_bail Hrun].
  case_decide as Hc; [io_bail Hrun|]. assert (count = size) as -> by lia.
  io_step Hrun b w1 E1. apply check_files in E1.
  io_step Hrun e w2 E2. destruct e as [err|]; [done|]. injection Hrun as <- <-. split; [done|].
  unfold finalizeAndRenamePendingSnapshot in E2. io_step E2 b2 w3 E3.
  apply fs_rename_inv in E3 as [[-> F3]|(-> & d & Hd & F3)]; cbn [negb] in E2; [io_bail E2|].
  io_step E2 u w4 E4. injection E2 as <-.
  apply (preserves_run snapshotFileName) in E4; [|apply preserves_syncDir].
  by rewrite E4, F3, lookup_insert_eq, <- E1, Hd.
Qed.

#[local] Opaque installPayload.

(** A final chunk that is acknowledged.  The payload is the concatenation
    of the chunks accepted since offset 0; it was handed to the installer, which
    succeeded and consumed all of it; [raft.snapshot] holds exactly that
    snapshot; and the node has moved to it: its snapshot index and term, its
    commit and apply indices at least there, its log the entries above it, still
    well formed. *)
Theorem install_snapshot_done now req n wal a w acc res n' wal' a' w' :
  log_wf n -> stateDir n <> [] -> 0 <= is_LastIncludedIndex req < 2 ^ 63 ->
  len (is_Data req) < 2 ^ 63 ->
  ~ (is_LastIncludedIndex req <= snapshotIndex n /\ 0 < snapshotIndex n) ->
  transfers req acc n w -> is_Done req = true ->
  handleInstallSnapshot installer now (Some req) n wal a w = ((res, n', wal', a'), w') ->
  isr_Success res = true ->
  let idx := is_LastIncludedIndex req in
  let payload := acc ++ is_Data req in
  is_Offset req = len acc /\
  files w' !! snapshotFileName = Some (snapshot_image idx (is_LastIncludedTerm req) payload) /\
  installer payload (len payload) idx (is_LastIncludedTerm req) a = ((true, len payload), a') /\
  log_wf n' /\ snapshotIndex n' = idx /\ snapshotTerm n' = is_LastIncludedTerm req /\
  commitIndex n' = Z.max (commitIndex n) idx /\ lastApplied n' = Z.max (lastApplied n) idx /\
  log n' = List.filter (fun e => bool_decide (idx < Index e)) (log n).
Proof.
  intros Hwf Hd Hi Hl Hnb Ht Hdone Hrun Hs. unfold handleInstallSnapshot in Hrun.
  case_decide; [injection Hrun as <- _ _ _ _; done|].
  destruct (hasInstaller n); cbn [negb] in Hrun; [|injection Hrun as <- _ _ _ _; done].
  pose proof (acceptSnapshotLeader_fields req now n) as (El & Eo & Es & _ & Ec & Ea & Ed & Ew & _).
  pose proof (acceptSnapshotLeader_wf req now n Hwf) as Hwf1.
  apply (acceptSnapshotLeader_transfers _ _ now) in Ht.
  cbv zeta in Hrun. set (m := acceptSnapshotLeader req now n) in *. clearbody m.
  rewrite decide_False in Hrun by (rewrite Es; done).
  io_step Hrun p w1 E1. destruct p as [out n1]. assert (is_reject out = false) as Hrej.
  { destruct out; [|done..]. injection Hrun as -> _ _ _ _. simpl. by rewrite Hs. }
  eapply receiveChunk_ok in E1 as (C1 & Hoff & E1); [|congruence|done..].
  rewrite Hdone in E1. destruct E1 as (-> & _ & Hf1). split; [done|].
  unfold finishInstall in Hrun. io_step Hrun p w2 E2. destruct p as [ok a1].
  destruct ok; cbn [negb] in Hrun; [|injection Hrun as <- _ _ _ _; done].
  apply installPayload_ok in E2 as [Hin Hf2]; [|done]. rewrite Hf1 in Hf2.
  unfold contents in Hin. rewrite Hf1 in Hin. simpl default in Hin.
  assert (drop snapshotHeaderSize (snapshot_image (is_LastIncludedIndex req) (is_LastIncludedTerm req)
    (acc ++ is_Data req)) = acc ++ is_Data req) as Edr by apply drop_snapshot_image.
  rewrite Edr in Hin.
  pose proof (core_log_wf n1 m C1 Hwf1) as Hwf2.
  assert (snapshotIndex n1 = snapshotIndex m) as Es1 by exact (f_equal snapshotIndex C1).
  destruct (adoptSnapshot_wf req n1 Hwf2 Hi ltac:(rewrite Es1, Es; done)) as (W & S1 & S2 & S3 & S4 & S5).
  assert (n' = adoptSnapshot req n1 /\ a' = a1 /\ files w' !! snapshotFileName = files w2 !! snapshotFileName)
    as (-> & -> & Hf3).
  { destruct (walAttached (adoptSnapshot req n1)); [|by injection Hrun as _ <- _ <- <-].
    io_step Hrun p w3 E3. destruct p as [warn wal1]. injection Hrun as _ <- _ <- <-.
    split; [done|]. split; [done|]. apply (preserves_run snapshotFileName) in E3; [done|apply TruncateBefore_snap]. }
  assert (commitIndex n1 = commitIndex m) as Ec1 by exact (f_equal commitIndex C1).
  assert (lastApplied n1 = lastApplied m) as Ea1 by exact (f_equal lastApplied C1).
  assert (log n1 = log m) as El1 by exact (f_equal log C1).
  rewrite Ec1, Ec in S3. rewrite Ea1, Ea in S4. rewrite El1, El in S5.
  split; [congruence|]. done.
Qed.

(** A chunk in the middle of a transfer. *)
Lemma install_snapshot_chunk now req n wal a w acc res n' wal' a' w' :
  log_wf n -> stateDir n <> [] -> len (is_Data req) < 2 ^ 63 ->
  ~ (is_LastIncludedIndex req <= snapshotIndex n /\ 0 < snapshotIndex n) ->
  transfers req acc n w -> is_Done req = false ->
  handleInstallSnapshot installer now (Some req) n wal a w = ((res, n', wal', a'), w') ->
  isr_Success res = true ->
  log_wf n' /\ stateDir n' = stateDir n /\ snapshotIndex n' = snapshotIndex n /\
  commitIndex n' = commitIndex n /\ log n' = log n /\ a' = a /\
  pending_ok (is_LastIncludedIndex req) (is_LastIncludedTerm req) (acc ++ is_Data req) n' w'.
Proof.
  intros Hwf Hd Hl Hnb Ht Hdone Hrun Hs. unfold handleInstallSnapshot in Hrun.
  case_decide; [injection Hrun as <- _ _ _ _; done|].
  destruct (hasInstaller n); cbn [negb] in Hrun; [|injection Hrun as <- _ _ _ _; done].
  pose proof (acceptSnapshotLeader_fields req now n) as (El & Eo & Es & _ & Ec & Ea & Ed & Ew & _).
  pose proof (acceptSnapshotLeader_wf req now n Hwf) as Hwf1.
  apply (acceptSnapshotLeader_transfers _ _ now) in Ht.
  cbv zeta in Hrun. set (m := acceptSnapshotLeader req now n) in *. clearbody m.
  rewrite decide_False in Hrun by (rewrite Es; done).
  io_step Hrun p w1 E1. destruct p as [out n1]. assert (is_reject out = false) as Hrej.
  { destruct out; [|done..]. injection Hrun as -> _ _ _ _. simpl. by rewrite Hs. }
  eapply receiveChunk_ok in E1 as (C1 & Hoff & E1); [|congruence|done..].
  rewrite Hdone in E1. destruct E1 as (-> & P1). injection Hrun as _ <- _ <- <-.
  split; [by eapply core_log_wf|]. rewrite <- Ed, <- Es, <- Ec, <- El.
  split; [exact (f_equal stateDir C1)|]. split; [exact (f_equal snapshotIndex C1)|].
  split; [exact (f_equal commitIndex C1)|]. split; [exact (f_equal log C1)|]. done.
Qed.

(** A follower whose snapshot reaches the boundary acknowledges without installing. *)
Lemma handle_covered now req n wal a w res n' wal' a' w' :
  0 < is_LastIncludedIndex req <= snapshotIndex n ->
  handleInstallSnapshot installer now (Some req) n wal a w = ((res, n', wal', a'), w') ->
  same_log n n' /\ wal' = wal /\ a' = a /\ w' = w.
Proof.
  intros Hc Hh. unfold handleInstallSnapshot, ret in Hh. destruct (decide (is_Term req < currentTerm n)).
  { injection Hh as <- <- <- <- <-. done. }
  destruct (hasInstaller n); cbn [negb] in Hh; [|by injection Hh as <- <- <- <- <-].
  assert (same_log n (acceptSnapshotLeader req now n)) as Hk by apply same_log_accept.
  rewrite decide_True in Hh by (destruct Hk as (_ & _ & -> & _); lia).
  injection Hh as <- <- <- <- <-. done.
Qed.

#[local] Opaque handleInstallSnapshot.

(** The follower as the peer of [SendInstallSnapshot]. *)
Definition deliver (now : Z) (req : InstallSnapshotRequest) (p : Node * WAL * A * world)
  : option InstallSnapshotResponse * (Node * WAL * A * world) :=
  let '(n, wal, a, w) := p in
  let '((r, n, wal, a), w) := handleInstallSnapshot installer now (Some req) n wal a w in
  (Some r, (n, wal, a, w)).

Lemma sendChunk_deliver now req nl n wal a w nl' n' wal' a' w' :
  sendChunk (deliver now) req nl (n, wal, a, w) = (None, nl', (n', wal', a', w')) ->
  exists res, handleInstallSnapshot installer now (Some req) n wal a w = ((res, n', wal', a'), w') /\
    isr_Success res = true /\ nextIndex nl' = nextIndex nl /\ matchIndex nl' = matchIndex nl.
Proof.
  unfold sendChunk, deliver.
  destruct (handleInstallSnapshot installer now (Some req) n wal a w) as [[[[res n1] wal1] a1] w1].
  simpl. destruct (isr_Success res) eqn:Es; [|done]. intros [= <- <- <- <- <-].
  exists res. case_decide; done.
Qed.

#[local] Opaque sendChunk deliver.

(** The follower reached the snapshot [data] at [idx]. *)
Definition installed (idx term : Z) (data : bytes) (a : A) (p : Node * WAL * A * world) : Prop :=
  let '(n, _, a', w) := p in
  files w !! snapshotFileName = Some (snapshot_image idx term data) /\
  installer data (len data) idx term a = ((true, len data), a') /\
  log_wf n /\ snapshotIndex n = idx /\ idx <= commitIndex n.

(** The transfer before the chunk at [offset]. *)
Definition sending (meta : SnapshotMeta) (data : bytes) (offset : Z) (n : Node) (w : world) : Prop :=
  log_wf n /\ stateDir n <> [] /\ snapshotIndex n < LastIncludedIndex meta /\
  (offset = 0 \/
   pending_ok (LastIncludedIndex meta) (LastIncludedTerm meta) (take (Z.to_nat offset) data) n w).

Lemma sending_transfers meta data offset n w term id addr done_ chunk :
  0 <= offset -> sending meta data offset n w ->
  transfers (chunkRequest term id addr meta offset done_ chunk) (take (Z.to_nat offset) data) n w.
Proof.
  intros Ho (_ & _ & _ & Hor). destruct (decide (offset = 0)) as [->|Hne].
  - left. split; [|done]. apply bool_decide_eq_true_2. by left.
  - destruct Hor as [|Hp]; [done|]. right. split; [|done]. apply bool_decide_eq_false_2. simpl.
    rewrite (po_index _ _ _ _ _ Hp), (po_term _ _ _ _ _ Hp). tauto.
Qed.

Lemma sendChunks_end {P} (step : _ -> P -> _) fuel term id addr meta data ctxErr offset nl p :
  len data <= offset ->
  sendChunks step fuel term id addr meta data ctxErr offset nl p = (None, nl, p).
Proof. intros Hd. destruct fuel; simpl; (destruct (decide (offset < len data)); [lia|done]). Qed.

Lemma sendChunks_installed fuel term id addr meta data ctxErr now offset nl n wal a w nl' p' :
  0 <= LastIncludedIndex meta < 2 ^ 63 -> len data < 2 ^ 63 -> 0 <= offset < len data ->
  sending meta data offset n w ->
  sendChunks (deliver now) fuel term id addr meta data ctxErr offset nl (n, wal, a, w) = (None, nl', p') ->
  installed (LastIncludedIndex meta) (LastIncludedTerm meta) data a p' /\
  nextIndex nl' = nextIndex nl /\ matchIndex nl' = matchIndex nl.
Proof.
  intros Hi Hl. revert offset nl n wal w. induction fuel as [|fuel IH]; intros offset nl n wal w Ho Hsd Hrun;
    simpl in Hrun; rewrite decide_True in Hrun by lia; [done|].
  destruct (ctxErr offset); [done|]. set (e := if decide (len data < offset + snapshotChunkSize) then _ else _) in *.
  assert (offset < e <= len data) as He.
  { unfold e, snapshotChunkSize in *. case_decide; lia. }
  clearbody e. set (chunk := take (Z.to_nat (e - offset)) (drop (Z.to_nat offset) data)) in *.
  set (req := chunkRequest term id addr meta offset (bool_decide (e = len data)) chunk) in *.
  assert (take (Z.to_nat offset) data ++ chunk = take (Z.to_nat e) data) as Hacc.
  { unfold chunk. replace (Z.to_nat e) with (Z.to_nat offset + Z.to_nat (e - offset))%nat by lia.
    by rewrite take_take_drop. }
  assert (len chunk < 2 ^ 63) as Hlc by (unfold chunk, len in *; rewrite length_take, length_drop; lia).
  pose proof (sending_transfers meta data offset n w term id addr (bool_decide (e = len data)) chunk
    ltac:(lia) Hsd) as Ht. fold req in Ht. destruct Hsd as (Hwf & Hd & Hsi & _).
  destruct (sendChunk (deliver now) req nl (n, wal, a, w)) as [[[err|] nl1] [[[n1 wal1] a1] w1]] eqn:E1; [done|].
  apply sendChunk_deliver in E1 as (res & Hh & Hs & N1 & N2).
  assert (~ (is_LastIncludedIndex req <= snapshotIndex n /\ 0 < snapshotIndex n)) as Hnb by (simpl; lia).
  destruct (decide (e = len data)) as [->|Hne].
  - eapply install_snapshot_done in Hh as (_ & Hf & Hin & Hw & Hx & _ & Hc & _); [|done..|simpl; by rewrite bool_decide_eq_true_2|done].
    rewrite sendChunks_end in Hrun by lia.
    injection Hrun as <- <-. simpl is_Data in *. simpl is_LastIncludedIndex in *. simpl is_LastIncludedTerm in *.
    rewrite Hacc in Hf, Hin. unfold len in Hf, Hin. rewrite Nat2Z.id, firstn_all in Hf, Hin.
    split; [|by rewrite N1, N2]. split; [done|]. split; [done|]. split; [done|]. split; [done|]. lia.
  - eapply install_snapshot_chunk in Hh as (Hw & Hd1 & Hs1 & _ & _ & -> & Hp); [|done..|simpl; by rewrite bool_decide_eq_false_2|done].
    simpl is_Data in Hp. simpl is_LastIncludedIndex in *. simpl is_LastIncludedTerm in *. rewrite Hacc in Hp.
    rewrite <- N1, <- N2. eapply (IH e); [lia| |exact Hrun].
    split; [done|]. split; [by rewrite Hd1|]. split; [lia|]. by right.
Qed.

Lemma sendLoaded_installed now peer snap ctxErr nl n wal a w nl' p' :
  log_wf n -> stateDir n <> [] -> snapshotIndex n < LastIncludedIndex (Meta snap) < 2 ^ 63 - 1 ->
  len (Data snap) < 2 ^ 63 ->
  sendLoaded (deliver now) peer snap ctxErr nl (n, wal, a, w) = (None, nl', p') ->
  installed (LastIncludedIndex (Meta snap)) (LastIncludedTerm (Meta snap)) (Data snap) a p' /\
  nextIndex nl' = <[peer := LastIncludedIndex (Meta snap) + 1]> (nextIndex nl) /\
  matchIndex nl' = <[peer := LastIncludedIndex (Meta snap)]> (matchIndex nl).
Proof.
  intros Hwf Hd Hi Hl. pose proof (wf_offset n Hwf). pose proof (wf_snapshot n Hwf).
  unfold sendLoaded. cbv zeta. rewrite wrap64_small by (unfold u64_ok; lia).
  assert (sending (Meta snap) (Data snap) 0 n w) as Hsd by (split_and!; [done|done|lia|by left]).
  case_decide as Hz.
  - destruct (sendChunk _ _ nl _) as [[[err|] nl1] [[[n1 wal1] a1] w1]] eqn:E; [done|].
    intros [= <- <-]. apply sendChunk_deliver in E as (res & Hh & Hs & N1 & N2).
    eapply (install_snapshot_done _ _ _ _ _ _ []) in Hh as (_ & Hf & Hin & Hw & Hx & _ & Hc & _);
      [|done|done|simpl; lia|done|simpl; lia| |done|done].
    2: { left. split; [|done]. apply bool_decide_eq_true_2. by left. }
    destruct (Data snap) as [|x l]; [|rewrite len_cons in Hz; pose proof (len_nonneg l); lia].
    simpl is_LastIncludedIndex in *. rewrite N1, N2. split; [|done].
    split; [done|]. split; [done|]. split; [done|]. split; [done|]. lia.
  - destruct (sendChunks _ _ _ _ _ _ _ _ _ nl _) as [[[err|] nl1] p1] eqn:E; [done|].
    intros [= <- <-]. pose proof (len_nonneg (Data snap)).
    apply sendChunks_installed in E as (Hin & N1 & N2); [|lia|lia|lia|done].
    rewrite <- N1, <- N2. done.
Qed.

(** ** A follower that has the snapshot already *)

Lemma same_log_trans n1 n2 n3 : same_log n1 n2 -> same_log n2 n3 -> same_log n1 n3.
Proof. unfold same_log. intuition congruence. Qed.

(** Nothing but term, leader and clock of the follower changes. *)
Definition unchanged (p p' : Node * WAL * A * world) : Prop :=
  let '(n, wal, a, w) := p in let '(n', wal', a', w') := p' in same_log n n' /\ wal' = wal /\ a' = a /\ w' = w.

Lemma unchanged_trans p1 p2 p3 : unchanged p1 p2 -> unchanged p2 p3 -> unchanged p1 p3.
Proof.
  destruct p1 as [[[n1 wal1] a1] w1], p2 as [[[n2 wal2] a2] w2], p3 as [[[n3 wal3] a3] w3].
  intros (H1 & -> & -> & ->) (H2 & -> & -> & ->). split; [by eapply same_log_trans|done].
Qed.

(** The follower's snapshot reaches [idx]. *)
Definition covers (idx : Z) (p : Node * WAL * A * world) : Prop := let '(n, _, _, _) := p in idx <= snapshotIndex n.

Lemma covers_unchanged idx p p' : unchanged p p' -> covers idx p -> covers idx p'.
Proof.
  destruct p as [[[n wal] a] w], p' as [[[n' wal'] a'] w']. intros ((_ & _ & E & _) & _). unfold covers. by rewrite E.
Qed.

Lemma sendChunk_covered now req nl p nl' p' :
  0 < is_LastIncludedIndex req -> covers (is_LastIncludedIndex req) p ->
  sendChunk (deliver now) req nl p = (None, nl', p') ->
  unchanged p p' /\ nextIndex nl' = nextIndex nl /\ matchIndex nl' = matchIndex nl.
Proof.
  destruct p as [[[n wal] a] w], p' as [[[n' wal'] a'] w']. unfold covers. intros H0 Hc E.
  apply sendChunk_deliver in E as (res & Hh & Hs & N1 & N2). split; [|done]. eapply handle_covered; [|exact Hh]. done.
Qed.

Lemma sendChunks_covered fuel term id addr meta data ctxErr now offset nl p nl' p' :
  0 < LastIncludedIndex meta -> covers (LastIncludedIndex meta) p ->
  sendChunks (deliver now) fuel term id addr meta data ctxErr offset nl p = (None, nl', p') ->
  unchanged p p' /\ nextIndex nl' = nextIndex nl /\ matchIndex nl' = matchIndex nl.
Proof.
  intros H0. revert offset nl p. induction fuel as [|fuel IH]; intros offset nl p Hc; simpl.
  - destruct (decide _); [done|]. intros [= <- <-]. by destruct p as [[[? ?] ?] ?].
  - destruct (decide _); [|intros [= <- <-]; by destruct p as [[[? ?] ?] ?]]. destruct (ctxErr offset); [done|].
    destruct (sendChunk _ _ nl p) as [[[err|] nl1] p1] eqn:E; [done|].
    apply sendChunk_covered in E as (Hu & N1 & N2); [|done|done]. intros Hrun.
    apply IH in Hrun as (Hu' & M1 & M2); [|by eapply covers_unchanged].
    split; [by eapply unchanged_trans|]. by rewrite M1, M2.
Qed.

Lemma sendLoaded_covered now peer snap ctxErr nl p nl' p' :
  0 < LastIncludedIndex (Meta snap) < 2 ^ 63 - 1 -> covers (LastIncludedIndex (Meta snap)) p ->
  sendLoaded (deliver now) peer snap ctxErr nl p = (None, nl', p') ->
  unchanged p p' /\ nextIndex nl' = <[peer := LastIncludedIndex (Meta snap) + 1]> (nextIndex nl)
  /\ matchIndex nl' = <[peer := LastIncludedIndex (Meta snap)]> (matchIndex nl).
Proof.
  intros H0 Hc. unfold sendLoaded. cbv zeta. rewrite wrap64_small by (unfold u64_ok; lia).
  set (r := if decide _ then _ else _). destruct r as [[[err|] nl1] p1] eqn:E; [done|]. intros [= <- <-].
  assert (unchanged p p1 /\ nextIndex nl1 = nextIndex nl /\ matchIndex nl1 = matchIndex nl) as (Hu & N1 & N2).
  { unfold r in E. destruct (decide (len (Data snap) = 0)); [eapply sendChunk_covered|eapply sendChunks_covered]; try exact E; try exact Hc; simpl; lia. }
  simpl. by rewrite N1, N2.
Qed.

(** C8. A whole transfer, whatever fails on the follower's disk.  When
    [SendInstallSnapshot] reports success, the leader has loaded a snapshot and
    records its boundary as the peer's match index, and the follower is in one of
    two states.  If its own snapshot was behind that boundary, its [raft.snapshot]
    is byte for byte the leader's snapshot, its installer consumed exactly that
    payload, and its log is well formed from the new boundary on.  If its snapshot
    reached the boundary already, the handler acknowledges without installing: its
    log, snapshot, files and application are as before.  The follower's log is
    well formed, its node has a state directory, and the snapshot has a positive
    index and a size that are below [2 ^ 63 - 1]. *)
Theorem snapshot_transfer now peer ctxErr nl n wal a w nl' p' wl wl' :
  log_wf n -> stateDir n <> [] ->
  (forall snap, (LoadSnapshot (stateDir nl) wl).1 = Ok snap ->
     0 < LastIncludedIndex (Meta snap) < 2 ^ 63 - 1 /\ len (Data snap) < 2 ^ 63) ->
  SendInstallSnapshot (deliver now) peer ctxErr nl (n, wal, a, w) wl = ((None, nl', p'), wl') ->
  exists snap, (LoadSnapshot (stateDir nl) wl).1 = Ok snap
    /\ (if decide (snapshotIndex n < LastIncludedIndex (Meta snap))
        then installed (LastIncludedIndex (Meta snap)) (LastIncludedTerm (Meta snap)) (Data snap) a p'
        else unchanged (n, wal, a, w) p')
    /\ nextIndex nl' = <[peer := LastIncludedIndex (Meta snap) + 1]> (nextIndex nl)
    /\ matchIndex nl' = <[peer := LastIncludedIndex (Meta snap)]> (matchIndex nl).
Proof.
  intros Hwf Hd Hsize. unfold SendInstallSnapshot, ret, bind. destruct (decide _); [done|].
  destruct (LoadSnapshot (stateDir nl) wl) as [[snap|e] wl1]; [|done]. intros [= Hrun _].
  destruct (Hsize snap eq_refl) as [Hi Hl]. exists snap. split; [done|].
  destruct (decide (snapshotIndex n < LastIncludedIndex (Meta snap))) as [Hlt|Hge].
  - by apply sendLoaded_installed in Hrun; [| | |lia|].
  - apply sendLoaded_covered in Hrun; [done|done|]. unfold covers. lia.
Qed.

End Handler.

(** ** Witnesses: a follower with one stale entry receives a snapshot at 7 *)

Definition demo_installer (payload : bytes) (size idx term : Z) (a : bytes) : (bool * Z) * bytes :=
  ((true, size), payload).
Definition demo_lagging : Node :=
  set_hasInstaller true (set_stateDir (bs "/var/raft")
    (set_log [demo_e1] (NewNode (mkConfig (bs "c") [] 0 [bs "a"; bs "b"] 0 0 0 demo_key []) 0))).
Lemma demo_lagging_ok :
  log_wf demo_lagging /\ stateDir demo_lagging <> [] /\ 0 <= 7 < 2 ^ 63 /\ len (bs "state") < 2 ^ 63 /\
  ~ (7 <= snapshotIndex demo_lagging /\ 0 < snapshotIndex demo_lagging) /\
  snapshotIndex demo_lagging < 7 < 2 ^ 63 - 1.
Proof. split_and!; try done. intros [? ?]. done. Qed.

Definition demo_chunk : InstallSnapshotRequest :=
  mkSnapReq 2 (bs "a") [] 7 2 0 true (bs "state").
Abbreviation demo_install := (handleInstallSnapshot demo_installer 9 (Some demo_chunk) demo_lagging
  demo_wal [] (demo_world [])).

Lemma install_snapshot_done_witness :
  isr_Success demo_install.1.1.1.1 = true /\
  files demo_install.2 !! snapshotFileName = Some (snapshot_image 7 2 (bs "state")) /\
  snapshotIndex demo_install.1.1.1.2 = 7.
Proof.
  destruct demo_lagging_ok as (H1 & H2 & H3 & H4 & H5 & _).
  assert (isr_Success demo_install.1.1.1.1 = true) as Hs by (vm_compute; reflexivity).
  pose proof (install_snapshot_done demo_installer 9 demo_chunk demo_lagging demo_wal [] (demo_world []) []
    demo_install.1.1.1.1 demo_install.1.1.1.2 demo_install.1.1.2 demo_install.1.2 demo_install.2
    H1 H2 H3 H4 H5 (or_introl (conj eq_refl eq_refl)) eq_refl (quintuple_eta demo_install) Hs) as H.
  split; [exact Hs|]. split; [exact (proj1 (proj2 H))|].
  exact (proj1 (proj2 (proj2 (proj2 (proj2 H))))).
Defined.

Definition demo_sender : Node :=
  set_stateDir (bs "/var/raft") (set_currentTerm 2 (NewNode (mkConfig (bs "a") [] 0 [bs "c"] 0 0 0 demo_key []) 0)).
Definition demo_leader_world : world := World {[ snapshotFileName := snapshot_image 7 2 (bs "state") ]} [].
Abbreviation demo_transfer := (SendInstallSnapshot (deliver demo_installer 9) (bs "c") (fun _ => false)
  demo_sender (demo_lagging, demo_wal, [], demo_world []) demo_leader_world).

Lemma demo_loaded snap : (LoadSnapshot (stateDir demo_sender) demo_leader_world).1 = Ok snap -> snap = mkSnapshot (mkMeta 7 2 5) (bs "state").
Proof. intros H. vm_compute in H. injection H as <-. vm_compute. reflexivity. Qed.

Lemma snapshot_transfer_witness :
  demo_transfer.1.1.1 = None /\ installed demo_installer 7 2 (bs "state") [] demo_transfer.1.2.
Proof.
  destruct demo_lagging_ok as (H1 & H2 & _ & H4 & _ & H6).
  assert (demo_transfer.1.1.1 = None) as Hs by (vm_compute; reflexivity).
  split; [exact Hs|].
  assert (demo_transfer = ((None, demo_transfer.1.1.2, demo_transfer.1.2), demo_transfer.2)) as Hr.
  { destruct demo_transfer as [[[e nl'] p'] wl']. cbn in Hs |- *. by rewrite Hs. }
  destruct (snapshot_transfer demo_installer 9 (bs "c") (fun _ => false) demo_sender
    demo_lagging demo_wal [] (demo_world []) demo_transfer.1.1.2 demo_transfer.1.2 demo_leader_world demo_transfer.2 H1 H2) as (snap & Hl & Hin & _).
  - intros snap ->%demo_loaded. vm_compute. by split.
  - exact Hr.
  - apply demo_loaded in Hl. subst snap. exact Hin.
Defined.
