(* ===== verification/RaftRestart.v ===== *)
(** * Compaction and restart

    What the state directory holds determines the log a restarted node has;
    [CompactLog] keeps that relation under every failure; and two consequences
    of what the directory does not hold. *)
From S2P Require Import Prelude Crypto FileIO RaftTypes EntryJson Wal Snapshot SnapshotProofs.
From S2P Require Import WalProofs RaftNode WalStore RaftAppend RaftAppendProofs RaftElection RaftReplication RaftReplicationProofs.
From S2P Require Import RaftSnapshot RaftSnapshotProofs.
From Stdlib Require Import ZArith Lia.
From stdpp Require Import base gmap list strings.
#[local] Open Scope Z_scope.
#[local] Open Scope io_scope.

Section Disk.
Context `{EntryCodec}.

(** The snapshot file of a node whose log starts after [idx]. *)
Definition snapshot_on_disk (idx term : Z) (w : world) : Prop :=
  (idx = 0 /\ term = 0 /\ files w !! snapshotFileName = None) \/
  (exists data, len data <= MaxUint32 /\ u64_ok idx /\ u64_ok term /\
     files w !! snapshotFileName = Some (snapshot_image idx term data)).

(** The directory represents the node: the records of [raft.wal] above the
    snapshot are its log, and [raft.snapshot] is its snapshot. *)
Definition on_disk (key : bytes) (n : Node) (w : world) : Prop :=
  (exists l, wal_image key l (contents w walFileName) /\
     List.filter (fun e => bool_decide (snapshotIndex n < Index e)) l = log n) /\
  snapshot_on_disk (snapshotIndex n) (snapshotTerm n) w.

Lemma snapshot_on_disk_files idx term w w' :
  files w' !! snapshotFileName = files w !! snapshotFileName ->
  snapshot_on_disk idx term w -> snapshot_on_disk idx term w'.
Proof.
  intros E [(? & ? & ?)|(d & ? & ? & ? & ?)]; [left|right; exists d]; split_and!; try done; congruence.
Qed.

(** ** Restart *)

(** The replay keeps the entries above the snapshot and raises the term to
    the largest one seen. *)
Lemma replay_spec es m :
  let m' := foldl replayEntry m es in
  log m' = log m ++ List.filter (fun e => bool_decide (snapshotIndex m < Index e)) es /\
  snapshotIndex m' = snapshotIndex m /\ snapshotTerm m' = snapshotTerm m /\
  logOffset m' = logOffset m /\ commitIndex m' = commitIndex m /\ lastApplied m' = lastApplied m /\
  votedFor m' = votedFor m /\ state m' = state m /\ currentTerm m <= currentTerm m' /\
  (forall e, e ∈ es -> snapshotIndex m < Index e -> Term e <= currentTerm m') /\
  (forall T, currentTerm m <= T -> (forall e, e ∈ es -> snapshotIndex m < Index e -> Term e <= T) ->
     currentTerm m' <= T).
Proof.
  revert m. induction es as [|e es IH]; intros m; simpl.
  - rewrite app_nil_r. split_and!; try done. intros e He. by apply not_elem_of_nil in He.
  - specialize (IH (replayEntry m e)). simpl in IH. destruct IH as (E1 & E2 & E3 & E4 & E5 & E6 & E7 & E8 & E9 & E10 & E11).
    assert (snapshotIndex (replayEntry m e) = snapshotIndex m) as Es
      by (unfold replayEntry; repeat case_decide; done).
    rewrite E1, E2, E3, E4, E5, E6, E7, E8, Es. rewrite Es in E10, E11.
    assert (log (replayEntry m e) = log m ++ (if bool_decide (snapshotIndex m < Index e) then [e] else [])) as El.
    { unfold replayEntry. case_decide.
      - by rewrite bool_decide_eq_false_2, app_nil_r by lia.
      - rewrite bool_decide_eq_true_2 by lia. case_decide; done. }
    assert (currentTerm m <= currentTerm (replayEntry m e) /\
            (snapshotIndex m < Index e -> Term e <= currentTerm (replayEntry m e))) as [Ec1 Ec2].
    { unfold replayEntry. repeat case_decide; simpl in *; split; intros; lia. }
    split_and!.
    + rewrite El, <- app_assoc. f_equal. by case_bool_decide.
    + done.
    + unfold replayEntry; repeat case_decide; done.
    + unfold replayEntry; repeat case_decide; done.
    + unfold replayEntry; repeat case_decide; done.
    + unfold replayEntry; repeat case_decide; done.
    + unfold replayEntry; repeat case_decide; done.
    + unfold replayEntry; repeat case_decide; done.
    + lia.
    + intros x [->|Hx]%elem_of_cons Hi; [specialize (Ec2 Hi); lia|by apply E10].
    + intros T HT Hall. apply E11; [|intros x Hx; apply Hall; by right].
      unfold replayEntry. repeat case_decide; simpl in *; try lia.
      apply Hall; [by left|lia].
Qed.

(** A node as [NewNode] and [SetStateDir] leave it. *)
Record fresh (m : Node) : Prop := {
  fresh_log : log m = [];
  fresh_snapshot : snapshotIndex m = 0 /\ snapshotTerm m = 0;
  fresh_offset : logOffset m = 0;
  fresh_commit : commitIndex m = 0 /\ lastApplied m = 0;
  fresh_vote : votedFor m = [] /\ currentTerm m = 0 /\ state m = Follower;
  fresh_attached : walAttached m = true /\ stateDir m <> [] /\ hasInstaller m = true;
}.

Context {A : Type} (installer : bytes -> Z -> Z -> Z -> A -> (bool * Z) * A).

Lemma cleanup_spec dir w u w' :
  faults w = [] -> cleanupStalePendingSnapshot dir w = (u, w') ->
  faults w' = [] /\ (forall q, q <> pendingSnapshotFileName -> files w' !! q = files w !! q).
Proof.
  intros Hf Hrun. split.
  - unfold cleanupStalePendingSnapshot in Hrun. case_decide; [by injection Hrun as <- <-|].
    io_step Hrun b w1 E. injection Hrun as <- <-. by eapply fs_remove_faults in E.
  - intros q Hq. eapply preserves_run; [|exact Hrun]. unfold cleanupStalePendingSnapshot, pendingSnapshotPathFor.
    repeat case_decide; try done; pres; by apply preserves_remove.
Qed.

Lemma restart_spec n wal m a w :
  faults w = [] -> wal_file wal = HOpen walFileName -> on_disk (wal_hmacKey wal) n w -> log_wf n ->
  fresh m ->
  (forall data, exists a', installer data (len data) (snapshotIndex n) (snapshotTerm n) a
                          = ((true, len data), a')) ->
  exists m' a' w', LoadFromDisk installer m wal a w = ((None, m', a'), w') /\
    log m' = log n /\ log_wf m' /\ logOffset m' = logOffset n /\
    snapshotIndex m' = snapshotIndex n /\ snapshotTerm m' = snapshotTerm n /\
    commitIndex m' = snapshotIndex n /\ lastApplied m' = snapshotIndex n /\
    votedFor m' = [] /\ state m' = Follower /\
    (forall e, e ∈ log n -> Term e <= currentTerm m') /\
    (forall T, 0 <= T -> snapshotTerm n <= T -> (forall e, e ∈ log n -> Term e <= T) -> currentTerm m' <= T).
Proof.
  intros Hw Hwal [(l & Himg & Hl) Hsnap] Hwf [F1 [F2 F2'] F3 [F4 F4'] (F5 & F5' & F6) (F7 & F8 & F9)] Hinst.
  unfold LoadFromDisk. rewrite decide_False by done. unfold bind at 1.
  destruct (cleanupStalePendingSnapshot (stateDir m) w) as [u w1] eqn:Ec.
  apply cleanup_spec in Ec as [Hf1 Hq]; [|done].
  apply (snapshot_on_disk_files _ _ w w1) in Hsnap; [|by apply Hq].
  assert (wal_holds wal w1 l) as Hh.
  { split; [done|]. unfold contents. by rewrite Hq. }
  assert (forall m0, log m0 = [] -> votedFor m0 = [] -> state m0 = Follower ->
    snapshotIndex m0 = snapshotIndex n -> snapshotTerm m0 = snapshotTerm n ->
    logOffset m0 = snapshotIndex n -> commitIndex m0 = snapshotIndex n -> lastApplied m0 = snapshotIndex n ->
    let m' := foldl replayEntry m0 l in
    log m' = log n /\ log_wf m' /\ logOffset m' = logOffset n /\
    snapshotIndex m' = snapshotIndex n /\ snapshotTerm m' = snapshotTerm n /\
    commitIndex m' = snapshotIndex n /\ lastApplied m' = snapshotIndex n /\
    votedFor m' = [] /\ state m' = Follower /\ (forall e, e ∈ log n -> Term e <= currentTerm m') /\
    (forall T, currentTerm m0 <= T -> (forall e, e ∈ log n -> Term e <= T) -> currentTerm m' <= T)) as Hfin.
  { intros m0 G1 G2 G3 G4 G5 G6 G7 G8. cbv zeta.
    destruct (replay_spec l m0) as (E1 & E2 & E3 & E4 & E5 & E6 & E7 & E8 & E9 & E10 & E11).
    rewrite G1, G4 in E1. rewrite app_nil_l, Hl in E1. pose proof (wf_snapshot n Hwf) as Es.
    split; [done|]. split.
    { split; rewrite ?E1, ?E2, ?E4, ?G4, ?G6, ?Es; try apply Hwf; done. }
    assert (forall e, e ∈ log n <-> e ∈ l /\ snapshotIndex n < Index e) as Hel.
    { intros e. by rewrite <- Hl, !list_elem_of_In, List.filter_In, bool_decide_eq_true. }
    rewrite G4 in E10, E11. split_and!; try congruence.
    - intros e [? ?]%Hel. by apply E10.
    - intros T HT Hall. apply E11; [done|]. intros e ? ?. apply Hall, Hel. done. }
  destruct Hsnap as [(Z1 & Z2 & Hnone)|(data & Hd & Hi & Ht & Hsome)].
  - unfold bind at 1, LoadSnapshotReader, bind at 1, snapshot_open, bind at 1.
    rewrite fs_check_nil by done. rewrite Hnone. unfold ret at 1.
    rewrite decide_False by (intros [Hx _]; by apply Hx). unfold bind at 1. rewrite F7.
    rewrite (wal_holds_read _ _ l Hh). eexists _, a, w1. split; [reflexivity|].
    destruct (Hfin m) as (? & ? & ? & ? & ? & ? & ? & ? & ? & ? & HT); [congruence..|].
    split_and!; try done. intros T ? ? ?. apply HT; [lia|done].
  - unfold bind at 1. rewrite (LoadSnapshotReader_image _ w1 (snapshotIndex n) (snapshotTerm n) data) by done. cbv iota.
    rewrite decide_False by (rewrite F9; intros [_ ?]; done). unfold bind at 1. rewrite F7.
    rewrite (wal_holds_read _ _ l Hh). destruct (Hinst data) as [a' Ha].
    unfold loadApply. cbn [meta_Size LastIncludedIndex LastIncludedTerm]. rewrite Ha. cbn [negb].
    rewrite decide_False by tauto. eexists _, a', w1. split; [reflexivity|].
    destruct (Hfin (adoptDiskSnapshot (mkMeta (snapshotIndex n) (snapshotTerm n) (len data)) m))
      as (? & ? & ? & ? & ? & ? & ? & ? & ? & ? & HT);
      [unfold adoptDiskSnapshot; case_decide; done..|].
    split_and!; try done. intros T ? ? ?. apply HT; [|done].
    unfold adoptDiskSnapshot. simpl. case_decide; simpl in *; lia.
Qed.

(** C9. A restart.  If the state directory represents a node, no system call
    fails and the installer accepts the payload, then [LoadFromDisk] on a fresh
    node succeeds and gives it the log, the log offset and the snapshot position
    of the node; commit and apply indices start at the snapshot; the term is at
    least the term of every restored entry; the vote is empty. *)
Theorem restart_restores n wal m a w :
  faults w = [] -> wal_file wal = HOpen walFileName -> on_disk (wal_hmacKey wal) n w -> log_wf n ->
  fresh m ->
  (forall data, exists a', installer data (len data) (snapshotIndex n) (snapshotTerm n) a
                          = ((true, len data), a')) ->
  exists m' a' w', LoadFromDisk installer m wal a w = ((None, m', a'), w') /\
    log m' = log n /\ log_wf m' /\ logOffset m' = logOffset n /\
    snapshotIndex m' = snapshotIndex n /\ snapshotTerm m' = snapshotTerm n /\
    commitIndex m' = snapshotIndex n /\ lastApplied m' = snapshotIndex n /\
    votedFor m' = [] /\ state m' = Follower /\
    (forall e, e ∈ log n -> Term e <= currentTerm m').
Proof.
  intros Hw Hwal Hd Hwf Hm Hi.
  destruct (restart_spec n wal m a w Hw Hwal Hd Hwf Hm Hi)
    as (m' & a' & w' & Hrun & H1 & H2 & H3 & H4 & H5 & H6 & H7 & H8 & H9 & H10 & _).
  by exists m', a', w'.
Qed.

(** Votes do not survive a restart.  A node that voted for another
    candidate in the current term refuses a request of that term; after a restart
    from its own state directory it grants the same request, because neither the
    term nor the vote is on disk. *)
Theorem restart_votes_again now n wal m a w req :
  faults w = [] -> wal_file wal = HOpen walFileName -> on_disk (wal_hmacKey wal) n w -> log_wf n ->
  fresh m ->
  (forall data, exists a', installer data (len data) (snapshotIndex n) (snapshotTerm n) a
                          = ((true, len data), a')) ->
  0 <= rv_Term req -> rv_Term req = currentTerm n ->
  votedFor n <> [] -> votedFor n <> rv_CandidateId req ->
  isLogUpToDate n (rv_LastLogIndex req) (rv_LastLogTerm req) = true ->
  snapshotTerm n <= currentTerm n -> (forall e, e ∈ log n -> Term e <= currentTerm n) ->
  rvr_VoteGranted (handleRequestVote now (Some req) n).1 = false /\
  exists m' a' w', LoadFromDisk installer m wal a w = ((None, m', a'), w') /\
    (handleRequestVote now (Some req) m').1 = mkVoteRes (currentTerm n) true.
Proof.
  intros Hw Hwal Hd Hwf Hm Hi Hnn Ht Hv Hvc Hup Hst Hterms. split.
  - unfold handleRequestVote. rewrite !decide_False by lia. rewrite bool_decide_eq_false_2; [done|]. tauto.
  - destruct (restart_spec n wal m a w Hw Hwal Hd Hwf Hm Hi)
      as (m' & a' & w' & Hrun & Hl & _ & _ & Hs & Hst' & _ & _ & Hvote & _ & _ & Hup').
    exists m', a', w'. split; [done|].
    assert (currentTerm m' <= rv_Term req) as Hle by (apply Hup'; [lia..|intros; rewrite Ht; auto]).
    assert (isLogUpToDate m' (rv_LastLogIndex req) (rv_LastLogTerm req) = true) as Hup1.
    { revert Hup. unfold isLogUpToDate, lastLogIndexTerm. by rewrite Hl, Hs, Hst'. }
    unfold handleRequestVote. rewrite decide_False by lia. rewrite <- Ht. case_decide as Hlt.
    + rewrite bool_decide_eq_true_2 by (by left). simpl.
      change (isLogUpToDate (set_votedFor [] (set_state Follower (set_currentTerm (rv_Term req) m'))))
        with (isLogUpToDate m'). by rewrite Hup1.
    + rewrite Hvote, bool_decide_eq_true_2 by (by left). rewrite Hup1. simpl. f_equal. lia.
Qed.

(** ** Compaction *)

Lemma dropPrefix_spec idx term n :
  log_wf n -> logOffset n < idx <= logLen n ->
  let n' := dropPrefix idx term n in
  log_wf n' /\ snapshotIndex n' = idx /\ snapshotTerm n' = term /\ walAttached n' = walAttached n /\
  log n' = List.filter (fun e => bool_decide (idx < Index e)) (log n).
Proof.
  intros Hwf Hi. pose proof (logLen_wf n Hwf) as HL. pose proof (wf_bound n Hwf). pose proof (wf_offset n Hwf).
  destruct (log_wf_len n Hwf) as [Hl Ho].
  assert (log (dropPrefix idx term n) = drop (Z.to_nat (idx - logOffset n)) (log n)) as El.
  { unfold dropPrefix. rewrite decide_True by lia.
    rewrite wrap64_small by (unfold u64_ok; lia).
    rewrite offsetToSlot_spec by (done || unfold u64_ok; lia).
    case_decide; simpl; [f_equal; lia|]. rewrite !drop_ge; [done|unfold len in *; lia..]. }
  assert (logOffset (dropPrefix idx term n) = idx /\ snapshotIndex (dropPrefix idx term n) = idx) as [Eo Es]
    by done.
  cbv zeta. split.
  - split; rewrite ?Eo, ?Es, ?El; [lia| | |done].
    + unfold len in *. rewrite length_drop. lia.
    + replace (idx + 1) with (logOffset n + 1 + Z.of_nat (Z.to_nat (idx - logOffset n))) by lia.
      apply contiguous_drop; [unfold len in *; lia|apply Hwf].
  - split_and!; try done.
    + unfold dropPrefix. by rewrite decide_True by lia.
    + rewrite El, (contiguous_filter_gt (logOffset n + 1)) by (apply Hwf || lia). f_equal. lia.
Qed.

(** Filters of the log above two boundaries. *)
Lemma filter_above_twice i j (l : list LogEntry) :
  i <= j ->
  List.filter (fun e => bool_decide (j < Index e)) (List.filter (fun e => bool_decide (i < Index e)) l)
  = List.filter (fun e => bool_decide (j < Index e)) l.
Proof.
  intros Hij. induction l as [|e l IH]; [done|]. simpl.
  case_bool_decide as H1; simpl; rewrite ?IH; [done|]. by rewrite bool_decide_eq_false_2 by lia.
Qed.

Lemma filter_from_above j (l : list LogEntry) :
  List.filter (fun e => bool_decide (j < Index e)) (List.filter (fun e => bool_decide (j + 1 <= Index e)) l)
  = List.filter (fun e => bool_decide (j < Index e)) l.
Proof.
  induction l as [|e l IH]; [done|]. simpl.
  case_bool_decide as H1; simpl; rewrite ?IH; [done|]. by rewrite bool_decide_eq_false_2 by lia.
Qed.

Lemma termAt_range n i t :
  log_wf n -> u64_ok i -> Forall (fun e => u64_ok (Term e)) (log n) ->
  snapshotIndex n < i -> termAt n i = Some t -> i <= logLen n /\ u64_ok t.
Proof.
  intros Hwf Hi Hts Hs. pose proof (wf_snapshot n Hwf). pose proof (wf_offset n Hwf). unfold termAt.
  rewrite !decide_False by lia. destruct (entryAt n i) as [e|] eqn:E; [|done]. intros [= <-].
  apply entryAt_lookup in E as (Hin & Hlk & _); [|done..]. split; [lia|].
  eapply Forall_lookup_1 in Hts; [exact Hts|exact Hlk].
Qed.

Context (provider : A -> option (bytes * Z)).

#[local] Opaque SaveSnapshot TruncateBefore dropPrefix.

(** [CompactLog] never loses an entry above the snapshot, whatever system
    calls fail.  Either the node is unchanged and an error is returned, or the
    node moves to a provider index between its old snapshot and its commit
    index and keeps exactly the log entries above it; in both cases the log is
    well formed and the state directory represents the node, so that a restart
    restores it. *)
Theorem compact_log_safe n wal a w r n' wal' w' :
  log_wf n -> walAttached n = true -> wal_file wal = HOpen walFileName ->
  Forall (fun e => u64_ok (Term e)) (log n) ->
  (forall data i, provider a = Some (data, i) -> u64_ok i) ->
  on_disk (wal_hmacKey wal) n w ->
  CompactLog provider n wal a w = ((r, n', wal'), w') ->
  log_wf n' /\ on_disk (wal_hmacKey wal) n' w' /\
  (n' = n /\ r <> None \/
   exists data idx, provider a = Some (data, idx) /\
     snapshotIndex n < idx <= commitIndex n /\ snapshotIndex n' = idx /\
     termAt n idx = Some (snapshotTerm n') /\
     log n' = List.filter (fun e => bool_decide (idx < Index e)) (log n)).
Proof.
  intros Hwf Hatt Hwal Hts Hpu Hdisk Hrun. unfold CompactLog in Hrun.
  case_decide; [injection Hrun as <- <- <- <-; eauto|].
  destruct (provider a) as [[data idx]|] eqn:Ep; [|injection Hrun as <- <- <- <-; eauto].
  case_decide; [injection Hrun as <- <- <- <-; eauto|].
  case_decide as Habove; [injection Hrun as <- <- <- <-; eauto|].
  case_decide as Hcommit; [injection Hrun as <- <- <- <-; eauto|].
  destruct (termAt n idx) as [t|] eqn:Et; [|injection Hrun as <- <- <- <-; eauto].
  assert (u64_ok idx) as Hu by (by eapply Hpu).
  destruct (termAt_range n idx t Hwf Hu Hts ltac:(lia) Et) as [Hle Htu].
  io_step Hrun e w1 E1.
  assert (files w1 !! walFileName = files w !! walFileName) as Fw1.
  { eapply preserves_run; [|exact E1]. apply SaveSnapshot_preserves; done. }
  apply save_atomic in E1. destruct e as [err|].
  { injection Hrun as <- <- <- <-. destruct E1 as [[_ Fs]|[? _]]; [|done].
    split; [done|]. split; [|left; done]. destruct Hdisk as [(l & Hi & Hl) Hs]. split.
    - exists l. unfold contents. by rewrite Fw1.
    - by eapply snapshot_on_disk_files. }
  destruct E1 as [[? _]|(_ & Hsz & Fs)]; [done|]. cbn [Data Meta LastIncludedIndex LastIncludedTerm] in Hsz, Fs.
  pose proof (wf_snapshot n Hwf) as Hso.
  destruct (dropPrefix_spec idx t n Hwf ltac:(lia)) as (Hwf' & Hs' & Ht' & Ha' & Hl').
  assert (forall w2, files w2 !! snapshotFileName = files w1 !! snapshotFileName ->
    (exists l, wal_image (wal_hmacKey wal) l (contents w2 walFileName) /\
       List.filter (fun e => bool_decide (idx < Index e)) l = log (dropPrefix idx t n)) ->
    on_disk (wal_hmacKey wal) (dropPrefix idx t n) w2) as Hod.
  { intros w2 F2 Hl2. split; rewrite ?Hs', ?Ht'; [done|]. right. exists data. rewrite F2, Fs.
    split_and!; try done; try apply Hu; try apply Htu. assert (maxSnapshotSize <= MaxUint32) by done. lia. }
  destruct Hdisk as [(l & Himg & Hl) _].
  assert (List.filter (fun e => bool_decide (idx < Index e)) l = log (dropPrefix idx t n)) as Hlf.
  { rewrite Hl', <- Hl. symmetry. apply filter_above_twice. lia. }
  assert (wal_holds wal w1 l) as Hh by (split; [done|]; unfold contents; by rewrite Fw1).
  cbv zeta in Hrun. rewrite Ha', Hatt in Hrun.
  rewrite wrap64_small in Hrun by (pose proof (wf_bound n Hwf); pose proof (logLen_wf n Hwf);
    unfold u64_ok in *; lia).
  io_step Hrun p w2 E2. destruct p as [we wal2].
  pose proof (preserves_run snapshotFileName _ _ _ _ (TruncateBefore_snap wal (idx + 1)) E2) as F2.
  assert (exists l2, wal_image (wal_hmacKey wal) l2 (contents w2 walFileName) /\
     List.filter (fun e => bool_decide (idx < Index e)) l2 = log (dropPrefix idx t n)) as Hex.
  { eapply TruncateBefore_spec in E2 as (_ & [[_ Fw]|[Hi2 _]]); [| |exact Hh].
    - exists l. unfold contents. rewrite Fw, Fw1. done.
    - eexists. split; [exact Hi2|]. rewrite filter_from_above. done. }
  assert (n' = dropPrefix idx t n /\ w' = w2) as [-> ->] by (destruct we; by injection Hrun as _ <- _ <-).
  split; [done|]. split; [by apply Hod|]. right. exists data, idx. rewrite Hs', Ht'.
  split_and!; try done; lia.
Qed.

End Disk.

(** ** A failed submission and the next restart

    The leader of the demonstration cluster holds entries 1 and 2.  A
    submission fails at its fsync, after the record reached the file; the
    rollback removes it from memory only.  The next submission reuses index 3. *)

Definition demo_store_failing : fileStore :=
  (demo_wal, World (files demo_store.2) [IoOk; IoOk; IoFail 0]).
Abbreviation demo_first := (Submit (bs "77") demo_leader demo_store_failing).
Abbreviation demo_second := (Submit (bs "88") demo_first.1.2 demo_first.2).
Definition demo_fresh : Node :=
  set_hasInstaller true (set_stateDir (bs "/var/raft") (set_walAttached true (NewNode demo_cfg 0))).
Abbreviation demo_reload :=
  (LoadFromDisk demo_installer demo_fresh demo_wal [] demo_second.2.2).

(** A submission whose fsync fails is reported as an error and rolled back
    in memory, but its record stays in the log file; the next submission gets the
    same index, and a restart then loads two entries with that index, which
    breaks the index invariant of the in-memory log (and shifts every later
    index). *)
Theorem submit_failure_duplicates_index :
  demo_first.1.1 = Err (ErrPersist WalFsync) /\ log demo_first.1.2 = log demo_leader /\
  demo_second.1.1 = Ok (mkEntry 3 1 (bs "88")) /\
  demo_reload.1.1.1 = None /\
  log demo_reload.1.1.2 = [demo_e1; demo_e2; mkEntry 3 1 (bs "77"); mkEntry 3 1 (bs "88")] /\
  ~ contiguous 1 (log demo_reload.1.1.2).
Proof.
  assert (log demo_reload.1.1.2 = [demo_e1; demo_e2; mkEntry 3 1 (bs "77"); mkEntry 3 1 (bs "88")]) as Hl
    by (vm_compute; reflexivity).
  split; [vm_compute; reflexivity|]. split; [vm_compute; reflexivity|].
  split; [vm_compute; reflexivity|]. split; [vm_compute; reflexivity|].
  split; [exact Hl|]. rewrite Hl. intros (_ & _ & _ & H4 & _). discriminate H4.
Qed.

(** ** Witnesses *)

Lemma demo_fresh_ok : fresh demo_fresh.
Proof. split; done. Qed.

Lemma demo_on_disk : on_disk demo_key demo_node demo_store.2.
Proof.
  split; [|left; split_and!; vm_compute; reflexivity].
  destruct demo_durable as (l & [_ Hi] & Hl). by exists l.
Qed.

Lemma demo_installs data a : exists a', demo_installer data (len data) 0 0 a = ((true, len data), a').
Proof. by exists data. Qed.

Lemma demo_store_quiet : faults demo_store.2 = [].
Proof. vm_compute. reflexivity. Qed.

Lemma restart_restores_witness :
  exists m' a' w', LoadFromDisk demo_installer demo_fresh demo_wal [] demo_store.2 = ((None, m', a'), w') /\
    log m' = [demo_e1; demo_e2].
Proof.
  destruct (restart_restores demo_installer demo_node demo_wal demo_fresh [] demo_store.2
    demo_store_quiet eq_refl demo_on_disk demo_node_wf demo_fresh_ok (fun data => demo_installs data []))
    as (m' & a' & w' & Hrun & Hl & _).
  exists m', a', w'. split; [exact Hrun|exact Hl].
Defined.

Definition demo_voter : Node := set_votedFor (bs "b") demo_node.
Definition demo_votereq : RequestVoteRequest := mkVoteReq 1 (bs "c") 2 1.

Lemma demo_voter_facts :
  log_wf demo_voter /\ 0 <= rv_Term demo_votereq /\ votedFor demo_voter <> [] /\
  votedFor demo_voter <> rv_CandidateId demo_votereq /\
  snapshotTerm demo_voter <= currentTerm demo_voter /\
  (forall e, e ∈ log demo_voter -> Term e <= currentTerm demo_voter).
Proof.
  split; [split; done|]. split; [done|]. split; [done|]. split; [done|]. split; [done|].
  intros e. simpl. rewrite !elem_of_cons, elem_of_nil. by intros [->|[->|[]]].
Qed.

Lemma restart_votes_again_witness :
  rvr_VoteGranted (handleRequestVote 3 (Some demo_votereq) demo_voter).1 = false /\
  exists m' a' w', LoadFromDisk demo_installer demo_fresh demo_wal [] demo_store.2 = ((None, m', a'), w') /\
    (handleRequestVote 3 (Some demo_votereq) m').1 = mkVoteRes 1 true.
Proof.
  destruct demo_voter_facts as (H1 & H2 & H3 & H4 & H5 & H6).
  exact (restart_votes_again demo_installer 3 demo_voter demo_wal demo_fresh [] demo_store.2 demo_votereq
    demo_store_quiet eq_refl demo_on_disk H1 demo_fresh_ok (fun data => demo_installs data [])
    H2 eq_refl H3 H4 eq_refl H5 H6).
Defined.

Definition demo_compacting : Node :=
  set_hasProvider true (set_stateDir (bs "/var/raft") (set_commitIndex 2 demo_node)).
Definition demo_provider (a : bytes) : option (bytes * Z) := Some (a, 1).
Abbreviation demo_compact := (CompactLog demo_provider demo_compacting demo_wal (bs "state") demo_store.2).

Lemma compact_log_safe_witness :
  demo_compact.1.1.1 = None /\ log_wf demo_compact.1.1.2 /\
  on_disk demo_key demo_compact.1.1.2 demo_compact.2.
Proof.
  assert (log_wf demo_compacting) as H1 by (split; done).
  assert (Forall (fun e => u64_ok (Term e)) (log demo_compacting)) as H2 by (repeat constructor; done).
  assert (forall data i, demo_provider (bs "state") = Some (data, i) -> u64_ok i) as H3
    by (intros data i [= _ <-]; split; done).
  assert (demo_compact.1.1.1 = None) as Hs by (vm_compute; reflexivity).
  destruct (compact_log_safe demo_provider demo_compacting demo_wal (bs "state") demo_store.2
    demo_compact.1.1.1 demo_compact.1.1.2 demo_compact.1.2 demo_compact.2 H1 eq_refl eq_refl H2 H3 demo_on_disk
    (quadruple_eta demo_compact)) as (Hw & Hd & _).
  split; [exact Hs|]. split; [exact Hw|exact Hd].
Defined.
