(* ===== verification/ElectionSafety.v ===== *)
(** * Election safety

    A cluster of nodes that run the handlers of the package, with every message
    kept for ever (so delivered late, out of order, or more than once).  An
    election is the round that [startElection] opens: the request it sends, the
    peers whose answer it still awaits and the results in the order it reads
    them.  AppendEntries and InstallSnapshot messages and all replies to them
    are arbitrary.

    The theorem is the first safety property of Raft: at most one leader per
    term.  It needs that nodes do not restart (see [RaftRestart]). *)
From S2P Require Import Prelude FileIO RaftTypes EntryJson Wal Snapshot RaftNode WalStore.
From S2P Require Import RaftAppend RaftAppendProofs RaftElection RaftReplication RaftReplicationProofs RaftSnapshot RaftSnapshotProofs.
From Stdlib Require Import ZArith Lia.
From stdpp Require Import base gmap list strings.
#[local] Open Scope Z_scope.

(** ** What a handler may do to a node's ballot *)

Record quiet (n n' : Node) : Prop := {
  q_config : config n' = config n;
  q_term : currentTerm n <= currentTerm n';
  q_same : currentTerm n' = currentTerm n ->
    votedFor n' = votedFor n /\ (state n' = Leader -> state n = Leader);
  q_newer : currentTerm n < currentTerm n' -> state n' <> Leader;
}.

Lemma quiet_refl n : quiet n n.
Proof. split; [done|lia|done|lia]. Qed.

(** Handlers that keep the four fields of a ballot. *)
Lemma quiet_same n n' :
  config n' = config n -> currentTerm n' = currentTerm n -> votedFor n' = votedFor n ->
  state n' = state n -> quiet n n'.
Proof. intros ? E ? Es. split; [done|lia|by rewrite Es|lia]. Qed.

(** Adopting a larger term as a follower. *)
Lemma quiet_down n n' t :
  config n' = config n -> currentTerm n < t -> currentTerm n' = t -> state n' = Follower -> quiet n n'.
Proof. intros ? ? ? Hs. split; [done|lia|lia|by rewrite Hs]. Qed.

Lemma quiet_follow n n' :
  config n' = config n -> currentTerm n <= currentTerm n' -> state n' = Follower ->
  (currentTerm n' = currentTerm n -> votedFor n' = votedFor n) -> quiet n n'.
Proof. intros ? ? Hs Hv. split; [done|done|rewrite Hs; intros E; split; [auto|done]|by rewrite Hs]. Qed.

Lemma quiet_requestVote resp n : quiet n (requestVote resp n).2.
Proof.
  unfold requestVote. destruct resp as [r|]; [|apply quiet_refl].
  case_decide; [by eapply quiet_down|apply quiet_refl].
Qed.

Lemma quiet_appendEntries {W} `{!WalStore W} now msg n (w : W) :
  quiet n (handleAppendEntries now msg n w).1.2.
Proof.
  unfold handleAppendEntries. destruct msg as [req|]; [|apply quiet_refl].
  case_decide as Ht; [apply quiet_refl|].
  set (n1 := acceptLeader _ _ _ _ n).
  assert (quiet n n1 /\ state n1 = Follower) as [Q Hs].
  { unfold n1, acceptLeader. split; [|by repeat case_decide].
    apply quiet_follow; repeat case_decide; simpl; try done; lia. }
  case_decide; [done|]. clearbody n1.
  pose proof (appendLoop_shape (ae_PrevLogIndex req) 0 (ae_Entries req) n1 w) as Hsh.
  destruct (appendLoop _ _ _ n1 w) as [[[] n2] w2]; simpl in Hsh |- *; rewrite Hsh; clear Hsh.
  - destruct Q as [Q1 Q2 Q3 Q4]. unfold advanceCommit. repeat case_decide; by split.
  - destruct Q as [Q1 Q2 Q3 Q4]. by split.
Qed.

Lemma updateCommitIndex_set n : exists c, updateCommitIndex n = set_commitIndex c n.
Proof. unfold updateCommitIndex. apply commitLoop_set. Qed.

Lemma quiet_appendReply peer s resp n : quiet n (handleAppendReply peer s resp n).
Proof.
  unfold handleAppendReply. destruct resp as [r|]; [|apply quiet_refl].
  case_decide; [by eapply quiet_down|]. case_decide; [apply quiet_refl|].
  destruct (aer_Success r); [|case_decide; [by apply quiet_same|apply quiet_refl]].
  edestruct updateCommitIndex_set as [c ->]. by apply quiet_same.
Qed.

Lemma quiet_exchange resp n : quiet n (exchangeSnapshotChunk resp n).2.
Proof.
  unfold exchangeSnapshotChunk. destruct resp as [r|]; [|apply quiet_refl].
  simpl. case_decide; [by eapply quiet_down|apply quiet_refl].
Qed.

Lemma quiet_submit {W} `{!WalStore W} command n (w : W) : quiet n (Submit command n w).1.2.
Proof.
  unfold Submit, submitReserve. case_decide; [apply quiet_refl|].
  destruct (persistEntry _ _ _) as [[e|] w1]; simpl.
  - unfold submitRollback. repeat case_match; by apply quiet_same.
  - edestruct updateCommitIndex_set as [c ->]. by apply quiet_same.
Qed.

Lemma quiet_trans n1 n2 n3 : quiet n1 n2 -> quiet n2 n3 -> quiet n1 n3.
Proof.
  intros [A1 A2 A3 A4] [B1 B2 B3 B4]. split; [congruence|lia| |].
  - intros E. assert (currentTerm n2 = currentTerm n1) as E2 by lia.
    destruct (A3 E2) as [V1 S1], (B3 ltac:(lia)) as [V2 S2]. split; [congruence|auto].
  - intros Hlt Hl. destruct (decide (currentTerm n2 = currentTerm n3)) as [E|].
    + destruct (B3 ltac:(lia)) as [_ S2]. apply (A4 ltac:(lia)). auto.
    + apply B4; [lia|done].
Qed.

Lemma quiet_apply n : quiet n (applyCommitted n).2.
Proof.
  unfold applyCommitted. generalize (Z.to_nat (commitIndex n - lastApplied n)). intros fuel. revert n.
  induction fuel as [|fuel IH]; intros n; simpl; [apply quiet_refl|].
  unfold applyStep. case_decide; [|apply quiet_refl].
  destruct (entryAt _ _) as [e|].
  - specialize (IH (offerApply e (set_lastApplied (wrap64 (lastApplied n + 1)) n))).
    destruct (applyPass fuel _) as [es n2]. eapply quiet_trans; [|exact IH].
    unfold offerApply. case_decide; by apply quiet_same.
  - specialize (IH (set_lastApplied (wrap64 (lastApplied n + 1)) n)).
    destruct (applyPass fuel _) as [es n2]. eapply quiet_trans; [|exact IH]. by apply quiet_same.
Qed.

(** ** InstallSnapshot *)

Lemma openSpill_core idx term n w e n' w' :
  openSpill idx term n w = ((e, n'), w') -> core n' = core n.
Proof.
  unfold openSpill. case_decide; [by intros [= <- <- <-]|]. intros Hrun.
  io_step Hrun b1 w1 E1. destruct b1; cbn [negb] in Hrun; [|by injection Hrun as _ <- _].
  io_step Hrun b2 w2 E2. destruct b2; cbn [negb] in Hrun; [|by injection Hrun as _ <- _].
  io_step Hrun x w3 E3. destruct x as [err|]; [|injection Hrun as _ <- _; by autorewrite with node].
  io_step Hrun b4 w4 E4. io_step Hrun b5 w5 E5. by injection Hrun as _ <- _.
Qed.

#[local] Opaque openSpill releasePendingSnapshot.

Lemma beginPendingSnapshot_core idx term n w e n' w' :
  beginPendingSnapshot idx term n w = ((e, n'), w') -> core n' = core n.
Proof.
  unfold beginPendingSnapshot. intros Hrun. io_step Hrun n1 w1 E1.
  apply releasePendingSnapshot_spec in E1 as ->. apply openSpill_core in Hrun as ->.
  by autorewrite with node.
Qed.

Lemma appendPendingSnapshot_core data n w e n' w' :
  appendPendingSnapshot data n w = ((e, n'), w') -> core n' = core n.
Proof.
  unfold appendPendingSnapshot. cbv zeta. case_decide; [by intros [= <- <- <-]|].
  destruct (pendingSnapshotFile n); intros Hrun.
  - io_step Hrun b1 w1 E1. destruct b1; cbn [negb] in Hrun; injection Hrun as _ <- _; by autorewrite with node.
  - injection Hrun as _ <- _. by autorewrite with node.
Qed.

Lemma finalizePendingSnapshot_core n w r n' w' :
  finalizePendingSnapshot n w = ((r, n'), w') -> core n' = core n.
Proof.
  unfold finalizePendingSnapshot. destruct (pendingSnapshotFile n); cbn [negb]; [|by intros [= <- <- <-]].
  cbv zeta. intros Hrun. enough (n' = clearPending (set_pendingSnapshotPath [] (set_pendingSnapshotFile false n)))
    as -> by (by autorewrite with node).
  case_decide.
  { io_step Hrun b1 w1 E1. io_step Hrun b2 w2 E2. by injection Hrun as _ <- _. }
  io_step Hrun b1 w1 E1. destruct b1; cbn [negb] in Hrun.
  2: { io_step Hrun b3 w3 E3. io_step Hrun b2 w2 E2. by injection Hrun as _ <- _. }
  io_step Hrun b4 w4 E4. destruct b4; cbn [negb] in Hrun.
  2: { io_step Hrun b3 w3 E3. io_step Hrun b2 w2 E2. by injection Hrun as _ <- _. }
  io_step Hrun b5 w5 E5. destruct b5; cbn [negb] in Hrun; [by injection Hrun as _ <- _|].
  io_step Hrun b3 w3 E3. io_step Hrun b2 w2 E2. by injection Hrun as _ <- _.
Qed.

#[local] Opaque beginPendingSnapshot appendPendingSnapshot finalizePendingSnapshot.

Lemma receiveChunk_core req n w out n' w' :
  receiveChunk req n w = ((out, n'), w') -> core n' = core n.
Proof.
  unfold receiveChunk. intros Hrun. io_step Hrun p w1 E1. destruct p as [e n1].
  assert (core n1 = core n) as C1.
  { destruct (newTransfer req n); [by apply beginPendingSnapshot_core in E1|by injection E1 as _ <- _]. }
  destruct e; [injection Hrun as _ <- _; done|]. case_decide.
  { io_step Hrun n2 w2 E2. apply releasePendingSnapshot_spec in E2 as ->. injection Hrun as _ <- _.
    by rewrite core_idem. }
  io_step Hrun p w2 E2. destruct p as [e n2]. apply appendPendingSnapshot_core in E2.
  destruct e.
  { io_step Hrun n3 w3 E3. apply releasePendingSnapshot_spec in E3 as ->. injection Hrun as _ <- _.
    rewrite core_idem. congruence. }
  destruct (is_Done req); cbn [negb] in Hrun; [|injection Hrun as _ <- _; congruence].
  case_decide.
  - io_step Hrun p w3 E3. destruct p as [r n3]. apply finalizePendingSnapshot_core in E3.
    destruct r as [[path size]|err]; injection Hrun as _ <- _; congruence.
  - unfold drainPendingSnapshotInMemory in Hrun. injection Hrun as _ <- _.
    rewrite core_pendingTerm, core_pendingIndex, core_pendingExpected, core_pendingSnapshot. congruence.
Qed.

#[local] Opaque receiveChunk.

Lemma quiet_core n m m' : quiet n m -> core m' = core m -> quiet n m'.
Proof.
  intros Q C. eapply quiet_trans; [exact Q|].
  apply quiet_same; [exact (f_equal config C)|exact (f_equal currentTerm C)|
                     exact (f_equal votedFor C)|exact (f_equal state C)].
Qed.

Lemma quiet_adopt req n : quiet n (adoptSnapshot req n).
Proof. unfold adoptSnapshot. repeat case_decide; by apply quiet_same. Qed.

Lemma quiet_install {A} (installer : bytes -> Z -> Z -> Z -> A -> (bool * Z) * A) `{EntryCodec}
    now msg n wal a w res n' wal' a' w' :
  handleInstallSnapshot installer now msg n wal a w = ((res, n', wal', a'), w') -> quiet n n'.
Proof.
  unfold handleInstallSnapshot. destruct msg as [req|]; [|intros [= <- <- <- <- <-]; apply quiet_refl].
  case_decide as Ht; [intros [= <- <- <- <- <-]; apply quiet_refl|].
  destruct (hasInstaller n); cbn [negb]; [|intros [= <- <- <- <- <-]; apply quiet_refl].
  cbv zeta. set (m := acceptSnapshotLeader req now n). assert (quiet n m) as Q.
  { unfold m, acceptSnapshotLeader. apply quiet_follow; repeat case_decide; simpl; try done; lia. }
  clearbody m. case_decide; [by intros [= <- <- <- <- <-]|]. intros Hrun.
  io_step Hrun p w1 E1. destruct p as [out n1]. apply receiveChunk_core in E1.
  assert (quiet n n1) as Q1 by (by eapply quiet_core).
  assert (forall file payload size, finishInstall installer req file payload size n1 wal a w1
            = ((res, n', wal', a'), w') -> quiet n n') as Hfin.
  { clear Hrun. intros file payload size Hrun. unfold finishInstall in Hrun.
    io_step Hrun p w2 E2. destruct p as [ok a1]. destruct ok; cbn [negb] in Hrun.
    2: by injection Hrun as _ <- _ _ _.
    enough (n' = adoptSnapshot req n1) as -> by (eapply quiet_trans; [exact Q1|apply quiet_adopt]).
    destruct (walAttached (adoptSnapshot req n1)); [|by injection Hrun as _ <- _ _ _].
    io_step Hrun p w3 E3. destruct p as [warn wal2]. by injection Hrun as _ <- _ _ _. }
  destruct out; [by injection Hrun as _ <- _ _ _|by eapply Hfin..].
Qed.

(** ** The cluster *)

Record election : Type := mkElection {
  el_request : RequestVoteRequest;
  el_pending : list bytes;
  el_granted : list bytes;
  el_events : list vote_event;
}.

Record Cluster : Type := mkCluster {
  nodes : gmap bytes Node;
  elections : gmap (bytes * Z) election;
  responses : list (bytes * bytes * Z * RequestVoteResponse);
}.

Definition grants (events : list vote_event) : Z :=
  len (List.filter (fun ev => match ev with VoteResult true => true | _ => false end) events).

(** A round that is decided for the candidate has a majority of grants. *)
Lemma voteLoop_won remaining need votes events :
  voteLoop remaining need votes events = Won -> need <= votes + grants events.
Proof.
  revert votes events. induction remaining as [|r IH]; intros votes events; [done|].
  destruct events as [|ev events]; [done|]. simpl.
  assert (grants (ev :: events) =
    (match ev with VoteResult true => 1 | _ => 0 end) + grants events) as Eg.
  { unfold grants. simpl. destruct ev as [[]| |]; rewrite ?len_cons; lia. }
  assert (0 <= grants events) by apply len_nonneg.
  destruct ev as [[]| |]; rewrite Eg; try done; (case_decide; [lia|]); intros Hx; apply IH in Hx; lia.
Qed.

Lemma collectVotes_won n events :
  collectVotes n events = Won -> needed (Peers (config n)) <= 1 + grants events.
Proof.
  unfold collectVotes. case_decide; [|apply voteLoop_won].
  intros _. assert (0 <= grants events) by apply len_nonneg. lia.
Qed.

Section Safety.
Context {W : Type} `{!WalStore W}.
Context {A : Type} (installer : bytes -> Z -> Z -> Z -> A -> (bool * Z) * A) `{EntryCodec}.
Context (members : list bytes) (addrOf : bytes -> bytes).

Definition others (id : bytes) : list bytes := filter (fun m => m <> id) members.

Definition set_node (id : bytes) (n : Node) (c : Cluster) : Cluster :=
  mkCluster (<[id := n]> (nodes c)) (elections c) (responses c).

(** One transition.  [s_start] excludes the wrap-around of a term counter at
    [2^64 - 1]. *)
Inductive step : Cluster -> Cluster -> Prop :=
| s_start c id n now :
    nodes c !! id = Some n -> currentTerm n < 2 ^ 64 - 1 ->
    let n1 := beginElection now n in
    step c (mkCluster (<[id := n1]> (nodes c))
              (<[(id, currentTerm n1) := mkElection (voteRequest n1) (Peers (config n)) [] []]> (elections c))
              (responses c))
| s_vote c cand t el v n now res n' :
    elections c !! (cand, t) = Some el -> nodes c !! v = Some n ->
    handleRequestVote now (Some (el_request el)) n = (res, n') ->
    step c (mkCluster (<[v := n']> (nodes c)) (elections c) ((v, cand, t, res) :: responses c))
| s_reply c cand t el n v resp granted n' :
    elections c !! (cand, t) = Some el -> nodes c !! cand = Some n ->
    addrOf v ∈ el_pending el -> v ∈ members ->
    (forall res, resp = Some res -> (v, cand, t, res) ∈ responses c) ->
    requestVote resp n = (granted, n') ->
    step c (mkCluster (<[cand := n']> (nodes c))
              (<[(cand, t) := mkElection (el_request el)
                  (filter (fun p => p <> addrOf v) (el_pending el))
                  (if granted then addrOf v :: el_granted el else el_granted el)
                  (el_events el ++ [VoteResult granted])]> (elections c))
              (responses c))
| s_timeout c cand t el :
    elections c !! (cand, t) = Some el ->
    step c (mkCluster (nodes c)
              (<[(cand, t) := mkElection (el_request el) (el_pending el) (el_granted el)
                  (el_events el ++ [VoteTimeout])]> (elections c)) (responses c))
| s_win c cand t el n :
    elections c !! (cand, t) = Some el -> nodes c !! cand = Some n ->
    collectVotes n (el_events el) = Won ->
    step c (set_node cand (winElection t n) c)
| s_append c id n now msg (w : W) :
    nodes c !! id = Some n -> step c (set_node id (handleAppendEntries now msg n w).1.2 c)
| s_append_reply c id n peer s resp :
    nodes c !! id = Some n -> step c (set_node id (handleAppendReply peer s resp n) c)
| s_install c id n now msg wal a w res n' wal' a' w' :
    nodes c !! id = Some n ->
    handleInstallSnapshot installer now msg n wal a w = ((res, n', wal', a'), w') ->
    step c (set_node id n' c)
| s_install_reply c id n resp :
    nodes c !! id = Some n -> step c (set_node id (exchangeSnapshotChunk resp n).2 c)
| s_submit c id n command (w : W) :
    nodes c !! id = Some n -> step c (set_node id (Submit command n w).1.2 c)
| s_apply c id n :
    nodes c !! id = Some n -> step c (set_node id (applyCommitted n).2 c).

Definition configured (id : bytes) (n : Node) : Prop :=
  id ∈ members /\ NodeID (config n) = id /\ Peers (config n) ≡ₚ addrOf <$> others id.

Record initial (c : Cluster) : Prop := {
  in_nodes : forall id n, nodes c !! id = Some n -> configured id n /\ state n <> Leader /\ 0 <= currentTerm n;
  in_elections : elections c = ∅;
  in_responses : responses c = [];
}.

Inductive reachable : Cluster -> Prop :=
| r_init c : initial c -> reachable c
| r_step c c' : reachable c -> step c c' -> reachable c'.

(** ** The invariant *)

(** [v] has given its vote of term [t] to [cand]. *)
Definition voted (c : Cluster) (v : bytes) (t : Z) (cand : bytes) : Prop :=
  (v = cand /\ is_Some (elections c !! (cand, t))) \/
  (exists res, (v, cand, t, res) ∈ responses c /\ rvr_VoteGranted res = true).

Record election_ok (c : Cluster) (id : bytes) (t : Z) (el : election) : Prop := {
  eo_node : exists n, nodes c !! id = Some n /\ t <= currentTerm n;
  eo_member : id ∈ members;
  eo_request : rv_Term (el_request el) = t /\ rv_CandidateId (el_request el) = id;
  eo_nodup : NoDup (el_pending el ++ el_granted el);
  eo_peers : forall p, p ∈ el_pending el ++ el_granted el -> p ∈ addrOf <$> others id;
  eo_votes : forall p, p ∈ el_granted el -> exists v, p = addrOf v /\ v ∈ members /\ voted c v t id;
  eo_grants : grants (el_events el) = len (el_granted el);
}.

Record Inv (c : Cluster) : Prop := {
  i_conf : forall id n, nodes c !! id = Some n -> configured id n /\ 0 <= currentTerm n;
  i_el : forall id t el, elections c !! (id, t) = Some el -> election_ok c id t el;
  i_resp : forall v cand t res, (v, cand, t, res) ∈ responses c -> is_Some (elections c !! (cand, t));
  i_vote : forall v t cand, voted c v t cand ->
    exists n, nodes c !! v = Some n /\ t <= currentTerm n /\ (currentTerm n = t -> votedFor n = cand);
  i_uniq : forall v t c1 c2, voted c v t c1 -> voted c v t c2 -> c1 = c2;
  i_lead : forall id n, nodes c !! id = Some n -> state n = Leader ->
    exists el, elections c !! (id, currentTerm n) = Some el /\
      needed (Peers (config n)) <= 1 + len (el_granted el);
}.

Lemma inv_initial c : initial c -> Inv c.
Proof.
  intros [H1 H2 H3].
  assert (forall v t cand, ~ voted c v t cand) as Hv.
  { intros v t cand [[_ He]|(res & Hr & _)].
    - rewrite H2, lookup_empty in He. by apply is_Some_None in He.
    - rewrite H3 in Hr. by apply not_elem_of_nil in Hr. }
  split.
  - intros id n Hn. by destruct (H1 id n Hn) as (? & _ & ?).
  - intros id t el. by rewrite H2, lookup_empty.
  - intros v cand t res Hr. rewrite H3 in Hr. by apply not_elem_of_nil in Hr.
  - intros v t cand Hx. by apply Hv in Hx.
  - intros v t c1 c2 Hx. by apply Hv in Hx.
  - intros id n Hn Hl. by destruct (H1 id n Hn) as (_ & ? & _).
Qed.

(** Replacing a node's state by a later one of the same configuration. *)
Lemma election_ok_node c id n n' k t el :
  nodes c !! id = Some n -> currentTerm n <= currentTerm n' ->
  election_ok c k t el -> election_ok (set_node id n' c) k t el.
Proof.
  intros Hn Hle [[m [Hm Ht]] E2 E3 E4 E5 E6 E7]. split; try done.
  destruct (decide (k = id)) as [->|Hne].
  - exists n'. simpl. rewrite lookup_insert_eq. split; [done|]. simplify_eq. lia.
  - exists m. simpl. by rewrite lookup_insert_ne.
Qed.

Lemma inv_node c id n n' :
  Inv c -> nodes c !! id = Some n -> config n' = config n -> currentTerm n <= currentTerm n' ->
  (currentTerm n' = currentTerm n -> votedFor n' = votedFor n) ->
  (state n' = Leader -> exists el, elections c !! (id, currentTerm n') = Some el /\
     needed (Peers (config n)) <= 1 + len (el_granted el)) ->
  Inv (set_node id n' c).
Proof.
  intros [I1 I2 I3 I4 I5 I6] Hn Q1 Q2 Q3 Q4.
  assert (forall k m, nodes (set_node id n' c) !! k = Some m ->
    (k = id /\ m = n') \/ (k <> id /\ nodes c !! k = Some m)) as Hlk.
  { intros k m. simpl. destruct (decide (k = id)) as [->|]; [rewrite lookup_insert_eq|rewrite lookup_insert_ne by done].
    - intros [= <-]. by left.
    - by right. }
  split.
  - intros k m [[-> ->]|[_ Hk]]%Hlk; [|by apply I1].
    destruct (I1 id n Hn) as [[G1 [G2 G3]] G4]. unfold configured. rewrite Q1. split; [done|lia].
  - intros k t el He. eapply election_ok_node; [done|done|by apply I2].
  - done.
  - intros v t cand Hv. destruct (I4 v t cand Hv) as (m & Hm & Ht & Hvf).
    destruct (decide (v = id)) as [->|Hne]; simpl.
    + exists n'. rewrite lookup_insert_eq. split; [done|]. simplify_eq. split; [lia|].
      intros E. rewrite Q3 by lia. apply Hvf. lia.
    + exists m. by rewrite lookup_insert_ne.
  - done.
  - intros k m [[-> ->]|[_ Hk]]%Hlk Hl; [|by apply I6]. rewrite Q1. auto.
Qed.

Lemma inv_quiet c id n n' :
  Inv c -> nodes c !! id = Some n -> quiet n n' -> Inv (set_node id n' c).
Proof.
  intros I Hn [Q1 Q2 Q3 Q4]. apply (inv_node c id n n'); try done.
  - intros E. by apply Q3.
  - intros Hl. destruct (decide (currentTerm n = currentTerm n')) as [E|Hne]; [|by destruct (Q4 ltac:(lia))].
    destruct (Q3 ltac:(lia)) as [_ Hs]. rewrite <- E. apply (i_lead c I); auto.
Qed.

Lemma inv_win c cand t el n :
  Inv c -> elections c !! (cand, t) = Some el -> nodes c !! cand = Some n ->
  collectVotes n (el_events el) = Won -> Inv (set_node cand (winElection t n) c).
Proof.
  intros I He Hn Hw. unfold winElection. case_decide as Hc; [|by apply (inv_quiet c cand n), quiet_refl].
  destruct Hc as [_ <-]. apply (inv_node c cand n); try done. intros _. exists el. split; [done|].
  apply collectVotes_won in Hw. by rewrite (eo_grants _ _ _ _ (i_el c I _ _ _ He)) in Hw.
Qed.

(** Replacing the record of an election. *)
Lemma inv_election c cand t el el' :
  Inv c -> elections c !! (cand, t) = Some el -> election_ok c cand t el' ->
  len (el_granted el) <= len (el_granted el') ->
  Inv (mkCluster (nodes c) (<[(cand, t) := el']> (elections c)) (responses c)).
Proof.
  intros [I1 I2 I3 I4 I5 I6] He Hok Hle. set (c' := mkCluster _ _ _).
  assert (forall k, is_Some (elections c' !! k) <-> is_Some (elections c !! k)) as Hdom.
  { intros k. simpl. destruct (decide (k = (cand, t))) as [->|]; [rewrite lookup_insert_eq, He|by rewrite lookup_insert_ne].
    split; eauto. }
  assert (forall v u x, voted c' v u x <-> voted c v u x) as Hv by (intros v u x; unfold voted; by rewrite Hdom).
  assert (forall k u x, election_ok c k u x -> election_ok c' k u x) as Hok'.
  { intros k u x [E1 E2 E3 E4 E5 E6 E7]. split; try done. intros p Hp.
    destruct (E6 p Hp) as (v & ? & ? & ?). exists v. by rewrite Hv. }
  split.
  - done.
  - intros k u x. simpl. destruct (decide ((k, u) = (cand, t))) as [E|Hne].
    + rewrite E, lookup_insert_eq. intros [= <-]. injection E as -> ->. by apply Hok'.
    + rewrite lookup_insert_ne by done. intros Hx. by apply Hok', I2.
  - intros v x u res Hr. apply Hdom. by eapply I3.
  - intros v u x Hx. apply Hv in Hx. by apply I4.
  - intros v u x y Hx Hy. apply Hv in Hx, Hy. by eapply I5.
  - intros id n Hn Hl. destruct (I6 id n Hn Hl) as (e0 & He0 & Hneed). simpl.
    destruct (decide ((id, currentTerm n) = (cand, t))) as [E|Hne].
    + rewrite E, lookup_insert_eq. exists el'. split; [done|]. rewrite E in He0. simplify_eq. lia.
    + exists e0. by rewrite lookup_insert_ne.
Qed.

Lemma grants_app ev ev' : grants (ev ++ ev') = grants ev + grants ev'.
Proof. unfold grants. by rewrite List.filter_app, len_app. Qed.

Lemma inv_timeout c cand t el :
  Inv c -> elections c !! (cand, t) = Some el ->
  Inv (mkCluster (nodes c)
        (<[(cand, t) := mkElection (el_request el) (el_pending el) (el_granted el)
            (el_events el ++ [VoteTimeout])]> (elections c)) (responses c)).
Proof.
  intros I He. eapply inv_election; [done|done| |done].
  destruct (i_el c I _ _ _ He) as [E1 E2 E3 E4 E5 E6 E7]. split; try done.
  simpl. rewrite grants_app, E7. unfold grants. simpl. rewrite len_nil. lia.
Qed.

Lemma inv_reply c cand t el n v resp granted n' :
  Inv c -> elections c !! (cand, t) = Some el -> nodes c !! cand = Some n ->
  addrOf v ∈ el_pending el -> v ∈ members ->
  (forall res, resp = Some res -> (v, cand, t, res) ∈ responses c) ->
  requestVote resp n = (granted, n') ->
  Inv (mkCluster (<[cand := n']> (nodes c))
        (<[(cand, t) := mkElection (el_request el)
            (filter (fun p => p <> addrOf v) (el_pending el))
            (if granted then addrOf v :: el_granted el else el_granted el)
            (el_events el ++ [VoteResult granted])]> (elections c)) (responses c)).
Proof.
  intros I He Hn Hp Hm Hres Hrv.
  pose proof (quiet_requestVote resp n) as Q. rewrite Hrv in Q. simpl in Q.
  pose proof (inv_quiet c cand n n' I Hn Q) as I'.
  apply (inv_election (set_node cand n' c) cand t el); [done|done| |destruct granted; simpl; rewrite ?len_cons; lia].
  destruct (i_el _ I' _ _ _ He) as [E1 E2 E3 E4 E5 E6 E7].
  apply NoDup_app in E4 as (N1 & N2 & N3). assert (addrOf v ∉ el_granted el) as Hng by (by apply N2).
  split; simpl; try done.
  - apply NoDup_app. split; [by apply NoDup_filter|]. split.
    + intros p Hf. apply list_elem_of_filter in Hf as [Hne Hf]. specialize (N2 p Hf).
      destruct granted; [|done]. apply not_elem_of_cons. done.
    + destruct granted; [|done]. by constructor.
  - intros p Hin. apply E5. rewrite elem_of_app in Hin |- *. destruct Hin as [Hf|Hg].
    + apply list_elem_of_filter in Hf as [_ ?]. by left.
    + destruct granted; [|by right]. apply elem_of_cons in Hg as [->|]; [by left|by right].
  - intros p Hg. destruct granted; [|by apply E6]. apply elem_of_cons in Hg as [->|Hg]; [|by apply E6].
    exists v. split; [done|]. split; [done|]. right. destruct resp as [res|]; [|done].
    exists res. split; [by apply Hres|]. unfold requestVote in Hrv. case_decide; [done|]. by injection Hrv as Hg _.
  - rewrite grants_app, E7. unfold grants. destruct granted; simpl; rewrite ?len_cons, ?len_nil; lia.
Qed.

Hypothesis members_nodup : NoDup members.
Hypothesis members_named : [] ∉ members.
Hypothesis addr_inj : forall x y, x ∈ members -> y ∈ members -> addrOf x = addrOf y -> x = y.

(** A candidate of the cluster has a name. *)
Lemma voted_named c v t x : Inv c -> voted c v t x -> x <> [].
Proof.
  intros I Hx ->. destruct Hx as [[_ [e1 Hx]]|(r1 & Hx & _)].
  - by apply members_named, (eo_member _ _ _ _ (i_el c I _ _ _ Hx)).
  - apply (i_resp c I) in Hx as [e1 Hx]. by apply members_named, (eo_member _ _ _ _ (i_el c I _ _ _ Hx)).
Qed.

(** What answering a request of the cluster does to the voter. *)
Lemma vote_effect c cand t el v n now res n' :
  Inv c -> elections c !! (cand, t) = Some el -> nodes c !! v = Some n ->
  handleRequestVote now (Some (el_request el)) n = (res, n') ->
  config n' = config n /\ currentTerm n <= currentTerm n' /\
  (currentTerm n' = currentTerm n -> state n' = Leader -> state n = Leader) /\
  (currentTerm n < currentTerm n' -> state n' <> Leader) /\
  (forall x, voted c v (currentTerm n') x -> votedFor n' = x) /\
  (rvr_VoteGranted res = true -> currentTerm n' = t /\ votedFor n' = cand).
Proof.
  intros I He Hn Hrun. destruct (eo_request _ _ _ _ (i_el c I _ _ _ He)) as [Ert Erc].
  apply handleRequestVote_cases in Hrun. rewrite Ert, Erc in Hrun.
  destruct Hrun as [[Hg [->|[Hlt ->]]]|(Hg & Hrt & Hle & Hct & Hvf & Hcf & _ & Hsame & Hnew)].
  - split_and!; try done; [lia| |by rewrite Hg].
    intros x Hx. destruct (i_vote c I _ _ _ Hx) as (m & Hm & _ & Hmv). simplify_eq. auto.
  - simpl. split_and!; try done; [lia| |by rewrite Hg].
    intros x Hx. destruct (i_vote c I _ _ _ Hx) as (m & Hm & Hmt & _). simplify_eq. lia.
  - rewrite Hct. split_and!; try done.
    + intros E. destruct (Hsame ltac:(lia)) as [_ ->]. done.
    + intros E. by rewrite (Hnew E).
    + intros x Hx. destruct (i_vote c I _ _ _ Hx) as (m & Hm & Hmt & Hmv). simplify_eq.
      destruct (Hsame ltac:(lia)) as [Hor _]. rewrite Hmv in Hor by lia.
      destruct Hor as [|Hor]; [by destruct (voted_named _ _ _ _ I Hx)|]. congruence.
Qed.

(** A response is recorded. *)
Lemma inv_vote c cand t el v n now res n' :
  Inv c -> elections c !! (cand, t) = Some el -> nodes c !! v = Some n ->
  handleRequestVote now (Some (el_request el)) n = (res, n') ->
  Inv (mkCluster (<[v := n']> (nodes c)) (elections c) ((v, cand, t, res) :: responses c)).
Proof.
  intros I He Hn Hrun.
  destruct (vote_effect c cand t el v n now res n' I He Hn Hrun) as (F1 & F2 & F3 & F4 & F5 & F6).
  clear Hrun. set (c' := mkCluster _ _ _).
  assert (forall w u x, voted c' w u x -> voted c w u x \/
            (w = v /\ u = currentTerm n' /\ x = cand /\ votedFor n' = cand)) as Hv'.
  { intros w u x [Hl|(r & Hr & Hgr)]; [left; by left|]. simpl in Hr. apply elem_of_cons in Hr as [[= -> -> -> ->]|Hr].
    - right. destruct (F6 Hgr). done.
    - left. right. eauto. }
  assert (forall w u x, voted c w u x -> voted c' w u x) as Hvm.
  { intros w u x [Hl|(r & Hr & Hgr)]; [by left|]. right. exists r. split; [by right|done]. }
  split.
  - intros k m. simpl. destruct (decide (k = v)) as [->|]; [rewrite lookup_insert_eq|rewrite lookup_insert_ne by done; apply (i_conf c I)].
    intros [= <-]. destruct (i_conf c I v n Hn) as [[G1 [G2 G3]] G4]. unfold configured. rewrite F1. split; [done|lia].
  - intros k u x Hx. destruct (election_ok_node c v n n' k u x Hn F2 (i_el c I _ _ _ Hx)) as [E1 E2 E3 E4 E5 E6 E7].
    split; try done. intros p Hp. destruct (E6 p Hp) as (w & ? & ? & Hw). exists w. split; [done|]. split; [done|]. by apply Hvm.
  - intros w x u r Hr. simpl in Hr. apply elem_of_cons in Hr as [[= -> -> -> ->]|Hr]; [simpl; rewrite He; eauto|].
    by eapply (i_resp c I).
  - intros w u x [Hx|(-> & -> & -> & Hvf)]%Hv'; simpl.
    + destruct (i_vote c I _ _ _ Hx) as (m & Hm & Ht & Hmv). destruct (decide (w = v)) as [->|Hwv].
      * exists n'. rewrite lookup_insert_eq. split; [done|]. simplify_eq. split; [lia|]. intros <-. by apply F5.
      * exists m. by rewrite lookup_insert_ne.
    + exists n'. by rewrite lookup_insert_eq.
  - intros w u x y [Hx|(-> & -> & -> & Hvf)]%Hv' [Hy|(E1 & E2 & -> & Hvf')]%Hv'; subst.
    + by eapply (i_uniq c I).
    + symmetry. by apply F5.
    + by apply F5.
    + done.
  - intros k m. simpl. destruct (decide (k = v)) as [->|]; [rewrite lookup_insert_eq|rewrite lookup_insert_ne by done; apply (i_lead c I)].
    intros [= <-] Hl. destruct (decide (currentTerm n' = currentTerm n)) as [E|]; [|by destruct (F4 ltac:(lia))].
    rewrite F1, E. apply (i_lead c I); auto.
Qed.

Lemma NoDup_others id : NoDup (addrOf <$> others id).
Proof.
  assert (forall l, NoDup l -> l ⊆ members -> NoDup (addrOf <$> l)) as Hg.
  { induction 1 as [|x l Hx Hl IH]; intros Hs; csimpl; constructor.
    - intros (y & E & Hy)%list_elem_of_fmap. apply addr_inj in E as ->; [done|apply Hs; by left|apply Hs; by right].
    - apply IH. intros z Hz. apply Hs. by right. }
  apply Hg; [by apply NoDup_filter|]. intros x Hx. by apply list_elem_of_filter in Hx as [_ ?].
Qed.

Lemma inv_start c id n now :
  Inv c -> nodes c !! id = Some n -> currentTerm n < 2 ^ 64 - 1 ->
  let n1 := beginElection now n in
  Inv (mkCluster (<[id := n1]> (nodes c))
        (<[(id, currentTerm n1) := mkElection (voteRequest n1) (Peers (config n)) [] []]> (elections c))
        (responses c)).
Proof.
  intros I Hn Hb n1. destruct (i_conf c I id n Hn) as [[Hmem [Hid Hpeers]] H0].
  assert (currentTerm n1 = currentTerm n + 1) as Et by (simpl; apply wrap64_small; unfold u64_ok; lia).
  assert (rv_Term (voteRequest n1) = currentTerm n1 /\ rv_CandidateId (voteRequest n1) = id) as Ereq.
  { unfold voteRequest. destruct (lastLogIndexTerm n1). by rewrite <- Hid. }
  assert (votedFor n1 = id /\ config n1 = config n /\ state n1 = Candidate) as (Ev & Ec & Es) by done.
  clearbody n1. rewrite Et in *. set (c' := mkCluster _ _ _).
  assert (elections c !! (id, currentTerm n + 1) = None) as Hfresh.
  { destruct (elections c !! _) as [el|] eqn:E; [|done].
    destruct (eo_node _ _ _ _ (i_el c I _ _ _ E)) as (m & Hm & Ht). simplify_eq. lia. }
  assert (forall v u x, voted c v u x -> voted c' v u x) as Hvm.
  { intros v u x [[-> [e Hx]]|Hr]; [left|by right]. split; [done|]. simpl.
    rewrite lookup_insert_ne; [eauto|]. intros [= <- <-]. congruence. }
  assert (forall v u x, voted c' v u x -> voted c v u x \/ (v = id /\ u = currentTerm n + 1 /\ x = id)) as Hv'.
  { intros v u x [[-> Hx]|Hr]; [|left; by right]. simpl in Hx.
    destruct (decide ((x, u) = (id, currentTerm n + 1))) as [[= -> ->]|Hne]; [by right|].
    rewrite lookup_insert_ne in Hx by done. left. by left. }
  split.
  - intros k m. simpl. destruct (decide (k = id)) as [->|]; [rewrite lookup_insert_eq|rewrite lookup_insert_ne by done; apply (i_conf c I)].
    intros [= <-]. unfold configured. rewrite Ec. split; [done|lia].
  - intros k u x. simpl. destruct (decide ((k, u) = (id, currentTerm n + 1))) as [[= -> ->]|Hne].
    + rewrite lookup_insert_eq. intros [= <-]. split; simpl; try done.
      * exists n1. rewrite lookup_insert_eq. split; [done|lia].
      * rewrite app_nil_r, Hpeers. apply NoDup_others.
      * intros p. rewrite app_nil_r, Hpeers. done.
      * intros p Hp. by apply not_elem_of_nil in Hp.
    + rewrite lookup_insert_ne by done. intros Hx.
      destruct (election_ok_node c id n n1 k u x Hn ltac:(lia) (i_el c I _ _ _ Hx)) as [E1 E2 E3 E4 E5 E6 E7].
      split; try done. intros p Hp. destruct (E6 p Hp) as (v & ? & ? & Hv). exists v. split; [done|]. split; [done|]. by apply Hvm.
  - intros v x u r Hr. simpl. destruct (decide ((x, u) = (id, currentTerm n + 1))) as [[= -> ->]|Hne].
    + rewrite lookup_insert_eq. eauto.
    + rewrite lookup_insert_ne by done. by eapply (i_resp c I).
  - intros v u x [Hx|(-> & -> & ->)]%Hv'; simpl.
    + destruct (i_vote c I _ _ _ Hx) as (m & Hm & Ht & Hmv). destruct (decide (v = id)) as [->|Hne].
      * exists n1. rewrite lookup_insert_eq. simplify_eq. split; [done|]. split; lia.
      * exists m. by rewrite lookup_insert_ne.
    + exists n1. rewrite lookup_insert_eq. split; [done|]. split; [lia|done].
  - assert (forall x, ~ voted c id (currentTerm n + 1) x) as Hno.
    { intros x Hx. destruct (i_vote c I _ _ _ Hx) as (m & Hm & Ht & _). simplify_eq. lia. }
    intros v u x y [Hx|(-> & -> & ->)]%Hv' [Hy|(E1 & E2 & ->)]%Hv'; subst; try done.
    + by eapply (i_uniq c I).
    + by apply Hno in Hx.
    + by apply Hno in Hy.
  - intros k m. simpl. destruct (decide (k = id)) as [->|Hne]; [rewrite lookup_insert_eq|rewrite lookup_insert_ne by done].
    + intros [= <-]. by rewrite Es.
    + intros Hk Hl. destruct (i_lead c I k m Hk Hl) as (el & He & Hneed). exists el.
      rewrite lookup_insert_ne; [done|]. by intros [= <- _].
Qed.

Lemma inv_reachable c : reachable c -> Inv c.
Proof.
  induction 1 as [c Hc|c c' _ IH Hst]; [by apply inv_initial|].
  destruct Hst.
  - by apply inv_start.
  - by eapply inv_vote.
  - by eapply inv_reply.
  - by apply inv_timeout.
  - by eapply inv_win.
  - by eapply inv_quiet, quiet_appendEntries.
  - by eapply inv_quiet, quiet_appendReply.
  - by eapply inv_quiet, quiet_install.
  - by eapply inv_quiet, quiet_exchange.
  - by eapply inv_quiet, quiet_submit.
  - by eapply inv_quiet, quiet_apply.
Qed.

(** ** Majorities intersect *)

Lemma others_perm id : id ∈ members -> members ≡ₚ id :: others id.
Proof.
  intros Hid. apply NoDup_Permutation; [done| |].
  - constructor; [|by apply NoDup_filter]. by intros [? _]%list_elem_of_filter.
  - intros x. unfold others. rewrite elem_of_cons, list_elem_of_filter.
    destruct (decide (x = id)) as [->|]; [tauto|]. split; [auto|]. by intros [?|[_ ?]].
Qed.

(** The addresses that gave a leader its votes: its own and the granted ones. *)
Lemma leader_quorum c id n :
  Inv c -> nodes c !! id = Some n -> state n = Leader ->
  exists q, NoDup q /\ q ⊆ (addrOf <$> members) /\ len members < 2 * len q /\
    forall v, v ∈ members -> addrOf v ∈ q -> voted c v (currentTerm n) id.
Proof.
  intros I Hn Hl. destruct (i_lead c I id n Hn Hl) as (el & He & Hneed).
  destruct (i_conf c I id n Hn) as [[Hmem [_ Hpeers]] _].
  destruct (i_el c I _ _ _ He) as [_ _ _ E4 E5 E6 _]. apply NoDup_app in E4 as (_ & _ & Ng).
  assert (forall p, p ∈ el_granted el -> p ∈ addrOf <$> others id) as Hsub
    by (intros p Hp; apply E5, elem_of_app; by right).
  exists (addrOf id :: el_granted el). split_and!.
  - constructor; [|done]. intros (y & E & Hy)%Hsub%list_elem_of_fmap.
    apply list_elem_of_filter in Hy as [Hne Hy]. by apply addr_inj in E.
  - intros p [->|Hp]%elem_of_cons; [by apply list_elem_of_fmap_2|].
    apply Hsub, list_elem_of_fmap in Hp as (y & -> & Hy). apply list_elem_of_filter in Hy as [_ Hy].
    by apply list_elem_of_fmap_2.
  - rewrite len_cons. rewrite needed_majority in Hneed.
    assert (len (Peers (config n)) + 1 = len members) as El.
    { unfold len. rewrite Hpeers, length_fmap, (others_perm id Hmem). simpl length. lia. }
    rewrite El in Hneed. pose proof (Z.div_mod (len members) 2 ltac:(lia)).
    pose proof (Z.mod_pos_bound (len members) 2 ltac:(lia)). lia.
  - intros v Hv [E|Hp]%elem_of_cons.
    + apply addr_inj in E as ->; [|done..]. left. split; [done|]. by rewrite He.
    + destruct (E6 _ Hp) as (w & E & Hw & Hvote). by apply addr_inj in E as ->.
Qed.

Lemma quorum_meet (q1 q2 l : list bytes) :
  NoDup q1 -> NoDup q2 -> q1 ⊆ l -> q2 ⊆ l -> len l < len q1 + len q2 -> exists p, p ∈ q1 /\ p ∈ q2.
Proof.
  intros N1 N2 S1 S2 Hlen. destruct (decide (Exists (fun p => p ∈ q2) q1)) as [Hx|Hno].
  - apply Exists_exists in Hx as (p & ? & ?). eauto.
  - exfalso. assert (NoDup (q1 ++ q2)) as Nd.
    { apply NoDup_app. split; [done|]. split; [|done]. intros p Hp Hq. apply Hno, Exists_exists. eauto. }
    assert (q1 ++ q2 ⊆+ l) as Hs.
    { apply NoDup_submseteq; [done|]. intros p [?|?]%elem_of_app; [by apply S1|by apply S2]. }
    apply submseteq_length in Hs. rewrite length_app in Hs. unfold len in Hlen. lia.
Qed.

(** C1. Election safety, as long as no node restarts. In every state that a cluster
    reaches from one without a leader or a running election, whose members are fixed
    and name each other as peers, two nodes that are leaders of the same term are the
    same node, for every interleaving of elections, votes, replies, appends,
    snapshots and submissions, and every loss, delay, reordering or duplication
    of messages. A node that restarts is outside of this, because term and vote are
    not on its disk ([RaftRestart.restart_votes_again]), and so is an election that
    would wrap the term counter at 2^64 - 1. *)
Theorem election_safety c id1 n1 id2 n2 :
  reachable c -> nodes c !! id1 = Some n1 -> nodes c !! id2 = Some n2 ->
  state n1 = Leader -> state n2 = Leader -> currentTerm n1 = currentTerm n2 -> id1 = id2.
Proof.
  intros I%inv_reachable H1 H2 L1 L2 Et.
  destruct (leader_quorum c id1 n1 I H1 L1) as (q1 & N1 & S1 & M1 & V1).
  destruct (leader_quorum c id2 n2 I H2 L2) as (q2 & N2 & S2 & M2 & V2).
  destruct (quorum_meet q1 q2 (addrOf <$> members)) as (p & P1 & P2); [done..| |].
  { unfold len in *. rewrite length_fmap. lia. }
  destruct (proj1 (list_elem_of_fmap _ _ _) (S1 p P1)) as (v & -> & Hv).
  apply (i_uniq c I v (currentTerm n1)); [by apply V1|rewrite Et; by apply V2].
Qed.

End Safety.

(** ** Witness: three nodes, an election that [a] wins *)

Definition demo_members : list bytes := [bs "a"; bs "b"; bs "c"].
Definition demo_member (id : bytes) : Node :=
  NewNode (mkConfig id [] 0 (filter (fun m => m <> id) demo_members) 0 0 0 (bs "secret") []) 0.
Definition demo_c0 : Cluster :=
  mkCluster (<[bs "a" := demo_member (bs "a")]> (<[bs "b" := demo_member (bs "b")]>
               (<[bs "c" := demo_member (bs "c")]> ∅))) ∅ [].
Definition demo_cand : Node := beginElection 1 (demo_member (bs "a")).
Definition demo_el : election :=
  mkElection (voteRequest demo_cand) (Peers (config (demo_member (bs "a")))) [] [].
Definition demo_c1 : Cluster :=
  mkCluster (<[bs "a" := demo_cand]> (nodes demo_c0)) (<[(bs "a", currentTerm demo_cand) := demo_el]> ∅) [].
Definition demo_ballot : RequestVoteResponse * Node :=
  handleRequestVote 2 (Some (voteRequest demo_cand)) (demo_member (bs "b")).
Definition demo_c2 : Cluster :=
  mkCluster (<[bs "b" := demo_ballot.2]> (nodes demo_c1)) (elections demo_c1)
    [(bs "b", bs "a", 1, demo_ballot.1)].
Definition demo_el3 : election :=
  mkElection (el_request demo_el) (filter (fun p => p <> bs "b") (el_pending demo_el)) [bs "b"]
    [VoteResult true].
Definition demo_c3 : Cluster :=
  mkCluster (<[bs "a" := demo_cand]> (nodes demo_c2)) (<[(bs "a", 1) := demo_el3]> (elections demo_c2))
    (responses demo_c2).
Definition demo_c4 : Cluster := set_node (bs "a") (winElection 1 demo_cand) demo_c3.

Abbreviation demo_reachable :=
  (@reachable fileStore fileWalStore bytes demo_installer jsonCodec demo_members (fun x => x)).

Lemma demo_initial : initial demo_members (fun x => x) demo_c0.
Proof.
  split; [|done|done]. intros id n Hn. simpl in Hn.
  rewrite !lookup_insert_Some in Hn. unfold configured, others. rewrite list_fmap_id.
  destruct Hn as [[<- <-]|[_ [[<- <-]|[_ [[<- <-]|[_ Hn]]]]]];
    [split_and!; try done; set_solver..|by rewrite lookup_empty in Hn].
Qed.

Lemma demo_reachable_c4 : demo_reachable demo_c4.
Proof.
  apply (r_step _ _ _ demo_c3); [apply (r_step _ _ _ demo_c2); [apply (r_step _ _ _ demo_c1);
    [apply (r_step _ _ _ demo_c0); [apply r_init, demo_initial|]|]|]|].
  - exact (s_start demo_installer demo_members (fun x => x) demo_c0 (bs "a") (demo_member (bs "a")) 1 eq_refl eq_refl).
  - exact (s_vote demo_installer demo_members (fun x => x) demo_c1 (bs "a") 1 demo_el (bs "b") (demo_member (bs "b")) 2
      demo_ballot.1 demo_ballot.2 eq_refl eq_refl eq_refl).
  - apply (s_reply demo_installer demo_members (fun x => x) demo_c2 (bs "a") 1 demo_el demo_cand (bs "b") (Some demo_ballot.1) true demo_cand);
      try reflexivity; [left|set_solver|].
    intros res [= <-]. left.
  - exact (s_win demo_installer demo_members (fun x => x) demo_c3 (bs "a") 1 demo_el3 demo_cand eq_refl eq_refl eq_refl).
Qed.

Lemma election_safety_witness :
  demo_reachable demo_c4 /\
  (exists n, nodes demo_c4 !! bs "a" = Some n /\ state n = Leader /\ currentTerm n = 1) /\
  forall id n, nodes demo_c4 !! id = Some n -> state n = Leader -> currentTerm n = 1 -> id = bs "a".
Proof.
  split; [exact demo_reachable_c4|]. split; [eexists; split; [reflexivity|done]|].
  intros id n Hn Hl Ht.
  apply (election_safety demo_installer demo_members (fun x => x)
    ltac:(apply (bool_decide_unpack _); vm_compute; exact I)
    ltac:(apply (bool_decide_unpack _); vm_compute; exact I)
    (fun x y _ _ E => E) demo_c4 id n (bs "a") (winElection 1 demo_cand)
    demo_reachable_c4 Hn eq_refl Hl eq_refl Ht).
Defined.
