(* ===== verification/Merkle.v ===== *)
(** * Merkle trees (internal/zero/merkle)

    [Tree] keeps the leaf hashes, every level and the root.  A nil root is the
    empty byte string.  Indices and sizes are Go [int]s in [Z].  The loops of
    [VerifyConsistencyProof] that shift indices are bounded by the 64 bits of
    an [int]. *)
From S2P Require Import Prelude Crypto.
From Stdlib Require Import ZArith Lia.
From stdpp Require Import base list strings.
#[local] Open Scope Z_scope.

(** ** hash.go *)

Definition hashLeaf (data : bytes) : bytes := Sha256.sum256 (Byte.x00 :: data).
Definition hashNode (left right : bytes) : bytes := Sha256.sum256 (Byte.x01 :: left ++ right).

(** ** tree.go *)

Record Tree : Type := mkTree {
  leaves : list bytes;
  levels : list (list bytes);
  root : bytes;
}.

Inductive merkle_err : Type := ErrEmptyTree | ErrInvalidIndex | ErrInvalidProof.

(** One level up: pairs are hashed, an odd last node is promoted unchanged. *)
Fixpoint pairUp (level : list bytes) : list bytes :=
  match level with
  | a :: b :: rest => hashNode a b :: pairUp rest
  | _ => level
  end.

(** The loop of [rebuild]: a level of [k] nodes has at most [k] levels above. *)
Fixpoint buildLevels (fuel : nat) (currentLevel : list bytes) : list (list bytes) :=
  currentLevel ::
  match fuel with
  | O => []
  | S fuel => if decide (1 < length currentLevel)%nat
              then buildLevels fuel (pairUp currentLevel) else []
  end.

Definition rebuild (leaves : list bytes) : Tree :=
  match leaves with
  | [] => mkTree [] [] []
  | _ =>
      let levels := buildLevels (length leaves) leaves in
      mkTree leaves levels (default [] (last levels ≫= head))
  end.

Definition New : Tree := mkTree [] [] [].
Definition NewFromHashes (hashes : list bytes) : Tree := rebuild hashes.

Definition Add (data : bytes) (t : Tree) : Z * Tree :=
  let t := rebuild (leaves t ++ [hashLeaf data]) in (len (leaves t) - 1, t).

Definition AddHash (hash : bytes) (t : Tree) : Z * Tree :=
  let t := rebuild (leaves t ++ [hash]) in (len (leaves t) - 1, t).

Definition Root (t : Tree) : bytes := root t.
Definition RootHex (t : Tree) : bytes := Hex.EncodeToString (root t).
Definition TreeLeafCount (t : Tree) : Z := len (leaves t).

(** ** proof.go *)

Record Proof_ : Type := mkProof {
  LeafIndex : Z;
  LeafHash : bytes;
  TreeSize : Z;
  RootHash : bytes;
  AuditPath : list bytes;
  Directions : list Z;
}.

(** The loop of [GetProof] over every level but the last. *)
Fixpoint auditPath (levels : list (list bytes)) (idx : nat) : list (bytes * Z) :=
  match levels with
  | levelNodes :: ((_ :: _) as rest) =>
      let '(siblingIdx, direction) :=
        if decide (idx mod 2 = 0)%nat then ((idx + 1)%nat, 1) else ((idx - 1)%nat, 0) in
      match levelNodes !! siblingIdx with
      | Some sibling => (Hex.EncodeToString sibling, direction) :: auditPath rest (idx / 2)
      | None => auditPath rest (idx / 2)
      end
  | _ => []
  end.

Definition GetProof (index : Z) (t : Tree) : result merkle_err Proof_ :=
  if decide (len (leaves t) = 0) then Err ErrEmptyTree
  else if decide (index < 0 \/ len (leaves t) <= index) then Err ErrInvalidIndex
  else
    let path := auditPath (levels t) (Z.to_nat index) in
    Ok (mkProof index (Hex.EncodeToString (default [] (leaves t !! Z.to_nat index)))
          (len (leaves t)) (Hex.EncodeToString (root t)) path.*1 path.*2).

(** The path loop of [VerifyProof]; [None] is a malformed sibling. *)
Fixpoint foldPath (path : list bytes) (dirs : list Z) (currentHash : bytes) : option bytes :=
  match path, dirs with
  | siblingHex :: path, dir :: dirs =>
      match Hex.DecodeString siblingHex with
      | None => None
      | Some sibling =>
          if decide (len sibling <> Sha256.Size) then None
          else foldPath path dirs
                 (if decide (dir = 0) then hashNode sibling currentHash
                  else hashNode currentHash sibling)
      end
  | _, _ => Some currentHash
  end.

(** [diff |= a[i] ^ b[i]] over the index range of [a]. *)
Definition bytesDiff (a b : bytes) : Z :=
  foldl (fun diff p => Z.lor diff (Z.lxor (byte_to_Z p.1) (byte_to_Z p.2))) 0 (zip a b).

Definition VerifyProof (p : option Proof_) : result merkle_err bool :=
  match p with
  | None => Err ErrInvalidProof
  | Some proof =>
      if decide (len (AuditPath proof) <> len (Directions proof)) then Err ErrInvalidProof
      else if decide (LeafIndex proof < 0 \/ TreeSize proof <= 0 \/ TreeSize proof <= LeafIndex proof)
      then Err ErrInvalidProof
      else
        match Hex.DecodeString (LeafHash proof) with
        | None => Err ErrInvalidProof
        | Some leafHash =>
            if decide (len leafHash <> Sha256.Size) then Err ErrInvalidProof
            else
              match Hex.DecodeString (RootHash proof) with
              | None => Err ErrInvalidProof
              | Some expectedRoot =>
                  if decide (len expectedRoot <> Sha256.Size) then Err ErrInvalidProof
                  else if decide (Exists (fun dir => dir <> 0 /\ dir <> 1) (Directions proof))
                  then Err ErrInvalidProof
                  else
                    match foldPath (AuditPath proof) (Directions proof) leafHash with
                    | None => Err ErrInvalidProof
                    | Some currentHash =>
                        if decide (len currentHash <> len expectedRoot) then Ok false
                        else Ok (bool_decide (bytesDiff currentHash expectedRoot = 0))
                    end
              end
        end
  end.

(** ** consistency.go *)

Record ConsistencyProof : Type := mkConsistency {
  OldSize : Z;
  NewSize : Z;
  OldRoot : bytes;
  NewRoot : bytes;
  ProofPath : list bytes;
}.

(** [for subM < subN && level < len(levels)-1]; [levels] from the current one on. *)
Fixpoint boundaryPath (levels : list (list bytes)) (subM subN : nat) : list bytes :=
  match levels with
  | levelNodes :: ((_ :: _) as rest) =>
      if decide (subM < subN)%nat then
        (if decide (subM < length levelNodes /\ subM mod 2 = 0 /\ subM + 1 <= length levelNodes)%nat then
           if decide (subM + 1 < length levelNodes)%nat
           then [Hex.EncodeToString (default [] (levelNodes !! (subM + 1)%nat))]
           else if decide (subM < length levelNodes)%nat
                then [Hex.EncodeToString (default [] (levelNodes !! subM))] else []
         else []) ++
        boundaryPath rest ((subM + 1) / 2) ((subN + 1) / 2)
      else []
  | _ => []
  end.

Definition consistencyPath (m n : nat) (levels : list (list bytes)) : list bytes :=
  match levels with
  | [] => []
  | level0 :: _ =>
      if decide (m = n) then []
      else RootHex (NewFromHashes (take m level0)) :: boundaryPath levels m n
  end.

Definition GetConsistencyProof (oldSize : Z) (t : Tree) : result merkle_err ConsistencyProof :=
  if decide (oldSize <= 0 \/ len (leaves t) < oldSize) then Err ErrInvalidIndex
  else
    let oldTree := NewFromHashes (take (Z.to_nat oldSize) (leaves t)) in
    Ok (mkConsistency oldSize (len (leaves t)) (RootHex oldTree) (Hex.EncodeToString (root t))
          (consistencyPath (Z.to_nat oldSize) (length (leaves t)) (levels t))).

(** [for fn&1 == 1 { fn >>= 1; sn >>= 1 }]. *)
Fixpoint shiftOdd (fuel : nat) (fn sn : Z) : Z * Z :=
  match fuel with
  | O => (fn, sn)
  | S fuel => if decide (Z.land fn 1 = 1) then shiftOdd fuel (Z.shiftr fn 1) (Z.shiftr sn 1) else (fn, sn)
  end.

(** [for fn != 0 && fn&1 == 0 { fn >>= 1; sn >>= 1 }]. *)
Fixpoint shiftEven (fuel : nat) (fn sn : Z) : Z * Z :=
  match fuel with
  | O => (fn, sn)
  | S fuel => if decide (fn <> 0 /\ Z.land fn 1 = 0)
              then shiftEven fuel (Z.shiftr fn 1) (Z.shiftr sn 1) else (fn, sn)
  end.

(** The loop over [path[1:]]; [None] is the early [return false]. *)
Fixpoint rebuildRoots (path : list bytes) (fn sn : Z) (fr sr : bytes) : option (Z * bytes * bytes) :=
  match path with
  | [] => Some (sn, fr, sr)
  | c :: path =>
      if decide (sn = 0) then None
      else if decide (Z.land fn 1 = 1 \/ fn = sn) then
        let '(fn, sn) := shiftEven 64 fn sn in
        rebuildRoots path (Z.shiftr fn 1) (Z.shiftr sn 1) (hashNode c fr) (hashNode c sr)
      else rebuildRoots path (Z.shiftr fn 1) (Z.shiftr sn 1) fr (hashNode sr c)
  end.

Fixpoint decodePath (path : list bytes) : option (list bytes) :=
  match path with
  | [] => Some []
  | h :: path =>
      match Hex.DecodeString h with
      | None => None
      | Some b => if decide (len b <> Sha256.Size) then None
                  else match decodePath path with None => None | Some bs => Some (b :: bs) end
      end
  end.

Definition VerifyConsistencyProof (p : option ConsistencyProof) : result merkle_err bool :=
  match p with
  | None => Err ErrInvalidProof
  | Some proof =>
      if decide (OldSize proof <= 0 \/ NewSize proof < OldSize proof) then Err ErrInvalidProof
      else if decide (OldSize proof = NewSize proof)
      then Ok (bool_decide (OldRoot proof = NewRoot proof /\ len (ProofPath proof) = 0))
      else
        match Hex.DecodeString (OldRoot proof), Hex.DecodeString (NewRoot proof) with
        | Some oldRoot, Some newRoot =>
            if decide (len oldRoot <> Sha256.Size \/ len newRoot <> Sha256.Size) then Err ErrInvalidProof
            else
              match decodePath (ProofPath proof) with
              | None | Some [] => Err ErrInvalidProof
              | Some (p0 :: path) =>
                  let '(fn, sn) := shiftOdd 64 (OldSize proof - 1) (NewSize proof - 1) in
                  match rebuildRoots path fn sn p0 p0 with
                  | None => Ok false
                  | Some (sn, fr, sr) =>
                      if decide (sn <> 0) then Ok false
                      else Ok (bool_decide (fr = oldRoot) && bool_decide (sr = newRoot))
                  end
              end
        | _, _ => Err ErrInvalidProof
        end
  end.
