(* ===== verification/MerkleProofs.v ===== *)
(** * Merkle trees: the root, inclusion proofs, consistency proofs *)
From S2P Require Import Prelude Crypto Merkle.
From Stdlib Require Import ZArith Lia.
From stdpp Require Import base list strings.
#[local] Open Scope Z_scope.

(** ** The tree hash of RFC 6962, section 2.1

    Over a list of leaf hashes: split at the largest power of two smaller than
    the size. *)
Definition split_point (n : nat) : nat := (2 ^ Nat.log2 (n - 1))%nat.

Fixpoint mth (fuel : nat) (l : list bytes) : bytes :=
  match l with
  | [] => []
  | [x] => x
  | _ =>
      match fuel with
      | O => []
      | S fuel =>
          let k := split_point (length l) in
          hashNode (mth fuel (take k l)) (mth fuel (drop k l))
      end
  end.

(** Of no leaves it is nil, the root of an empty tree in the code, where RFC 6962
    takes the hash of the empty string. *)
Definition MTH (l : list bytes) : bytes := mth (length l) l.

Lemma split_point_bounds n : (2 <= n)%nat -> (1 <= split_point n < n)%nat.
Proof.
  intros Hn. unfold split_point. destruct (Nat.log2_spec (n - 1)) as [H1 _]; [lia|].
  assert (2 ^ Nat.log2 (n - 1) <> 0)%nat by (apply Nat.pow_nonzero; lia). lia.
Qed.

Lemma mth_step f l :
  (2 <= length l)%nat ->
  mth (S f) l = hashNode (mth f (take (split_point (length l)) l)) (mth f (drop (split_point (length l)) l)).
Proof. destruct l as [|x [|y l]]; simpl length; try lia. done. Qed.

Lemma mth_one f l : (length l <= 1)%nat -> mth f l = MTH l.
Proof. destruct l as [|x [|y l]]; simpl length; try lia; intros _; by destruct f. Qed.

Lemma mth_fuel_S f l : (length l <= f)%nat -> mth (S f) l = mth f l.
Proof.
  revert l. induction f as [|f IH]; intros l Hl; [destruct l; [done|simpl in Hl; lia]|].
  destruct (decide (length l <= 1)%nat); [by rewrite !mth_one|].
  pose proof (split_point_bounds (length l) ltac:(lia)) as Hk.
  rewrite (mth_step (S f) l), (mth_step f l) by lia.
  rewrite !IH; [done|rewrite length_drop; lia|rewrite length_take; lia].
Qed.

Lemma mth_fuel f l : (length l <= f)%nat -> mth f l = MTH l.
Proof. induction 1 as [|f Hf IH]; [done|]. by rewrite mth_fuel_S. Qed.

Lemma MTH_step l :
  (2 <= length l)%nat ->
  MTH l = hashNode (MTH (take (split_point (length l)) l)) (MTH (drop (split_point (length l)) l)).
Proof.
  intros Hl. pose proof (split_point_bounds (length l) Hl) as Hk.
  unfold MTH at 1. destruct (length l) as [|n] eqn:E; [lia|]. rewrite mth_step, E by lia.
  rewrite !mth_fuel; [done|rewrite length_drop; lia|rewrite length_take; lia].
Qed.

(** ** Pairing up a level keeps the tree hash *)

Lemma pairUp_pair a b l : pairUp (a :: b :: l) = hashNode a b :: pairUp l.
Proof. done. Qed.

(** Induction two elements at a time. *)
Lemma pair_ind (P : list bytes -> Prop) :
  P [] -> (forall a, P [a]) -> (forall a b l, P l -> P (a :: b :: l)) -> forall l, P l.
Proof.
  intros H0 H1 H2. fix IH 1. intros [|a [|b l]]; [done|apply H1|apply H2, IH].
Qed.

Lemma length_pairUp l : length (pairUp l) = ((length l + 1) / 2)%nat.
Proof.
  induction l as [|a|a b l IH] using pair_ind; [done|done|].
  rewrite pairUp_pair. simpl length. rewrite IH.
  replace (S (S (length l)) + 1)%nat with (length l + 1 + 1 * 2)%nat by lia.
  rewrite Nat.div_add by lia. lia.
Qed.

Lemma pairUp_app k (a b : list bytes) : length a = (2 * k)%nat -> pairUp (a ++ b) = pairUp a ++ pairUp b.
Proof.
  revert k. induction a as [|x|x y a IH] using pair_ind; intros k Ha; [done|simpl in Ha; lia|].
  change ((x :: y :: a) ++ b) with (x :: y :: (a ++ b)). rewrite !pairUp_pair.
  rewrite (IH (k - 1)%nat); [done|simpl in Ha; lia].
Qed.

(** The split points of consecutive levels. *)
Lemma split_point_half n :
  (3 <= n)%nat -> exists j, split_point n = (2 * j)%nat /\ split_point ((n + 1) / 2) = j /\
    (2 <= (n + 1) / 2)%nat.
Proof.
  intros Hn. unfold split_point. destruct (Nat.log2_spec (n - 1)) as [H1 H2]; [lia|].
  destruct (Nat.log2 (n - 1)) as [|e]; [simpl in H2; lia|].
  exists (2 ^ e)%nat. rewrite Nat.pow_succ_r' in H1. rewrite !Nat.pow_succ_r' in H2.
  assert (2 ^ e <> 0)%nat by (apply Nat.pow_nonzero; lia).
  assert ((n + 1) / 2 >= 2 ^ e + 1)%nat by (apply Nat.div_le_lower_bound; lia).
  assert ((n + 1) / 2 < 2 * 2 ^ e + 1)%nat by (apply Nat.Div0.div_lt_upper_bound; lia).
  split; [by rewrite Nat.pow_succ_r'|]. split; [|lia].
  rewrite (Nat.log2_unique _ e); [done|lia|]. rewrite Nat.pow_succ_r'. lia.
Qed.

Lemma MTH_pairUp l : MTH (pairUp l) = MTH l.
Proof.
  remember (length l) as n eqn:En. revert l En.
  induction (lt_wf n) as [n _ IH]. intros l ->.
  destruct (decide (length l <= 2)%nat) as [Hs|Hl].
  { destruct l as [|a [|b [|c l]]]; try done. simpl in Hs. lia. }
  destruct (split_point_half (length l) ltac:(lia)) as (j & Hk & Hj & H2).
  pose proof (split_point_bounds (length l) ltac:(lia)) as Hb.
  rewrite (MTH_step l), (MTH_step (pairUp l)) by (rewrite ?length_pairUp; lia).
  rewrite length_pairUp, Hk, Hj in *.
  assert (length (take (2 * j) l) = 2 * j)%nat as Lt by (rewrite length_take; lia).
  assert (pairUp l = pairUp (take (2 * j) l) ++ pairUp (drop (2 * j) l)) as E.
  { rewrite <- (pairUp_app j) by done. by rewrite take_drop. }
  assert (length (pairUp (take (2 * j) l)) = j) as Lj.
  { rewrite length_pairUp, Lt. replace (2 * j + 1)%nat with (1 + j * 2)%nat by lia.
    by rewrite Nat.div_add. }
  rewrite E, take_app_length', drop_app_length' by done.
  f_equal; (eapply IH; [|reflexivity]); [rewrite Lt; lia|rewrite length_drop; lia].
Qed.

(** ** The levels *)

Lemma pairUp_length_lt l : (2 <= length l)%nat -> (1 <= length (pairUp l) < length l)%nat.
Proof.
  intros Hl. rewrite length_pairUp. split.
  - apply Nat.div_le_lower_bound; lia.
  - apply Nat.Div0.div_lt_upper_bound; lia.
Qed.

Lemma buildLevels_last fuel cur :
  (1 <= length cur <= S fuel)%nat -> last (buildLevels fuel cur) = Some [MTH cur].
Proof.
  revert cur. induction fuel as [|fuel IH]; intros cur Hl; simpl.
  - destruct cur as [|x [|y l]]; simpl in Hl; try lia. done.
  - case_decide as Hd.
    + pose proof (pairUp_length_lt cur ltac:(lia)).
      destruct (buildLevels fuel (pairUp cur)) as [|a l] eqn:E; [by destruct fuel|].
      rewrite last_cons_cons, <- E, IH by lia. by rewrite MTH_pairUp.
    + destruct cur as [|x [|y l]]; simpl in Hl, Hd; try lia. done.
Qed.

Lemma root_MTH hs : root (rebuild hs) = MTH hs.
Proof.
  destruct hs as [|x l]; [done|]. unfold rebuild. cbn [root].
  rewrite buildLevels_last by (simpl; lia). done.
Qed.

(** C34. The root of a tree, computed level by level with odd nodes promoted, is
    the Merkle tree hash of RFC 6962 over the leaf hashes; so is the root after
    any number of additions, however they are grouped. The root of no leaves is nil. *)
Theorem merkle_root_rfc6962 hs data h :
  Root (NewFromHashes hs) = MTH hs /\
  Root (Merkle.Add data (NewFromHashes hs)).2 = MTH (hs ++ [hashLeaf data]) /\
  Root (AddHash h (NewFromHashes hs)).2 = MTH (hs ++ [h]) /\
  (Merkle.Add data (NewFromHashes hs)).1 = len hs.
Proof.
  assert (leaves (NewFromHashes hs) = hs) as E by (by destruct hs).
  unfold Root, Merkle.Add, AddHash, NewFromHashes in *. simpl. rewrite E, !root_MTH.
  split; [done|]. split; [done|]. split; [done|].
  assert (leaves (rebuild (hs ++ [hashLeaf data])) = hs ++ [hashLeaf data]) as -> by (by destruct hs).
  rewrite len_app, len_cons, len_nil. lia.
Qed.

(** ** Inclusion proofs *)

Lemma length_hashNode a b : length (hashNode a b) = 32%nat.
Proof. apply Sha256.length_sum256. Qed.

Definition hash_sized (h : bytes) : Prop := length h = 32%nat.

Lemma pairUp_sized l : Forall hash_sized l -> Forall hash_sized (pairUp l).
Proof.
  induction l as [|a|a b l IH] using pair_ind; intros Hl; [done|done|].
  rewrite pairUp_pair. apply Forall_cons in Hl as [_ Hl]. apply Forall_cons in Hl as [_ Hl].
  constructor; [apply length_hashNode|by apply IH].
Qed.

(** The parent of a node, in terms of its sibling. *)
Lemma pairUp_lookup l i h :
  l !! i = Some h ->
  pairUp l !! (i / 2)%nat = Some
    (if decide (i mod 2 = 0)%nat
     then match l !! (i + 1)%nat with Some s => hashNode h s | None => h end
     else match l !! (i - 1)%nat with Some s => hashNode s h | None => h end).
Proof.
  revert i. induction l as [|a|a b l IH] using pair_ind; intros i Hi; [done| |].
  - destruct i as [|i]; [|done]. by injection Hi as <-.
  - destruct i as [|[|i]]; [by injection Hi as <-|by injection Hi as <-|].
    rewrite pairUp_pair. simpl in Hi.
    replace (S (S i)) with (i + 1 * 2)%nat by lia. rewrite Nat.div_add, Nat.Div0.mod_add by lia.
    replace (i / 2 + 1)%nat with (S (i / 2)) by lia. 
    change ((hashNode a b :: pairUp l) !! S (i / 2)) with (pairUp l !! (i / 2)%nat).
    rewrite (IH i Hi). f_equal. case_decide.
    + by replace (i + 1 * 2 + 1)%nat with (S (S (i + 1))) by lia.
    + destruct i as [|i]; [done|]. replace (S i + 1 * 2 - 1)%nat with (S (S i)) by lia.
      by replace (S i - 1)%nat with i by lia.
Qed.

Lemma auditPath_cons l l' lv idx :
  auditPath (l :: l' :: lv) idx =
    let sd := if decide (idx mod 2 = 0)%nat then ((idx + 1)%nat, 1) else ((idx - 1)%nat, 0) in
    match l !! sd.1 with
    | Some s => (Hex.EncodeToString s, sd.2) :: auditPath (l' :: lv) (idx / 2)
    | None => auditPath (l' :: lv) (idx / 2)
    end.
Proof. cbn [auditPath]. by case_decide. Qed.

(** Folding the audit path of the node at [idx] gives the root. *)
Lemma auditPath_fold fuel cur idx h :
  Forall hash_sized cur -> (length cur <= S fuel)%nat -> cur !! idx = Some h ->
  foldPath (auditPath (buildLevels fuel cur) idx).*1 (auditPath (buildLevels fuel cur) idx).*2 h
    = Some (MTH cur).
Proof.
  revert cur idx h. induction fuel as [|fuel IH]; intros cur idx h Hs Hl Hi; cbn [buildLevels].
  - destruct cur as [|x [|y l]]; [done| |simpl in Hl; lia]. destruct idx; [by injection Hi as <-|done].
  - case_decide as Hd.
    2: { destruct cur as [|x [|y l]]; [done| |simpl in Hd; lia]. destruct idx; [by injection Hi as <-|done]. }
    pose proof (pairUp_length_lt cur ltac:(lia)) as Hp.
    destruct (buildLevels fuel (pairUp cur)) as [|lv rest] eqn:E; [by destruct fuel|].
    pose proof (pairUp_lookup cur idx h Hi) as Hup.
    assert (forall h', pairUp cur !! (idx / 2)%nat = Some h' ->
      foldPath (auditPath (lv :: rest) (idx / 2)).*1 (auditPath (lv :: rest) (idx / 2)).*2 h'
      = Some (MTH cur)) as Hrec.
    { intros h' Hh'. rewrite <- E, <- MTH_pairUp. apply IH; [by apply pairUp_sized|lia|done]. }
    assert (forall j s, cur !! j = Some s -> len s = Sha256.Size) as Hsz.
    { intros j s Hj. eapply Forall_lookup_1 in Hs; [|exact Hj]. unfold len. by rewrite Hs. }
    rewrite auditPath_cons. case_decide as Hm; cbv zeta; cbn [fst snd].
    + destruct (cur !! (idx + 1)%nat) as [s|] eqn:Es; [|by apply Hrec].
      rewrite !fmap_cons. cbn [fst snd foldPath]. rewrite Hex.decode_encode.
      rewrite decide_False by (specialize (Hsz _ _ Es); lia). rewrite decide_False by lia. by apply Hrec.
    + destruct (cur !! (idx - 1)%nat) as [s|] eqn:Es; [|by apply Hrec].
      rewrite !fmap_cons. cbn [fst snd foldPath]. rewrite Hex.decode_encode.
      rewrite decide_False by (specialize (Hsz _ _ Es); lia). rewrite decide_True by lia. by apply Hrec.
Qed.

Lemma auditPath_dirs lv idx : Forall (fun d => d = 0 \/ d = 1) (auditPath lv idx).*2.
Proof.
  revert idx. induction lv as [|l [|l' lv] IH]; intros idx; [constructor|constructor|].
  rewrite auditPath_cons. cbv zeta. case_decide; cbn [fst snd]; case_match; rewrite ?fmap_cons;
    try (constructor; [simpl; auto|]); apply IH.
Qed.

Lemma bytesDiff_eq a b : length a = length b -> bytesDiff a b = 0 <-> a = b.
Proof.
  unfold bytesDiff. intros Hl.
  enough (forall d, 0 <= d -> (foldl (fun diff p => Z.lor diff (Z.lxor (byte_to_Z p.1) (byte_to_Z p.2))) d (zip a b) = 0
             <-> d = 0 /\ a = b)) as H by (rewrite H by lia; tauto).
  revert b Hl. induction a as [|x a IH]; intros [|y b] Hl d Hd; try done; simpl.
  - tauto.
  - pose proof (byte_to_Z_range x). pose proof (byte_to_Z_range y).
    assert (0 <= Z.lxor (byte_to_Z x) (byte_to_Z y)) by (apply Z.lxor_nonneg; lia).
    rewrite IH by (first [simpl in Hl; lia|by apply Z.lor_nonneg]).
    rewrite Z.lor_eq_0_iff, Z.lxor_eq_0_iff. split.
    + intros [[-> Exy] ->]. apply byte_to_Z_inj in Exy as ->. done.
    + intros [-> [= -> ->]]. done.
Qed.

Lemma MTH_sized l : l <> [] -> Forall hash_sized l -> length (MTH l) = 32%nat.
Proof.
  intros Hne Hs. destruct (decide (2 <= length l)%nat) as [H2|].
  - rewrite MTH_step by done. apply length_hashNode.
  - destruct l as [|x [|y l]]; [done| |simpl in *; lia]. by apply Forall_cons in Hs as [Hs _].
Qed.

(** Completeness of inclusion proofs.  In a tree over 32-byte leaf hashes,
    [GetProof] succeeds exactly for the indices of leaves, names the leaf's hash,
    the size and the root, and [VerifyProof] accepts what it returns. *)
Theorem inclusion_proof_complete hs index :
  Forall hash_sized hs ->
  match GetProof index (NewFromHashes hs) with
  | Ok p =>
      0 <= index < len hs /\ VerifyProof (Some p) = Ok true /\
      LeafIndex p = index /\ TreeSize p = len hs /\
      Hex.DecodeString (RootHash p) = Some (MTH hs) /\
      Hex.DecodeString (LeafHash p) = hs !! Z.to_nat index
  | Err ErrEmptyTree => hs = []
  | Err _ => hs <> [] /\ ~ (0 <= index < len hs)
  end.
Proof.
  intros Hs. unfold GetProof.
  assert (leaves (NewFromHashes hs) = hs) as -> by (by destruct hs).
  case_decide as H0; [destruct hs; [done|rewrite len_cons in H0; pose proof (len_nonneg hs); lia]|].
  assert (hs <> []) as Hne by (intros ->; done).
  case_decide as Hi; [split; [done|lia]|].
  destruct (lookup_lt_is_Some_2 hs (Z.to_nat index)) as [h Hh]; [unfold len in *; lia|].
  assert (levels (NewFromHashes hs) = buildLevels (length hs) hs) as El by (by destruct hs).
  assert (root (NewFromHashes hs) = MTH hs) as Er by apply root_MTH.
  pose proof (auditPath_fold (length hs) hs (Z.to_nat index) h Hs ltac:(lia) Hh) as Hf.
  rewrite El, Er, Hh. cbn [LeafIndex TreeSize RootHash LeafHash].
  split; [lia|]. split; [|rewrite !Hex.decode_encode; done].
  unfold VerifyProof. cbn [AuditPath Directions LeafIndex TreeSize LeafHash RootHash].
  rewrite decide_False by (unfold len; rewrite !length_fmap; lia). rewrite decide_False by lia.
  rewrite !Hex.decode_encode. cbn [default].
  assert (length h = 32%nat) as Lh by (by eapply Forall_lookup_1 in Hs).
  pose proof (MTH_sized hs Hne Hs) as Lr.
  rewrite decide_False by (unfold len, Sha256.Size; cbn; rewrite Lh; lia).
  rewrite decide_False by (unfold len, Sha256.Size; rewrite Lr; lia).
  rewrite decide_False.
  2: { rewrite Exists_exists. intros (d & Hd & H1 & H2).
       pose proof (auditPath_dirs (buildLevels (length hs) hs) (Z.to_nat index)) as Hall.
       rewrite Forall_forall in Hall. destruct (Hall d Hd); done. }
  cbn in Hf |- *. rewrite Hf. rewrite decide_False by tauto.
  rewrite bool_decide_eq_true_2; [done|]. by apply bytesDiff_eq.
Qed.

(** ** Binding *)

(** A message of the first list and one of the second are different and have the
    same SHA-256 digest. *)
Definition collide_among (ms ms' : list bytes) : Prop :=
  exists x y, x ∈ ms /\ y ∈ ms' /\ x <> y /\ Sha256.sum256 x = Sha256.sum256 y.

Lemma collide_more m m' ms ms' : collide_among ms ms' -> collide_among (m :: ms) (m' :: ms').
Proof. intros (x & y & Hx & Hy & H). exists x, y. split; [by right|]. split; [by right|done]. Qed.

Definition nodeMessage (left right : bytes) : bytes := Byte.x01 :: left ++ right.

(** What [foldPath] hashes, from the leaf up. *)
Fixpoint pathMessages (path : list bytes) (dirs : list Z) (currentHash : bytes) : list bytes :=
  match path, dirs with
  | siblingHex :: path, dir :: dirs =>
      let sibling := default [] (Hex.DecodeString siblingHex) in
      let message := if decide (dir = 0) then nodeMessage sibling currentHash else nodeMessage currentHash sibling in
      message :: pathMessages path dirs (Sha256.sum256 message)
  | _, _ => []
  end.

Definition proofMessages (p : Proof_) : list bytes :=
  pathMessages (AuditPath p) (Directions p) (default [] (Hex.DecodeString (LeafHash p))).

Lemma hashNode_binding a b c d :
  length a = length c -> hashNode a b = hashNode c d ->
  (a = c /\ b = d) \/ forall ms ms', collide_among (nodeMessage a b :: ms) (nodeMessage c d :: ms').
Proof.
  intros Hl E. unfold hashNode in E.
  destruct (decide (nodeMessage a b = nodeMessage c d)) as [Eq|Hne].
  - left. injection Eq as Eq. by apply app_inj_1 in Eq.
  - right. intros ms ms'. eexists _, _. split; [by left|]. split; [by left|]. split; [exact Hne|exact E].
Qed.

(** The siblings of a path, decoded. *)
Lemma foldPath_binding path path' dirs a b r :
  length path = length dirs -> length path' = length dirs -> length a = 32%nat -> length b = 32%nat ->
  foldPath path dirs a = Some r -> foldPath path' dirs b = Some r ->
  (a = b /\ decodePath path = decodePath path') \/ collide_among (pathMessages path dirs a) (pathMessages path' dirs b).
Proof.
  revert path path' a b. induction dirs as [|d dirs IH]; intros [|s path] [|s' path'] a b L1 L2 La Lb Ha Hb;
    simpl in L1, L2; try lia.
  - left. simpl in *. simplify_eq. done.
  - simpl in Ha, Hb |- *.
    destruct (Hex.DecodeString s) as [x|]; [|done]. destruct (Hex.DecodeString s') as [y|]; [|done].
    destruct (decide (len x <> Sha256.Size)) as [|Hx]; [done|].
    destruct (decide (len y <> Sha256.Size)) as [|Hy]; [done|].
    assert (length x = length y) as Lxy by (unfold len, Sha256.Size in *; lia).
    cbn [default]. destruct (IH path path' (if decide (d = 0) then hashNode x a else hashNode a x)
      (if decide (d = 0) then hashNode y b else hashNode b y)) as [[Eh Ep]|Hc];
      [lia|lia|case_decide; apply length_hashNode|case_decide; apply length_hashNode|done|done| |].
    2:{ right. apply collide_more. by case_decide. }
    rewrite Ep. case_decide.
    + apply hashNode_binding in Eh as [[-> ->]|Hc]; [by left|by right|done].
    + apply hashNode_binding in Eh as [[-> ->]|Hc]; [by left|by right|lia].
Qed.

(** What an accepted proof establishes. *)
Lemma VerifyProof_inv p :
  VerifyProof (Some p) = Ok true ->
  exists leaf rt, Hex.DecodeString (LeafHash p) = Some leaf /\ Hex.DecodeString (RootHash p) = Some rt /\
    length leaf = 32%nat /\ length rt = 32%nat /\ length (AuditPath p) = length (Directions p) /\
    0 <= LeafIndex p < TreeSize p /\
    Forall (fun d => d = 0 \/ d = 1) (Directions p) /\
    foldPath (AuditPath p) (Directions p) leaf = Some rt.
Proof.
  unfold VerifyProof. case_decide as Hl; [done|]. case_decide as Hi; [done|].
  destruct (Hex.DecodeString (LeafHash p)) as [leaf|]; [|done]. case_decide as Hls; [done|].
  destruct (Hex.DecodeString (RootHash p)) as [rt|]; [|done]. case_decide as Hrs; [done|].
  case_decide as Hd; [done|]. destruct (foldPath _ _ leaf) as [cur|] eqn:E; [|done].
  case_decide as Hc; [done|]. intros [= Hb%bool_decide_eq_true].
  unfold len, Sha256.Size in *. apply bytesDiff_eq in Hb as ->; [|lia].
  exists leaf, rt. split_and!; try done; try lia.
  apply Forall_forall. intros d Hin. destruct (decide (d = 0)); [by left|]. destruct (decide (d = 1)); [by right|].
  exfalso. apply Hd, Exists_exists. eauto.
Qed.

(** C35. Binding of inclusion proofs.  Two accepted proofs with the same root and
    the same directions have the same leaf hash and the same siblings, unless one of
    the node messages that are hashed in checking the first and one of those of the
    second are a SHA-256 collision. *)
Theorem inclusion_proof_binding p q rt :
  VerifyProof (Some p) = Ok true -> VerifyProof (Some q) = Ok true ->
  Hex.DecodeString (RootHash p) = Some rt -> Hex.DecodeString (RootHash q) = Some rt ->
  Directions p = Directions q ->
  (Hex.DecodeString (LeafHash p) = Hex.DecodeString (LeafHash q) /\
   decodePath (AuditPath p) = decodePath (AuditPath q))
  \/ collide_among (proofMessages p) (proofMessages q).
Proof.
  intros (l1 & r1 & E1 & R1 & L1 & _ & N1 & _ & _ & F1)%VerifyProof_inv
         (l2 & r2 & E2 & R2 & L2 & _ & N2 & _ & _ & F2)%VerifyProof_inv Hp Hq Hd.
  simplify_eq. rewrite <- Hd in *.
  destruct (foldPath_binding _ _ _ _ _ _ N1 N2 L1 L2 F1 F2) as [[-> ?]|Hc]; [left; by rewrite E1, E2|right].
  unfold proofMessages. by rewrite E1, E2, <- Hd.
Qed.

(** The leaf index is not bound by a proof: an accepted proof stays accepted
    with any other index below the tree size. *)
Theorem inclusion_proof_index_free p j :
  VerifyProof (Some p) = Ok true -> 0 <= j < TreeSize p ->
  VerifyProof (Some (mkProof j (LeafHash p) (TreeSize p) (RootHash p) (AuditPath p) (Directions p))) = Ok true.
Proof.
  intros Hv Hj. pose proof (VerifyProof_inv p Hv) as (_ & _ & _ & _ & _ & _ & _ & Hi & _).
  unfold VerifyProof in *. cbn [AuditPath Directions LeafIndex TreeSize LeafHash RootHash].
  rewrite (decide_False (P := j < 0 \/ _)) by lia.
  rewrite (decide_False (P := LeafIndex p < 0 \/ _)) in Hv by lia. done.
Qed.

(** ** Consistency proofs *)

(** The consistency proof that the tree of any two leaves gives for its
    first leaf is refused by the verifier, although the old tree is a prefix of
    the new one. *)
Theorem consistency_proof_refused a b :
  hash_sized a -> hash_sized b ->
  exists p, GetConsistencyProof 1 (NewFromHashes [a; b]) = Ok p /\
    VerifyConsistencyProof (Some p) = Ok false.
Proof.
  intros Ha Hb. eexists. split; [reflexivity|].
  unfold VerifyConsistencyProof. cbn [OldSize NewSize OldRoot NewRoot ProofPath].
  change (leaves (NewFromHashes [a; b])) with [a; b]. change (len [a; b]) with 2.
  rewrite !decide_False by lia.
  change (RootHex (NewFromHashes (take (Z.to_nat 1) [a; b]))) with (Hex.EncodeToString a).
  change (consistencyPath (Z.to_nat 1) (length [a; b]) (levels (NewFromHashes [a; b])))
    with [Hex.EncodeToString a].
  change (root (NewFromHashes [a; b])) with (hashNode a b).
  cbn [decodePath]. rewrite !Hex.decode_encode. unfold hash_sized in *.
  rewrite decide_False by (unfold len, Sha256.Size; rewrite Ha, length_hashNode; lia).
  rewrite decide_False by (unfold len, Sha256.Size; rewrite Ha; lia).
  change (shiftOdd 64 (1 - 1) (2 - 1)) with (0, 1). cbn [rebuildRoots].
  by rewrite decide_True by lia.
Qed.

(** ** Witnesses *)

Definition demo_leaves : list bytes := [hashLeaf (bs "k1"); hashLeaf (bs "k2"); hashLeaf (bs "k3")].

Lemma demo_leaves_sized : Forall hash_sized demo_leaves.
Proof. repeat constructor; apply Sha256.length_sum256. Qed.

Definition demo_proof : Proof_ :=
  match GetProof 2 (NewFromHashes demo_leaves) with Ok p => p | Err _ => mkProof 0 [] 0 [] [] [] end.

Lemma demo_proof_ok : VerifyProof (Some demo_proof) = Ok true.
Proof. vm_compute. reflexivity. Qed.

Lemma inclusion_proof_complete_witness :
  exists p, GetProof 2 (NewFromHashes demo_leaves) = Ok p /\ VerifyProof (Some p) = Ok true.
Proof.
  pose proof (inclusion_proof_complete demo_leaves 2 demo_leaves_sized) as H.
  destruct (GetProof 2 (NewFromHashes demo_leaves)) as [p|e] eqn:E; [|vm_compute in E; discriminate E].
  exists p. split; [reflexivity|]. exact (proj1 (proj2 H)).
Defined.

Lemma inclusion_proof_binding_witness :
  (Hex.DecodeString (LeafHash demo_proof) = Hex.DecodeString (LeafHash demo_proof) /\
   decodePath (AuditPath demo_proof) = decodePath (AuditPath demo_proof))
  \/ collide_among (proofMessages demo_proof) (proofMessages demo_proof).
Proof.
  destruct (VerifyProof_inv demo_proof demo_proof_ok) as (leaf & rt & _ & Hr & _).
  exact (inclusion_proof_binding demo_proof demo_proof rt demo_proof_ok demo_proof_ok Hr Hr eq_refl).
Defined.

Lemma inclusion_proof_index_free_witness :
  VerifyProof (Some (mkProof 0 (LeafHash demo_proof) (TreeSize demo_proof) (RootHash demo_proof)
    (AuditPath demo_proof) (Directions demo_proof))) = Ok true.
Proof.
  apply (inclusion_proof_index_free demo_proof 0 demo_proof_ok). vm_compute. split; [discriminate|reflexivity].
Defined.

Lemma consistency_proof_refused_witness :
  exists p, GetConsistencyProof 1 (NewFromHashes [hashLeaf (bs "k1"); hashLeaf (bs "k2")]) = Ok p /\
    VerifyConsistencyProof (Some p) = Ok false.
Proof.
  apply (consistency_proof_refused (hashLeaf (bs "k1")) (hashLeaf (bs "k2")));
    apply Sha256.length_sum256.
Defined.
