(* ===== verification/Transparency.v ===== *)
(** * The transparency log
    (keys/transparency.go, transparency_logging.go, transparency_merkle.go, transparency_query.go)

    An append-only table of events, chained by SHA-256 hashes and summarised by a
    Merkle tree, with the history of keys that decides which event an
    observation is.

    The database is the list of rows in the order of their ids, and a script of
    what its statements report: success, failure, or a failure whose statement
    was carried out all the same, which is how a lost connection looks. What
    comes back for a timestamp, [dbTime], is a parameter: a TIMESTAMPTZ column
    keeps an instant to a precision of its own, and the driver chooses the zone.
    [clock] gives the readings of [time.Now], with the offset of the local zone. *)
From S2P Require Import Prelude Crypto Decimal GoTime GoStrings NetIP Canonical TrustPolicy Merkle.
From Stdlib Require Import ZArith Lia.
From stdpp Require Import base gmap list strings fin_maps.
#[local] Open Scope Z_scope.

(** ** Times as [time.Time] prints them *)

(** An instant in nanoseconds, and the minutes its zone is east of Greenwich. *)
Record gotime : Type := mkTime {
  instant : Z;
  zone : Z;
}.

Definition zoneText (z : Z) : bytes :=
  (if decide (z < 0) then Byte.x2d else Byte.x2b) :: padded 2 (Z.abs z / 60) ++ Byte.x3a :: padded 2 (Z.abs z mod 60).

(** [t.Format(time.RFC3339Nano)]. *)
Definition FormatTime (t : gotime) : bytes :=
  if decide (zone t = 0) then FormatRFC3339Nano (instant t)
  else let s := FormatRFC3339Nano (instant t + zone t * Minute) in take (length s - 1) s ++ zoneText (zone t).

(** [n] over [10 ^ k], the fraction without trailing zeros. *)
Definition decimalText (k : nat) (n : Z) : bytes :=
  FormatUint (n / 10 ^ Z.of_nat k) ++
  match trimZeros (padded k (n mod 10 ^ Z.of_nat k)) with [] => [] | t => Byte.x2e :: t end.

(** [d.String()] of a [time.Duration]. *)
Definition DurationString (d : Z) : bytes :=
  let u := Z.abs d in
  let text :=
    if decide (u = 0) then bs "0s"
    else if decide (u < 1000) then FormatUint u ++ bs "ns"
    else if decide (u < 1000000) then decimalText 3 u ++ [Byte.xc2; Byte.xb5] ++ bs "s"
    else if decide (u < Second) then decimalText 6 u ++ bs "ms"
    else
      let minutes := u / Minute in
      (if decide (minutes < 60) then [] else FormatUint (minutes / 60) ++ bs "h") ++
      (if decide (minutes = 0) then [] else FormatUint (minutes mod 60) ++ bs "m") ++
      decimalText 9 (u mod Minute) ++ bs "s" in
  if decide (d < 0) then Byte.x2d :: text else text.

Example duration_vectors :
  DurationString 0 = bs "0s" /\ DurationString 1500 = [Byte.x31; Byte.x2e; Byte.x35; Byte.xc2; Byte.xb5; Byte.x73]
  /\ DurationString 2000000 = bs "2ms" /\ DurationString (90 * Minute + 1500000000) = bs "1h30m1.5s"
  /\ DurationString (- (24 * Hour)) = bs "-24h0m0s"
  /\ FormatTime (mkTime 0 120) = bs "1970-01-01T02:00:00+02:00".
Proof. by vm_compute. Qed.

(** ** Entries *)

Inductive LogEventType : Type :=
  | EventKeyFirstSeen | EventKeyVerified | EventKeyRotation | EventKeyExpired | EventKeyRevoked
  | EventAnomalyRapid | EventAnomalyMulti | EventAnomalyBackdate | EventFetchFailed | EventPolicyViolation.

Definition eventText (e : LogEventType) : bytes :=
  match e with
  | EventKeyFirstSeen => bs "KEY_FIRST_SEEN"
  | EventKeyVerified => bs "KEY_VERIFIED"
  | EventKeyRotation => bs "KEY_ROTATION"
  | EventKeyExpired => bs "KEY_EXPIRED"
  | EventKeyRevoked => bs "KEY_REVOKED"
  | EventAnomalyRapid => bs "ANOMALY_RAPID_ROTATION"
  | EventAnomalyMulti => bs "ANOMALY_MULTIPLE_KEYS"
  | EventAnomalyBackdate => bs "ANOMALY_BACKDATED_KEY"
  | EventFetchFailed => bs "FETCH_FAILED"
  | EventPolicyViolation => bs "POLICY_VIOLATION"
  end.

(** [EventType] is a string: a row can hold any. *)
Record TransparencyLogEntry : Type := mkLogEntry {
  te_Timestamp : gotime;
  te_ServerName : bytes;
  te_KeyID : bytes;
  te_EventType : bytes;
  te_Details : bytes;
  te_KeyHash : bytes;
  te_ValidUntilTS : Z;
  te_PreviousHash : bytes;
  te_EntryHash : bytes;
}.

Definition bar : byte := Byte.x7c.

(** What [computeEntryHash] hashes. *)
Definition entryData (e : TransparencyLogEntry) : bytes :=
  FormatTime (te_Timestamp e) ++ bar :: te_ServerName e ++ bar :: te_KeyID e ++ bar :: te_EventType e
  ++ bar :: te_Details e ++ bar :: te_KeyHash e ++ bar :: FormatInt (te_ValidUntilTS e) ++ bar :: te_PreviousHash e.

Definition computeEntryHash (e : TransparencyLogEntry) : bytes := Hex.EncodeToString (Sha256.sum256 (entryData e)).

Definition hashKey (key : bytes) : bytes := Hex.EncodeToString (Sha256.sum256 key).

Definition hashPreview (hash : bytes) : bytes :=
  if decide (hash = []) then []
  else if decide (len hash <= 16) then hash
  else take 16 hash ++ bs "...".

(** ** The log *)

Record keyHistoryEntry : Type := mkHistory {
  lastKeyID : bytes;
  lastKeyHash : bytes;
  lastSeen : Z;
  rotationCount : Z;
  firstSeen : Z;
}.

Record TransparencyConfig : Type := mkTransparencyConfig {
  tc_Enabled : bool;
  tc_LogAllKeys : bool;
  tc_LogKeyChanges : bool;
  tc_LogAnomalies : bool;
  tc_RetentionDays : Z;
  tc_TableName : bytes;
}.

Inductive db_outcome : Type := DbOk | DbFail | DbLost.

Inductive tl_err : Type := TlUnsafeTable | TlDatabase | TlDecode.

(** The log and the database behind it. *)
Record TransparencyLog : Type := mkTransparency {
  tl_config : TransparencyConfig;
  rows : list TransparencyLogEntry;
  lastHash : bytes;
  keyHistory : gmap bytes keyHistoryEntry;
  merkleTree : Tree;
  dbScript : list db_outcome;
  tl_reads : nat;
}.

Definition set_rows rs (t : TransparencyLog) : TransparencyLog :=
  mkTransparency (tl_config t) rs (lastHash t) (keyHistory t) (merkleTree t) (dbScript t) (tl_reads t).
Definition set_lastHash h (t : TransparencyLog) : TransparencyLog :=
  mkTransparency (tl_config t) (rows t) h (keyHistory t) (merkleTree t) (dbScript t) (tl_reads t).
Definition set_history m (t : TransparencyLog) : TransparencyLog :=
  mkTransparency (tl_config t) (rows t) (lastHash t) m (merkleTree t) (dbScript t) (tl_reads t).
Definition set_tree tree (t : TransparencyLog) : TransparencyLog :=
  mkTransparency (tl_config t) (rows t) (lastHash t) (keyHistory t) tree (dbScript t) (tl_reads t).
Definition set_script s (t : TransparencyLog) : TransparencyLog :=
  mkTransparency (tl_config t) (rows t) (lastHash t) (keyHistory t) (merkleTree t) s (tl_reads t).
Definition set_reads n (t : TransparencyLog) : TransparencyLog :=
  mkTransparency (tl_config t) (rows t) (lastHash t) (keyHistory t) (merkleTree t) (dbScript t) n.

Definition TL (A : Type) : Type := TransparencyLog -> A * TransparencyLog.
Definition tret {A} (a : A) : TL A := fun t => (a, t).
Definition tbind {A B} (m : TL A) (k : A -> TL B) : TL B := fun t => let '(a, t) := m t in k a t.
Definition tget : TL TransparencyLog := fun t => (t, t).
Definition tmodify (f : TransparencyLog -> TransparencyLog) : TL unit := fun t => (tt, f t).

Declare Scope transparency_scope.
Notation "x <-- m ;; k" := (tbind m (fun x => k)) (at level 20, m at level 99, k at level 200, only parsing) : transparency_scope.
Notation "m ;; k" := (tbind m (fun _ => k)) (at level 100, k at level 200, only parsing) : transparency_scope.
#[local] Open Scope transparency_scope.

(** What the next statement reports. *)
Definition statement : TL db_outcome := fun t =>
  match dbScript t with
  | [] => (DbOk, t)
  | o :: s => (o, set_script s t)
  end.

Definition genesis : bytes := bs "genesis".

Section Log.
Variable clock : nat -> gotime.
Variable dbTime : gotime -> gotime.

Definition timeNow : TL gotime := fun t => (clock (tl_reads t), set_reads (S (tl_reads t)) t).

(** ** The tree and the last hash ([transparency_merkle.go], [loadLastHash]) *)

Definition addMerkleHash (entryHash : bytes) : TL (option tl_err) :=
  match Hex.DecodeString entryHash with
  | None => tret (Some TlDecode)
  | Some hashBytes => tmodify (fun t => set_tree (AddHash hashBytes (merkleTree t)).2 t);; tret None
  end.

Fixpoint addMerkleHashes (hashes : list bytes) : TL (option tl_err) :=
  match hashes with
  | [] => tret None
  | h :: hashes =>
      r <-- addMerkleHash h;;
      match r with Some e => tret (Some e) | None => addMerkleHashes hashes end
  end.

Definition rebuildMerkleTree : TL (option tl_err) :=
  o <-- statement;;
  match o with
  | DbOk => t <-- tget;; addMerkleHashes (map te_EntryHash (rows t))
  | _ => tret (Some TlDatabase)
  end.

Definition loadLastHash : TL (option tl_err) :=
  o <-- statement;;
  match o with
  | DbOk => t <-- tget;; tmodify (set_lastHash (default genesis (te_EntryHash <$> last (rows t))));; tret None
  | _ => tret (Some TlDatabase)
  end.

Definition isIdentStart (b : byte) : bool :=
  let c := byte_to_Z b in bool_decide (97 <= c <= 122 \/ 65 <= c <= 90 \/ c = 95).

(** [safeSQLIdentifier]. *)
Definition safeSQLIdentifier (s : bytes) : bool :=
  match s with
  | [] => false
  | b :: s => isIdentStart b && forallb (fun b => isIdentStart b || is_digit b) s
  end.

Definition defaultTransparencyTableName : bytes := bs "key_transparency_log".

(** [t] holds the database that is found. The legacy [initTable] only succeeds
    or fails. *)
Definition NewTransparencyLog (cfg : TransparencyConfig) (t : TransparencyLog) : result tl_err TransparencyLog :=
  let table := if decide (tc_TableName cfg = []) then defaultTransparencyTableName else tc_TableName cfg in
  let t := mkTransparency cfg (rows t) [] ∅ New (dbScript t) (tl_reads t) in
  if negb (safeSQLIdentifier table) then Err TlUnsafeTable
  else if negb (tc_Enabled cfg) then Ok t
  else
    let '(o, t) := if decide (table = defaultTransparencyTableName) then (DbOk, t) else statement t in
    match o with
    | DbOk =>
        match loadLastHash t with
        | (Some e, _) => Err e
        | (None, t) => match rebuildMerkleTree t with (Some e, _) => Err e | (None, t) => Ok t end
        end
    | _ => Err TlDatabase
    end.

(** ** Appending ([transparency_logging.go]) *)

Definition with_hashes (prev : bytes) (e : TransparencyLogEntry) : TransparencyLogEntry :=
  let e := mkLogEntry (te_Timestamp e) (te_ServerName e) (te_KeyID e) (te_EventType e) (te_Details e) (te_KeyHash e)
             (te_ValidUntilTS e) prev (te_EntryHash e) in
  mkLogEntry (te_Timestamp e) (te_ServerName e) (te_KeyID e) (te_EventType e) (te_Details e) (te_KeyHash e)
    (te_ValidUntilTS e) prev (computeEntryHash e).

(** The row as it is read back. *)
Definition stored_row (e : TransparencyLogEntry) : TransparencyLogEntry :=
  mkLogEntry (dbTime (te_Timestamp e)) (te_ServerName e) (te_KeyID e) (te_EventType e) (te_Details e) (te_KeyHash e)
    (te_ValidUntilTS e) (te_PreviousHash e) (te_EntryHash e).

(** INSERT under the unique constraint on [entry_hash]. *)
Definition insertRow (e : TransparencyLogEntry) : TL bool :=
  o <-- statement;;
  t <-- tget;;
  if decide (te_EntryHash e ∈ map te_EntryHash (rows t)) then tret false
  else match o with
       | DbFail => tret false
       | DbOk => tmodify (set_rows (rows t ++ [stored_row e]));; tret true
       | DbLost => tmodify (set_rows (rows t ++ [stored_row e]));; tret false
       end.

Definition appendEntry (entry : TransparencyLogEntry) : TL (option tl_err) :=
  t <-- tget;;
  let entry := with_hashes (lastHash t) entry in
  ok <-- insertRow entry;;
  if negb ok then tret (Some TlDatabase)
  else tmodify (set_lastHash (te_EntryHash entry));; addMerkleHash (te_EntryHash entry).

(** The fields an event is built from; the others are empty. *)
Definition newEntry (ts : gotime) (serverName keyID : bytes) (ev : LogEventType) (details keyHash : bytes) (validUntil : Z)
  : TransparencyLogEntry := mkLogEntry ts serverName keyID (eventText ev) details keyHash validUntil [] [].

Definition checkAnomalies (serverName keyID : bytes) (history : keyHistoryEntry) : TL unit :=
  now <-- timeNow;;
  let since := timeSub (instant now) (firstSeen history) in
  if decide (3 < rotationCount history /\ since < 24 * Hour) then
    (appendEntry (newEntry now serverName keyID EventAnomalyRapid
       (bs "rotations=" ++ FormatInt (rotationCount history) ++ bs " in " ++ DurationString since) [] 0);; tret tt)
  else tret tt.

Definition setHistory (serverName : bytes) (h : keyHistoryEntry) : TL unit :=
  tmodify (fun t => set_history (<[serverName := h]> (keyHistory t)) t).

(** What an observation of a key appends, and the history to update; [Err] when
    [LogKey] returns the error. *)
Definition observeKey (serverName keyID keyHash : bytes) (validUntil : Z) : TL (result tl_err keyHistoryEntry) :=
  t <-- tget;;
  match keyHistory t !! serverName with
  | None =>
      first <-- timeNow;;
      let history := mkHistory [] [] zeroTime 0 (instant first) in
      setHistory serverName history;;
      ts <-- timeNow;;
      r <-- appendEntry (newEntry ts serverName keyID EventKeyFirstSeen [] keyHash validUntil);;
      tret (match r with Some e => Err e | None => Ok history end)
  | Some history =>
      if decide (lastKeyHash history <> keyHash) then
        r <-- (if tc_LogKeyChanges (tl_config t) then
                 ts <-- timeNow;;
                 appendEntry (newEntry ts serverName keyID EventKeyRotation
                   (bs "previous_key_id=" ++ lastKeyID history) keyHash validUntil)
               else tret None);;
        match r with
        | Some e => tret (Err e)
        | None =>
            (if tc_LogAnomalies (tl_config t) then checkAnomalies serverName keyID history else tret tt);;
            tret (Ok (mkHistory (lastKeyID history) (lastKeyHash history) (lastSeen history)
                        (wrap_int (rotationCount history + 1)) (firstSeen history)))
        end
      else tret (Ok history)
  end.

(** The loop of [LogKey] over the sorted key IDs. *)
Fixpoint logKeys (serverName : bytes) (validUntil : Z) (keys : list (bytes * VerifyKeyResponse)) : TL (option tl_err) :=
  match keys with
  | [] => tret None
  | (keyID, verifyKey) :: keys =>
      let keyHash := hashKey (vk_Key verifyKey) in
      r <-- observeKey serverName keyID keyHash validUntil;;
      match r with
      | Err e => tret (Some e)
      | Ok h =>
          seen <-- timeNow;;
          setHistory serverName (mkHistory keyID keyHash (instant seen) (rotationCount h) (firstSeen h));;
          logKeys serverName validUntil keys
      end
  end.

Definition LogKey (serverName : bytes) (resp : ServerKeysResponse) : TL (option tl_err) :=
  t <-- tget;;
  if negb (tc_Enabled (tl_config t)) || negb (tc_LogAllKeys (tl_config t)) then tret None
  else logKeys serverName (ValidUntilTS resp) (sortKeys (map_to_list (VerifyKeys resp))).

Definition LogVerification (serverName keyID : bytes) : TL (option tl_err) :=
  t <-- tget;;
  if negb (tc_Enabled (tl_config t)) || negb (tc_LogAllKeys (tl_config t)) then tret None
  else ts <-- timeNow;; appendEntry (newEntry ts serverName keyID EventKeyVerified [] [] 0).

Definition LogFailure (serverName reason : bytes) : TL (option tl_err) :=
  t <-- tget;;
  if negb (tc_Enabled (tl_config t)) then tret None
  else ts <-- timeNow;; appendEntry (newEntry ts serverName [] EventFetchFailed reason [] 0).

(** The text of a violation. *)
Definition detailText (d : detail) : bytes :=
  match d with
  | Text t => t
  | PrivateAddress ip => bs "private IP address " ++ IP_String ip ++ bs " is blocked"
  | KeyValidity keyAge maxAge => bs "key validity " ++ DurationString keyAge ++ bs " exceeds max " ++ DurationString maxAge
  | NotaryCount count required => bs "has " ++ FormatInt count ++ bs " notary signatures, requires " ++ FormatInt required
  end.

Definition LogPolicyViolation (v : PolicyViolation) : TL (option tl_err) :=
  t <-- tget;;
  if negb (tc_Enabled (tl_config t)) then tret None
  else
    ts <-- timeNow;;
    appendEntry (newEntry ts (ViolationServer v) [] EventPolicyViolation (Rule v ++ bs ": " ++ detailText (Details v)) [] 0).

(** ** Reading ([transparency_query.go]) *)

(** The loop of [VerifyChain]. *)
Fixpoint verifyRows (checked : Z) (expectedPrevHash : bytes) (rs : list TransparencyLogEntry) : bool * Z :=
  match rs with
  | [] => (true, checked)
  | e :: rs =>
      let checked := checked + 1 in
      if decide (te_PreviousHash e <> expectedPrevHash) then (false, checked)
      else if decide (computeEntryHash e <> te_EntryHash e) then (false, checked)
      else verifyRows checked (te_EntryHash e) rs
  end.

Definition VerifyChain (limit : nat) : TL (result tl_err (bool * Z)) :=
  t <-- tget;;
  if negb (tc_Enabled (tl_config t)) then tret (Ok (true, 0))
  else
    o <-- statement;;
    match o with
    | DbOk => tret (Ok (verifyRows 0 genesis (take limit (rows t))))
    | _ => tret (Err TlDatabase)
    end.

(** Newest first. *)
Definition Query (serverName : bytes) (since : Z) (limit : nat) : TL (result tl_err (list TransparencyLogEntry)) :=
  t <-- tget;;
  if negb (tc_Enabled (tl_config t)) then tret (Ok [])
  else
    o <-- statement;;
    match o with
    | DbOk =>
        tret (Ok (take limit (rev (filter (fun e => (serverName = [] \/ te_ServerName e = serverName)
                                                    /\ since <= instant (te_Timestamp e)) (rows t)))))
    | _ => tret (Err TlDatabase)
    end.

(** A day is 24 hours in a zone of constant offset. *)
Definition Cleanup : TL (result tl_err Z) :=
  t <-- tget;;
  if negb (tc_Enabled (tl_config t)) || bool_decide (tc_RetentionDays (tl_config t) <= 0) then tret (Ok 0)
  else
    now <-- timeNow;;
    let cutoff := instant now - tc_RetentionDays (tl_config t) * (24 * Hour) in
    o <-- statement;;
    t <-- tget;;
    let kept := filter (fun e => ~ instant (te_Timestamp e) < cutoff) (rows t) in
    let deleted := Z.of_nat (length (rows t) - length kept) in
    match o with
    | DbFail => tret (Err TlDatabase)
    | DbLost => tmodify (set_rows kept);; tret (Err TlDatabase)
    | DbOk =>
        tmodify (set_rows kept);;
        if decide (deleted <= 0) then tret (Ok deleted)
        else
          tmodify (set_tree New);;
          rebuildMerkleTree;;
          loadLastHash;;
          tmodify (fun t => set_history (filter (fun kv => ~ lastSeen kv.2 < cutoff) (keyHistory t)) t);;
          tret (Ok deleted)
    end.

(** The inclusion proof of an entry. *)
Definition LogGetProof (index : Z) (t : TransparencyLog) : option (result merkle_err Proof_) :=
  if tc_Enabled (tl_config t) then Some (GetProof index (merkleTree t)) else None.

End Log.
