(* ===== verification/TransparencyProofs.v ===== *)
(** * The transparency log is a chain, and its last hash binds it *)
From S2P Require Import Prelude Crypto Decimal GoTime GoStrings NetIP Canonical TrustPolicy.
From S2P Require Import Merkle MerkleProofs Transparency.
From Stdlib Require Import ZArith Lia.
From stdpp Require Import base gmap list strings fin_maps.
#[local] Open Scope Z_scope.
#[local] Open Scope transparency_scope.

(** ** Chains *)

(** The hash the next entry continues from. *)
Definition tip (prev : bytes) (rs : list TransparencyLogEntry) : bytes := default prev (te_EntryHash <$> last rs).

Fixpoint chained (prev : bytes) (rs : list TransparencyLogEntry) : Prop :=
  match rs with
  | [] => True
  | e :: rs => te_PreviousHash e = prev /\ computeEntryHash e = te_EntryHash e /\ chained (te_EntryHash e) rs
  end.

Lemma tip_snoc prev rs e : tip prev (rs ++ [e]) = te_EntryHash e.
Proof. unfold tip. by rewrite last_snoc. Qed.

Lemma tip_cons prev e rs : tip prev (e :: rs) = tip (te_EntryHash e) rs.
Proof. unfold tip. rewrite last_cons. by destruct (last rs). Qed.

Lemma chained_snoc prev rs e :
  chained prev (rs ++ [e]) <->
  chained prev rs /\ te_PreviousHash e = tip prev rs /\ computeEntryHash e = te_EntryHash e.
Proof.
  revert prev. induction rs as [|e0 rs IH]; intros prev; cbn [chained app].
  - unfold tip. simpl. tauto.
  - rewrite IH, tip_cons. tauto.
Qed.

Lemma verifyRows_chained checked prev rs :
  (verifyRows checked prev rs).1 = true <-> chained prev rs.
Proof.
  revert checked prev. induction rs as [|e rs IH]; intros checked prev; cbn [verifyRows chained]; [done|].
  case_decide as H1; simpl; [split; [done|tauto]|]. case_decide as H2; simpl; [split; [done|tauto]|].
  rewrite IH. tauto.
Qed.

Lemma verifyRows_count checked prev rs :
  chained prev rs -> verifyRows checked prev rs = (true, checked + Z.of_nat (length rs)).
Proof.
  revert checked prev. induction rs as [|e rs IH]; intros checked prev; cbn [verifyRows chained length].
  - intros _. f_equal. lia.
  - intros (H1 & H2 & H3). rewrite decide_False by tauto. rewrite decide_False by tauto. rewrite IH by done. f_equal. lia.
Qed.

(** ** What the log maintains *)

(** The table is a chain from the start, the log continues from its last hash,
    and the tree is that of its hashes; no acknowledgement will be lost. *)
Record log_ok (t : TransparencyLog) : Prop := {
  ok_chain : chained genesis (rows t);
  ok_last : lastHash t = tip genesis (rows t);
  ok_tree : exists hs, map Some hs = map (fun e => Hex.DecodeString (te_EntryHash e)) (rows t)
                       /\ merkleTree t = NewFromHashes hs;
  ok_script : DbLost ∉ dbScript t;
}.

Lemma leaves_rebuild l : leaves (rebuild l) = l.
Proof. by destruct l. Qed.

(** [m] yields values of [P] and keeps the log. *)
Definition keepsTo {A} (m : TL A) (P : A -> Prop) : Prop :=
  forall t, log_ok t -> P (m t).1 /\ log_ok (m t).2 /\ rows t `prefix_of` rows (m t).2 /\ tl_config (m t).2 = tl_config t.

Definition keeps {A} (m : TL A) : Prop := keepsTo m (fun _ => True).

Lemma keepsTo_bind {A B} (m : TL A) (k : A -> TL B) (P : A -> Prop) (Q : B -> Prop) :
  keepsTo m P -> (forall a, P a -> keepsTo (k a) Q) -> keepsTo (tbind m k) Q.
Proof.
  intros Hm Hk t Ht. unfold tbind. specialize (Hm t Ht). destruct (m t) as [a t1]. cbn [fst snd] in Hm.
  destruct Hm as (HP & H1 & H2 & H3). destruct (Hk a HP t1 H1) as (HQ & H4 & H5 & H6).
  split; [done|]. split; [done|]. split; [by etrans|congruence].
Qed.

Lemma keeps_bind {A B} (m : TL A) (k : A -> TL B) (Q : B -> Prop) :
  keeps m -> (forall a, keepsTo (k a) Q) -> keepsTo (tbind m k) Q.
Proof. intros Hm Hk. eapply keepsTo_bind; [exact Hm|]. intros a _. apply Hk. Qed.

Lemma keepsTo_ret {A} (a : A) (P : A -> Prop) : P a -> keepsTo (tret a) P.
Proof. by intros HP t Ht. Qed.

Lemma keeps_ret {A} (a : A) : keeps (tret a).
Proof. by apply keepsTo_ret. Qed.

Lemma keeps_get : keeps tget.
Proof. by intros t Ht. Qed.

(** Reads of the whole state before a branch. *)
Lemma keeps_with {A} (k : TransparencyLog -> TL A) : (forall t, keeps (k t)) -> keeps (tbind tget k).
Proof. intros Hk. by apply keeps_bind; [apply keeps_get|]. Qed.

Lemma keeps_history serverName h : keeps (setHistory serverName h).
Proof. intros t [H1 H2 H3 H4]. split; [done|]. by split; [|split; [reflexivity|]]. Qed.

Section Log.
Variable clock : nat -> gotime.
Variable dbTime : gotime -> gotime.

(** The database returns times in the text they were logged with. *)
Definition faithful (ts : gotime) : Prop := FormatTime (dbTime ts) = FormatTime ts.

Lemma stored_row_hash e : faithful (te_Timestamp e) -> computeEntryHash (stored_row dbTime e) = computeEntryHash e.
Proof. intros Hf. unfold computeEntryHash, entryData, stored_row. simpl. by rewrite Hf. Qed.

Lemma with_hashes_hash prev e : computeEntryHash (with_hashes prev e) = te_EntryHash (with_hashes prev e).
Proof. done. Qed.

Lemma insertRow_spec e t :
  DbLost ∉ dbScript t ->
  (exists s, insertRow dbTime e t = (false, set_script s t) /\ DbLost ∉ s)
  \/ (exists s, insertRow dbTime e t = (true, set_rows (rows t ++ [stored_row dbTime e]) (set_script s t)) /\ DbLost ∉ s).
Proof.
  intros Hs. unfold insertRow, tbind, statement, tget, tmodify, tret. destruct t as [cfg rs lh kh mt script reads]. simpl in *.
  destruct script as [|o script]; simpl.
  - case_decide; [left; by exists []|right; by exists []].
  - apply not_elem_of_cons in Hs as [Ho Hs]. case_decide; [left; by exists script|].
    destruct o; [right; by exists script|left; by exists script|done].
Qed.

Lemma appendEntry_keeps e : faithful (te_Timestamp e) -> keeps (appendEntry dbTime e).
Proof.
  intros Hf t [Hc Hl [hs [Hhs Ht]] Hs]. unfold appendEntry, tbind, tget, tmodify, addMerkleHash, tret. cbv zeta.
  set (e' := with_hashes (lastHash t) e).
  assert (te_EntryHash e' = Hex.EncodeToString (Sha256.sum256 (entryData e'))) as Hhash by done.
  destruct (insertRow_spec e' t Hs) as [(s & -> & Hs')|(s & -> & Hs')]; cbn [negb].
  - split; [done|]. split; [|split; [reflexivity|done]]. split; [done|done|by exists hs|done].
  - rewrite Hhash, Hex.decode_encode. split; [done|].
    destruct t as [cfg rs lh kh mt script reads]. simpl in *. split; [|split; [by exists [stored_row dbTime e']|done]]. split; simpl.
    + apply chained_snoc. split; [done|]. split; [done|]. by rewrite stored_row_hash.
    + by rewrite tip_snoc.
    + exists (hs ++ [Sha256.sum256 (entryData e')]). rewrite !map_app, Hhs. simpl.
      rewrite Hhash, Hex.decode_encode. split; [done|]. rewrite Ht. unfold NewFromHashes at 1. by rewrite leaves_rebuild.
    + done.
Qed.

Hypothesis Hclock : forall n, faithful (clock n).

Lemma keeps_now : keepsTo (timeNow clock) faithful.
Proof. intros t [H1 H2 H3 H4]. split; [apply Hclock|]. by split; [|split; [reflexivity|]]. Qed.

Lemma keeps_entry mk :
  (forall ts, te_Timestamp (mk ts) = ts) -> keeps (tbind (timeNow clock) (fun ts => appendEntry dbTime (mk ts))).
Proof.
  intros Hmk. eapply keepsTo_bind; [apply keeps_now|]. intros ts Hts. apply appendEntry_keeps. by rewrite Hmk.
Qed.

Lemma checkAnomalies_keeps serverName keyID h : keeps (checkAnomalies clock dbTime serverName keyID h).
Proof.
  eapply keepsTo_bind; [apply keeps_now|]. intros ts Hts. cbv zeta. case_decide; [|apply keeps_ret].
  apply keeps_bind; [by apply appendEntry_keeps|]. intros _. apply keeps_ret.
Qed.

Lemma observeKey_keeps serverName keyID keyHash v : keeps (observeKey clock dbTime serverName keyID keyHash v).
Proof.
  apply keeps_with. intros t. destruct (keyHistory t !! serverName) as [h|].
  - case_decide; [|apply keeps_ret]. apply keeps_bind.
    + destruct (tc_LogKeyChanges (tl_config t)); [by apply keeps_entry|apply keeps_ret].
    + intros [e|]; [apply keeps_ret|]. apply keeps_bind; [|intros _; apply keeps_ret].
      destruct (tc_LogAnomalies (tl_config t)); [apply checkAnomalies_keeps|apply keeps_ret].
  - eapply keepsTo_bind; [apply keeps_now|]. intros first _. apply keeps_bind; [apply keeps_history|]. intros _.
    eapply keepsTo_bind; [apply keeps_now|]. intros ts Hts. apply keeps_bind; [by apply appendEntry_keeps|].
    intros r. apply keeps_ret.
Qed.

Lemma logKeys_keeps serverName v keys : keeps (logKeys clock dbTime serverName v keys).
Proof.
  induction keys as [|[keyID k] keys IH]; [apply keeps_ret|]. cbn [logKeys].
  apply keeps_bind; [apply observeKey_keeps|]. intros [h|e]; [|apply keeps_ret].
  eapply keepsTo_bind; [apply keeps_now|]. intros seen _. apply keeps_bind; [apply keeps_history|]. intros _. apply IH.
Qed.

(** The calls that write. *)
Inductive log_op : Type :=
  | OpKey (serverName : bytes) (resp : ServerKeysResponse)
  | OpVerification (serverName keyID : bytes)
  | OpFailure (serverName reason : bytes)
  | OpViolation (v : PolicyViolation).

Definition runOp (op : log_op) : TL (option tl_err) :=
  match op with
  | OpKey serverName resp => LogKey clock dbTime serverName resp
  | OpVerification serverName keyID => LogVerification clock dbTime serverName keyID
  | OpFailure serverName reason => LogFailure clock dbTime serverName reason
  | OpViolation v => LogPolicyViolation clock dbTime v
  end.

(** Errors of one call do not keep the caller from the next. *)
Definition runOps (ops : list log_op) (t : TransparencyLog) : TransparencyLog :=
  fold_left (fun t op => (runOp op t).2) ops t.

Lemma runOp_keeps op : keeps (runOp op).
Proof.
  destruct op; apply keeps_with; intros t; case_match; try apply keeps_ret; try (by apply keeps_entry). apply logKeys_keeps.
Qed.

Lemma runOps_keeps ops t : log_ok t -> log_ok (runOps ops t) /\ rows t `prefix_of` rows (runOps ops t).
Proof.
  revert t. induction ops as [|op ops IH]; intros t Ht; [done|]. cbn [runOps fold_left].
  destruct (runOp_keeps op t Ht) as (_ & H1 & H2 & _). destruct (IH _ H1) as [H3 H4]. split; [done|by etrans].
Qed.

End Log.

(** ** Opening *)

Lemma addMerkleHashes_ok hashes t t' hs0 :
  merkleTree t = NewFromHashes hs0 -> addMerkleHashes hashes t = (None, t') ->
  exists hs, map Some hs = map Hex.DecodeString hashes /\ t' = set_tree (NewFromHashes (hs0 ++ hs)) t.
Proof.
  revert t hs0. induction hashes as [|h hashes IH]; intros t hs0 Ht Hrun; cbn [addMerkleHashes] in Hrun.
  - injection Hrun as <-. exists []. split; [done|]. rewrite app_nil_r, <- Ht. by destruct t.
  - unfold tbind, addMerkleHash in Hrun. destruct (Hex.DecodeString h) as [hb|] eqn:Eh; [|done].
    unfold tbind, tmodify, tret in Hrun.
    assert ((AddHash hb (merkleTree t)).2 = NewFromHashes (hs0 ++ [hb])) as Hadd
      by (rewrite Ht; unfold NewFromHashes at 1; simpl; by rewrite leaves_rebuild).
    rewrite Hadd in Hrun. apply (IH _ (hs0 ++ [hb])) in Hrun as (hs & Hhs & ->); [|done].
    exists (hb :: hs). simpl. rewrite Hhs, Eh, <- app_assoc. by destruct t.
Qed.

Lemma statement_ok t o t' :
  statement t = (o, t') -> DbLost ∉ dbScript t -> exists s, t' = set_script s t /\ DbLost ∉ s.
Proof.
  unfold statement. destruct t as [cfg rs lh kh mt script reads]. simpl. destruct script as [|o' script]; intros [= <- <-] Hs.
  - by exists [].
  - apply not_elem_of_cons in Hs as [_ Hs]. by exists script.
Qed.

Lemma NewTransparencyLog_ok cfg db t :
  NewTransparencyLog cfg db = Ok t -> tc_Enabled cfg = true -> chained genesis (rows db) -> DbLost ∉ dbScript db ->
  log_ok t /\ rows t = rows db /\ tl_config t = cfg.
Proof.
  intros Hrun He Hc Hs. unfold NewTransparencyLog in Hrun. destruct (safeSQLIdentifier _); [|done].
  rewrite He in Hrun. cbn [negb] in Hrun.
  set (t0 := mkTransparency _ _ _ _ _ _ _) in Hrun. assert (dbScript t0 = dbScript db) as Hs0 by done.
  destruct (if decide _ then (DbOk, t0) else statement t0) as [o t1] eqn:E1.
  assert (exists s, t1 = set_script s t0 /\ DbLost ∉ s) as (s1 & -> & Hs1).
  { case_decide; [injection E1 as <- <-; by exists (dbScript db)|]. apply statement_ok in E1; [done|by rewrite Hs0]. }
  destruct o; try done. unfold loadLastHash, tbind at 1 in Hrun.
  destruct (statement _) as [o2 t2] eqn:E2. apply statement_ok in E2 as (s2 & -> & Hs2); [|done].
  destruct o2; try done. unfold tbind, tget, tmodify, tret in Hrun. unfold rebuildMerkleTree, tbind at 1 in Hrun.
  destruct (statement _) as [o3 t3] eqn:E3. apply statement_ok in E3 as (s3 & -> & Hs3); [|done].
  destruct o3; try done. unfold tbind, tget in Hrun. destruct (addMerkleHashes _ _) as [[e|] t4] eqn:E4; [done|].
  injection Hrun as <-. apply (addMerkleHashes_ok _ _ _ []) in E4 as (hs & Hhs & ->); [|done].
  split; [|done]. split; [done|done| |done]. exists hs. simpl. split; [|done]. by rewrite Hhs, map_map.
Qed.

(** C12. A log opened on a table that is a chain stays one: whatever is logged, and
    whatever statements fail without having been carried out, the rows grow only
    at their end, [VerifyChain] accepts all of them, and the Merkle tree is that
    of their hashes in order. Two things are assumed. The database returns every
    timestamp in the text that was hashed, as for a clock that reads whole
    microseconds; with nanoseconds it does not ([nanosecond_clock_breaks_chain]). And
    no statement is carried out without being acknowledged; such a one forks the
    chain ([lost_acknowledgement_forks]). *)
Theorem transparency_chain clock dbTime cfg db t ops :
  (forall n, faithful dbTime (clock n)) ->
  NewTransparencyLog cfg db = Ok t -> tc_Enabled cfg = true ->
  (verifyRows 0 genesis (rows db)).1 = true -> DbLost ∉ dbScript db ->
  let t' := runOps clock dbTime ops t in
  rows db `prefix_of` rows t'
  /\ verifyRows 0 genesis (rows t') = (true, Z.of_nat (length (rows t')))
  /\ (exists hs, map Some hs = map (fun e => Hex.DecodeString (te_EntryHash e)) (rows t')
                 /\ merkleTree t' = NewFromHashes hs)
  /\ lastHash t' = tip genesis (rows t').
Proof.
  intros Hclock Hnew He Hv Hs t'. apply verifyRows_chained in Hv.
  destruct (NewTransparencyLog_ok _ _ _ Hnew He Hv Hs) as (Hok & Hrows & _).
  destruct (runOps_keeps clock dbTime Hclock ops t Hok) as [[H1 H2 H3 H4] Hp]. fold t' in H1, H2, H3, Hp.
  split; [by rewrite <- Hrows|]. split; [by rewrite verifyRows_count|]. done.
Qed.

(** ** The last hash binds the log *)

Lemma split_first {A} (b : A) x y s t : b ∉ x -> b ∉ y -> x ++ b :: s = y ++ b :: t -> x = y /\ s = t.
Proof.
  revert y. induction x as [|a x IH]; intros [|c y] Hx Hy E; simpl in E.
  - by injection E.
  - injection E as -> _. by destruct Hy; left.
  - injection E as <- _. by destruct Hx; left.
  - injection E as <- E. apply not_elem_of_cons in Hx as [_ Hx], Hy as [_ Hy]. by destruct (IH y Hx Hy E) as [-> ->].
Qed.

Lemma split_last {A} (b : A) x y s t : b ∉ s -> b ∉ t -> x ++ b :: s = y ++ b :: t -> x = y /\ s = t.
Proof.
  intros Hs Ht E. apply (f_equal reverse) in E. rewrite !reverse_app, !reverse_cons, <- !app_assoc in E.
  apply split_first in E as [E1 E2]; [|by rewrite elem_of_reverse..].
  split; [by apply (inj reverse)|by apply (inj reverse)].
Qed.

(** The fields in which a bar would be ambiguous. *)
Definition clean (e : TransparencyLogEntry) : Prop :=
  (bar ∉ te_ServerName e) /\ (bar ∉ te_KeyID e) /\ (bar ∉ te_EventType e) /\ (bar ∉ te_KeyHash e).

(** Two entries that say the same. *)
Definition same_entry (e e' : TransparencyLogEntry) : Prop :=
  FormatTime (te_Timestamp e) = FormatTime (te_Timestamp e') /\ te_ServerName e = te_ServerName e'
  /\ te_KeyID e = te_KeyID e' /\ te_EventType e = te_EventType e' /\ te_Details e = te_Details e'
  /\ te_KeyHash e = te_KeyHash e' /\ te_ValidUntilTS e = te_ValidUntilTS e'
  /\ te_PreviousHash e = te_PreviousHash e' /\ te_EntryHash e = te_EntryHash e'.

Lemma digits_bar s : Forall (fun b => is_digit b = true) s -> bar ∉ s.
Proof. intros Hd Hin. rewrite Forall_forall in Hd. by apply Hd in Hin. Qed.

Lemma FormatUint_bar n : bar ∉ FormatUint n.
Proof. apply digits_bar, FormatUint_digits. Qed.

Lemma FormatInt_bar n : bar ∉ FormatInt n.
Proof.
  unfold FormatInt. case_decide; [|apply FormatUint_bar]. apply not_elem_of_cons. split; [done|apply FormatUint_bar].
Qed.

Lemma padded_bar w n : bar ∉ padded w n.
Proof.
  unfold padded. rewrite elem_of_app. intros [Hin|Hin]; [|by apply FormatUint_bar in Hin].
  by apply elem_of_replicate in Hin as [? _].
Qed.

Lemma trimZeros_bar s : bar ∉ s -> bar ∉ trimZeros s.
Proof. intros Hs Hin. apply Hs. rewrite (trimZeros_spec s). apply elem_of_app. by left. Qed.

Lemma fraction_bar n : bar ∉ fraction n.
Proof.
  unfold fraction. destruct (trimZeros (padded 9 n)) as [|b s] eqn:E; [apply not_elem_of_nil|]. rewrite <- E.
  apply not_elem_of_cons. split; [done|]. apply trimZeros_bar, padded_bar.
Qed.

(** Discharges the absence of the bar in a concatenation. *)
Ltac no_bar :=
  repeat first [apply padded_bar | apply fraction_bar | apply not_elem_of_nil | apply not_elem_of_cons; split; [done|]
               | apply not_elem_of_app; split | progress case_decide].

Lemma FormatRFC3339Nano_bar t : bar ∉ FormatRFC3339Nano t.
Proof. unfold FormatRFC3339Nano. destruct (civil _) as [[y m] d]. unfold appendYear. no_bar. Qed.

Lemma FormatTime_bar t : bar ∉ FormatTime t.
Proof.
  unfold FormatTime, zoneText. case_decide; [apply FormatRFC3339Nano_bar|]. cbv zeta. apply not_elem_of_app.
  split; [|no_bar; done].
  intros Hin. eapply FormatRFC3339Nano_bar, (subseteq_take _ _ _ Hin).
Qed.

Lemma nibble_bar n : Hex.nibble n <> bar.
Proof.
  unfold Hex.nibble. destruct (nth_in_or_default (Z.to_nat n) Hex.digits Byte.x30) as [Hin| ->]; [|done].
  intros E. rewrite E in Hin. apply list_elem_of_In in Hin.
  assert (bool_decide (bar ∈ Hex.digits) = false) as Hd by (vm_compute; reflexivity). by apply bool_decide_eq_false in Hd.
Qed.

Lemma hex_bar m : bar ∉ Hex.EncodeToString m.
Proof.
  induction m as [|b m IH]; [apply not_elem_of_nil|]. cbn [Hex.EncodeToString].
  apply not_elem_of_cons. split; [by intros E%eq_sym%nibble_bar|].
  apply not_elem_of_cons. split; [by intros E%eq_sym%nibble_bar|done].
Qed.

Lemma length_hex m : length (Hex.EncodeToString m) = (2 * length m)%nat.
Proof. induction m as [|b m IH]; [done|]. cbn [Hex.EncodeToString length]. lia. Qed.

Lemma chained_hash prev rs e : chained prev (rs ++ [e]) -> te_EntryHash e = Hex.EncodeToString (Sha256.sum256 (entryData e)).
Proof. intros (_ & _ & <-)%chained_snoc. done. Qed.

Lemma hash_not_genesis prev rs e : chained prev (rs ++ [e]) -> te_EntryHash e <> genesis.
Proof.
  intros ->%chained_hash E. apply (f_equal length) in E. rewrite length_hex, Sha256.length_sum256 in E. done.
Qed.

Lemma tip_bar rs : chained genesis rs -> bar ∉ tip genesis rs.
Proof.
  destruct rs as [|e rs _] using rev_ind; intros Hc.
  - apply (bool_decide_eq_true (bar ∉ genesis)). by vm_compute.
  - rewrite tip_snoc, (chained_hash _ _ _ Hc). apply hex_bar.
Qed.

Lemma entryData_inj e e' :
  clean e -> clean e' -> bar ∉ te_PreviousHash e -> bar ∉ te_PreviousHash e' -> entryData e = entryData e' ->
  te_EntryHash e = te_EntryHash e' -> same_entry e e'.
Proof.
  intros (C1 & C2 & C3 & C4) (D1 & D2 & D3 & D4) Hp Hp' E Hh. unfold entryData in E.
  apply split_first in E as [E1 E]; [|apply FormatTime_bar..]. apply split_first in E as [E2 E]; [|done..].
  apply split_first in E as [E3 E]; [|done..]. apply split_first in E as [E4 E]; [|done..].
  rewrite !app_comm_cons, !app_assoc in E.
  apply split_last in E as [E E8]; [|done..].
  rewrite <- !app_assoc in E. cbn [app] in E. rewrite !app_comm_cons, !app_assoc in E.
  apply split_last in E as [E E7]; [|apply FormatInt_bar..].
  apply split_last in E as [E5 E6]; [|done..].
  by split_and!; try done; apply FormatInt_inj.
Qed.

(** Equal hashes come from equal data. *)
Lemma entry_hash_binding e e' : computeEntryHash e = computeEntryHash e' -> 
  entryData e = entryData e' \/ collide_among [entryData e] [entryData e'].
Proof.
  intros E%Hex.encode_inj. destruct (decide (entryData e = entryData e')) as [|Hne]; [by left|].
  right. exists (entryData e), (entryData e'). split; [by left|]. by split; [left|].
Qed.

Lemma collide_left ms ms' ns ns' : collide_among ms ms' -> collide_among (ms ++ ns) (ms' ++ ns').
Proof. intros (x & y & Hx & Hy & H). exists x, y. by rewrite !elem_of_app; auto. Qed.

Lemma collide_right ms ms' ns ns' : collide_among ns ns' -> collide_among (ms ++ ns) (ms' ++ ns').
Proof. intros (x & y & Hx & Hy & H). exists x, y. by rewrite !elem_of_app; auto. Qed.

Lemma chain_binding rs rs' :
  chained genesis rs -> chained genesis rs' -> Forall clean rs -> Forall clean rs' ->
  tip genesis rs = tip genesis rs' -> Forall2 same_entry rs rs' \/ collide_among (map entryData rs) (map entryData rs').
Proof.
  revert rs'. induction rs as [|e rs IH] using rev_ind; intros rs' Hc Hc' Hl Hl' Ht;
    destruct rs' as [|e' rs' _] using rev_ind; rewrite ?tip_snoc in Ht.
  - by left.
  - by apply eq_sym, (hash_not_genesis _ _ _ Hc') in Ht.
  - by apply (hash_not_genesis _ _ _ Hc) in Ht.
  - apply chained_snoc in Hc as (Hc & Hp & Hh), Hc' as (Hc' & Hp' & Hh').
    apply Forall_app in Hl as [Hl He], Hl' as [Hl' He']. apply Forall_cons in He as [He _], He' as [He' _].
    rewrite !map_app. destruct (entry_hash_binding e e') as [Hd|Hx]; [congruence| |right; by apply collide_right].
    pose proof (tip_bar _ Hc) as Hb. pose proof (tip_bar _ Hc') as Hb'. rewrite <- Hp in Hb. rewrite <- Hp' in Hb'.
    pose proof (entryData_inj _ _ He He' Hb Hb' Hd Ht) as Hsame.
    assert (tip genesis rs = tip genesis rs') as Ht' by (rewrite <- Hp, <- Hp'; apply Hsame).
    destruct (IH rs' Hc Hc' Hl Hl' Ht') as [Hall|Hx]; [|right; by apply collide_left]. left. by apply Forall2_app; [|constructor].
Qed.

(** The last hash binds the whole log. Two tables that [VerifyChain] accepts
    and that end in the same hash agree entry by entry on the text of every
    field, and so in their number of entries, or the hashed texts of two of their
    entries are a SHA-256 collision; provided that server names, key IDs, event types and key hashes
    contain no bar. *)
Theorem last_hash_binds rs rs' :
  (verifyRows 0 genesis rs).1 = true -> (verifyRows 0 genesis rs').1 = true ->
  Forall clean rs -> Forall clean rs' -> tip genesis rs = tip genesis rs' ->
  Forall2 same_entry rs rs' \/ collide_among (map entryData rs) (map entryData rs').
Proof. intros Hv%verifyRows_chained Hv'%verifyRows_chained. by apply chain_binding. Qed.

(** ** Where the log departs from its intent *)

(** After a cleanup that deletes some entries and keeps others, the first entry
    that is left continues from a deleted one, and [VerifyChain] refuses the log
    although nothing was tampered with. *)
Theorem cleanup_breaks_chain old kept :
  old <> [] -> kept <> [] -> chained genesis (old ++ kept) -> verifyRows 0 genesis kept = (false, 1).
Proof.
  intros Ho Hk Hc. destruct kept as [|e kept]; [done|]. destruct old as [|e0 old _] using rev_ind; [done|].
  assert (chained genesis ((old ++ [e0]) ++ [e])) as H1.
  { rewrite cons_middle, app_assoc in Hc. clear Hk. induction kept as [|x kept IH] using rev_ind; [by rewrite app_nil_r in Hc|].
    apply IH. rewrite app_assoc in Hc. by apply chained_snoc in Hc as [Hc _]. }
  apply chained_snoc in H1 as (H1 & Hp & _). rewrite tip_snoc in Hp. cbn [verifyRows].
  rewrite decide_True; [done|]. rewrite Hp. by apply hash_not_genesis in H1.
Qed.

(** The default configuration of the examples, a UTC clock of whole
    microseconds, and the microseconds that the column keeps. *)
Definition demo_config : TransparencyConfig := mkTransparencyConfig true true true true 30 [].
Definition demo_db : TransparencyLog := mkTransparency demo_config [] [] ∅ New [] 0.
Definition demo_log : TransparencyLog := mkTransparency demo_config [] genesis ∅ New [] 0.
Definition micro_clock (n : nat) : gotime := mkTime (1700000000000000000 + Z.of_nat n * 1000) 0.
Definition nano_clock (n : nat) : gotime := mkTime (1700000000000000000 + Z.of_nat n * 1000 + 100) 0.
Definition roundMicro (t : gotime) : gotime := mkTime ((instant t + 500) / 1000 * 1000) (zone t).
Definition demo_two_keys : ServerKeysResponse :=
  mkResponse (bs "a.org") {[bs "ed25519:1" := mkVerifyKey (bs "AQ"); bs "ed25519:2" := mkVerifyKey (bs "Ag")]} ∅ 1800000000000 ∅ [].

Lemma roundMicro_faithful n : faithful roundMicro (micro_clock n).
Proof.
  unfold faithful, micro_clock, roundMicro. cbn [instant zone]. do 2 f_equal. Z.to_euclidean_division_equations. lia.
Qed.

(** With a clock of nanoseconds the column does not return what was hashed: a
    single entry, logged without any failure, is refused. *)
Example nanosecond_clock_breaks_chain :
  let t := runOps nano_clock roundMicro [OpFailure (bs "a.org") (bs "timeout")] demo_log in
  length (rows t) = 1%nat /\ verifyRows 0 genesis (rows t) = (false, 1).
Proof. vm_compute. split; reflexivity. Qed.

(** A server with two keys: the history remembers one of them, so every later
    observation of the same two keys is logged as two rotations. *)
Example unchanged_keys_rotate :
  map te_EventType (rows (runOps micro_clock roundMicro
    [OpKey (bs "a.org") demo_two_keys; OpKey (bs "a.org") demo_two_keys] demo_log))
  = [bs "KEY_FIRST_SEEN"; bs "KEY_ROTATION"; bs "KEY_ROTATION"; bs "KEY_ROTATION"].
Proof. vm_compute. reflexivity. Qed.

(** A bar in a key ID shifts the fields: two different entries are hashed from
    the same text. *)
Theorem bar_in_key_id_ambiguous ts server a b h v prev :
  let e := mkLogEntry ts server (a ++ bar :: eventText EventKeyRotation ++ bar :: b) (eventText EventKeyFirstSeen) [] h v prev [] in
  let e' := mkLogEntry ts server a (eventText EventKeyRotation) (b ++ bar :: eventText EventKeyFirstSeen ++ [bar]) h v prev [] in
  computeEntryHash e = computeEntryHash e' /\ te_EventType e <> te_EventType e'.
Proof.
  intros e e'. split; [|done]. unfold computeEntryHash. do 2 f_equal. unfold entryData, e, e'. cbn [te_Timestamp te_ServerName te_KeyID
    te_EventType te_Details te_KeyHash te_ValidUntilTS te_PreviousHash]. by rewrite <- !app_assoc; cbn [app]; rewrite <- !app_assoc.
Qed.

(** An insertion that is carried out but reported as failed forks the chain: the
    next entry continues from the same hash, and the log is refused. *)
Example lost_acknowledgement_forks :
  let db := mkTransparency demo_config [] genesis ∅ New [DbLost] 0 in
  verifyRows 0 genesis (rows (runOps micro_clock roundMicro
    [OpFailure (bs "a.org") (bs "timeout"); OpFailure (bs "b.org") (bs "timeout")] db)) = (false, 2).
Proof. vm_compute. reflexivity. Qed.

Lemma transparency_chain_witness :
  let t := runOps micro_clock roundMicro [OpVerification (bs "a.org") (bs "ed25519:1"); OpFailure (bs "b.org") (bs "timeout")] demo_log in
  length (rows t) = 2%nat /\ verifyRows 0 genesis (rows t) = (true, Z.of_nat (length (rows t))).
Proof.
  intros t. split; [vm_compute; reflexivity|].
  destruct (transparency_chain micro_clock roundMicro demo_config demo_db demo_log
              [OpVerification (bs "a.org") (bs "ed25519:1"); OpFailure (bs "b.org") (bs "timeout")]
              roundMicro_faithful eq_refl eq_refl eq_refl (not_elem_of_nil _)) as (_ & Hv & _).
  exact Hv.
Defined.

Definition demo_rows : list TransparencyLogEntry :=
  rows (runOps micro_clock roundMicro [OpFailure (bs "a.org") (bs "timeout | retry")] demo_log).

Lemma demo_rows_clean : Forall clean demo_rows.
Proof.
  assert (forallb (fun e => bool_decide (bar ∉ te_ServerName e) && bool_decide (bar ∉ te_KeyID e)
    && bool_decide (bar ∉ te_EventType e) && bool_decide (bar ∉ te_KeyHash e)) demo_rows = true) as Hb by (vm_compute; reflexivity).
  apply Forall_forall. intros e He. rewrite forallb_forall in Hb. apply list_elem_of_In, Hb in He.
  apply andb_prop in He as [He H4]. apply andb_prop in He as [He H3]. apply andb_prop in He as [H1 H2].
  apply bool_decide_eq_true in H1, H2, H3, H4. done.
Qed.

Lemma last_hash_binds_witness : length demo_rows = 1%nat /\ 
  (Forall2 same_entry demo_rows demo_rows \/ collide_among (map entryData demo_rows) (map entryData demo_rows)).
Proof.
  split; [vm_compute; reflexivity|]. apply last_hash_binds.
  - vm_compute. reflexivity.
  - vm_compute. reflexivity.
  - apply demo_rows_clean.
  - apply demo_rows_clean.
  - reflexivity.
Defined.
