(* ===== verification/ConfigMap.v ===== *)
(** * The configuration reader (internal/zero/config)

    A subset of YAML is read line by line into nested maps. A mapping that is a
    list item stays reachable while its further keys are read: items are kept in
    a store and referred to by number, so that what the list holds and what the
    reader adds to are the same mapping.

    [strconv.ParseFloat] rounds to [float64] and is a parameter. *)
From S2P Require Import Prelude Decimal GoStrings Canonical.
From Stdlib Require Import ZArith Lia.
From stdpp Require Import base gmap list strings fin_maps.
#[local] Open Scope Z_scope.
#[local] Set Warnings "-register-all".

(** ** Package strings, continued *)

(** [strings.SplitN(s, c, 2)]: the two parts, or [None] without the separator. *)
Fixpoint Cut (s : bytes) (c : byte) : option (bytes * bytes) :=
  match s with
  | [] => None
  | b :: s => if decide (b = c) then Some ([], s) else '(k, v) ← Cut s c; Some (b :: k, v)
  end.

(** [strings.Trim(s, c)] for a single byte. *)
Fixpoint trimLeft (c : byte) (s : bytes) : bytes :=
  match s with b :: t => if decide (b = c) then trimLeft c t else s | [] => [] end.

Definition TrimByte (c : byte) (s : bytes) : bytes := rev (trimLeft c (rev (trimLeft c s))).

Definition TrimPrefix (s prefix : bytes) : bytes := if HasPrefix s prefix then drop (length prefix) s else s.

Definition dot : byte := Byte.x2e.
Definition colon : byte := Byte.x3a.
Definition hashMark : byte := Byte.x23.
Definition quoteByte : byte := Byte.x22.

(** [bufio.Scanner] over lines: without the line feed and one carriage return
    before it; a last empty line is no line. [None] for a line that does not fit
    the 64 KiB buffer. *)
Definition MaxScanTokenSize : Z := 65536.

Definition dropCR (s : bytes) : bytes := match rev s with Byte.x0d :: t => rev t | _ => s end.

Definition scanLines (s : bytes) : option (list bytes) :=
  let raw := Split s Byte.x0a in
  let raw := match rev raw with [] :: t => rev t | _ => raw end in
  if forallb (fun l => bool_decide (len l < MaxScanTokenSize)) raw then Some (map dropCR raw) else None.

(** ** Values *)

Inductive cvalue : Type :=
  | CStr (s : bytes)
  | CBool (b : bool)
  | CInt (n : Z)
  | CFloat (f : float64)
  | CList (l : list cvalue)
  | CMap (m : gmap bytes cvalue)
  | CItem (n : nat).

Abbreviation cmap := (gmap bytes cvalue).

(** What [Load] returns: the nested map, and the mappings of its list items. *)
Record cfgmap : Type := mkCfgMap {
  cfg_root : cmap;
  cfg_items : list cmap;
}.

Section Reader.
Variable ParseFloat : bytes -> option float64.

(** ** parser.go *)

Definition quoted (s : bytes) : option bytes :=
  match s with
  | b :: t => match rev t with
              | c :: m => if decide (b = quoteByte /\ c = quoteByte) then Some (rev m) else None
              | [] => None
              end
  | [] => None
  end.

Definition parseValue (s : bytes) : cvalue :=
  match quoted s with
  | Some inner => CStr inner
  | None =>
      if decide (s = bs "true") then CBool true
      else if decide (s = bs "false") then CBool false
      else match Atoi s with
           | Some i => CInt i
           | None => match ParseFloat s with Some f => CFloat f | None => CStr s end
           end
  end.

Definition parseKeyValue (s : bytes) : option (bytes * bytes) :=
  '(k, v) ← Cut s colon;
  let key := TrimSpace k in
  let value := TrimByte quoteByte (TrimSpace v) in
  if decide (key = []) then None else Some (key, value).

(** A part that names something other than a map is passed over. *)
Fixpoint setParts (parts : list bytes) (value : cvalue) (m : cmap) : cmap :=
  match parts with
  | [] => m
  | [part] => <[part := value]> m
  | part :: parts =>
      let m := match m !! part with None => <[part := CMap ∅]> m | Some _ => m end in
      match m !! part with
      | Some (CMap next) => <[part := CMap (setParts parts value next)]> m
      | _ => setParts parts value m
      end
  end.

Definition setPath (m : cmap) (path : bytes) (value : cvalue) : cmap := setParts (Split path dot) value m.

Fixpoint getParts (parts : list bytes) (current : option cvalue) : option cvalue :=
  match parts with
  | [] => current
  | part :: parts =>
      if decide (part = []) then getParts parts current
      else match current with
           | Some (CMap m) => getParts parts (m !! part)
           | _ => None
           end
  end.

Definition getPath (m : cmap) (path : bytes) : option cvalue := getParts (Split path dot) (Some (CMap m)).

(** ** accessors.go *)

Definition GetString (m : cmap) (path : bytes) : bytes :=
  match getPath m path with Some (CStr s) => s | _ => [] end.

(** [int(f)]: towards zero; what is out of range converts as on amd64. *)
Definition floatToInt (f : float64) : Z :=
  match f with
  | FFinite m e =>
      let n := if decide (0 <= e) then m * 2 ^ e else Z.quot m (2 ^ (- e)) in
      if decide (- 2 ^ 63 <= n < 2 ^ 63) then n else - 2 ^ 63
  | _ => - 2 ^ 63
  end.

Definition GetInt (m : cmap) (path : bytes) : Z :=
  match getPath m path with
  | Some (CInt n) => n
  | Some (CFloat f) => floatToInt f
  | _ => 0
  end.

(** [float64(n)] of an integer below [2 ^ 53] is exact; a larger one is rounded
    like the parse of its text. *)
Definition intToFloat (n : Z) : float64 :=
  if decide (- 2 ^ 53 <= n <= 2 ^ 53) then FFinite n 0 else default FNaN (ParseFloat (FormatInt n)).

Definition GetFloat (m : cmap) (path : bytes) : float64 :=
  match getPath m path with
  | Some (CFloat f) => f
  | Some (CInt n) => intToFloat n
  | Some (CStr s) => default (FFinite 0 0) (ParseFloat s)
  | _ => FFinite 0 0
  end.

Definition GetBool (m : cmap) (path : bytes) : bool :=
  match getPath m path with Some (CBool b) => b | _ => false end.

Definition asStr (v : cvalue) : option bytes := match v with CStr s => Some s | _ => None end.

Definition GetStringSlice (m : cmap) (path : bytes) : list bytes :=
  match getPath m path with Some (CList l) => omap asStr l | _ => [] end.

Definition asItem (store : list cmap) (v : cvalue) : option cmap :=
  match v with CItem n => store !! n | CMap m => Some m | _ => None end.

Definition GetMapSlice (c : cfgmap) (path : bytes) : list cmap :=
  match getPath (cfg_root c) path with Some (CList l) => omap (asItem (cfg_items c)) l | _ => [] end.

Definition Has (m : cmap) (path : bytes) : bool := bool_decide (is_Some (getPath m path)).

(** ** env.go *)

Definition underscore : byte := Byte.x5f.

Definition overrideOne (prefix : bytes) (m : cmap) (env : bytes) : cmap :=
  match Cut env Byte.x3d with
  | None => m
  | Some (key, value) =>
      if negb (HasPrefix key (prefix ++ [underscore])) then m
      else
        let path := ToLower (TrimPrefix key (prefix ++ [underscore])) in
        let path := map (fun b => if decide (b = underscore) then dot else b) path in
        setPath m path (parseValue value)
  end.

(** The environment in the order of [os.Environ]. *)
Definition WithEnvOverride (environ : list bytes) (prefix : bytes) (m : cmap) : cmap :=
  fold_left (overrideOne prefix) environ m.

(** The first required path that is missing. *)
Definition ValidateRequired (m : cmap) (required : list bytes) : option bytes :=
  List.find (fun path => negb (Has m path)) required.

(** ** loader.go *)

Fixpoint lineIndent (line : bytes) : Z :=
  match line with
  | [] => 0
  | b :: line => if decide (b = Byte.x20) then 1 + lineIndent line
                 else if decide (b = Byte.x09) then 2 + lineIndent line else 0
  end.

(** [currentPath] and [indentStack] have their last element first; [active] is
    the number and the indent of [activeListItem]. *)
Record loader : Type := mkLoader {
  ld_map : cfgmap;
  ld_path : list bytes;
  ld_indents : list Z;
  ld_active : option (nat * Z);
}.

Fixpoint popIndents (indent : Z) (path : list bytes) (indents : list Z) : list bytes * list Z :=
  match indents with
  | top :: rest => if decide (indent <= top) then popIndents indent (tail path) rest else (path, indents)
  | [] => (path, indents)
  end.

Definition pathText (path : list bytes) : bytes := Join_ (rev path) dot.

Definition consumeListItem (c : cfgmap) (path : list bytes) (trimmed : bytes) (indent : Z) : cfgmap * option (nat * Z) :=
  let item := TrimSpace (TrimPrefix trimmed (bs "- ")) in
  let listPath := pathText path in
  let existing := match getPath (cfg_root c) listPath with Some (CList l) => l | _ => [] end in
  let append v := setPath (cfg_root c) listPath (CList (existing ++ [v])) in
  let n := length (cfg_items c) in
  if decide (item = []) then (mkCfgMap (append (CItem n)) (cfg_items c ++ [∅]), Some (n, indent))
  else if Contains item (bs ": ") then
    match parseKeyValue item with
    | None => (c, None)
    | Some (k, v) => (mkCfgMap (append (CItem n)) (cfg_items c ++ [{[k := parseValue v]}]), Some (n, indent))
    end
  else (mkCfgMap (append (parseValue item)) (cfg_items c), None).

(** A key of the active item; an empty value starts a map of its own. *)
Definition extendItem (c : cfgmap) (n : nat) (trimmed : bytes) : cfgmap :=
  match parseKeyValue trimmed with
  | None => c
  | Some (k, v) =>
      mkCfgMap (cfg_root c) (alter (<[k := if decide (v = []) then CMap ∅ else parseValue v]>) n (cfg_items c))
  end.

(** The body of the loop. *)
Definition loadLine (l : loader) (line : bytes) : loader :=
  let trimmed := TrimSpace line in
  if decide (trimmed = []) then l
  else if HasPrefix trimmed [hashMark] then l
  else
    let indent := lineIndent line in
    let '(path, indents) := popIndents indent (ld_path l) (ld_indents l) in
    let active := match ld_active l with
                  | Some (n, i) => if decide (indent <= i) then None else Some (n, i)
                  | None => None
                  end in
    if HasPrefix trimmed (bs "- ") then
      let '(c, active) := consumeListItem (ld_map l) path trimmed indent in mkLoader c path indents active
    else
      match active with
      | Some (n, i) => mkLoader (extendItem (ld_map l) n trimmed) path indents active
      | None =>
          match Cut trimmed colon with
          | None => mkLoader (ld_map l) path indents active
          | Some (k, v) =>
              let key := TrimSpace k in
              let value := TrimSpace v in
              if decide (value = []) then mkLoader (ld_map l) (key :: path) (indent :: indents) active
              else
                let c := ld_map l in
                mkLoader (mkCfgMap (setPath (cfg_root c) (pathText (key :: path)) (parseValue value)) (cfg_items c)) path indents active
          end
      end.

Definition emptyLoader : loader := mkLoader (mkCfgMap ∅ []) [] [] None.

(** [None] is the scanner's error. *)
Definition Load (contents : bytes) : option cfgmap :=
  lines ← scanLines contents; Some (ld_map (fold_left loadLine lines emptyLoader)).

End Reader.

(** Sections, comments, a list of scalars, and list items with several keys. *)
Example load_vector :
  let text := concat (map (fun l => l ++ [Byte.x0a])
    [bs "# notary"; bs "server:"; bs "  name: x.org"; bs "  port: 8449"; bs ""; bs "cluster:"; bs "  seeds:"; bs "    - a.org"; bs "    - b.org";
     bs "  tls:"; bs "    enabled: true"; bs "trusted_notaries:"; bs "  - server_name: n.org"; bs "    key_id: ed25519:1"]) in
  match Load (fun _ => None) text with
  | Some c => GetString (cfg_root c) (bs "server.name") = bs "x.org" /\ GetInt (cfg_root c) (bs "server.port") = 8449
      /\ GetStringSlice (cfg_root c) (bs "cluster.seeds") = [bs "a.org"; bs "b.org"]
      /\ GetBool (cfg_root c) (bs "cluster.tls.enabled") = true
      /\ map (fun m => GetString m (bs "key_id")) (GetMapSlice c (bs "trusted_notaries")) = [bs "ed25519:1"]
  | None => False
  end.
Proof. vm_compute. split_and!; reflexivity. Qed.
