(* ===== verification/ConfigMapProofs.v ===== *)
(** * The configuration reader reads back what is written

    A document is a tree of keys with texts at its leaves, printed with two
    spaces per level. *)
From S2P Require Import Prelude Decimal GoStrings Canonical ConfigMap.
From Stdlib Require Import ZArith Lia.
From stdpp Require Import base gmap list strings fin_maps.
#[local] Open Scope Z_scope.
#[local] Set Warnings "-register-all".

(** ** Writing and reading a path *)

(** Every proper prefix of the path that names something names a map. *)
Fixpoint open_path (parts : list bytes) (m : cmap) : Prop :=
  match parts with
  | [] | [_] => True
  | part :: parts =>
      match m !! part with
      | None => True
      | Some (CMap next) => open_path parts next
      | Some _ => False
      end
  end.

Lemma open_path_empty parts : open_path parts ∅.
Proof. destruct parts as [|p [|q parts]]; [done|done|]. by cbn [open_path]; rewrite lookup_empty. Qed.

Lemma getParts_cons part parts m :
  part <> [] -> getParts (part :: parts) (Some (CMap m)) = getParts parts (m !! part).
Proof. intros Hne. cbn [getParts]. by rewrite decide_False. Qed.

Lemma getParts_None parts : Forall (fun p => p <> []) parts -> parts <> [] -> getParts parts None = None.
Proof. intros Hall Hne. destruct Hall; [done|]. cbn [getParts]. by rewrite decide_False. Qed.

(** One step of [setParts] along an open path. *)
Lemma setParts_cons part q parts v m :
  open_path (part :: q :: parts) m ->
  exists next, open_path (q :: parts) next
    /\ setParts (part :: q :: parts) v m = <[part := CMap (setParts (q :: parts) v next)]> m
    /\ (m !! part = Some (CMap next) \/ (m !! part = None /\ next = ∅)).
Proof.
  intros Ho. cbn [open_path] in Ho. cbn [setParts]. destruct (m !! part) as [[]|] eqn:E; try done.
  - exists m0. rewrite E. auto.
  - exists ∅. rewrite lookup_insert_eq, insert_insert_eq. split; [apply open_path_empty|]. auto.
Qed.

Lemma getParts_setParts parts v m :
  parts <> [] -> Forall (fun p => p <> []) parts -> open_path parts m ->
  getParts parts (Some (CMap (setParts parts v m))) = Some v.
Proof.
  intros Hne Hall. destruct parts as [|p parts]; [done|]. clear Hne. revert p m Hall.
  induction parts as [|q parts IH]; intros p m Hall Ho; apply Forall_cons in Hall as [Hp Hall].
  - cbn [setParts]. rewrite getParts_cons by done. by rewrite lookup_insert_eq.
  - destruct (setParts_cons p q parts v m Ho) as (next & Hn & -> & _).
    rewrite getParts_cons by done. rewrite lookup_insert_eq. by apply IH.
Qed.

(** Two paths of which neither continues the other. *)
Fixpoint apart (ps qs : list bytes) : Prop :=
  match ps, qs with
  | p :: ps, q :: qs => p <> q \/ apart ps qs
  | _, _ => False
  end.

Lemma getParts_setParts_apart ps qs v m :
  Forall (fun p => p <> []) ps -> open_path qs m -> apart ps qs ->
  getParts ps (Some (CMap (setParts qs v m))) = getParts ps (Some (CMap m)).
Proof.
  revert ps m. induction qs as [|q qs IH]; intros ps m Hall Ho Ha; [by destruct ps|].
  destruct ps as [|p ps]; [done|]. apply Forall_cons in Hall as [Hp Hall]. rewrite !getParts_cons by done.
  destruct qs as [|q' qs].
  - cbn [setParts apart] in *. destruct Ha as [Hne|Ha]; [by rewrite lookup_insert_ne|by destruct ps].
  - destruct (setParts_cons q q' qs v m Ho) as (next & Hn & -> & Hm). cbn [apart] in Ha.
    destruct (decide (p = q)) as [->|Hne]; [|by rewrite lookup_insert_ne].
    destruct Ha as [?|Ha]; [done|]. rewrite lookup_insert_eq, IH by done.
    destruct Hm as [-> |[-> ->]]; [done|]. destruct ps as [|p' ps]; [done|].
    apply Forall_cons in Hall as [Hp' Hall]. rewrite getParts_cons, lookup_empty by done. cbn [getParts].
    rewrite decide_False by done. destruct ps; [done|]. by apply getParts_None.
Qed.

Lemma open_path_setParts ps qs v m : open_path ps m -> open_path qs m -> apart ps qs -> open_path ps (setParts qs v m).
Proof.
  revert ps m. induction qs as [|q qs IH]; intros ps m Hp Hq Ha; [by destruct ps|].
  destruct ps as [|p [|p' ps]]; [done|done|]. destruct qs as [|q' qs].
  - cbn [apart] in Ha. destruct Ha as [Hne|[]]. cbn [setParts open_path] in *. by rewrite lookup_insert_ne.
  - destruct (setParts_cons q q' qs v m Hq) as (next & Hn & -> & Hm). cbn [apart] in Ha. cbn [open_path] in Hp |- *.
    destruct (decide (p = q)) as [->|Hne]; [|by rewrite lookup_insert_ne].
    destruct Ha as [?|Ha]; [done|]. rewrite lookup_insert_eq. apply (IH (p' :: ps) next); [|done|done].
    destruct Hm as [Hm|[Hm Hm']]; rewrite Hm in Hp; [exact Hp|]. rewrite Hm'. apply open_path_empty.
Qed.

(** All leaves of a document, written in order into a map. *)
Definition setAll (leaves : list (list bytes * cvalue)) (m : cmap) : cmap :=
  fold_left (fun m l => setParts l.1 l.2 m) leaves m.

(** Leaves whose paths are apart, on open paths of parts. *)
Definition leaf_ok (m : cmap) (l : list bytes * cvalue) : Prop :=
  l.1 <> [] /\ Forall (fun p => p <> []) l.1 /\ open_path l.1 m.

Lemma apart_sym ps qs : apart ps qs -> apart qs ps.
Proof.
  revert qs. induction ps as [|p ps IH]; intros [|q qs] Ha; try done. destruct Ha as [Hne|Ha]; [by left|right; by apply IH].
Qed.

Lemma leaf_ok_set m q w leaves :
  open_path q m -> Forall (fun l => apart q l.1) leaves -> Forall (leaf_ok m) leaves ->
  Forall (leaf_ok (setParts q w m)) leaves.
Proof.
  intros Hq Ha Hl. induction Hl as [|l leaves (H1 & H2 & H3) Hl IH]; [constructor|].
  apply Forall_cons in Ha as [Ha1 Ha]. constructor; [|by apply IH].
  split; [done|]. split; [done|]. apply open_path_setParts; [done|done|by apply apart_sym].
Qed.

Lemma setAll_apart path leaves m :
  Forall (fun p => p <> []) path -> Forall (fun l => apart path l.1) leaves ->
  Forall (leaf_ok m) leaves -> ForallOrdPairs (fun a b => apart a.1 b.1) leaves ->
  getParts path (Some (CMap (setAll leaves m))) = getParts path (Some (CMap m)).
Proof.
  intros Hp. revert m. induction leaves as [|[q w] leaves IH]; intros m Ha Hl Hpairs; [done|].
  apply Forall_cons in Ha as [Ha1 Ha], Hl as [(H1 & H2 & H3) Hl]. inversion Hpairs as [|? ? Hq Hpairs']; subst.
  cbn [setAll fold_left fst snd] in *. rewrite IH; [by apply getParts_setParts_apart|done|by apply leaf_ok_set|done].
Qed.

Lemma setAll_get leaves m path v :
  (path, v) ∈ leaves -> Forall (leaf_ok m) leaves -> ForallOrdPairs (fun a b => apart a.1 b.1) leaves ->
  getParts path (Some (CMap (setAll leaves m))) = Some v.
Proof.
  revert m. induction leaves as [|[q w] leaves IH]; intros m Hin Hl Hpairs; [by apply elem_of_nil in Hin|].
  apply Forall_cons in Hl as [(H1 & H2 & H3) Hl]. inversion Hpairs as [|? ? Hq Hpairs']; subst. cbn [setAll fold_left fst snd] in *.
  pose proof (leaf_ok_set m q w leaves H3 Hq Hl) as Hl'.
  apply elem_of_cons in Hin as [[= -> ->]|Hin]; [|by apply IH].
  fold (setAll leaves (setParts q w m)). rewrite setAll_apart by done. by apply getParts_setParts.
Qed.

(** ** Documents *)

Inductive node : Type :=
  | Leaf (v : bytes)
  | Node (children : list (bytes * node)).

(** Induction on the children of a node. *)
Fixpoint node_size (n : node) : nat :=
  match n with
  | Leaf _ => 1
  | Node children => S (list_sum (map (fun kn => node_size kn.2) children))
  end.

Definition indentText (depth : nat) : bytes := replicate (2 * depth) Byte.x20.

Fixpoint printNode (depth : nat) (key : bytes) (n : node) : list bytes :=
  match n with
  | Leaf v => [indentText depth ++ key ++ bs ": " ++ v]
  | Node children =>
      (indentText depth ++ key ++ bs ":") :: concat (map (fun kn => printNode (S depth) kn.1 kn.2) children)
  end.

Definition printLines (doc : list (bytes * node)) : list bytes := concat (map (fun kn => printNode 0 kn.1 kn.2) doc).

Definition printDoc (doc : list (bytes * node)) : bytes := concat (map (fun l => l ++ [Byte.x0a]) (printLines doc)).

(** The paths of the leaves with their texts; [path] has its last key first. *)
Fixpoint leavesOf (path : list bytes) (key : bytes) (n : node) : list (list bytes * bytes) :=
  match n with
  | Leaf v => [(rev (key :: path), v)]
  | Node children => concat (map (fun kn => leavesOf (key :: path) kn.1 kn.2) children)
  end.

Definition docLeaves (doc : list (bytes * node)) : list (list bytes * bytes) := concat (map (fun kn => leavesOf [] kn.1 kn.2) doc).

(** Keys are visible ASCII without separators; texts are printable ASCII that
    begins and ends visibly. *)
Definition key_ok (k : bytes) : Prop :=
  k <> [] /\ Forall solid k /\ (colon ∉ k) /\ (dot ∉ k) /\ head k <> Some hashMark.

Definition printable (b : byte) : Prop := 32 <= byte_to_Z b <= 126.

Definition text_ok (v : bytes) : Prop :=
  Forall printable v /\ match v with b :: _ => solid b | [] => False end /\ match rev v with b :: _ => solid b | [] => False end.

Inductive node_ok : node -> Prop :=
  | leaf_node_ok v : text_ok v -> node_ok (Leaf v)
  | inner_node_ok children : Forall (fun kn => key_ok kn.1 /\ node_ok kn.2) children -> node_ok (Node children).

(** ** White space *)

Lemma TrimSpace_indent n s : TrimSpace s = s -> s <> [] -> TrimSpace (replicate n Byte.x20 ++ s) = s.
Proof.
  intros Hs Hne. assert (forall fuel t, trimFrom (n + fuel) spaces (replicate n Byte.x20 ++ t) = trimFrom fuel spaces t) as Hstep.
  { clear. intros fuel t. induction n as [|n IH]; [done|]. cbn [replicate app Nat.add]. cbn [trimFrom].
    assert (List.find (HasPrefix (Byte.x20 :: replicate n Byte.x20 ++ t)) spaces = Some [Byte.x20]) as -> by reflexivity.
    cbn [length drop]. exact IH. }
  unfold TrimSpace in *. rewrite length_app, length_replicate, Hstep. exact Hs.
Qed.

Lemma solid_ends s b : text_ok s -> solid b -> match rev (b :: s) with c :: _ => solid c | [] => False end.
Proof.
  intros (_ & _ & Hl) Hb. cbn [rev]. destruct (rev s) as [|c t]; [done|]. exact Hl.
Qed.

Lemma space_not_solid : ~ solid Byte.x20 /\ ~ solid Byte.x09.
Proof. unfold solid. change (byte_to_Z Byte.x20) with 32. change (byte_to_Z Byte.x09) with 9. lia. Qed.

Lemma lineIndent_text n b s : solid b -> lineIndent (replicate n Byte.x20 ++ b :: s) = Z.of_nat n.
Proof.
  intros Hb. induction n as [|n IH]; cbn [replicate app lineIndent].
  - rewrite decide_False by (intros ->; by apply space_not_solid). by rewrite decide_False by (intros ->; by apply space_not_solid).
  - rewrite decide_True by done. lia.
Qed.

Lemma Cut_app k s c : c ∉ k -> Cut (k ++ c :: s) c = Some (k, s).
Proof.
  induction k as [|b k IH]; intros Hn; cbn [app Cut].
  - by rewrite decide_True.
  - apply not_elem_of_cons in Hn as [Hb Hn]. rewrite decide_False by done. by rewrite IH.
Qed.

Lemma text_trim v : text_ok v -> TrimSpace v = v /\ TrimSpace (bs " " ++ v) = v /\ v <> [].
Proof.
  intros Hv. assert (v <> []) as Hne by (intros ->; by destruct Hv as (_ & [] & _)).
  assert (TrimSpace v = v) as Ht by (destruct Hv as (_ & H1 & H2); by apply TrimSpace_solid).
  split; [done|]. split; [|done]. by apply (TrimSpace_indent 1).
Qed.

Lemma key_trim k : key_ok k -> TrimSpace k = k.
Proof.
  intros (Hne & Hs & _). apply TrimSpace_solid.
  - destruct Hs; done.
  - assert (Forall solid (rev k)) as Hr by (by apply Forall_rev). destruct (rev k) as [|c t] eqn:E.
    + apply Hne. rewrite <- (rev_involutive k), E. done.
    + by apply Forall_cons in Hr as [? _].
Qed.

(** ** One line *)

Section Lines.
Variable ParseFloat : bytes -> option float64.

Abbreviation loadLine := (loadLine ParseFloat).
Abbreviation parseValue := (parseValue ParseFloat).

(** A printed line, up to its indent: the key, a colon and a rest that ends
    visibly. *)
Lemma line_shape k rest :
  key_ok k -> match rev (colon :: rest) with c :: _ => solid c | [] => False end ->
  let s := k ++ colon :: rest in
  TrimSpace s = s /\ s <> [] /\ HasPrefix s [hashMark] = false /\ HasPrefix s (bs "- ") = false
  /\ Cut s colon = Some (k, rest) /\ forall n, lineIndent (replicate n Byte.x20 ++ s) = Z.of_nat n.
Proof.
  intros Hk Hr s. pose proof Hk as (Hne & Hs & Hc & _ & Hh). subst s. destruct k as [|b k]; [done|].
  apply Forall_cons in Hs as [Hb Hs]. split; [|split; [done|]].
  { apply TrimSpace_solid; [done|]. rewrite rev_app_distr. by destruct (rev (colon :: rest)). }
  split; [|split; [|split]].
  - cbn [HasPrefix app]. rewrite bool_decide_eq_false_2; [done|]. intros <-. by apply Hh.
  - change (bs "- ") with [Byte.x2d; Byte.x20]. cbn [HasPrefix app]. destruct k as [|c k].
    + cbn [app]. by rewrite (bool_decide_eq_false_2 (Byte.x20 = colon)), andb_false_r.
    + cbn [app]. apply Forall_cons in Hs as [Hc' _].
      rewrite (bool_decide_eq_false_2 (Byte.x20 = c)) by (intros <-; by apply space_not_solid). by rewrite andb_false_r.
  - by rewrite Cut_app.
  - intros n. by apply lineIndent_text.
Qed.

Lemma colon_solid : solid colon.
Proof. unfold solid. change (byte_to_Z colon) with 58. lia. Qed.

Lemma loadLine_leaf l depth k v p st :
  key_ok k -> text_ok v -> ld_active l = None ->
  popIndents (Z.of_nat (2 * depth)) (ld_path l) (ld_indents l) = (p, st) ->
  loadLine l (indentText depth ++ k ++ bs ": " ++ v)
  = mkLoader (mkCfgMap (setPath (cfg_root (ld_map l)) (pathText (k :: p)) (parseValue v)) (cfg_items (ld_map l))) p st None.
Proof.
  intros Hk Hv Ha Hp. destruct (text_trim v Hv) as (_ & Hsp & Hne).
  destruct (line_shape k (bs " " ++ v) Hk) as (H1 & H2 & H3 & H4 & H5 & H6).
  { destruct Hv as (_ & _ & Hv). cbn [rev app bs]. rewrite rev_app_distr. by destruct (rev v). }
  change (k ++ bs ": " ++ v) with (k ++ colon :: bs " " ++ v) in *. unfold ConfigMap.loadLine, indentText.
  rewrite TrimSpace_indent by done. rewrite decide_False by done. rewrite H3, H6, Hp, Ha, H4, H5.
  rewrite (key_trim k Hk), Hsp. by rewrite decide_False.
Qed.

Lemma loadLine_node l depth k p st :
  key_ok k -> ld_active l = None ->
  popIndents (Z.of_nat (2 * depth)) (ld_path l) (ld_indents l) = (p, st) ->
  loadLine l (indentText depth ++ k ++ bs ":") = mkLoader (ld_map l) (k :: p) (Z.of_nat (2 * depth) :: st) None.
Proof.
  intros Hk Ha Hp. destruct (line_shape k [] Hk) as (H1 & H2 & H3 & H4 & H5 & H6); [apply colon_solid|].
  change (k ++ bs ":") with (k ++ colon :: []) in *. unfold ConfigMap.loadLine, indentText.
  rewrite TrimSpace_indent by done. rewrite decide_False by done. rewrite H3, H6, Hp, Ha, H4, H5.
  by rewrite (key_trim k Hk).
Qed.

(** ** All lines *)

Fixpoint stackOf (depth : nat) : list Z :=
  match depth with O => [] | S d => Z.of_nat (2 * d) :: stackOf d end.

Lemma popIndents_mono a b path indents :
  a <= b -> let '(p, s) := popIndents b path indents in popIndents a path indents = popIndents a p s.
Proof.
  intros Hab. revert path. induction indents as [|top rest IH]; intros path; [done|]. cbn [popIndents].
  destruct (decide (b <= top)) as [Hb|Hb].
  - rewrite decide_True by lia. apply IH.
  - done.
Qed.

Lemma popIndents_stack depth p : popIndents (Z.of_nat (2 * depth)) p (stackOf depth) = (p, stackOf depth).
Proof. destruct depth as [|d]; [done|]. cbn [stackOf popIndents]. by rewrite decide_False by lia. Qed.

(** The reader is at [depth] under [path], with the map [m]. *)
Definition at_depth (l : loader) (depth : nat) (path : list bytes) (m : cmap) : Prop :=
  ld_map l = mkCfgMap m [] /\ ld_active l = None
  /\ popIndents (Z.of_nat (2 * depth)) (ld_path l) (ld_indents l) = (path, stackOf depth).

Definition valued (l : list bytes * bytes) : list bytes * cvalue := (l.1, parseValue l.2).

Lemma setPath_parts m path k v :
  key_ok k -> Forall key_ok path -> setPath m (pathText (k :: path)) v = setParts (rev (k :: path)) v m.
Proof.
  intros Hk Hp. unfold setPath, pathText. rewrite Split_Join; [done| |].
  - cbn [rev]. by destruct (rev path).
  - apply Forall_rev. constructor; [apply Hk|]. eapply Forall_impl; [exact Hp|]. intros x Hx. apply Hx.
Qed.

Lemma load_nodes fuel depth path doc l m :
  (list_sum (map (fun kn => node_size kn.2) doc) < fuel)%nat ->
  Forall (fun kn => key_ok kn.1 /\ node_ok kn.2) doc -> Forall key_ok path -> at_depth l depth path m ->
  at_depth (fold_left loadLine (concat (map (fun kn => printNode depth kn.1 kn.2) doc)) l) depth path
    (setAll (map valued (concat (map (fun kn => leavesOf path kn.1 kn.2) doc))) m).
Proof.
  revert depth path doc l m. induction fuel as [|fuel IH]; intros depth path doc l m Hf Hdoc Hpath Hat; [lia|].
  revert l m Hf Hat. induction Hdoc as [|[k n] doc [Hk Hn] Hdoc IHd]; intros l m Hf Hat; [done|].
  cbn [map concat fst snd list_sum] in *. rewrite fold_left_app, map_app. unfold setAll. rewrite fold_left_app.
  fold (setAll (map valued (leavesOf path k n)) m).
  assert (0 < node_size n)%nat as Hpos by (destruct n; simpl; lia).
  apply IHd; [simpl in Hf; lia|]. destruct Hat as (Hm & Ha & Hp). destruct Hn as [v Hv|children Hch].
  - cbn [printNode leavesOf fold_left map setAll valued fst snd]. rewrite (loadLine_leaf _ _ _ _ _ _ Hk Hv Ha Hp), Hm.
    split; [|split; [done|apply popIndents_stack]]. simpl. by rewrite setPath_parts.
  - cbn [printNode leavesOf fold_left]. rewrite (loadLine_node _ _ _ _ _ Hk Ha Hp).
    destruct (IH (S depth) (k :: path) children (mkLoader (ld_map l) (k :: path) (Z.of_nat (2 * depth) :: stackOf depth) None) m)
      as (Hm' & Ha' & Hp').
    + simpl in Hf. lia.
    + done.
    + by constructor.
    + split; [done|]. split; [done|]. apply (popIndents_stack (S depth)).
    + split; [done|]. split; [done|].
      pose proof (popIndents_mono (Z.of_nat (2 * depth)) (Z.of_nat (2 * S depth)) (ld_path (fold_left loadLine
        (concat (map (fun kn => printNode (S depth) kn.1 kn.2) children))
        (mkLoader (ld_map l) (k :: path) (Z.of_nat (2 * depth) :: stackOf depth) None)))
        (ld_indents (fold_left loadLine (concat (map (fun kn => printNode (S depth) kn.1 kn.2) children))
        (mkLoader (ld_map l) (k :: path) (Z.of_nat (2 * depth) :: stackOf depth) None))) ltac:(lia)) as Hmono.
      rewrite Hp' in Hmono. rewrite Hmono. cbn [stackOf popIndents]. rewrite decide_True by lia. apply popIndents_stack.
Qed.

(** ** The text *)

Lemma split_lines ls :
  Forall (fun l => Byte.x0a ∉ l) ls -> Split (concat (map (fun l => l ++ [Byte.x0a]) ls)) Byte.x0a = ls ++ [[]].
Proof.
  induction 1 as [|l ls Hl Hls IH]; [done|]. cbn [map concat]. rewrite <- app_assoc. cbn [app]. by rewrite Split_app, IH.
Qed.

Lemma printable_line l : Forall printable l -> (Byte.x0a ∉ l) /\ dropCR l = l.
Proof.
  intros Hl. split.
  - intros Hin. rewrite Forall_forall in Hl. apply Hl in Hin. unfold printable in Hin.
    change (byte_to_Z Byte.x0a) with 10 in Hin. lia.
  - unfold dropCR. destruct (rev l) as [|b t] eqn:E; [done|]. assert (printable b) as Hb.
    { rewrite Forall_forall in Hl. apply Hl. apply list_elem_of_In, in_rev. rewrite E. by left. }
    destruct b; try done. exfalso. unfold printable in Hb. change (byte_to_Z Byte.x0d) with 13 in Hb. lia.
Qed.

Lemma scanLines_print ls :
  Forall (fun l => Forall printable l /\ len l < MaxScanTokenSize) ls ->
  scanLines (concat (map (fun l => l ++ [Byte.x0a]) ls)) = Some ls.
Proof.
  intros Hls. unfold scanLines. rewrite split_lines.
  2:{ eapply Forall_impl; [exact Hls|]. intros l [Hl _]. by apply printable_line. }
  rewrite rev_app_distr. cbn [rev app]. rewrite rev_involutive.
  assert (forallb (fun l => bool_decide (len l < MaxScanTokenSize)) ls = true) as ->.
  { apply forallb_forall. intros l Hl. rewrite Forall_forall in Hls. apply bool_decide_eq_true. by apply Hls, list_elem_of_In. }
  f_equal. induction Hls as [|l ls [Hl _] Hls IH]; [done|]. cbn [map]. rewrite IH. f_equal. by apply printable_line.
Qed.

Lemma printNode_printable fuel depth k n :
  (node_size n < fuel)%nat -> key_ok k -> node_ok n -> Forall (Forall printable) (printNode depth k n).
Proof.
  revert depth k n. induction fuel as [|fuel IH]; intros depth k n Hf Hk Hn; [lia|].
  assert (Forall printable (indentText depth)) as Hi.
  { apply Forall_forall. intros b Hb. unfold indentText in Hb. apply elem_of_replicate in Hb as [-> _]. by vm_compute. }
  assert (Forall printable k) as Hkp.
  { destruct Hk as (_ & Hs & _). eapply Forall_impl; [exact Hs|]. unfold solid, printable. lia. }
  destruct Hn as [v Hv|children Hch]; cbn [printNode].
  - constructor; [|constructor]. apply Forall_app. split; [done|]. apply Forall_app. split; [done|].
    apply Forall_app. split; [repeat constructor; by vm_compute|apply Hv].
  - constructor.
    + apply Forall_app. split; [done|]. apply Forall_app. split; [done|repeat constructor; by vm_compute].
    + cbn [node_size] in Hf. induction Hch as [|[k' n'] children [Hk' Hn'] Hch IHc]; [constructor|].
      cbn [map concat fst snd] in *. simpl in Hf. apply Forall_app. split; [apply IH; [lia|done|done]|apply IHc; lia].
Qed.


(** ** Distinct keys give paths apart *)

Inductive node_distinct : node -> Prop :=
  | leaf_distinct v : node_distinct (Leaf v)
  | inner_distinct children :
      NoDup (map fst children) -> Forall (fun kn => node_distinct kn.2) children -> node_distinct (Node children).

Lemma apart_prefix p ps qs : apart ps qs -> apart (p ++ ps) (p ++ qs).
Proof. intros Ha. induction p as [|x p IH]; [done|]. by right. Qed.

(** A leaf under a key has the key after the path. *)
Lemma leavesOf_path fuel path k n l :
  (node_size n < fuel)%nat -> l ∈ leavesOf path k n -> exists suffix, l.1 = rev path ++ k :: suffix.
Proof.
  revert path k n. induction fuel as [|fuel IH]; intros path k n Hf Hin; [lia|]. destruct n as [v|children]; cbn [leavesOf] in Hin.
  - apply list_elem_of_singleton in Hin as ->. by exists [].
  - apply list_elem_of_In, in_concat in Hin as (ls & Hls & Hin). apply in_map_iff in Hls as ([k' n'] & <- & Hch).
    cbn [fst snd] in Hin. destruct (IH (k :: path) k' n') as (suffix & ->).
    + pose proof (in_map (fun kn => node_size kn.2) _ _ Hch) as Hs. cbn [snd] in Hs.
      apply in_split in Hs as (xs & ys & Hs). simpl in Hf. rewrite Hs, list_sum_app in Hf. simpl in Hf. lia.
    + by apply list_elem_of_In.
    + exists (k' :: suffix). cbn [rev]. by rewrite <- app_assoc.
Qed.

Lemma leavesOf_apart path k n k' n' a b :
  k <> k' -> a ∈ leavesOf path k n -> b ∈ leavesOf path k' n' -> apart a.1 b.1.
Proof.
  intros Hne Ha Hb. destruct (leavesOf_path (S (node_size n)) path k n a) as (sa & ->); [lia|done|].
  destruct (leavesOf_path (S (node_size n')) path k' n' b) as (sb & ->); [lia|done|]. apply apart_prefix. by left.
Qed.

Lemma ForallOrdPairs_app {A} (R : A -> A -> Prop) l1 l2 :
  ForallOrdPairs R l1 -> ForallOrdPairs R l2 -> (forall a b, a ∈ l1 -> b ∈ l2 -> R a b) -> ForallOrdPairs R (l1 ++ l2).
Proof.
  induction 1 as [|a l1 Ha Hl IH]; intros H2 Hc; [done|]. cbn [app]. constructor.
  - apply Forall_app. split; [done|]. apply Forall_forall. intros b Hb. apply Hc; [constructor|done].
  - apply IH; [done|]. intros x b Hx Hb. apply Hc; [by constructor|done].
Qed.

Lemma leaves_apart fuel path doc :
  (list_sum (map (fun kn => node_size kn.2) doc) < fuel)%nat ->
  NoDup (map fst doc) -> Forall (fun kn => node_distinct kn.2) doc ->
  ForallOrdPairs (fun a b => apart a.1 b.1) (concat (map (fun kn => leavesOf path kn.1 kn.2) doc)).
Proof.
  revert path doc. induction fuel as [|fuel IH]; intros path doc Hf Hnd Hd; [lia|].
  induction Hd as [|[k n] doc Hn Hd IHd]; [constructor|]. cbn [map concat fst snd] in *. simpl in Hf.
  apply NoDup_cons in Hnd as [Hk Hnd]. assert (0 < node_size n)%nat as Hpos by (destruct n; simpl; lia).
  apply ForallOrdPairs_app; [|apply IHd; [lia|done]|].
  - destruct Hn as [v|children Hc Hch]; cbn [leavesOf]; [repeat constructor|]. apply IH; [simpl in Hf; lia|done|done].
  - intros a b Ha Hb. apply list_elem_of_In, in_concat in Hb as (ls & Hls & Hb).
    apply in_map_iff in Hls as ([k' n'] & <- & Hch). apply (leavesOf_apart path k n k' n'); [|done|by apply list_elem_of_In].
    intros ->. apply Hk. apply list_elem_of_In, in_map_iff. by exists (k', n').
Qed.

Lemma apart_valued ls :
  ForallOrdPairs (fun a b => apart a.1 b.1) ls -> ForallOrdPairs (fun a b => apart a.1 b.1) (map valued ls).
Proof. induction 1 as [|a ls Ha Hl IH]; [constructor|]. cbn [map]. constructor; [|done]. by apply Forall_map. Qed.

(** Every leaf has a path of keys. *)
Lemma leavesOf_keys fuel path doc :
  (list_sum (map (fun kn => node_size kn.2) doc) < fuel)%nat ->
  Forall (fun kn => key_ok kn.1 /\ node_ok kn.2) doc -> Forall key_ok path ->
  Forall (fun l => l.1 <> [] /\ Forall key_ok l.1) (concat (map (fun kn => leavesOf path kn.1 kn.2) doc)).
Proof.
  revert path doc. induction fuel as [|fuel IH]; intros path doc Hf Hd Hp; [lia|].
  induction Hd as [|[k n] doc [Hk Hn] Hd IHd]; [constructor|]. cbn [map concat fst snd] in *. simpl in Hf.
  assert (0 < node_size n)%nat as Hpos by (destruct n; simpl; lia). apply Forall_app. split; [|apply IHd; lia].
  destruct Hn as [v Hv|children Hch]; cbn [leavesOf].
  - constructor; [|constructor]. cbn [fst rev]. split; [by destruct (rev path)|]. apply Forall_app. split; [by apply Forall_rev|by constructor].
  - apply IH; [simpl in Hf; lia|done|by constructor].
Qed.

End Lines.

(** A document of distinct keys whose lines fit the scanner's buffer. *)
Definition doc_ok (doc : list (bytes * node)) : Prop :=
  Forall (fun kn => key_ok kn.1 /\ node_ok kn.2) doc /\ NoDup (map fst doc)
  /\ Forall (fun kn => node_distinct kn.2) doc /\ Forall (fun l => len l < MaxScanTokenSize) (printLines doc).

Lemma printLines_printable doc : Forall (fun kn => key_ok kn.1 /\ node_ok kn.2) doc -> Forall (Forall printable) (printLines doc).
Proof.
  intros Hd. unfold printLines. induction Hd as [|[k n] doc [Hk Hn] Hd IH]; [constructor|]. cbn [map concat fst snd].
  apply Forall_app. split; [|done]. apply (printNode_printable (S (node_size n))); [lia|done|done].
Qed.

(** What the reader makes of a printed document: its leaves, written in order. *)
Lemma Load_printDoc ParseFloat doc :
  doc_ok doc -> Load ParseFloat (printDoc doc) = Some (mkCfgMap (setAll (map (valued ParseFloat) (docLeaves doc)) ∅) []).
Proof.
  intros (Hd & _ & _ & Hlen). unfold Load, printDoc. rewrite scanLines_print.
  2:{ apply Forall_and. split; [by apply printLines_printable|done]. }
  cbn [mbind option_bind].
  destruct (load_nodes ParseFloat (S (list_sum (map (fun kn => node_size kn.2) doc))) 0 [] doc emptyLoader ∅) as (Hm & _); [lia|done|constructor| |].
  { split; [done|]. split; done. }
  f_equal. exact Hm.
Qed.

(** What is written is read back: the reader, on a document printed with two
    spaces per level, keeps every key path with its value, whatever the depth and
    the order of the sections, and reads no list items. *)
Theorem load_print ParseFloat doc :
  doc_ok doc ->
  exists c, Load ParseFloat (printDoc doc) = Some c /\ cfg_items c = []
    /\ Forall (fun l => getPath (cfg_root c) (Join_ l.1 dot) = Some (parseValue ParseFloat l.2)) (docLeaves doc).
Proof.
  intros Hok. eexists. split; [by apply Load_printDoc|]. split; [done|]. destruct Hok as (Hd & Hnd & Hdist & _).
  set (fuel := S (list_sum (map (fun kn => node_size kn.2) doc))).
  pose proof (leavesOf_keys fuel [] doc ltac:(unfold fuel; lia) Hd ltac:(constructor)) as Hkeys.
  pose proof (leaves_apart fuel [] doc ltac:(unfold fuel; lia) Hnd Hdist) as Hapart. fold (docLeaves doc) in Hkeys, Hapart.
  apply Forall_forall. intros [path v] Hin. pose proof Hkeys as Hkeys'. rewrite Forall_forall in Hkeys'.
  destruct (Hkeys' _ Hin) as [Hne Hk]. cbn [fst snd] in *. unfold getPath. rewrite Split_Join; [|done|].
  2:{ eapply Forall_impl; [exact Hk|]. intros x Hx. apply Hx. }
  cbn [cfg_root]. eapply setAll_get.
  - apply list_elem_of_In, in_map_iff. exists (path, v). split; [done|by apply list_elem_of_In].
  - apply Forall_map. eapply Forall_impl; [exact Hkeys|]. intros [p w] [Hp Hpk]. cbn [fst] in *. split; [done|].
    split; [|apply open_path_empty]. eapply Forall_impl; [exact Hpk|]. intros x Hx. apply Hx.
  - by apply apart_valued.
Qed.

Definition sampleDoc : list (bytes * node) :=
  [(bs "server", Node [(bs "name", Leaf (bs "x.org")); (bs "port", Leaf (bs "8449"))]);
   (bs "cluster", Node [(bs "tls", Node [(bs "enabled", Leaf (bs "true"))]); (bs "seed", Leaf (bs "a b"))])].

Ltac all_bytes := repeat (apply Forall_cons; split; [by vm_compute|]); apply Forall_nil; exact I.
Ltac by_deciding := refine (bool_decide_eq_true_1 _ _); by vm_compute.
Ltac concrete_key := split; [done|]; split; [all_bytes|]; split_and!; by_deciding.
Ltac concrete_text := split; [all_bytes|]; split; by vm_compute.

Lemma load_print_witness :
  doc_ok sampleDoc
  /\ exists c, Load (fun _ => None) (printDoc sampleDoc) = Some c /\ cfg_items c = []
     /\ Forall (fun l => getPath (cfg_root c) (Join_ l.1 dot) = Some (parseValue (fun _ => None) l.2)) (docLeaves sampleDoc).
Proof.
  assert (doc_ok sampleDoc) as Hok.
  { split; [|split; [|split]].
    - unfold sampleDoc. repeat match goal with
             | |- Forall _ (_ :: _) => apply Forall_cons; split
             | |- Forall _ [] => apply Forall_nil; exact I
             | |- _ /\ _ => split; cbn [fst snd]
             | |- node_ok (Leaf _) => apply leaf_node_ok; concrete_text
             | |- node_ok (Node _) => apply inner_node_ok
             | |- key_ok _ => concrete_key
             end.
    - by_deciding.
    - repeat first [by_deciding | constructor].
    - repeat constructor. }
  split; [exact Hok|]. exact (load_print (fun _ => None) sampleDoc Hok).
Defined.
