(* ===== verification/Config.v ===== *)
(** * Configuration (internal/config, decodeTrustedNotaries of server/server.go)

    Defaults, then the file, then the environment, then validation. The settings
    of the trust policy and of the transparency log are the records of those
    components, which server.go copies field by field.

    Parameters: [ParseFloat] of strconv and [ParseDuration] of time, which round;
    the files by their paths; the environment in the order of [os.Environ]. An
    error is the name of the setting or variable it is about. *)
From S2P Require Import Prelude Decimal Base64 GoTime GoStrings NetIP Canonical TrustPolicy NotarySignature.
From S2P Require Import Merkle Transparency ConfigMap.
From Stdlib Require Import ZArith Lia.
From stdpp Require Import base gmap list strings fin_maps.
#[local] Open Scope Z_scope.

(** ** config.go *)

Record ServerConfig : Type := mkServerConfig {
  srv_Name : bytes;
  srv_Port : Z;
  srv_BindAddress : bytes;
  srv_ShutdownTimeout : Z;
  srv_PredrainDelay : Z;
}.

Record DatabaseConfig : Type := mkDatabaseConfig {
  db_URL : bytes;
  db_MaxConnections : Z;
  db_MaxIdleConnections : Z;
}.

Record LoggingConfig : Type := mkLoggingConfig {
  log_Level : bytes;
  log_Format : bytes;
}.

Record KeysConfig : Type := mkKeysConfig {
  keys_StoragePath : bytes;
  keys_ValidityHours : Z;
  keys_CacheTTLHours : Z;
  keys_FetchTimeoutS : Z;
  keys_CleanupHours : Z;
  keys_EncryptionPassphraseEnv : bytes;
}.

Record TrustedNotary : Type := mkTrustedNotary {
  ctn_ServerName : bytes;
  ctn_KeyID : bytes;
  ctn_PublicKey : bytes;
}.

Record RateLimitConfig : Type := mkRateLimitConfig {
  rl_RequestsPerSecond : float64;
  rl_Burst : Z;
  rl_QueryPerSecond : float64;
  rl_QueryBurst : Z;
}.

Record SecurityConfig : Type := mkSecurityConfig {
  sec_MaxServerNameLength : Z;
  sec_MaxServersPerQuery : Z;
  sec_MaxJSONDepth : Z;
  sec_MaxSignaturesPerKey : Z;
  sec_RequireRequestID : bool;
  sec_TrustForwardedHeaders : bool;
  sec_TrustedProxies : list bytes;
  sec_AdminAccessToken : bytes;
  sec_TrustedNotaries : list TrustedNotary;
}.

Record ClusterTLSConfig : Type := mkClusterTLSConfig {
  tls_Enabled : bool;
  tls_CertFile : bytes;
  tls_KeyFile : bytes;
  tls_CAFile : bytes;
  tls_RequireClientCert : bool;
  tls_MinVersion : bytes;
  tls_ServerName : bytes;
}.

Record ClusterConfig : Type := mkClusterConfig {
  cl_Enabled : bool;
  cl_NodeID : bytes;
  cl_BindAddress : bytes;
  cl_BindPort : Z;
  cl_AdvertiseAddress : bytes;
  cl_AdvertisePort : Z;
  cl_Seeds : list bytes;
  cl_ConsensusMode : bytes;
  cl_SyncInterval : Z;
  cl_SharedSecret : bytes;
  cl_RaftStateDir : bytes;
  cl_RaftSyncOnAppend : bool;
  cl_RaftCompactionInterval : Z;
  cl_RaftCompactionLogThreshold : Z;
  cl_TLS : ClusterTLSConfig;
}.

Record ServerInfoConfig : Type := mkServerInfoConfig {
  si_Enabled : bool;
  si_CacheTTL : Z;
  si_RequestTimeout : Z;
  si_WhoisEnabled : bool;
}.

Record Config : Type := mkConfig {
  c_Server : ServerConfig;
  c_Database : DatabaseConfig;
  c_Logging : LoggingConfig;
  c_Keys : KeysConfig;
  c_Fallback : list bytes;
  c_RateLimit : RateLimitConfig;
  c_Security : SecurityConfig;
  c_TrustPolicy : TrustPolicyConfig;
  c_Transparency : TransparencyConfig;
  c_Cluster : ClusterConfig;
  c_ServerInfo : ServerInfoConfig;
}.

Definition defaults : Config := {|
  c_Server := mkServerConfig [] 8448 (bs "0.0.0.0") 0 0;
  c_Database := mkDatabaseConfig [] 10 2;
  c_Logging := mkLoggingConfig (bs "info") (bs "text");
  c_Keys := mkKeysConfig (bs "/var/lib/mxkeys/keys") 24 1 30 6 [];
  c_Fallback := [bs "matrix.org"];
  c_RateLimit := mkRateLimitConfig (FFinite 50 0) 100 (FFinite 10 0) 20;
  c_Security := mkSecurityConfig 255 100 10 10 false false [] [] [];
  c_TrustPolicy := mkPolicyConfig false [] [] 0 0 false false true;
  c_Transparency := mkTransparencyConfig false true true true 365 (bs "key_transparency_log");
  c_Cluster := mkClusterConfig false [] (bs "0.0.0.0") 7946 [] 0 [] (bs "crdt") 5 [] (bs "/var/lib/mxkeys/raft") true 0 0
                 (mkClusterTLSConfig false [] [] [] false [] []);
  c_ServerInfo := mkServerInfoConfig false (6 * Hour) (5 * Second) false;
|}.

Section Config.
Variable ParseFloat : bytes -> option float64.
Variable ParseDuration : bytes -> option Z.

(** ** load_map.go: a setting of the file, or the one before *)

Section Map.
Variable m : cmap.

Definition mapString (path : string) (old : bytes) : bytes :=
  let v := GetString m (bs path) in if decide (v <> []) then v else old.
Definition mapIntNonzero (path : string) (old : Z) : Z :=
  let v := GetInt m (bs path) in if decide (v <> 0) then v else old.
Definition mapIntPos (path : string) (old : Z) : Z :=
  let v := GetInt m (bs path) in if decide (0 < v) then v else old.
Definition mapIntNonneg (path : string) (old : Z) : Z :=
  let v := GetInt m (bs path) in if decide (0 <= v) then v else old.
Definition mapBool (path : string) (old : bool) : bool :=
  if Has m (bs path) then GetBool m (bs path) else old.
Definition mapStrings (path : string) (old : list bytes) : list bytes :=
  let v := GetStringSlice m (bs path) in if decide (0 < len v) then v else old.
Definition mapDuration (path : string) (old : Z) : Z :=
  let v := GetString m (bs path) in if decide (v <> []) then default old (ParseDuration v) else old.

Definition floatPos (f : float64) : bool :=
  match f with FFinite n _ => bool_decide (0 < n) | FInf negative => negb negative | FNaN => false end.

Definition mapFloatPos (path : string) (old : float64) : float64 :=
  let v := GetFloat ParseFloat m (bs path) in if floatPos v then v else old.

Definition applyRateLimitMap (c : RateLimitConfig) : RateLimitConfig :=
  mkRateLimitConfig
    (mapFloatPos "rate_limit.requests_per_second" (rl_RequestsPerSecond c))
    (mapIntPos "rate_limit.burst" (rl_Burst c))
    (mapFloatPos "rate_limit.query_per_second" (rl_QueryPerSecond c))
    (mapIntPos "rate_limit.query_burst" (rl_QueryBurst c)).

(** The notaries are read at the end of [applyMapConfig]. *)
Definition applySecurityMap (c : SecurityConfig) (notaries : list TrustedNotary) : SecurityConfig :=
  mkSecurityConfig
    (mapIntPos "security.max_server_name_length" (sec_MaxServerNameLength c))
    (mapIntPos "security.max_servers_per_query" (sec_MaxServersPerQuery c))
    (mapIntPos "security.max_json_depth" (sec_MaxJSONDepth c))
    (mapIntPos "security.max_signatures_per_key" (sec_MaxSignaturesPerKey c))
    (mapBool "security.require_request_id" (sec_RequireRequestID c))
    (mapBool "security.trust_forwarded_headers" (sec_TrustForwardedHeaders c))
    (mapStrings "security.trusted_proxies" (sec_TrustedProxies c))
    (mapString "security.admin_access_token" (sec_AdminAccessToken c))
    (if decide (0 < len notaries) then notaries else sec_TrustedNotaries c).

Definition applyTrustPolicyMap (c : TrustPolicyConfig) : TrustPolicyConfig :=
  mkPolicyConfig
    (mapBool "trust_policy.enabled" (Enabled c))
    (mapStrings "trust_policy.deny_list" (DenyList c))
    (mapStrings "trust_policy.allow_list" (AllowList c))
    (mapIntNonneg "trust_policy.require_notary_signatures" (RequireNotarySignatures c))
    (mapIntNonneg "trust_policy.max_key_age_hours" (MaxKeyAgeHours c))
    (mapBool "trust_policy.require_well_known" (RequireWellKnown c))
    (mapBool "trust_policy.require_valid_tls" (RequireValidTLS c))
    (mapBool "trust_policy.block_private_ips" (BlockPrivateIPs c)).

Definition applyTransparencyMap (c : TransparencyConfig) : TransparencyConfig :=
  mkTransparencyConfig
    (mapBool "transparency.enabled" (tc_Enabled c))
    (mapBool "transparency.log_all_keys" (tc_LogAllKeys c))
    (mapBool "transparency.log_key_changes" (tc_LogKeyChanges c))
    (mapBool "transparency.log_anomalies" (tc_LogAnomalies c))
    (mapIntPos "transparency.retention_days" (tc_RetentionDays c))
    (mapString "transparency.table_name" (tc_TableName c)).

Definition applyTLSMap (c : ClusterTLSConfig) : ClusterTLSConfig :=
  mkClusterTLSConfig
    (mapBool "cluster.tls.enabled" (tls_Enabled c))
    (mapString "cluster.tls.cert_file" (tls_CertFile c))
    (mapString "cluster.tls.key_file" (tls_KeyFile c))
    (mapString "cluster.tls.ca_file" (tls_CAFile c))
    (mapBool "cluster.tls.require_client_cert" (tls_RequireClientCert c))
    (mapString "cluster.tls.min_version" (tls_MinVersion c))
    (mapString "cluster.tls.server_name" (tls_ServerName c)).

Definition applyClusterMap (c : ClusterConfig) : ClusterConfig :=
  mkClusterConfig
    (mapBool "cluster.enabled" (cl_Enabled c))
    (mapString "cluster.node_id" (cl_NodeID c))
    (mapString "cluster.bind_address" (cl_BindAddress c))
    (mapIntPos "cluster.bind_port" (cl_BindPort c))
    (mapString "cluster.advertise_address" (cl_AdvertiseAddress c))
    (mapIntPos "cluster.advertise_port" (cl_AdvertisePort c))
    (mapStrings "cluster.seeds" (cl_Seeds c))
    (mapString "cluster.consensus_mode" (cl_ConsensusMode c))
    (mapIntPos "cluster.sync_interval" (cl_SyncInterval c))
    (mapString "cluster.shared_secret" (cl_SharedSecret c))
    (mapString "cluster.raft_state_dir" (cl_RaftStateDir c))
    (mapBool "cluster.raft_sync_on_append" (cl_RaftSyncOnAppend c))
    (mapDuration "cluster.raft_compaction_interval" (cl_RaftCompactionInterval c))
    (mapIntPos "cluster.raft_compaction_log_threshold" (cl_RaftCompactionLogThreshold c))
    (applyTLSMap (cl_TLS c)).

Definition applyServerInfoMap (c : ServerInfoConfig) : ServerInfoConfig :=
  mkServerInfoConfig
    (mapBool "server_info.enabled" (si_Enabled c))
    (mapDuration "server_info.cache_ttl" (si_CacheTTL c))
    (mapDuration "server_info.request_timeout" (si_RequestTimeout c))
    (mapBool "server_info.whois_enabled" (si_WhoisEnabled c)).

Definition applyServerMap (c : ServerConfig) : ServerConfig :=
  mkServerConfig
    (mapString "server.name" (srv_Name c))
    (mapIntNonzero "server.port" (srv_Port c))
    (mapString "server.bind_address" (srv_BindAddress c))
    (mapDuration "server.shutdown_timeout" (srv_ShutdownTimeout c))
    (mapDuration "server.predrain_delay" (srv_PredrainDelay c)).

Definition applyKeysMap (c : KeysConfig) : KeysConfig :=
  mkKeysConfig
    (mapString "keys.storage_path" (keys_StoragePath c))
    (mapIntNonzero "keys.validity_hours" (keys_ValidityHours c))
    (mapIntNonzero "keys.cache_ttl_hours" (keys_CacheTTLHours c))
    (mapIntNonzero "keys.fetch_timeout_s" (keys_FetchTimeoutS c))
    (mapIntNonzero "keys.cleanup_hours" (keys_CleanupHours c))
    (mapString "keys.encryption.passphrase_env" (keys_EncryptionPassphraseEnv c)).

End Map.

(** trusted_notaries_yaml.go: an entry that lacks a field is left out. *)
Definition completeNotary (n : TrustedNotary) : bool :=
  bool_decide (ctn_ServerName n <> [] /\ ctn_KeyID n <> [] /\ ctn_PublicKey n <> []).

Definition notaryOfItem (item : cmap) : TrustedNotary :=
  mkTrustedNotary (TrimSpace (GetString item (bs "server_name"))) (TrimSpace (GetString item (bs "key_id")))
    (TrimSpace (GetString item (bs "public_key"))).

Definition parseTrustedNotariesFromMap (f : cfgmap) : list TrustedNotary :=
  List.filter completeNotary (map notaryOfItem (GetMapSlice f (bs "trusted_notaries"))).

Definition applyMapConfig (f : cfgmap) (c : Config) : Config :=
  let m := cfg_root f in {|
  c_Server := applyServerMap m (c_Server c);
  c_Database := mkDatabaseConfig (mapString m "database.url" (db_URL (c_Database c)))
                  (mapIntNonzero m "database.max_connections" (db_MaxConnections (c_Database c)))
                  (mapIntNonzero m "database.max_idle_connections" (db_MaxIdleConnections (c_Database c)));
  c_Logging := mkLoggingConfig (mapString m "logging.level" (log_Level (c_Logging c)))
                 (mapString m "logging.format" (log_Format (c_Logging c)));
  c_Keys := applyKeysMap m (c_Keys c);
  c_Fallback := mapStrings m "trusted_servers.fallback" (c_Fallback c);
  c_RateLimit := applyRateLimitMap m (c_RateLimit c);
  c_Security := applySecurityMap m (c_Security c) (parseTrustedNotariesFromMap f);
  c_TrustPolicy := applyTrustPolicyMap m (c_TrustPolicy c);
  c_Transparency := applyTransparencyMap m (c_Transparency c);
  c_Cluster := applyClusterMap m (c_Cluster c);
  c_ServerInfo := applyServerInfoMap m (c_ServerInfo c);
|}.

(** ** env.go *)

Definition rbind {E A B} (r : result E A) (k : A -> result E B) : result E B :=
  match r with Ok a => k a | Err e => Err e end.
#[local] Notation "x <-- r ;; k" := (rbind r (fun x => k)) (at level 20, r at level 99, k at level 200).

(** [os.Getenv]: empty when unset. *)
Definition Getenv (environ : list bytes) (name : bytes) : bytes :=
  default [] (head (omap (fun e => '(k, v) ← Cut e Byte.x3d; if decide (k = name) then Some v else None) environ)).

(** [strconv.ParseBool]. *)
Definition ParseBool (s : bytes) : option bool :=
  if decide (s ∈ map bs ["1"; "t"; "T"; "true"; "TRUE"; "True"]) then Some true
  else if decide (s ∈ map bs ["0"; "f"; "F"; "false"; "FALSE"; "False"]) then Some false else None.

(** [splitCSV]. *)
Definition nonblank (parts : list bytes) : list bytes :=
  List.filter (fun p => bool_decide (p <> [])) (map TrimSpace parts).

Definition splitCSV (v : bytes) : list bytes := nonblank (Split v Byte.x2c).

Definition notaryOfChunk (chunk : bytes) : option TrustedNotary :=
  match Split chunk Byte.x7c with
  | [a; b; c] =>
      let entry := mkTrustedNotary (TrimSpace a) (TrimSpace b) (TrimSpace c) in
      if completeNotary entry then Some entry else None
  | _ => None
  end.

Definition parseTrustedNotariesEnv (v : bytes) : list TrustedNotary := omap notaryOfChunk (nonblank (Split v Byte.x3b)).

Section Env.
Variable environ : list bytes.

(** The variable, parsed, if it is set; an error names it. *)
Definition envWith {A} (parse : bytes -> option A) (name : string) (old : A) : result bytes A :=
  let v := Getenv environ (bs name) in
  if decide (v = []) then Ok old else match parse v with Some a => Ok a | None => Err (bs name) end.

Definition envInt : string -> Z -> result bytes Z := envWith Atoi.
Definition envFloat : string -> float64 -> result bytes float64 := envWith ParseFloat.
Definition envBool : string -> bool -> result bytes bool := envWith ParseBool.
Definition envString (name : string) (old : bytes) : bytes :=
  let v := Getenv environ (bs name) in if decide (v <> []) then v else old.
Definition envCSV (name : string) (old : list bytes) : list bytes :=
  let v := Getenv environ (bs name) in if decide (v <> []) then splitCSV v else old.

(** The variables of a section, in the order of the source. *)
Definition envServer (c : ServerConfig) : result bytes ServerConfig :=
  port <-- envInt "MXKEYS_SERVER_PORT" (srv_Port c);;
  Ok (mkServerConfig (envString "MXKEYS_SERVER_NAME" (srv_Name c)) port
        (envString "MXKEYS_SERVER_BIND_ADDRESS" (srv_BindAddress c)) (srv_ShutdownTimeout c) (srv_PredrainDelay c)).

Definition envDatabase (c : DatabaseConfig) : result bytes DatabaseConfig :=
  maxc <-- envInt "MXKEYS_DATABASE_MAX_CONNECTIONS" (db_MaxConnections c);;
  idle <-- envInt "MXKEYS_DATABASE_MAX_IDLE_CONNECTIONS" (db_MaxIdleConnections c);;
  Ok (mkDatabaseConfig (envString "MXKEYS_DATABASE_URL" (db_URL c)) maxc idle).

Definition envKeys (c : KeysConfig) : result bytes KeysConfig :=
  validity <-- envInt "MXKEYS_KEYS_VALIDITY_HOURS" (keys_ValidityHours c);;
  ttl <-- envInt "MXKEYS_KEYS_CACHE_TTL_HOURS" (keys_CacheTTLHours c);;
  timeout <-- envInt "MXKEYS_KEYS_FETCH_TIMEOUT_S" (keys_FetchTimeoutS c);;
  cleanup <-- envInt "MXKEYS_KEYS_CLEANUP_HOURS" (keys_CleanupHours c);;
  Ok (mkKeysConfig (envString "MXKEYS_KEYS_STORAGE_PATH" (keys_StoragePath c)) validity ttl timeout cleanup
        (keys_EncryptionPassphraseEnv c)).

Definition envRateLimit (c : RateLimitConfig) : result bytes RateLimitConfig :=
  rps <-- envFloat "MXKEYS_RATE_LIMIT_REQUESTS_PER_SECOND" (rl_RequestsPerSecond c);;
  burst <-- envInt "MXKEYS_RATE_LIMIT_BURST" (rl_Burst c);;
  qps <-- envFloat "MXKEYS_RATE_LIMIT_QUERY_PER_SECOND" (rl_QueryPerSecond c);;
  qburst <-- envInt "MXKEYS_RATE_LIMIT_QUERY_BURST" (rl_QueryBurst c);;
  Ok (mkRateLimitConfig rps burst qps qburst).

(** The notaries are the last variable read. *)
Definition envSecurity (c : SecurityConfig) : result bytes SecurityConfig :=
  nameLen <-- envInt "MXKEYS_SECURITY_MAX_SERVER_NAME_LENGTH" (sec_MaxServerNameLength c);;
  perQuery <-- envInt "MXKEYS_SECURITY_MAX_SERVERS_PER_QUERY" (sec_MaxServersPerQuery c);;
  depth <-- envInt "MXKEYS_SECURITY_MAX_JSON_DEPTH" (sec_MaxJSONDepth c);;
  sigs <-- envInt "MXKEYS_SECURITY_MAX_SIGNATURES_PER_KEY" (sec_MaxSignaturesPerKey c);;
  reqID <-- envBool "MXKEYS_SECURITY_REQUIRE_REQUEST_ID" (sec_RequireRequestID c);;
  trustFwd <-- envBool "MXKEYS_SECURITY_TRUST_FORWARDED_HEADERS" (sec_TrustForwardedHeaders c);;
  let notaries := Getenv environ (bs "MXKEYS_TRUSTED_NOTARIES") in
  Ok (mkSecurityConfig nameLen perQuery depth sigs reqID trustFwd
        (envCSV "MXKEYS_SECURITY_TRUSTED_PROXIES" (sec_TrustedProxies c))
        (envString "MXKEYS_SECURITY_ADMIN_ACCESS_TOKEN" (sec_AdminAccessToken c))
        (if decide (notaries <> []) then parseTrustedNotariesEnv notaries else sec_TrustedNotaries c)).

Definition envTrustPolicy (c : TrustPolicyConfig) : result bytes TrustPolicyConfig :=
  enabled <-- envBool "MXKEYS_TRUST_POLICY_ENABLED" (Enabled c);;
  notaries <-- envInt "MXKEYS_TRUST_POLICY_REQUIRE_NOTARY_SIGNATURES" (RequireNotarySignatures c);;
  age <-- envInt "MXKEYS_TRUST_POLICY_MAX_KEY_AGE_HOURS" (MaxKeyAgeHours c);;
  wellKnown <-- envBool "MXKEYS_TRUST_POLICY_REQUIRE_WELL_KNOWN" (RequireWellKnown c);;
  tls <-- envBool "MXKEYS_TRUST_POLICY_REQUIRE_VALID_TLS" (RequireValidTLS c);;
  block <-- envBool "MXKEYS_TRUST_POLICY_BLOCK_PRIVATE_IPS" (BlockPrivateIPs c);;
  Ok (mkPolicyConfig enabled (envCSV "MXKEYS_TRUST_POLICY_DENY_LIST" (DenyList c))
        (envCSV "MXKEYS_TRUST_POLICY_ALLOW_LIST" (AllowList c)) notaries age wellKnown tls block).

Definition envTransparency (c : TransparencyConfig) : result bytes TransparencyConfig :=
  enabled <-- envBool "MXKEYS_TRANSPARENCY_ENABLED" (tc_Enabled c);;
  all <-- envBool "MXKEYS_TRANSPARENCY_LOG_ALL_KEYS" (tc_LogAllKeys c);;
  changes <-- envBool "MXKEYS_TRANSPARENCY_LOG_KEY_CHANGES" (tc_LogKeyChanges c);;
  anomalies <-- envBool "MXKEYS_TRANSPARENCY_LOG_ANOMALIES" (tc_LogAnomalies c);;
  days <-- envInt "MXKEYS_TRANSPARENCY_RETENTION_DAYS" (tc_RetentionDays c);;
  Ok (mkTransparencyConfig enabled all changes anomalies days (envString "MXKEYS_TRANSPARENCY_TABLE_NAME" (tc_TableName c))).

Definition envCluster (c : ClusterConfig) : result bytes ClusterConfig :=
  enabled <-- envBool "MXKEYS_CLUSTER_ENABLED" (cl_Enabled c);;
  port <-- envInt "MXKEYS_CLUSTER_BIND_PORT" (cl_BindPort c);;
  advertise <-- envInt "MXKEYS_CLUSTER_ADVERTISE_PORT" (cl_AdvertisePort c);;
  interval <-- envInt "MXKEYS_CLUSTER_SYNC_INTERVAL" (cl_SyncInterval c);;
  Ok (mkClusterConfig enabled (envString "MXKEYS_CLUSTER_NODE_ID" (cl_NodeID c))
        (envString "MXKEYS_CLUSTER_BIND_ADDRESS" (cl_BindAddress c)) port
        (envString "MXKEYS_CLUSTER_ADVERTISE_ADDRESS" (cl_AdvertiseAddress c)) advertise
        (envCSV "MXKEYS_CLUSTER_SEEDS" (cl_Seeds c)) (envString "MXKEYS_CLUSTER_CONSENSUS_MODE" (cl_ConsensusMode c)) interval
        (envString "MXKEYS_CLUSTER_SHARED_SECRET" (cl_SharedSecret c)) (cl_RaftStateDir c) (cl_RaftSyncOnAppend c)
        (cl_RaftCompactionInterval c) (cl_RaftCompactionLogThreshold c) (cl_TLS c)).

Definition applyEnvOverrides (c : Config) : result bytes Config :=
  server <-- envServer (c_Server c);;
  database <-- envDatabase (c_Database c);;
  keys <-- envKeys (c_Keys c);;
  rateLimit <-- envRateLimit (c_RateLimit c);;
  security <-- envSecurity (c_Security c);;
  policy <-- envTrustPolicy (c_TrustPolicy c);;
  transparency <-- envTransparency (c_Transparency c);;
  cluster <-- envCluster (c_Cluster c);;
  Ok {|
    c_Server := server;
    c_Database := database;
    c_Logging := mkLoggingConfig (envString "MXKEYS_LOGGING_LEVEL" (log_Level (c_Logging c)))
                   (envString "MXKEYS_LOGGING_FORMAT" (log_Format (c_Logging c)));
    c_Keys := keys;
    c_Fallback := envCSV "MXKEYS_TRUSTED_SERVERS_FALLBACK" (c_Fallback c);
    c_RateLimit := rateLimit;
    c_Security := security;
    c_TrustPolicy := policy;
    c_Transparency := transparency;
    c_Cluster := cluster;
    c_ServerInfo := c_ServerInfo c;
  |}.

End Env.

(** ** validate.go *)

(** Is it a wildcard address, a placeholder. *)
Definition isWildcardAddress (addr : bytes) : bool :=
  bool_decide (TrimSpace addr ∈ map bs [""; "0.0.0.0"; "::"; "[::]"]).

Definition placeholderSecrets : list bytes :=
  map bs ["replace-with-long-random-secret"; "replace-with-long-random-token"; "change-me"; "changeme"; "default"; "secret"].

Definition isPlaceholderSecret (secret : bytes) : bool := bool_decide (ToLower (TrimSpace secret) ∈ placeholderSecrets).

Definition placeholderPublicKeys : list bytes :=
  map bs ["base64-encoded-public-key"; "replace-with-public-key"; "your-public-key-here"; "example"].

Definition isPlaceholderPublicKey (raw : bytes) : bool := bool_decide (ToLower (TrimSpace raw) ∈ placeholderPublicKeys).

Definition decodeNotaryPublicKey (raw : bytes) : option bytes :=
  match DecodeRaw raw with Some b => Some b | None => DecodeStd raw end.

(** A list of conditions with the setting that is wrong when one fails. *)
Fixpoint firstError (checks : list (bool * string)) : option bytes :=
  match checks with
  | [] => None
  | (ok, name) :: checks => if ok then firstError checks else Some (bs name)
  end.

Definition notBlank (s : bytes) : bool := bool_decide (TrimSpace s <> []).

Definition checkNotary (n : TrustedNotary) : option bytes :=
  let raw := TrimSpace (ctn_PublicKey n) in
  firstError
    [(notBlank (ctn_ServerName n), "trusted_notaries.server_name"%string);
     (notBlank (ctn_KeyID n), "trusted_notaries.key_id"%string);
     (bool_decide (raw <> []), "trusted_notaries.public_key"%string);
     (negb (isPlaceholderPublicKey raw), "trusted_notaries.public_key"%string);
     (match decodeNotaryPublicKey raw with Some b => bool_decide (length b = PublicKeySize) | None => false end,
      "trusted_notaries.public_key"%string)].

Fixpoint validateTrustedNotaries (notaries : list TrustedNotary) : option bytes :=
  match notaries with
  | [] => None
  | n :: notaries => match checkNotary n with Some e => Some e | None => validateTrustedNotaries notaries end
  end.

Definition validateClusterTLS (t : ClusterTLSConfig) : option bytes :=
  if negb (tls_Enabled t) then None
  else
    firstError
      [(notBlank (tls_CertFile t), "cluster.tls.cert_file"%string);
       (notBlank (tls_KeyFile t), "cluster.tls.key_file"%string);
       (notBlank (tls_CAFile t), "cluster.tls.ca_file"%string);
       (bool_decide (TrimSpace (tls_MinVersion t) = [] \/ TrimSpace (tls_MinVersion t) = bs "1.3"), "cluster.tls.min_version"%string)].

Definition validateServerInfo (s : ServerInfoConfig) : option bytes :=
  if negb (si_Enabled s) then None
  else
    firstError
      [(bool_decide (~ si_CacheTTL s < 0), "server_info.cache_ttl"%string);
       (bool_decide (~ (0 < si_CacheTTL s /\ si_CacheTTL s < Minute)), "server_info.cache_ttl"%string);
       (bool_decide (~ si_RequestTimeout s < 0), "server_info.request_timeout"%string);
       (bool_decide (~ (0 < si_RequestTimeout s /\ si_RequestTimeout s < Second)), "server_info.request_timeout"%string)].

(** [f <= 0], which no NaN satisfies. *)
Definition floatNonPos (f : float64) : bool :=
  match f with FFinite n _ => bool_decide (n <= 0) | FInf negative => negative | FNaN => false end.

Definition proxyValid (proxy : bytes) : bool :=
  match ParseIP (TrimSpace proxy) with Some _ => true | None => bool_decide (is_Some (ParseCIDR (TrimSpace proxy))) end.

Definition portValid (p : Z) : bool := bool_decide (~ (p < 1 \/ 65535 < p)).

(** The settings outside of the cluster. *)
Definition generalChecks (c : Config) : list (bool * string) :=
  let positive z := bool_decide (~ z <= 0) in
  [(bool_decide (srv_Name (c_Server c) <> []), "server.name"%string);
   (portValid (srv_Port (c_Server c)), "server.port"%string);
   (bool_decide (srv_BindAddress (c_Server c) <> []), "server.bind_address"%string);
   (bool_decide (db_URL (c_Database c) <> []), "database.url"%string);
   (bool_decide (log_Level (c_Logging c) ∈ map bs ["debug"; "info"; "warn"; "error"]), "logging.level"%string);
   (bool_decide (log_Format (c_Logging c) ∈ map bs ["text"; "json"]), "logging.format"%string);
   (bool_decide (keys_StoragePath (c_Keys c) <> []), "keys.storage_path"%string);
   (positive (keys_ValidityHours (c_Keys c)), "keys.validity_hours"%string);
   (positive (keys_CacheTTLHours (c_Keys c)), "keys.cache_ttl_hours"%string);
   (positive (keys_FetchTimeoutS (c_Keys c)), "keys.fetch_timeout_s"%string);
   (positive (keys_CleanupHours (c_Keys c)), "keys.cleanup_hours"%string);
   (negb (floatNonPos (rl_RequestsPerSecond (c_RateLimit c))), "rate_limit.requests_per_second"%string);
   (positive (rl_Burst (c_RateLimit c)), "rate_limit.burst"%string);
   (negb (floatNonPos (rl_QueryPerSecond (c_RateLimit c))), "rate_limit.query_per_second"%string);
   (positive (rl_QueryBurst (c_RateLimit c)), "rate_limit.query_burst"%string);
   (positive (sec_MaxServerNameLength (c_Security c)), "security.max_server_name_length"%string);
   (positive (sec_MaxServersPerQuery (c_Security c)), "security.max_servers_per_query"%string);
   (positive (sec_MaxJSONDepth (c_Security c)), "security.max_json_depth"%string);
   (positive (sec_MaxSignaturesPerKey (c_Security c)), "security.max_signatures_per_key"%string);
   (negb (sec_TrustForwardedHeaders (c_Security c) && bool_decide (sec_TrustedProxies (c_Security c) = [])),
    "security.trusted_proxies"%string);
   (forallb proxyValid (sec_TrustedProxies (c_Security c)), "security.trusted_proxies"%string);
   (bool_decide (~ RequireNotarySignatures (c_TrustPolicy c) < 0), "trust_policy.require_notary_signatures"%string);
   (bool_decide (~ MaxKeyAgeHours (c_TrustPolicy c) < 0), "trust_policy.max_key_age_hours"%string);
   (positive (tc_RetentionDays (c_Transparency c)), "transparency.retention_days"%string);
   (bool_decide (tc_TableName (c_Transparency c) <> []), "transparency.table_name"%string);
   (safeSQLIdentifier (tc_TableName (c_Transparency c)), "transparency.table_name"%string)].

Definition clusterChecks (c : ClusterConfig) : list (bool * string) :=
  [(bool_decide (cl_BindAddress c <> []), "cluster.bind_address"%string);
   (portValid (cl_BindPort c), "cluster.bind_port"%string);
   (bool_decide (cl_AdvertisePort c = 0) || portValid (cl_AdvertisePort c), "cluster.advertise_port"%string);
   (negb (bool_decide (cl_AdvertiseAddress c = []) && isWildcardAddress (cl_BindAddress c)), "cluster.advertise_address"%string);
   (negb (notBlank (cl_AdvertiseAddress c) && isWildcardAddress (cl_AdvertiseAddress c)), "cluster.advertise_address"%string);
   (bool_decide (~ cl_SyncInterval c <= 0), "cluster.sync_interval"%string);
   (notBlank (cl_SharedSecret c), "cluster.shared_secret"%string);
   (negb (isPlaceholderSecret (cl_SharedSecret c)), "cluster.shared_secret"%string);
   (bool_decide (~ len (cl_SharedSecret c) < 32), "cluster.shared_secret"%string);
   (bool_decide (cl_ConsensusMode c = bs "crdt" \/ cl_ConsensusMode c = bs "raft"), "cluster.consensus_mode"%string);
   (negb (bool_decide (cl_ConsensusMode c = bs "raft") && negb (notBlank (cl_RaftStateDir c))), "cluster.raft_state_dir"%string);
   (bool_decide (~ cl_RaftCompactionInterval c < 0), "cluster.raft_compaction_interval"%string);
   (bool_decide (~ (0 < cl_RaftCompactionInterval c /\ cl_RaftCompactionInterval c < Second)),
    "cluster.raft_compaction_interval"%string);
   (bool_decide (~ cl_RaftCompactionLogThreshold c < 0), "cluster.raft_compaction_log_threshold"%string)].

Definition validateCluster (c : ClusterConfig) : option bytes :=
  if negb (cl_Enabled c) then None
  else match firstError (clusterChecks c) with Some e => Some e | None => validateClusterTLS (cl_TLS c) end.

Definition Validate (c : Config) : option bytes :=
  match firstError (generalChecks c) with
  | Some e => Some e
  | None =>
      match validateCluster (c_Cluster c) with
      | Some e => Some e
      | None =>
          match validateTrustedNotaries (sec_TrustedNotaries (c_Security c)) with
          | Some e => Some e
          | None => validateServerInfo (c_ServerInfo c)
          end
      end
  end.

(** ** Load *)

Inductive load_err : Type :=
  | LoadNoFile
  | LoadScan
  | LoadEnv (name : bytes)
  | LoadInvalid (name : bytes).

Variable files : bytes -> option bytes.
Variable environ : list bytes.

(** The file that is read, if any; an explicit path must exist. *)
Definition configPath (explicit : bytes) : result load_err (option bytes) :=
  if decide (explicit <> []) then
    match files explicit with Some f => Ok (Some f) | None => Err LoadNoFile end
  else Ok (head (omap files (map bs ["config.yaml"; "/etc/mxkeys/config.yaml"]))).

(** The settings of the file with the variables that name one of its paths. *)
Definition fromFile (contents : bytes) (c : Config) : option Config :=
  f ← Load ParseFloat contents;
  Some (applyMapConfig (mkCfgMap (WithEnvOverride ParseFloat environ (bs "MXKEYS") (cfg_root f)) (cfg_items f)) c).

Definition LoadConfig (explicit : bytes) : result load_err Config :=
  file <-- configPath explicit;;
  c <-- match file with
        | None => Ok defaults
        | Some contents => match fromFile contents defaults with Some c => Ok c | None => Err LoadScan end
        end;;
  c <-- match applyEnvOverrides environ c with Ok c => Ok c | Err name => Err (LoadEnv name) end;;
  match Validate c with None => Ok c | Some name => Err (LoadInvalid name) end.

End Config.

(** ** server.go: the pinned keys *)

Fixpoint decodeTrustedNotaries (configured : list TrustedNotary) : option (list TrustedNotaryKey) :=
  match configured with
  | [] => Some []
  | item :: rest =>
      pub ← match DecodeRaw (ctn_PublicKey item) with Some b => Some b | None => DecodeStd (ctn_PublicKey item) end;
      keys ← decodeTrustedNotaries rest;
      Some (mkTrusted (ctn_ServerName item) (ctn_KeyID item) pub :: keys)
  end.
