(* ===== verification/Wire.v ===== *)
(** * Framing of messages (internal/zero/raft/wire.go, internal/cluster/wire.go)

    A message is one line of JSON. Both transports bound a line by one mebibyte,
    on the way out and on the way in.

    A connection is what the peer sends before it stops, how it stops, and
    whether the deadlines and the write succeed. [encoding/json] is an interface:
    [toJSON] and [fromJSON] of a type, and what the code relies on of a value that
    JSON represents exactly. *)
From S2P Require Import Prelude GoStrings Auth.
From Stdlib Require Import ZArith Lia.
From stdpp Require Import base gmap list strings countable.
#[local] Open Scope Z_scope.

(** ** The codec *)

Class JsonCodec (A : Type) : Type := {
  toJSON : A -> option bytes;
  fromJSON : bytes -> option A;
}.

(** A line: what is left when white space is trimmed, without line feeds. *)
Definition is_line (t : bytes) : Prop := t <> [] /\ (Byte.x0a ∉ t) /\ TrimSpace t = t.

(** A value that is written as a line and read back as it was. *)
Definition json_exact {A} `{JsonCodec A} (a : A) : Prop :=
  exists t, toJSON a = Some t /\ is_line t /\ fromJSON t = Some a.

(** ** Connections *)

Inductive stream_end : Type := StreamEOF | StreamFailed.

Record Conn : Type := mkConn {
  deadlineSet : bool;
  incoming : bytes;
  incomingEnd : stream_end;
  writeOk : bool;
}.

Inductive wire_err : Type :=
  | WireDeadline | WireTooLong | WireEOF | WireRead | WireDecode | WireEncode | WireWrite.

(** [bufio.Reader.ReadSlice] with a buffer of [size] bytes. *)
Inductive slice : Type := SliceLine (line : bytes) | SliceFull | SliceEnd (rest : bytes) (e : stream_end).

Fixpoint IndexByte (s : bytes) (c : byte) : option nat :=
  match s with
  | [] => None
  | b :: s => if decide (b = c) then Some O else S <$> IndexByte s c
  end.

Definition ReadSlice (size : Z) (data : bytes) (e : stream_end) : slice :=
  match IndexByte (take (Z.to_nat size) data) Byte.x0a with
  | Some i => SliceLine (take (S i) data)
  | None => if decide (size <= len data) then SliceFull else SliceEnd data e
  end.

(** The body of both packages' reader. *)
Definition readBounded (data : bytes) (e : stream_end) (maxBytes : Z) : result wire_err bytes :=
  let trimmed payload :=
    let payload := TrimSpace payload in
    if decide (len payload = 0) then Err WireEOF
    else if decide (maxBytes < len payload) then Err WireTooLong
    else Ok payload in
  match ReadSlice (maxBytes + 1) data e with
  | SliceLine payload => trimmed payload
  | SliceFull => Err WireTooLong
  | SliceEnd payload StreamEOF => if decide (0 < len payload) then trimmed payload else Err WireEOF
  | SliceEnd _ StreamFailed => Err WireRead
  end.

Definition readBoundedRPC : bytes -> stream_end -> Z -> result wire_err bytes := readBounded.
Definition readBoundedJSON : bytes -> stream_end -> Z -> result wire_err bytes := readBounded.

Section Messages.
Context `{JsonCodec RPCMessage}.

Definition readFramed (maxBytes : Z) (conn : Conn) : result wire_err RPCMessage :=
  if negb (deadlineSet conn) then Err WireDeadline
  else
    match readBounded (incoming conn) (incomingEnd conn) maxBytes with
    | Err e => Err e
    | Ok payload => match fromJSON payload with Some msg => Ok msg | None => Err WireDecode end
    end.

(** The bytes that are written. *)
Definition writeFramed (maxBytes : Z) (conn : Conn) (msg : RPCMessage) : result wire_err bytes :=
  match toJSON msg with
  | None => Err WireEncode
  | Some payload =>
      if decide (maxBytes < len payload) then Err WireTooLong
      else if negb (deadlineSet conn) then Err WireDeadline
      else if negb (writeOk conn) then Err WireWrite
      else Ok (payload ++ [Byte.x0a])
  end.

Definition maxRaftMessageSize : Z := 2 ^ 20.
Definition maxClusterMessageSize : Z := 2 ^ 20.

Definition readRPC : Conn -> result wire_err RPCMessage := readFramed maxRaftMessageSize.
Definition writeRPC : Conn -> RPCMessage -> result wire_err bytes := writeFramed maxRaftMessageSize.
Definition readMessage : Conn -> result wire_err RPCMessage := readFramed maxClusterMessageSize.
Definition writeMessage : Conn -> RPCMessage -> result wire_err bytes := writeFramed maxClusterMessageSize.

End Messages.

(** ** Lemmas *)

Lemma IndexByte_app s c t : c ∉ s -> IndexByte (s ++ c :: t) c = Some (length s).
Proof.
  induction s as [|b s IH]; intros Hn; cbn [app IndexByte length]; [by rewrite decide_True|].
  apply not_elem_of_cons in Hn as [Hb Hn]. rewrite decide_False by done. by rewrite IH.
Qed.

(** A byte at the end completes no space but itself. *)
Definition no_end (b : byte) (sp : bytes) : bool :=
  match rev sp with c :: _ :: _ => bool_decide (c <> b) | _ => true end.

Lemma HasPrefix_snoc t b sp : HasPrefix (t ++ [b]) sp = true -> HasPrefix t sp = false -> sp = t ++ [b].
Proof.
  rewrite HasPrefix_spec. intros [u Hu] Hno. destruct u as [|c u] using rev_ind; [by rewrite app_nil_r in Hu|].
  rewrite app_assoc in Hu. apply app_inj_tail in Hu as [-> ->].
  assert (HasPrefix (sp ++ u) sp = true) as Ht by (apply HasPrefix_spec; eauto). congruence.
Qed.

Lemma find_snoc sps t b :
  List.find (HasPrefix t) sps = None -> t <> [] -> forallb (no_end b) sps = true ->
  List.find (HasPrefix (t ++ [b])) sps = None.
Proof.
  intros Hf Hne Hall. induction sps as [|sp sps IH]; [done|]. cbn [List.find forallb] in *. apply andb_prop in Hall as [Hb Hall].
  destruct (HasPrefix t sp) eqn:E; [done|]. destruct (HasPrefix (t ++ [b]) sp) eqn:E'; [|by apply IH].
  apply HasPrefix_snoc in E' as ->; [|done]. unfold no_end in Hb. rewrite rev_app_distr in Hb. cbn [rev app] in Hb.
  destruct (rev t) as [|c u] eqn:Er; [|by apply bool_decide_eq_true in Hb].
  exfalso. apply Hne. by rewrite <- (rev_involutive t), Er.
Qed.

(** What [trimFrom] leaves of a line and its line feed. *)
Lemma TrimSpace_line t : TrimSpace t = t -> t <> [] -> TrimSpace (t ++ [Byte.x0a]) = t.
Proof.
  intros Ht Hne.
  assert (List.find (HasPrefix t) spaces = None) as Hfront.
  { rewrite <- Ht. unfold TrimSpace. set (u := trimFrom (length t) spaces t).
    destruct (trimFrom_suffix (length u) (map (@rev byte) spaces) (rev u)) as [p Hp].
    assert (List.find (HasPrefix u) spaces = None) as Hu by (apply trimFrom_done; [by vm_compute|done]).
    rewrite <- (rev_involutive u), Hp, rev_app_distr in Hu. by apply find_prefix in Hu. }
  assert (List.find (HasPrefix (t ++ [Byte.x0a])) spaces = None) as Hfront'.
  { apply find_snoc; [done|done|by vm_compute]. }
  unfold TrimSpace. rewrite (trimFrom_none _ _ _ Hfront'). rewrite rev_app_distr. cbn [rev app]. rewrite length_app.
  replace (length t + length [Byte.x0a])%nat with (S (length t)) by (simpl; lia). cbn [trimFrom].
  assert (List.find (HasPrefix (Byte.x0a :: rev t)) (map (@rev byte) spaces) = Some [Byte.x0a]) as -> by reflexivity.
  cbn [length drop]. unfold TrimSpace in Ht. by rewrite (trimFrom_none _ spaces t Hfront) in Ht.
Qed.

Lemma readBounded_line maxBytes t rest e :
  is_line t -> len t <= maxBytes -> readBounded (t ++ Byte.x0a :: rest) e maxBytes = Ok t.
Proof.
  intros (Hne & Hnl & Htrim) Hlen. unfold readBounded, ReadSlice.
  assert (take (Z.to_nat (maxBytes + 1)) (t ++ Byte.x0a :: rest) = t ++ Byte.x0a :: take (Z.to_nat (maxBytes - len t)) rest) as ->.
  { unfold len in *. rewrite take_app, take_ge by lia.
    replace (Z.to_nat (maxBytes + 1) - length t)%nat with (S (Z.to_nat (maxBytes - Z.of_nat (length t)))) by lia. done. }
  rewrite IndexByte_app by done.
  assert (take (S (length t)) (t ++ Byte.x0a :: rest) = t ++ [Byte.x0a]) as ->.
  { rewrite take_app, take_ge by lia. replace (S (length t) - length t)%nat with 1%nat by lia. done. }
  cbv zeta. rewrite TrimSpace_line by done. rewrite decide_False by (destruct t; [done|unfold len; simpl; lia]).
  by rewrite decide_False by lia.
Qed.

Lemma IndexByte_bound s c i : IndexByte s c = Some i -> (i < length s)%nat.
Proof.
  revert i. induction s as [|b s IH]; intros i; cbn [IndexByte]; [done|]. case_decide; [intros [= <-]; simpl; lia|].
  destruct (IndexByte s c) as [j|]; [|done]. intros [= <-]. specialize (IH j eq_refl). simpl. lia.
Qed.

(** Whatever the peer sends, a payload is not empty and within the bound, and
    only the first [maxBytes + 1] bytes decide. *)
Lemma readBounded_bound data e maxBytes payload :
  0 <= maxBytes -> readBounded data e maxBytes = Ok payload -> 0 < len payload <= maxBytes.
Proof.
  intros Hm. unfold readBounded. assert (forall p, (let p := TrimSpace p in if decide (len p = 0) then Err WireEOF
    else if decide (maxBytes < len p) then Err WireTooLong else Ok p) = Ok payload -> 0 < len payload <= maxBytes) as Ht.
  { intros p. cbv zeta. case_decide; [done|]. case_decide; [done|]. intros [= <-]. unfold len in *. lia. }
  destruct (ReadSlice _ _ _) as [line| |rest []]; [apply Ht|done| |done]. case_decide; [apply Ht|done].
Qed.

Lemma take_take_lt {A} (l : list A) n m : (n <= m)%nat -> take n (take m l) = take n l.
Proof. intros H. rewrite take_take. by rewrite Nat.min_l. Qed.

Lemma readBounded_prefix data data' e e' maxBytes :
  0 <= maxBytes -> maxBytes + 1 <= len data -> take (Z.to_nat (maxBytes + 1)) data' = take (Z.to_nat (maxBytes + 1)) data ->
  readBounded data' e' maxBytes = readBounded data e maxBytes.
Proof.
  intros Hm Hlen Htake. assert (maxBytes + 1 <= len data') as Hlen'.
  { apply (f_equal length) in Htake. rewrite !length_take in Htake. unfold len in *. lia. }
  unfold readBounded, ReadSlice. rewrite Htake. rewrite (decide_True (P := maxBytes + 1 <= len data)) by done.
  rewrite (decide_True (P := maxBytes + 1 <= len data')) by done.
  destruct (IndexByte _ _) as [i|] eqn:E; [|done]. apply IndexByte_bound in E. rewrite length_take in E.
  assert (take (S i) data' = take (S i) data) as ->; [|done].
  rewrite <- (take_take_lt data' (S i) (Z.to_nat (maxBytes + 1))) by lia. rewrite Htake. by rewrite take_take_lt by lia.
Qed.

Section Exchange.
Context `{JsonCodec RPCMessage}.

(** What one side writes, the other side reads, whatever follows. *)
Lemma write_read maxBytes conn msg w conn' rest :
  json_exact msg -> writeFramed maxBytes conn msg = Ok w -> deadlineSet conn' = true -> incoming conn' = w ++ rest ->
  readFramed maxBytes conn' = Ok msg.
Proof.
  intros (t & Ht & Hline & Hd) Hw Hset Hin. unfold writeFramed in Hw. rewrite Ht in Hw. case_decide as Hlen; [done|].
  destruct (deadlineSet conn); [|done]. destruct (writeOk conn); [|done]. injection Hw as <-.
  unfold readFramed. rewrite Hset, Hin. cbn [negb]. rewrite <- app_assoc. cbn [app].
  rewrite readBounded_line by (done || lia). by rewrite Hd.
Qed.

End Exchange.
