(* ===== verification/ClusterState.v ===== *)
(** * The replicated key cache (internal/cluster: state.go, messages.go,
    runtime.go)

    [keys] maps a server name to a map from key identifiers to entries; stored
    entries are never mutated, so a pointer is its value and nil is [None].
    Go's iteration order over a map is unspecified; the merge below folds over
    the remote maps, and its lemmas show that the order does not matter.
    Instants are nanoseconds of the wall clock: they travel as JSON, which drops the
    monotonic reading, and only two entries made on one node still carry it. *)
From S2P Require Import Prelude Crypto RaftTypes.
From Stdlib Require Import ZArith Lia.
From stdpp Require Import base gmap list strings fin_maps.
#[local] Open Scope Z_scope.

Record KeyEntry : Type := mkKeyEntry {
  ke_ServerName : bytes;
  ke_KeyID : bytes;
  ke_KeyData : bytes;
  ke_ValidUntilTS : Z;
  ke_Timestamp : Z;
  ke_NodeID : bytes;
  ke_Hash : bytes;
}.

#[export] Instance KeyEntry_eq_dec : EqDecision KeyEntry.
Proof. solve_decision. Defined.

Abbreviation cache := (gmap bytes (gmap bytes KeyEntry)).

Record CRDTState : Type := mkCRDT {
  keys : cache;
  raftLastApplied : Z;
}.

(** [hashKeyEntry]: the digest over ["server|key|data"]. *)
Definition hashKeyEntry (serverName keyID keyData : bytes) : bytes :=
  Hex.EncodeToString (Sha256.sum256 (serverName ++ bs "|" ++ keyID ++ bs "|" ++ keyData)).

(** ** One entry *)

Definition applyEntryLocked (entry : KeyEntry) (st : CRDTState) : bool * CRDTState :=
  let ks := match keys st !! ke_ServerName entry with
            | Some _ => keys st
            | None => <[ke_ServerName entry := ∅]> (keys st)
            end in
  let inner := default ∅ (ks !! ke_ServerName entry) in
  let st := mkCRDT ks (raftLastApplied st) in
  match inner !! ke_KeyID entry with
  | Some existing =>
      if decide (~ ke_Timestamp existing < ke_Timestamp entry) then (false, st)
      else (true, mkCRDT (<[ke_ServerName entry := <[ke_KeyID entry := entry]> inner]> ks) (raftLastApplied st))
  | None => (true, mkCRDT (<[ke_ServerName entry := <[ke_KeyID entry := entry]> inner]> ks) (raftLastApplied st))
  end.

Definition storeEntryLocked (entry : KeyEntry) (st : CRDTState) : bool * CRDTState :=
  applyEntryLocked entry st.

(** The result is the entry passed to [onKeyReceived], when a callback is set. *)
Definition storeEntry (entry : KeyEntry) (notify : bool) (st : CRDTState) : option KeyEntry * CRDTState :=
  let '(changed, st) := applyEntryLocked entry st in
  (if notify && changed then Some entry else None, st).

Definition GetCachedKey (serverName keyID : bytes) (st : CRDTState) : option KeyEntry :=
  match keys st !! serverName with
  | Some inner => inner !! keyID
  | None => None
  end.

Definition cachedServerCount (st : CRDTState) : Z := Z.of_nat (size (keys st)).

Definition cachedKeyCount (st : CRDTState) : Z :=
  map_fold (fun _ inner total => total + Z.of_nat (size inner)) 0 (keys st).

(** ** Merging a peer's state *)

Definition mergeKey (keyID : bytes) (entry : option KeyEntry) (local : gmap bytes KeyEntry)
  : gmap bytes KeyEntry :=
  match entry with
  | None => local
  | Some entry =>
      match local !! keyID with
      | None => <[keyID := entry]> local
      | Some existing => if decide (ke_Timestamp existing < ke_Timestamp entry)
                         then <[keyID := entry]> local else local
      end
  end.

Definition mergeServer (serverName : bytes) (remote : gmap bytes (option KeyEntry)) (local : cache) : cache :=
  <[serverName := map_fold mergeKey (default ∅ (local !! serverName)) remote]> local.

Definition mergeState (remote : gmap bytes (gmap bytes (option KeyEntry))) (st : CRDTState) : CRDTState :=
  mkCRDT (map_fold mergeServer (keys st) remote) (raftLastApplied st).

(** [handleSync] and [handleKeyUpdate] on decoded payloads. *)
Definition handleSync (msg : option (gmap bytes (gmap bytes (option KeyEntry)))) (st : CRDTState) : CRDTState :=
  match msg with None => st | Some remote => mergeState remote st end.

Definition handleKeyUpdate (msg : option KeyEntry) (st : CRDTState) : option KeyEntry * CRDTState :=
  match msg with None => (None, st) | Some entry => storeEntry entry true st end.

(** What [handleSyncRequest] sends: every entry as a non-nil pointer. *)
Definition syncPayload (st : CRDTState) : gmap bytes (gmap bytes (option KeyEntry)) :=
  (fun inner : gmap bytes KeyEntry => Some <$> inner) <$> keys st.

(** ** The Raft apply callback of [startRaft]

    The command as [json.Unmarshal] decodes it, [None] when it fails. *)
Record raftCommand : Type := mkCommand {
  rc_Type : bytes;
  rc_Entry : option KeyEntry;
}.

Definition bumpApplied (index : Z) (st : CRDTState) : CRDTState :=
  if decide (raftLastApplied st < index) then mkCRDT (keys st) index else st.

Definition onApply (index : Z) (cmd : option raftCommand) (st : CRDTState) : option KeyEntry * CRDTState :=
  match cmd with
  | None => (None, bumpApplied index st)
  | Some cmd =>
      if decide (rc_Type cmd = bs "key_update") then
        let '(changed, st) :=
          match rc_Entry cmd with
          | Some entry => storeEntryLocked entry st
          | None => (false, st)
          end in
        let st := bumpApplied index st in
        (if changed : bool then rc_Entry cmd else None, st)
      else (None, bumpApplied index st)
  end.

(** ** Snapshots of the key cache (snapshot.go)

    The payload is the value [encoding/json] writes and reads; [size] is the
    length of the stream and [decoded] the value [Decode] reads from it, [None]
    when it fails. A successful install also stores the index in
    [installedSnapshotIndex], the second component of its result. *)
Definition keySnapshotVersion : Z := 1.

Record keyStateSnapshot : Type := mkKeySnapshot {
  ks_Version : Z;
  ks_Keys : cache;
}.

Inductive snapshotError : Type :=
  | ErrDecodeSnapshot
  | ErrUnsupportedSnapshotVersion (got : Z).

Definition snapshotKeyState (st : CRDTState) : keyStateSnapshot * Z :=
  (mkKeySnapshot keySnapshotVersion (keys st), raftLastApplied st).

Definition installKeySnapshot (size : Z) (decoded : option keyStateSnapshot) (lastIncludedIndex : Z)
    (st : CRDTState) : snapshotError + (CRDTState * Z) :=
  if decide (size = 0) then
    inr (bumpApplied lastIncludedIndex (mkCRDT ∅ (raftLastApplied st)), lastIncludedIndex)
  else
    match decoded with
    | None => inl ErrDecodeSnapshot
    | Some snap =>
        if decide (ks_Version snap <> keySnapshotVersion)
        then inl (ErrUnsupportedSnapshotVersion (ks_Version snap))
        else inr (bumpApplied lastIncludedIndex (mkCRDT (ks_Keys snap) (raftLastApplied st)), lastIncludedIndex)
    end.

(** ** The cell semantics *)

(** The winner of a cell: the strictly newer entry. *)
Definition newer (old new : option KeyEntry) : option KeyEntry :=
  match old, new with
  | Some o, Some n => if decide (ke_Timestamp o < ke_Timestamp n) then Some n else Some o
  | None, Some n => Some n
  | o, None => o
  end.

Definition cell (st : CRDTState) (s k : bytes) : option KeyEntry := GetCachedKey s k st.

Lemma cell_apply entry st s k :
  cell (applyEntryLocked entry st).2 s k =
    if decide (s = ke_ServerName entry /\ k = ke_KeyID entry)
    then newer (cell st s k) (Some entry) else cell st s k.
Proof.
  unfold cell, GetCachedKey, applyEntryLocked.
  destruct (keys st !! ke_ServerName entry) as [inner|] eqn:Es; simpl.
  - rewrite Es. simpl. destruct (inner !! ke_KeyID entry) as [old|] eqn:Ek; simpl.
    + destruct (decide (~ _)) as [Hn|Hn]; simpl.
      * case_decide as Hd; [|done]. destruct Hd as [-> ->]. rewrite Es, Ek. simpl. by rewrite decide_False.
      * apply dec_stable in Hn.
        destruct (decide (s = ke_ServerName entry)) as [->|Hs].
        { rewrite lookup_insert_eq, Es. destruct (decide (k = ke_KeyID entry)) as [->|Hk].
          - rewrite lookup_insert_eq, decide_True, Ek by done. simpl. by rewrite decide_True.
          - rewrite lookup_insert_ne by done. rewrite decide_False; [done|tauto]. }
        rewrite lookup_insert_ne by done. rewrite decide_False; [done|tauto].
    + destruct (decide (s = ke_ServerName entry)) as [->|Hs].
      { rewrite lookup_insert_eq, Es. destruct (decide (k = ke_KeyID entry)) as [->|Hk].
        - by rewrite lookup_insert_eq, decide_True, Ek.
        - rewrite lookup_insert_ne by done. rewrite decide_False; [done|tauto]. }
      rewrite lookup_insert_ne by done. rewrite decide_False; [done|tauto].
  - rewrite lookup_insert_eq. simpl. rewrite lookup_empty. simpl.
    destruct (decide (s = ke_ServerName entry)) as [->|Hs].
    + rewrite lookup_insert_eq, Es. destruct (decide (k = ke_KeyID entry)) as [->|Hk].
      * by rewrite lookup_insert_eq, decide_True.
      * rewrite lookup_insert_ne, lookup_empty by done. rewrite decide_False; [done|tauto].
    + rewrite !lookup_insert_ne by done. rewrite decide_False; [done|tauto].
Qed.

Lemma mergeKeys_lookup remote local k :
  map_fold mergeKey local remote !! k = newer (local !! k) (default None (remote !! k)).
Proof.
  revert k. refine (map_fold_weak_ind (fun r m => forall k, r !! k = newer (local !! k) (default None (m !! k))) mergeKey local _ _ remote).
  - intros k. rewrite lookup_empty. simpl. by destruct (local !! k).
  - intros j x m r Hj IH k. unfold mergeKey. destruct (decide (k = j)) as [->|Hne].
    + rewrite lookup_insert_eq. simpl. specialize (IH j). rewrite Hj in IH. simpl in IH.
      assert (r !! j = local !! j) as Er by (rewrite IH; by destruct (local !! j)).
      destruct x as [e|]; [|by rewrite Er; destruct (local !! j)].
      rewrite Er. destruct (local !! j) as [o|] eqn:El; simpl.
      * case_decide; [by rewrite lookup_insert_eq|by rewrite Er].
      * by rewrite lookup_insert_eq.
    + rewrite lookup_insert_ne by done. rewrite <- IH.
      destruct x as [e|]; [|done]. destruct (r !! j); [case_decide|]; rewrite ?lookup_insert_ne; done.
Qed.

Lemma cell_merge remote st s k :
  cell (mergeState remote st) s k =
    newer (cell st s k) (inner ← remote !! s; default None (inner !! k : option (option KeyEntry))).
Proof.
  unfold cell, GetCachedKey, mergeState. simpl.
  enough (map_fold mergeServer (keys st) remote !! s =
    match remote !! s with
    | None => keys st !! s
    | Some inner => Some (map_fold mergeKey (default ∅ (keys st !! s)) inner)
    end) as ->.
  { destruct (remote !! s) as [inner|]; simpl.
    - rewrite mergeKeys_lookup. destruct (keys st !! s) as [l|]; [done|]. simpl. by rewrite lookup_empty.
    - destruct (keys st !! s) as [l|]; [|done]. by destruct (l !! k). }
  revert s. refine (map_fold_weak_ind (fun r m => forall s, r !! s = match m !! s with
    | None => keys st !! s
    | Some inner => Some (map_fold mergeKey (default ∅ (keys st !! s)) inner) end) mergeServer (keys st) _ _ remote).
  - intros s. by rewrite lookup_empty.
  - intros j x m r Hj IH s. unfold mergeServer. destruct (decide (s = j)) as [->|Hne].
    + rewrite !lookup_insert_eq. specialize (IH j). rewrite Hj in IH. by rewrite IH.
    + rewrite !lookup_insert_ne by done. apply IH.
Qed.
