(* ===== verification/ClusterProofs.v ===== *)
(** * Convergence of the replicated key cache

    The last-writer-wins cell as a join, strong eventual consistency of the
    gossip path, pairwise convergence of a state exchange, and the agreement of
    a snapshot followed by a log suffix with the whole log. *)
From S2P Require Import Prelude Crypto RaftTypes ClusterState.
From Stdlib Require Import ZArith Lia.
From stdpp Require Import base gmap list strings fin_maps.
#[local] Open Scope Z_scope.

(** ** Applying a sequence of updates *)

Definition applyAll (es : list KeyEntry) (st : CRDTState) : CRDTState :=
  fold_left (fun st e => (applyEntryLocked e st).2) es st.

(** [e] is an update of the cell [(s, k)]. *)
Definition updates (s k : bytes) (e : KeyEntry) : Prop :=
  s = ke_ServerName e /\ k = ke_KeyID e.

(** The candidates of a cell: what it held and the updates that name it. *)
Definition candidate (st : CRDTState) (es : list KeyEntry) (s k : bytes) (e : KeyEntry) : Prop :=
  cell st s k = Some e \/ (e ∈ es /\ updates s k e).

Lemma newer_spec o e :
  exists w, newer o (Some e) = Some w /\ (w = e \/ o = Some w) /\ ke_Timestamp e <= ke_Timestamp w
    /\ (forall p, o = Some p -> ke_Timestamp p <= ke_Timestamp w).
Proof.
  destruct o as [p|]; simpl.
  - case_decide; eexists; split_and!; eauto; try lia; intros ? [= <-]; lia.
  - eexists; split_and!; eauto; [lia|done].
Qed.

(** The cell of the final state is a candidate of maximal timestamp. *)
Lemma applyAll_winner es st s k :
  match cell (applyAll es st) s k with
  | Some w => candidate st es s k w /\ forall e, candidate st es s k e -> ke_Timestamp e <= ke_Timestamp w
  | None => forall e, ~ candidate st es s k e
  end.
Proof.
  unfold candidate. revert st. induction es as [|a es IH]; intros st; simpl.
  - destruct (cell st s k) as [w|] eqn:E.
    + split; [by left|]. intros e [[= <-]|[Hin _]]; [lia|set_solver].
    + intros e [?|[Hin _]]; [done|set_solver].
  - specialize (IH (applyEntryLocked a st).2). rewrite cell_apply in IH.
    change (decide (s = ke_ServerName a /\ k = ke_KeyID a)) with (decide (updates s k a)) in IH.
    destruct (decide (updates s k a)) as [Hu|Hu].
    + destruct (newer_spec (cell st s k) a) as (w & Ew & Hw & Ha & Hp). rewrite Ew in IH.
      destruct (cell (applyAll es (applyEntryLocked a st).2) s k) as [v|] eqn:Ev.
      * destruct IH as [Hv Hmax]. split.
        { destruct Hv as [[= <-]|[Hin Hup]].
          - destruct Hw as [->|Hc]; [right; split; [left|done]|by left].
          - right. split; [by right|done]. }
        intros e [He|[Hin Hup]].
        { specialize (Hp e He). pose proof (Hmax w (or_introl eq_refl)). lia. }
        apply elem_of_cons in Hin as [->|Hin].
        { pose proof (Hmax w (or_introl eq_refl)). lia. }
        apply Hmax. by right.
      * exfalso. eapply IH. by left.
    + destruct (cell (applyAll es (applyEntryLocked a st).2) s k) as [v|] eqn:Ev.
      * destruct IH as [Hv Hmax]. split.
        { destruct Hv as [?|[Hin Hup]]; [by left|right; split; [by right|done]]. }
        intros e [He|[Hin Hup]]; [apply Hmax; by left|].
        apply elem_of_cons in Hin as [->|Hin]; [done|]. apply Hmax. by right.
      * intros e [He|[Hin Hup]]; [eapply IH; by left|].
        apply elem_of_cons in Hin as [->|Hin]; [done|]. eapply IH. by right.
Qed.

(** No two candidates of a cell carry the same timestamp. *)
Definition distinctTimestamps (st : CRDTState) (es : list KeyEntry) : Prop :=
  forall s k a b, candidate st es s k a -> candidate st es s k b ->
    ke_Timestamp a = ke_Timestamp b -> a = b.

(** C36. Strong eventual consistency of the gossiped cache: two replicas that
    start from the same cache and receive the same set of updates, in any two
    orders and with any repetitions, answer every lookup alike, provided that no
    two different updates of a cell carry the same timestamp. *)
Theorem lww_convergence (st : CRDTState) (es1 es2 : list KeyEntry)
    (Hset : forall e, e ∈ es1 <-> e ∈ es2) (Hts : distinctTimestamps st es1) (s k : bytes) :
  GetCachedKey s k (applyAll es1 st) = GetCachedKey s k (applyAll es2 st).
Proof.
  pose proof (applyAll_winner es1 st s k) as H1. pose proof (applyAll_winner es2 st s k) as H2.
  assert (forall e, candidate st es1 s k e <-> candidate st es2 s k e) as Hc.
  { intros e. unfold candidate. by rewrite Hset. }
  change (cell (applyAll es1 st) s k = cell (applyAll es2 st) s k).
  destruct (cell (applyAll es1 st) s k) as [a|], (cell (applyAll es2 st) s k) as [b|]; [| | |done].
  - destruct H1 as [Ha Hma], H2 as [Hb Hmb]. f_equal. apply (Hts s k); [done|by apply Hc|].
    pose proof (Hma b (proj2 (Hc b) Hb)). pose proof (Hmb a (proj1 (Hc a) Ha)). lia.
  - destruct H1 as [Ha _]. by destruct (H2 a (proj1 (Hc a) Ha)).
  - destruct H2 as [Hb _]. by destruct (H1 b (proj2 (Hc b) Hb)).
Qed.

#[local] Abbreviation demo ts data := (mkKeyEntry (bs "a.org") (bs "ed25519:1") (bs data) 0 ts (bs "n") []).

Lemma lww_convergence_witness :
  GetCachedKey (bs "a.org") (bs "ed25519:1") (applyAll [demo 1 "x"; demo 3 "y"; demo 2 "z"] (mkCRDT ∅ 0)) =
  GetCachedKey (bs "a.org") (bs "ed25519:1") (applyAll [demo 3 "y"; demo 2 "z"; demo 1 "x"; demo 3 "y"] (mkCRDT ∅ 0)).
Proof.
  apply lww_convergence.
  - intros e. rewrite !elem_of_cons. tauto.
  - intros s k a b [Ha|[Ha _]] [Hb|[Hb _]] Hts;
      [done|done|done|].
    repeat (apply elem_of_cons in Ha as [->|Ha]); [..|set_solver];
      repeat (apply elem_of_cons in Hb as [->|Hb]); [..|set_solver| | | |set_solver| | | |set_solver]; done.
Defined.

(** ** Exchanging states *)

Lemma cell_sync (a b : CRDTState) s k :
  cell (mergeState (syncPayload b) a) s k = newer (cell a s k) (cell b s k).
Proof.
  rewrite cell_merge. f_equal. unfold syncPayload, cell, GetCachedKey. rewrite lookup_fmap.
  destruct (keys b !! s) as [inner|]; simpl; [|done]. rewrite lookup_fmap. by destruct (inner !! k).
Qed.

(** A state exchange: two replicas that each merge the state the other one
    sent answer every lookup alike afterwards, and neither falls back to an older
    entry or forgets one, provided that entries of one cell with equal timestamps
    are equal. *)
Theorem sync_exchange_converges (a b : CRDTState)
    (Hts : forall s k x y, cell a s k = Some x -> cell b s k = Some y ->
             ke_Timestamp x = ke_Timestamp y -> x = y) (s k : bytes) :
  let a' := handleSync (Some (syncPayload b)) a in
  let b' := handleSync (Some (syncPayload a)) b in
  GetCachedKey s k a' = GetCachedKey s k b'
  /\ (forall x, GetCachedKey s k a = Some x \/ GetCachedKey s k b = Some x ->
        exists w, GetCachedKey s k a' = Some w /\ ke_Timestamp x <= ke_Timestamp w)
  /\ raftLastApplied a' = raftLastApplied a.
Proof.
  simpl. change GetCachedKey with (fun s k st => cell st s k). cbv beta.
  rewrite !cell_sync. specialize (Hts s k).
  destruct (cell a s k) as [x|], (cell b s k) as [y|]; simpl.
  - split_and!; [| |done].
    + repeat case_decide; try lia; try done. rewrite (Hts x y); [done..|lia].
    + intros z Hz. case_decide; (eexists; split; [done|]); destruct Hz as [[= ->]|[= ->]]; lia.
  - split_and!; [done| |done]. intros z [[= ->]|?]; [eexists; split; [done|lia]|done].
  - split_and!; [done| |done]. intros z [?|[= ->]]; [done|eexists; split; [done|lia]].
  - split_and!; [done| |done]. by intros z [?|?].
Qed.

#[local] Abbreviation demoA := (applyAll [demo 1 "x"] (mkCRDT ∅ 4)).
#[local] Abbreviation demoB := (applyAll [demo 3 "y"] (mkCRDT ∅ 0)).

Lemma sync_exchange_converges_witness :
  GetCachedKey (bs "a.org") (bs "ed25519:1") (handleSync (Some (syncPayload demoB)) demoA) = Some (demo 3 "y")
  /\ GetCachedKey (bs "a.org") (bs "ed25519:1") (handleSync (Some (syncPayload demoB)) demoA) =
     GetCachedKey (bs "a.org") (bs "ed25519:1") (handleSync (Some (syncPayload demoA)) demoB).
Proof.
  split; [vm_compute; reflexivity|]. apply sync_exchange_converges.
  intros s k x y Hx Hy Hts.
  pose proof (applyAll_winner [demo 1 "x"] (mkCRDT ∅ 4) s k) as H1. rewrite Hx in H1.
  pose proof (applyAll_winner [demo 3 "y"] (mkCRDT ∅ 0) s k) as H2. rewrite Hy in H2.
  destruct H1 as [[?|[H1 _]] _]; [done|]. destruct H2 as [[?|[H2 _]] _]; [done|].
  apply list_elem_of_singleton in H1 as ->. apply list_elem_of_singleton in H2 as ->. done.
Defined.

(** Equal timestamps do not converge: the comparator looks at the
    timestamp alone, so two different updates of one cell with the same
    timestamp leave two replicas that received them in opposite orders with
    different entries, and no exchange of states repairs it, although the two
    entries carry different hashes. *)
Theorem equal_timestamps_diverge (s k d1 d2 node : bytes) (ts valid : Z) (Hd : d1 <> d2) :
  let e d := mkKeyEntry s k d valid ts node (hashKeyEntry s k d) in
  let a := applyAll [e d1; e d2] (mkCRDT ∅ 0) in
  let b := applyAll [e d2; e d1] (mkCRDT ∅ 0) in
  GetCachedKey s k a = Some (e d1) /\ GetCachedKey s k b = Some (e d2)
  /\ GetCachedKey s k (handleSync (Some (syncPayload b)) a) <> GetCachedKey s k (handleSync (Some (syncPayload a)) b).
Proof.
  intros e a b.
  assert (forall x y, cell (applyAll [e x; e y] (mkCRDT ∅ 0)) s k = Some (e x)) as Hc.
  { intros x y. unfold applyAll. cbn [fold_left]. rewrite !cell_apply. rewrite !decide_True by done.
    unfold cell, GetCachedKey. simpl. rewrite lookup_empty. simpl. rewrite decide_False by lia. done. }
  split_and!; [apply Hc..|].
  change (cell (mergeState (syncPayload b) a) s k <> cell (mergeState (syncPayload a) b) s k).
  rewrite !cell_sync. unfold a, b. rewrite !Hc. simpl. rewrite !decide_False by lia.
  intros H. assert (Some d1 = Some d2) as [= ?] by exact (f_equal (option_map ke_KeyData) H). done.
Qed.

Lemma equal_timestamps_diverge_witness :
  let a := applyAll [mkKeyEntry (bs "a.org") (bs "k") (bs "x") 0 7 (bs "n") (hashKeyEntry (bs "a.org") (bs "k") (bs "x"));
                     mkKeyEntry (bs "a.org") (bs "k") (bs "y") 0 7 (bs "n") (hashKeyEntry (bs "a.org") (bs "k") (bs "y"))] (mkCRDT ∅ 0) in
  GetCachedKey (bs "a.org") (bs "k") a =
    Some (mkKeyEntry (bs "a.org") (bs "k") (bs "x") 0 7 (bs "n") (hashKeyEntry (bs "a.org") (bs "k") (bs "x"))).
Proof.
  intros a. apply (equal_timestamps_diverge (bs "a.org") (bs "k") (bs "x") (bs "y") (bs "n") 7 0). done.
Defined.

(** ** Snapshots *)

Definition applyLog (log : list (Z * option raftCommand)) (st : CRDTState) : CRDTState :=
  fold_left (fun st c => (onApply c.1 c.2 st).2) log st.

Lemma bump_keys i st : keys (bumpApplied i st) = keys st.
Proof. unfold bumpApplied. by case_decide. Qed.

Lemma bump_applied i st : raftLastApplied (bumpApplied i st) = Z.max (raftLastApplied st) i.
Proof. unfold bumpApplied. case_decide; simpl; lia. Qed.

Lemma apply_applied e st : raftLastApplied (applyEntryLocked e st).2 = raftLastApplied st.
Proof. unfold applyEntryLocked. repeat case_match; simplify_eq/=; done. Qed.

Lemma apply_keys e st1 st2 :
  keys st1 = keys st2 -> keys (applyEntryLocked e st1).2 = keys (applyEntryLocked e st2).2.
Proof.
  intros H. unfold applyEntryLocked. rewrite H.
  repeat case_match; simplify_eq/=; done.
Qed.

(** The callback: the update its command carries, if any, then the index. *)
Definition commandEntry (c : option raftCommand) : option KeyEntry :=
  c ← c; if decide (rc_Type c = bs "key_update") then rc_Entry c else None.

Lemma onApply_state i c st :
  (onApply i c st).2 =
    bumpApplied i (match commandEntry c with Some e => (applyEntryLocked e st).2 | None => st end).
Proof.
  unfold onApply, commandEntry. destruct c as [c|]; [|done]. simpl.
  destruct (decide (rc_Type c = bs "key_update")) as [_|_]; [|done].
  destruct (rc_Entry c) as [e|]; [|done]. unfold storeEntryLocked. by destruct (applyEntryLocked e st).
Qed.

Lemma onApply_keys i c st1 st2 :
  keys st1 = keys st2 -> keys (onApply i c st1).2 = keys (onApply i c st2).2.
Proof.
  intros H. rewrite !onApply_state, !bump_keys. destruct (commandEntry c); [by apply apply_keys|done].
Qed.

Lemma onApply_applied i c st :
  raftLastApplied (onApply i c st).2 = Z.max (raftLastApplied st) i.
Proof.
  rewrite onApply_state, bump_applied. destruct (commandEntry c); by rewrite ?apply_applied.
Qed.

Lemma applyLog_keys log st1 st2 :
  keys st1 = keys st2 -> keys (applyLog log st1) = keys (applyLog log st2).
Proof.
  revert st1 st2. induction log as [|[i c] log IH]; intros st1 st2 H; [done|].
  apply IH, onApply_keys, H.
Qed.

Lemma applyLog_applied log st :
  raftLastApplied (applyLog log st) = foldr Z.max (raftLastApplied st) log.*1.
Proof.
  revert st. induction log as [|[i c] log IH]; intros st; [done|].
  change (raftLastApplied (applyLog log (onApply i c st).2) = Z.max i (foldr Z.max (raftLastApplied st) log.*1)).
  rewrite IH, onApply_applied. clear IH.
  induction log.*1 as [|j js IH]; simpl; lia.
Qed.

Lemma crdt_eta st : mkCRDT (keys st) (raftLastApplied st) = st.
Proof. by destruct st. Qed.

Lemma install_ok size ks i st :
  size <> 0 ->
  installKeySnapshot size (Some (mkKeySnapshot keySnapshotVersion ks)) i st =
    inr (bumpApplied i (mkCRDT ks (raftLastApplied st)), i).
Proof.
  intros H. unfold installKeySnapshot. rewrite decide_False by done.
  cbn [ks_Version ks_Keys]. by rewrite decide_False by (intros Hv; by apply Hv).
Qed.

(** Snapshot and suffix against the whole log: a replica that installs the
    snapshot another one took after a log prefix, and then applies the rest of
    the log, has the same cache and the same applied index as one that applied
    the whole log; installing the snapshot twice changes nothing. *)
Theorem snapshot_then_suffix (pre post : list (Z * option raftCommand)) (st0 local : CRDTState) (size : Z)
    (Hsize : size <> 0)
    (Hlocal : raftLastApplied local <= raftLastApplied (applyLog pre st0)) :
  let '(snap, index) := snapshotKeyState (applyLog pre st0) in
  exists installed,
    installKeySnapshot size (Some snap) index local = inr (installed, index)
    /\ installKeySnapshot size (Some snap) index installed = inr (installed, index)
    /\ keys (applyLog post installed) = keys (applyLog (pre ++ post) st0)
    /\ raftLastApplied (applyLog post installed) = raftLastApplied (applyLog (pre ++ post) st0).
Proof.
  set (mid := applyLog pre st0) in *. unfold snapshotKeyState.
  assert (forall st, raftLastApplied st <= raftLastApplied mid ->
    bumpApplied (raftLastApplied mid) (mkCRDT (keys mid) (raftLastApplied st)) = mid) as Hb.
  { intros st Hst. unfold bumpApplied. cbn [raftLastApplied keys].
    case_decide; [apply crdt_eta|]. etrans; [|apply crdt_eta]. f_equal. lia. }
  exists mid. split_and!.
  - rewrite install_ok by done. do 2 f_equal. by apply Hb.
  - rewrite install_ok by done. do 2 f_equal. by apply Hb.
  - unfold mid, applyLog. by rewrite fold_left_app.
  - unfold mid, applyLog. by rewrite fold_left_app.
Qed.

Lemma snapshot_then_suffix_witness :
  let pre := [(1, Some (mkCommand (bs "key_update") (Some (demo 1 "x")))); (2, None)] in
  let post := [(3, Some (mkCommand (bs "key_update") (Some (demo 3 "y"))))] in
  let '(snap, index) := snapshotKeyState (applyLog pre (mkCRDT ∅ 0)) in
  exists installed,
    installKeySnapshot 80 (Some snap) index (mkCRDT ∅ 1) = inr (installed, index)
    /\ installKeySnapshot 80 (Some snap) index installed = inr (installed, index)
    /\ keys (applyLog post installed) = keys (applyLog (pre ++ post) (mkCRDT ∅ 0))
    /\ raftLastApplied (applyLog post installed) = raftLastApplied (applyLog (pre ++ post) (mkCRDT ∅ 0)).
Proof.
  intros pre post. apply (snapshot_then_suffix pre post (mkCRDT ∅ 0) (mkCRDT ∅ 1) 80).
  - lia.
  - vm_compute. discriminate.
Defined.
