(* ===== verification/ClusterNet.v ===== *)
(** * The cluster's nodes and messages (internal/cluster: cluster.go, messages.go,
    network.go, runtime.go, state.go)

    A [Cluster] holds the nodes it knows, its own node, the key cache and the
    signatures it accepted. [c.nodes] holds pointers, and the entry under the
    cluster's own identifier points at [c.localNode] until a peer overwrites it:
    [RefLocal] is that pointer.

    [clock i] is the [i]-th reading of the clock in a call. A call over the
    network is an [Exchange]: whether the dial and the write succeed, and what can
    be read once the given bytes were written. The entries given to
    [onKeyReceived] are recorded in [received], the first one first. Metrics are
    not modelled. *)
From S2P Require Import Prelude Crypto Decimal GoTime GoStrings Canonical Auth Wire.
From S2P Require Import ClusterState Config.
From Stdlib Require Import ZArith Lia.
From stdpp Require Import base gmap list strings fin_maps.
#[local] Open Scope Z_scope.

(** ** cluster.go *)

Abbreviation NodeState := (bytes).
Definition NodeStateUnknown : NodeState := bs "unknown".
Definition NodeStateStarting : NodeState := bs "starting".
Definition NodeStateHealthy : NodeState := bs "healthy".
Definition NodeStateLeaving : NodeState := bs "leaving".

Record Node : Type := mkNode {
  nd_ID : bytes;
  nd_Address : bytes;
  nd_Port : Z;
  nd_State : NodeState;
  nd_LastSeen : Z;
  nd_Version : bytes;
  nd_KeyCount : Z;
  nd_StartedAt : Z;
}.

#[export] Instance Node_eq_dec : EqDecision Node.
Proof. solve_decision. Defined.

Inductive noderef : Type := RefLocal | RefNode (n : Node).

Record Cluster : Type := mkCluster {
  cfg : ClusterConfig;
  nodeID : bytes;
  nodes : gmap bytes noderef;
  localNode : Node;
  state : CRDTState;
  seenMACs : gmap bytes Z;
  received : list KeyEntry;
}.

Definition MsgTypeJoin : bytes := bs "join".
Definition MsgTypeLeave : bytes := bs "leave".
Definition MsgTypePing : bytes := bs "ping".
Definition MsgTypePong : bytes := bs "pong".
Definition MsgTypeSync : bytes := bs "sync".
Definition MsgTypeSyncReq : bytes := bs "sync_request".
Definition MsgTypeKeyUpdate : bytes := bs "key_update".

Definition set_nodes (ns : gmap bytes noderef) (c : Cluster) : Cluster :=
  mkCluster (cfg c) (nodeID c) ns (localNode c) (state c) (seenMACs c) (received c).
Definition set_local (n : Node) (c : Cluster) : Cluster :=
  mkCluster (cfg c) (nodeID c) (nodes c) n (state c) (seenMACs c) (received c).
Definition set_state (st : CRDTState) (c : Cluster) : Cluster :=
  mkCluster (cfg c) (nodeID c) (nodes c) (localNode c) st (seenMACs c) (received c).
Definition set_seen (seen : gmap bytes Z) (c : Cluster) : Cluster :=
  mkCluster (cfg c) (nodeID c) (nodes c) (localNode c) (state c) seen (received c).
Definition notify (e : option KeyEntry) (c : Cluster) : Cluster :=
  mkCluster (cfg c) (nodeID c) (nodes c) (localNode c) (state c) (seenMACs c) (received c ++ option_list e).

Definition set_NodeState (s : NodeState) (n : Node) : Node :=
  mkNode (nd_ID n) (nd_Address n) (nd_Port n) s (nd_LastSeen n) (nd_Version n) (nd_KeyCount n) (nd_StartedAt n).
Definition set_LastSeen (t : Z) (n : Node) : Node :=
  mkNode (nd_ID n) (nd_Address n) (nd_Port n) (nd_State n) t (nd_Version n) (nd_KeyCount n) (nd_StartedAt n).

(** The node a pointer of [c.nodes] points at, and a write through it. *)
Definition deref (c : Cluster) (r : noderef) : Node := match r with RefLocal => localNode c | RefNode n => n end.

Definition updateNode (id : bytes) (f : Node -> Node) (c : Cluster) : Cluster :=
  match nodes c !! id with
  | None => c
  | Some RefLocal => set_local (f (localNode c)) c
  | Some (RefNode n) => set_nodes (<[id := RefNode (f n)]> (nodes c)) c
  end.

(** [generateNodeID], with the readings of its two clock calls. *)
Definition generateNodeID (clock : nat -> Z) : bytes :=
  Hex.EncodeToString (take 8 (Sha256.sum256 (FormatInt (clock 0%nat) ++ bs "-" ++ FormatInt (clock 1%nat / Second)))).

Definition consensusMode (c : Cluster) : bytes := if decide (cl_ConsensusMode (cfg c) = []) then bs "crdt" else cl_ConsensusMode (cfg c).

Definition advertiseAddress (c : ClusterConfig) : bytes :=
  if decide (cl_AdvertiseAddress c <> []) then cl_AdvertiseAddress c else cl_BindAddress c.

Definition advertisePort (c : ClusterConfig) : Z := if decide (0 < cl_AdvertisePort c) then cl_AdvertisePort c else cl_BindPort c.

Definition set_NodeID (id mode : bytes) (c : ClusterConfig) : ClusterConfig :=
  mkClusterConfig (cl_Enabled c) id (cl_BindAddress c) (cl_BindPort c) (cl_AdvertiseAddress c) (cl_AdvertisePort c) (cl_Seeds c) mode
    (cl_SyncInterval c) (cl_SharedSecret c) (cl_RaftStateDir c) (cl_RaftSyncOnAppend c) (cl_RaftCompactionInterval c)
    (cl_RaftCompactionLogThreshold c) (cl_TLS c).

Definition NewCluster (clock : nat -> Z) (c : ClusterConfig) : Cluster :=
  let id := if decide (cl_NodeID c = []) then generateNodeID clock else cl_NodeID c in
  let mode := if decide (cl_ConsensusMode c = []) then bs "crdt" else cl_ConsensusMode c in
  let c := set_NodeID id mode c in
  mkCluster c id {[ id := RefLocal ]}
    (mkNode id (advertiseAddress c) (advertisePort c) NodeStateStarting zeroTime [] 0 (clock 2%nat)) (mkCRDT ∅ 0) ∅ [].

Definition setLocalState (s : NodeState) (now : Z) (c : Cluster) : Cluster :=
  set_local (set_LastSeen now (set_NodeState s (localNode c))) c.

(** ** Start *)

Inductive start_err : Type := StartSecretRequired | StartListen | StartUnsupported | StartRaft.

(** [listenOk] is the listener's answer, [startRaft] the raft mode. *)
Definition startCRDT (listenOk : bool) (now : Z) (c : Cluster) : option start_err * Cluster :=
  if negb listenOk then (Some StartListen, c) else (None, setLocalState NodeStateHealthy now c).

Definition Start (listenOk : bool) (startRaft : Cluster -> option start_err * Cluster) (now : Z) (c : Cluster)
  : option start_err * Cluster :=
  if negb (cl_Enabled (cfg c)) then (None, c)
  else if decide (cl_SharedSecret (cfg c) = []) then (Some StartSecretRequired, c)
  else if decide (consensusMode c = bs "raft") then startRaft c
  else if decide (consensusMode c = bs "crdt") then startCRDT listenOk now c
  else (Some StartUnsupported, c).

Section Protocol.
Context `{JsonCodec RPCMessage} `{JsonCodec Node} `{JsonCodec KeyEntry} `{JsonCodec (gmap bytes (gmap bytes (option KeyEntry)))}.

Definition message (type from : bytes) (now : Z) (payload : bytes) : RPCMessage := mkRPC type from now payload [].

(** ** messages.go *)

(** The reply that carries this cluster's node. *)
Definition pong (now : Z) (c : Cluster) : option RPCMessage :=
  payload ← toJSON (localNode c); Some (message MsgTypePong (nodeID c) now payload).

Definition handleJoin (clock : nat -> Z) (msg : RPCMessage) (c : Cluster) : option RPCMessage * Cluster :=
  match fromJSON (Payload msg) with
  | None => (None, c)
  | Some node =>
      let node := set_LastSeen (clock 2%nat) node in
      let node := if decide (nd_State node = NodeStateUnknown) then set_NodeState NodeStateHealthy node else node in
      let c := set_nodes (<[nd_ID node := RefNode node]> (nodes c)) c in
      (pong (clock 3%nat) c, c)
  end.

Definition handleLeave (msg : RPCMessage) (c : Cluster) : option RPCMessage * Cluster :=
  (None, updateNode (From_ msg) (set_NodeState NodeStateLeaving) c).

Definition handlePing (clock : nat -> Z) (msg : RPCMessage) (c : Cluster) : option RPCMessage * Cluster :=
  let c := updateNode (From_ msg) (fun n => set_NodeState NodeStateHealthy (set_LastSeen (clock 2%nat) n)) c in
  (pong (clock 3%nat) c, c).

Definition handleSyncMessage (msg : RPCMessage) (c : Cluster) : option RPCMessage * Cluster :=
  (None, set_state (handleSync (fromJSON (Payload msg)) (state c)) c).

Definition handleSyncRequest (clock : nat -> Z) (msg : RPCMessage) (c : Cluster) : option RPCMessage * Cluster :=
  (payload ← toJSON (syncPayload (state c)); Some (message MsgTypeSync (nodeID c) (clock 2%nat) payload), c).

Definition handleKeyUpdateMessage (msg : RPCMessage) (c : Cluster) : option RPCMessage * Cluster :=
  let '(e, st) := handleKeyUpdate (fromJSON (Payload msg)) (state c) in (None, notify e (set_state st c)).

Definition handleMessage (clock : nat -> Z) (msg : RPCMessage) (c : Cluster) : option RPCMessage * Cluster :=
  if decide (Type_ msg = MsgTypeJoin) then handleJoin clock msg c
  else if decide (Type_ msg = MsgTypeLeave) then handleLeave msg c
  else if decide (Type_ msg = MsgTypePing) then handlePing clock msg c
  else if decide (Type_ msg = MsgTypeSync) then handleSyncMessage msg c
  else if decide (Type_ msg = MsgTypeSyncReq) then handleSyncRequest clock msg c
  else if decide (Type_ msg = MsgTypeKeyUpdate) then handleKeyUpdateMessage msg c
  else (None, c).

(** ** network.go *)

Definition verify (clock : nat -> Z) (msg : RPCMessage) (c : Cluster) : option auth_err * Cluster :=
  let '(e, seen) := verifyMessage (cl_SharedSecret (cfg c)) (clock 0%nat) (clock 1%nat) msg (seenMACs c) in (e, set_seen seen c).

Definition sign (c : Cluster) : RPCMessage -> result canon_err RPCMessage := signMessage (cl_SharedSecret (cfg c)).

(** The bytes written back, none when the connection is closed without. *)
Definition handleConnection (clock : nat -> Z) (conn : Conn) (c : Cluster) : bytes * Cluster :=
  match readMessage conn with
  | Err _ => ([], c)
  | Ok msg =>
      match verify clock msg c with
      | (Some _, c) => ([], c)
      | (None, c) =>
          match handleMessage clock msg c with
          | (None, c) => ([], c)
          | (Some response, c) =>
              match sign c response with
              | Err _ => ([], c)
              | Ok response => (match writeMessage conn response with Ok w => w | Err _ => [] end, c)
              end
          end
      end
  end.

(** [None]: the dial fails. *)
Definition Exchange : Type := option (bytes -> Conn).

Inductive net_err : Type := NetDial | NetWire (e : wire_err) | NetSign (e : canon_err) | NetVerify (e : auth_err) | NetEncode | NetDecode.

Definition roundTripMessage (ex : Exchange) (clock : nat -> Z) (msg : RPCMessage) (c : Cluster) : result net_err RPCMessage * Cluster :=
  match ex with
  | None => (Err NetDial, c)
  | Some conn =>
      match writeMessage (conn []) msg with
      | Err e => (Err (NetWire e), c)
      | Ok w =>
          match readMessage (conn w) with
          | Err e => (Err (NetWire e), c)
          | Ok response =>
              match verify clock response c with
              | (Some e, c) => (Err (NetVerify e), c)
              | (None, c) => (Ok response, c)
              end
          end
      end
  end.

(** The request of the state, after the join. *)
Definition requestSync (ex : Exchange) (clock : nat -> Z) (c : Cluster) : option net_err * Cluster :=
  match sign c (message MsgTypeSyncReq (nodeID c) (clock 2%nat) []) with
  | Err e => (Some (NetSign e), c)
  | Ok syncReq =>
      match roundTripMessage ex clock syncReq c with
      | (Ok syncResp, c) => (None, if decide (Type_ syncResp = MsgTypeSync) then (handleSyncMessage syncResp c).2 else c)
      | (Err _, c) => (None, c)
      end
  end.

Definition learnNode (response : RPCMessage) (c : Cluster) : option net_err * Cluster :=
  if decide (Type_ response = MsgTypePong) then
    match fromJSON (Payload response) with
    | None => (Some NetDecode, c)
    | Some node => (None, set_nodes (<[nd_ID node := RefNode node]> (nodes c)) c)
    end
  else (None, c).

Definition connectToNode (join sync : Exchange) (joinClock syncClock : nat -> Z) (c : Cluster) : option net_err * Cluster :=
  match toJSON (localNode c) with
  | None => (Some NetEncode, c)
  | Some payload =>
      match sign c (message MsgTypeJoin (nodeID c) (joinClock 2%nat) payload) with
      | Err e => (Some (NetSign e), c)
      | Ok msg =>
          match roundTripMessage join joinClock msg c with
          | (Err e, c) => (Some e, c)
          | (Ok response, c) =>
              match learnNode response c with
              | (Some e, c) => (Some e, c)
              | (None, c) => requestSync sync syncClock c
              end
          end
      end
  end.

(** [joinSeeds]: the seeds in order, a failure does not stop the loop. *)
Definition joinSeeds (join sync : bytes -> Exchange) (joinClock syncClock : bytes -> nat -> Z) (c : Cluster) : Cluster :=
  fold_left (fun c seed => (connectToNode (join seed) (sync seed) (joinClock seed) (syncClock seed) c).2) (cl_Seeds (cfg c)) c.

(** Peers in the order [map_to_list] lists them; the order of Go's maps is not
    specified. *)
Definition knownNodes (c : Cluster) : list Node := map (fun kr => deref c kr.2) (map_to_list (nodes c)).

Definition nodeAddress (n : Node) : bytes := nd_Address n ++ bs ":" ++ FormatInt (nd_Port n).

Definition pingNode (ex : Exchange) (clock : nat -> Z) (c : Cluster) : Cluster :=
  match sign c (message MsgTypePing (nodeID c) (clock 2%nat) []) with
  | Err _ => c
  | Ok msg => (roundTripMessage ex clock msg c).2
  end.

Definition syncWithPeers (net : bytes -> Exchange) (clock : bytes -> nat -> Z) (c : Cluster) : Cluster :=
  let peers := List.filter (fun n => bool_decide (nd_ID n <> nodeID c) && bool_decide (nd_State n = NodeStateHealthy)) (knownNodes c) in
  fold_left (fun c n => pingNode (net (nodeAddress n)) (clock (nodeAddress n)) c) peers c.

(** The dials of a broadcast with what is written on each. *)
Definition broadcastMessage (msg : RPCMessage) (c : Cluster) : list (bytes * RPCMessage) :=
  let peers := List.filter (fun n => bool_decide (nd_ID n <> nodeID c)) (knownNodes c) in
  omap (fun n => match sign c msg with Ok signed => Some (nodeAddress n, signed) | Err _ => None end) peers.

(** ** state.go *)

Inductive published : Type :=
  | PubNothing
  | PubPropose (e : KeyEntry)
  | PubBroadcast (sent : list (bytes * RPCMessage)).

(** [raftReady]: the raft node is set. *)
Definition BroadcastKeyUpdate (raftReady : bool) (clock : nat -> Z) (serverName keyID keyData : bytes) (validUntilTS : Z) (c : Cluster)
  : published * Cluster :=
  if negb (cl_Enabled (cfg c)) then (PubNothing, c)
  else
    let entry := mkKeyEntry serverName keyID keyData validUntilTS (clock 0%nat) (nodeID c) (hashKeyEntry serverName keyID keyData) in
    if decide (consensusMode c = bs "raft") then (if raftReady then PubPropose entry else PubNothing, c)
    else
      let c := set_state (storeEntry entry false (state c)).2 c in
      match toJSON entry with
      | None => (PubNothing, c)
      | Some payload => (PubBroadcast (broadcastMessage (message MsgTypeKeyUpdate (nodeID c) (clock 1%nat) payload) c), c)
      end.

(** [stopCRDT]. *)
Definition stopCRDT (clock : nat -> Z) (c : Cluster) : list (bytes * RPCMessage) * Cluster :=
  let c := setLocalState NodeStateLeaving (clock 0%nat) c in
  (broadcastMessage (message MsgTypeLeave (nodeID c) (clock 1%nat) []) c, c).

(** The counts of [Stats] outside of raft mode. *)
Definition nodeCount (c : Cluster) : Z := Z.of_nat (size (nodes c)).
Definition healthyCount (c : Cluster) : Z :=
  len (List.filter (fun n => bool_decide (nd_State n = NodeStateHealthy)) (knownNodes c)).

(** The peer behind an address: it reads the request and answers. *)
Definition servedBy (clock : nat -> Z) (peer : Cluster) : Exchange :=
  Some (fun w => mkConn true (handleConnection clock (mkConn true w StreamEOF true) peer).1 StreamEOF true).

End Protocol.
