(* ===== verification/ClusterNetProofs.v ===== *)
(** * Joining a cluster

    Two nodes with one secret, a working connection and clocks within the window:
    the wire, the signatures and the handlers compose. *)
From S2P Require Import Prelude Crypto Decimal GoTime GoStrings Canonical Auth Wire.
From S2P Require Import ClusterState ClusterProofs Config ClusterNet.
From Stdlib Require Import ZArith Lia.
From stdpp Require Import base gmap list strings fin_maps.
#[local] Open Scope Z_scope.
#[local] Set Warnings "-register-all".

(** ** Signatures *)

Definition recent (now' : Z) (seen : gmap bytes Z) : gmap bytes Z := filter (fun kv => ~ kv.2 < now' - maxMessageSkew) seen.

Lemma recent_None now' seen s : seen !! s = None -> recent now' seen !! s = None.
Proof. intros Hs. apply map_lookup_filter_None. by left. Qed.

Lemma signMessage_Ok secret m sm :
  signMessage secret m = Ok sm ->
  exists payload, rpcMACPayload m = Ok payload /\ sm = set_signature (Hex.EncodeToString (Hmac.hmac_sha256 secret payload)) m.
Proof. unfold signMessage. destruct (rpcMACPayload m) as [payload|e]; [|done]. intros [= <-]. eauto. Qed.

Lemma hmac_text_nonempty secret payload : Hex.EncodeToString (Hmac.hmac_sha256 secret payload) <> [].
Proof.
  intros E. pose proof (Hmac.length_hmac secret payload) as Hl.
  apply (f_equal Hex.DecodeString) in E. rewrite Hex.decode_encode in E. injection E as E. by rewrite E in Hl.
Qed.

(** A signed message inside the window, not seen before, is accepted. *)
Lemma verify_signed clock m sm c :
  signMessage (cl_SharedSecret (cfg c)) m = Ok sm ->
  - maxMessageSkew <= clock 0%nat - Timestamp m <= maxMessageSkew -> seenMACs c !! Signature sm = None ->
  verify clock sm c = (None, set_seen (<[Signature sm := Timestamp m]> (recent (clock 1%nat) (seenMACs c))) c).
Proof.
  intros Hs Hskew Hnew. destruct (signMessage_Ok _ _ _ Hs) as (payload & Hp & ->).
  unfold verify, verifyMessage, verifySigned. rewrite decide_False by apply hmac_text_nonempty.
  rewrite decide_False by (change (Timestamp (set_signature _ m)) with (Timestamp m); unfold timeSub, maxMessageSkew, Minute, Second in *; lia).
  unfold signMessage at 1. change (rpcMACPayload (mkRPC _ _ _ _ [])) with (rpcMACPayload m). rewrite Hp.
  rewrite decide_False by (intros Hne; by apply Hne). by rewrite track_new by (left; exact Hnew).
Qed.

Section Protocol.
Context `{JsonCodec RPCMessage} `{JsonCodec Node} `{JsonCodec KeyEntry} `{JsonCodec (gmap bytes (gmap bytes (option KeyEntry)))}.

(** ** One exchange *)

Definition wire (m : RPCMessage) : bytes := match toJSON m with Some t => t ++ [Byte.x0a] | None => [] end.

(** A message that JSON represents exactly and that fits on the wire. *)
Definition sendable (m : RPCMessage) : Prop := json_exact m /\ len (wire m) <= maxClusterMessageSize + 1.

Lemma write_sendable m conn :
  sendable m -> deadlineSet conn = true -> writeOk conn = true -> writeMessage conn m = Ok (wire m).
Proof.
  intros [(t & Ht & _) Hlen] Hd Hw. unfold writeMessage, writeFramed, wire in *. rewrite Ht in *.
  rewrite decide_False by (unfold len in *; rewrite length_app in Hlen; simpl in Hlen; lia). by rewrite Hd, Hw.
Qed.

Lemma read_sendable m e ok : sendable m -> readMessage (mkConn true (wire m) e ok) = Ok m.
Proof.
  intros Hm. apply (write_read _ (mkConn true [] StreamEOF true) m (wire m) _ []); [apply Hm| |done|by rewrite app_nil_r].
  by apply write_sendable.
Qed.

Lemma round_trip clockA clockB sm r sr a b b0 b1 a1 :
  sendable sm -> sendable sr -> verify clockB sm b = (None, b0) -> handleMessage clockB sm b0 = (Some r, b1) ->
  sign b1 r = Ok sr -> verify clockA sr a = (None, a1) ->
  roundTripMessage (servedBy clockB b) clockA sm a = (Ok sr, a1)
  /\ (handleConnection clockB (mkConn true (wire sm) StreamEOF true) b).2 = b1.
Proof.
  intros Hsm Hsr Hv Hh Hsign Hva.
  assert (handleConnection clockB (mkConn true (wire sm) StreamEOF true) b = (wire sr, b1)) as Hc.
  { unfold handleConnection. rewrite read_sendable by done. rewrite Hv, Hh, Hsign. by rewrite write_sendable. }
  unfold roundTripMessage, servedBy. rewrite write_sendable by done. rewrite Hc. cbn [fst snd].
  rewrite read_sendable by done. by rewrite Hva.
Qed.

(** ** Joining *)

(** What the joining node sends and what it is answered. *)
Definition joinMessage (clock : nat -> Z) (a : Cluster) (payload : bytes) := message MsgTypeJoin (nodeID a) (clock 2%nat) payload.
Definition syncRequest (clock : nat -> Z) (a : Cluster) := message MsgTypeSyncReq (nodeID a) (clock 2%nat) [].

Definition signed (secret : bytes) (m : RPCMessage) : RPCMessage := match signMessage secret m with Ok sm => sm | Err _ => m end.

Lemma sign_signed secret m : signMessage secret m = Ok (signed secret m).
Proof. unfold signed, signMessage. destruct (rpcMACPayload_ok m) as [p ->]. done. Qed.

(** The node as it is entered by [handleJoin]. *)
Definition joined (now : Z) (n : Node) : Node :=
  let n := set_LastSeen now n in if decide (nd_State n = NodeStateUnknown) then set_NodeState NodeStateHealthy n else n.

(** The peer after the join. *)
Definition afterJoin (clock : nat -> Z) (a : Cluster) (sm : RPCMessage) (b : Cluster) : Cluster :=
  let b := set_seen (<[Signature sm := Timestamp sm]> (recent (clock 1%nat) (seenMACs b))) b in
  set_nodes (<[nd_ID (localNode a) := RefNode (joined (clock 2%nat) (localNode a))]> (nodes b)) b.

Definition within (now t : Z) : Prop := - maxMessageSkew <= now - t <= maxMessageSkew.

(** The node [a] joins through [b]: [aj] and [asy] are [a]'s readings of the
    clock in the two exchanges, [bj] and [bsy] those of [b]. One secret; nodes and
    state have JSON texts that are read back; the messages fit on the wire,
    arrive within the window and were not seen before. *)
Record session (aj asy bj bsy : nat -> Z) (a b : Cluster) (pa pb ps : bytes) : Prop := {
  one_secret : cl_SharedSecret (cfg b) = cl_SharedSecret (cfg a);
  node_a : toJSON (localNode a) = Some pa /\ fromJSON pa = Some (localNode a);
  node_b : toJSON (localNode b) = Some pb /\ fromJSON pb = Some (localNode b);
  state_b : toJSON (syncPayload (state b)) = Some ps /\ fromJSON ps = Some (syncPayload (state b));
  messages_fit :
    Forall (fun m => sendable (signed (cl_SharedSecret (cfg a)) m))
      [joinMessage aj a pa; message MsgTypePong (nodeID b) (bj 3%nat) pb; syncRequest asy a;
       message MsgTypeSync (nodeID b) (bsy 2%nat) ps];
  in_time : within (bj 0%nat) (aj 2%nat) /\ within (aj 0%nat) (bj 3%nat) /\ within (bsy 0%nat) (asy 2%nat) /\ within (asy 0%nat) (bsy 2%nat);
  unseen_b :
    let J := Signature (signed (cl_SharedSecret (cfg a)) (joinMessage aj a pa)) in
    let R := Signature (signed (cl_SharedSecret (cfg a)) (syncRequest asy a)) in
    seenMACs b !! J = None /\ seenMACs b !! R = None /\ R <> J;
  unseen_a :
    let P := Signature (signed (cl_SharedSecret (cfg a)) (message MsgTypePong (nodeID b) (bj 3%nat) pb)) in
    let S := Signature (signed (cl_SharedSecret (cfg a)) (message MsgTypeSync (nodeID b) (bsy 2%nat) ps)) in
    seenMACs a !! P = None /\ seenMACs a !! S = None /\ S <> P;
}.

Lemma signed_fields secret m :
  Type_ (signed secret m) = Type_ m /\ Timestamp (signed secret m) = Timestamp m /\ Payload (signed secret m) = Payload m
  /\ From_ (signed secret m) = From_ m.
Proof. pose proof (sign_signed secret m) as Hs. apply signMessage_Ok in Hs as (p & _ & ->). done. Qed.

Lemma handle_join clock a pa b secret from now :
  fromJSON pa = Some (localNode a) ->
  handleMessage clock (signed secret (message MsgTypeJoin from now pa)) b
  = (pong (clock 3%nat) b, set_nodes (<[nd_ID (localNode a) := RefNode (joined (clock 2%nat) (localNode a))]> (nodes b)) b).
Proof.
  intros Hd. destruct (signed_fields secret (message MsgTypeJoin from now pa)) as (Ht & _ & Hp & _).
  unfold handleMessage. rewrite Ht. cbn [message Type_]. rewrite decide_True by done. unfold handleJoin. rewrite Hp. cbn [message Payload].
  rewrite Hd. f_equal. f_equal. unfold joined. by case_decide.
Qed.

Lemma handle_sync_request clock b secret from now :
  handleMessage clock (signed secret (message MsgTypeSyncReq from now [])) b
  = (payload ← toJSON (syncPayload (state b)); Some (message MsgTypeSync (nodeID b) (clock 2%nat) payload), b).
Proof.
  destruct (signed_fields secret (message MsgTypeSyncReq from now [])) as (Ht & _).
  unfold handleMessage. rewrite Ht. reflexivity.
Qed.

(** The first exchange. *)
Lemma join_exchange aj asy bj bsy a b pa pb ps :
  session aj asy bj bsy a b pa pb ps ->
  let J := signed (cl_SharedSecret (cfg a)) (joinMessage aj a pa) in
  let P := signed (cl_SharedSecret (cfg a)) (message MsgTypePong (nodeID b) (bj 3%nat) pb) in
  roundTripMessage (servedBy bj b) aj J a = (Ok P, set_seen (<[Signature P := bj 3%nat]> (recent (aj 1%nat) (seenMACs a))) a)
  /\ (handleConnection bj (mkConn true (wire J) StreamEOF true) b).2 = afterJoin bj a J b.
Proof.
  intros Hs J P. destruct Hs as [Hsec [Ha Hda] [Hb Hdb] _ Hfit (T1 & T2 & _) (U1 & _) (V1 & _)].
  apply Forall_cons in Hfit as [FJ Hfit]. apply Forall_cons in Hfit as [FP _].
  apply (round_trip aj bj J (message MsgTypePong (nodeID b) (bj 3%nat) pb) P a b
    (set_seen (<[Signature J := aj 2%nat]> (recent (bj 1%nat) (seenMACs b))) b)).
  - exact FJ.
  - exact FP.
  - apply (verify_signed bj (joinMessage aj a pa)); [rewrite Hsec; apply sign_signed|exact T1|exact U1].
  - unfold J, joinMessage. rewrite (handle_join bj a) by done. unfold pong, afterJoin. cbn [localNode set_seen nodeID]. rewrite Hb.
    cbn [mbind option_bind]. by f_equal.
  - unfold sign. cbn [cfg afterJoin set_nodes set_seen]. rewrite Hsec. apply sign_signed.
  - apply (verify_signed aj (message MsgTypePong (nodeID b) (bj 3%nat) pb)); [apply sign_signed|exact T2|exact V1].
Qed.

(** The second exchange, on the cluster that has learned a node. *)
Lemma sync_exchange aj asy bj bsy a b pa pb ps ns :
  session aj asy bj bsy a b pa pb ps ->
  let secret := cl_SharedSecret (cfg a) in
  let J := signed secret (joinMessage aj a pa) in
  let P := signed secret (message MsgTypePong (nodeID b) (bj 3%nat) pb) in
  let a1 := set_nodes ns (set_seen (<[Signature P := bj 3%nat]> (recent (aj 1%nat) (seenMACs a))) a) in
  let b1 := afterJoin bj a J b in
  let R := signed secret (syncRequest asy a) in
  exists seenA seenB,
    requestSync (servedBy bsy b1) asy a1 = (None, set_state (mergeState (syncPayload (state b)) (state a)) (set_seen seenA a1))
    /\ (handleConnection bsy (mkConn true (wire R) StreamEOF true) b1).2 = set_seen seenB b1.
Proof.
  intros Hs secret J P a1 b1 R. destruct Hs as [Hsec _ _ [Hps Hdps] Hfit (_ & _ & T3 & T4) (_ & U2 & UR) (_ & V2 & VS)].
  do 2 apply Forall_cons in Hfit as [_ Hfit]. apply Forall_cons in Hfit as [FR Hfit]. apply Forall_cons in Hfit as [FS _].
  set (S := signed secret (message MsgTypeSync (nodeID b) (bsy 2%nat) ps)).
  set (b2 := set_seen (<[Signature R := asy 2%nat]> (recent (bsy 1%nat) (seenMACs b1))) b1).
  set (a2 := set_seen (<[Signature S := bsy 2%nat]> (recent (asy 1%nat) (seenMACs a1))) a1).
  destruct (round_trip asy bsy R (message MsgTypeSync (nodeID b) (bsy 2%nat) ps) S a1 b1 b2 b2 a2) as [Hrt Hsrv].
  - exact FR.
  - exact FS.
  - apply (verify_signed bsy (syncRequest asy a)); [cbn [cfg b1 afterJoin set_nodes set_seen]; rewrite Hsec; apply sign_signed|exact T3|].
    cbn [b1 afterJoin set_nodes set_seen seenMACs]. rewrite lookup_insert_ne by (intros E; by apply UR). by apply recent_None.
  - unfold R, syncRequest. rewrite handle_sync_request. cbn [b2 b1 afterJoin set_nodes set_seen state nodeID]. by rewrite Hps.
  - unfold sign. cbn [cfg b2 b1 afterJoin set_nodes set_seen]. rewrite Hsec. apply sign_signed.
  - apply (verify_signed asy (message MsgTypeSync (nodeID b) (bsy 2%nat) ps)); [apply sign_signed|exact T4|].
    cbn [a1 set_nodes set_seen seenMACs]. rewrite lookup_insert_ne by (intros E; by apply VS). by apply recent_None.
  - exists (seenMACs a2), (seenMACs b2). split; [|exact Hsrv]. unfold requestSync, sign.
    cbn [cfg a1 set_nodes set_seen nodeID]. change (message MsgTypeSyncReq (nodeID a) (asy 2%nat) []) with (syncRequest asy a).
    fold secret. rewrite sign_signed. fold R. fold a1. rewrite Hrt.
    assert (Type_ S = MsgTypeSync /\ Payload S = ps) as [HtS HpS].
    { unfold S. destruct (signed_fields secret (message MsgTypeSync (nodeID b) (bsy 2%nat) ps)) as (-> & _ & -> & _). split; reflexivity. }
    rewrite HtS. rewrite decide_True by reflexivity. unfold handleSyncMessage. rewrite HpS, Hdps. clear - a1. clearbody S P. reflexivity.
Qed.

(** C18. Joining: a node connects to a peer under the same secret, over a working
    connection. The clocks of the two are within the window of five minutes of each
    other; the nodes and the peer's cache have JSON texts that are read back; each of
    the four messages, the peer's whole cache included, fits the wire's limit of one
    mebibyte (a larger cache is not synced, [large_state_not_synced]); and none of
    their signatures was seen before. Then the node gets no error; afterwards each of
    the two has the other among its nodes, the peer with the time of the join, so that
    what either broadcasts is addressed to the other; every cached key of the newcomer
    is the newer of the two sides' by timestamp, and the peer's cache is as before. *)
Theorem join_learns aj asy bj bsy a b pa pb ps :
  session aj asy bj bsy a b pa pb ps ->
  let J := signed (cl_SharedSecret (cfg a)) (joinMessage aj a pa) in
  let R := signed (cl_SharedSecret (cfg a)) (syncRequest asy a) in
  let b1 := (handleConnection bj (mkConn true (wire J) StreamEOF true) b).2 in
  let b2 := (handleConnection bsy (mkConn true (wire R) StreamEOF true) b1).2 in
  exists a', connectToNode (servedBy bj b) (servedBy bsy b1) aj asy a = (None, a')
    /\ nodes a' = <[nd_ID (localNode b) := RefNode (localNode b)]> (nodes a)
    /\ nodes b2 = <[nd_ID (localNode a) := RefNode (joined (bj 2%nat) (localNode a))]> (nodes b)
    /\ (forall s k, GetCachedKey s k (state a') = newer (GetCachedKey s k (state a)) (GetCachedKey s k (state b)))
    /\ state b2 = state b.
Proof.
  intros Hs J R b1 b2. pose proof Hs as [_ [Ha _] [_ Hdb] _ _ _ _ _].
  destruct (join_exchange _ _ _ _ _ _ _ _ _ Hs) as [Hrt Hb1]. fold J in Hrt, Hb1. fold b1 in Hb1.
  set (P := signed (cl_SharedSecret (cfg a)) (message MsgTypePong (nodeID b) (bj 3%nat) pb)) in *.
  destruct (sync_exchange _ _ _ _ _ _ _ _ _ (<[nd_ID (localNode b) := RefNode (localNode b)]> (nodes a)) Hs) as (seenA & seenB & Hreq & Hb2).
  fold J P in Hreq, Hb2. fold R in Hb2. rewrite <- Hb1 in Hreq, Hb2. fold b2 in Hb2.
  eexists. split; [|split; [|split; [|split]]].
  - unfold connectToNode. rewrite Ha. unfold sign. fold (joinMessage aj a pa). rewrite sign_signed. fold J. rewrite Hrt.
    unfold learnNode. assert (Type_ P = MsgTypePong /\ Payload P = pb) as [HtP HpP].
    { unfold P. destruct (signed_fields (cl_SharedSecret (cfg a)) (message MsgTypePong (nodeID b) (bj 3%nat) pb)) as (-> & _ & -> & _). split; reflexivity. }
    rewrite HtP, HpP, Hdb. rewrite decide_True by done. exact Hreq.
  - done.
  - rewrite Hb2. cbn [set_seen nodes]. by rewrite Hb1.
  - intros s k. cbn [set_state state set_seen]. apply cell_sync.
  - rewrite Hb2. cbn [set_seen state]. by rewrite Hb1.
Qed.

(** ** Who can change a node *)

Lemma verify_None clock msg c c' :
  verify clock msg c = (None, c') ->
  exists payload, rpcMACPayload msg = Ok payload
    /\ Signature msg = Hex.EncodeToString (Hmac.hmac_sha256 (cl_SharedSecret (cfg c)) payload)
    /\ - maxMessageSkew <= timeSub (clock 0%nat) (Timestamp msg) <= maxMessageSkew
    /\ recent (clock 1%nat) (seenMACs c) !! Signature msg = None
    /\ c' = set_seen (seenMACs c') c.
Proof.
  unfold verify, verifyMessage, verifySigned. destruct (decide (Signature msg = [])); [done|]. case_decide as Hskew; [done|].
  destruct (rpcMACPayload_ok msg) as [payload Hp]. unfold signMessage. change (rpcMACPayload (mkRPC _ _ _ _ [])) with (rpcMACPayload msg).
  rewrite Hp. destruct (decide _) as [Hm|Hm]; [done|]. apply dec_stable in Hm. cbn [Signature set_signature] in Hm.
  unfold trackSignature. fold (recent (clock 1%nat) (seenMACs c)). destruct (recent _ _ !! Signature msg) as [t|] eqn:Es.
  - apply map_lookup_filter_Some in Es as [_ Ht]. cbn [snd] in Ht. by rewrite decide_True.
  - intros [= <-]. exists payload. split; [done|]. split; [done|]. split; [lia|]. by split.
Qed.

(** C17. Only the holders of the secret change a node: whatever bytes arrive on a
    connection, either nothing is written back and nothing but the memory of
    signatures changes, or what arrived is a framed message of at most one
    mebibyte that carries the HMAC of its own content under the secret, with a
    timestamp within the window and a signature that is not remembered. *)
Theorem connection_authenticated clock conn c :
  let '(w, c') := handleConnection clock conn c in
  (w = [] /\ c' = set_seen (seenMACs c') c)
  \/ exists msg payload, readMessage conn = Ok msg /\ rpcMACPayload msg = Ok payload
       /\ Signature msg = Hex.EncodeToString (Hmac.hmac_sha256 (cl_SharedSecret (cfg c)) payload)
       /\ - maxMessageSkew <= timeSub (clock 0%nat) (Timestamp msg) <= maxMessageSkew
       /\ recent (clock 1%nat) (seenMACs c) !! Signature msg = None
       /\ exists text, readBoundedJSON (incoming conn) (incomingEnd conn) maxClusterMessageSize = Ok text
            /\ fromJSON text = Some msg /\ len text <= maxClusterMessageSize.
Proof.
  assert (c = set_seen (seenMACs c) c) as Hid by (by destruct c).
  unfold handleConnection. destruct (readMessage conn) as [msg|e] eqn:Hr; [|by left].
  destruct (verify clock msg c) as [[e|] c0] eqn:Hv.
  - left. split; [done|]. revert Hv. unfold verify. destruct (verifyMessage _ _ _ _ _) as [e' seen]. by intros [= _ <-].
  - apply verify_None in Hv as (payload & Hp & Hs & Hskew & Hnew & _).
    set (r := match handleMessage clock msg c0 with (None, c1) => _ | (Some _, _) => _ end). destruct r as [w c'].
    right. exists msg, payload. split_and!; [done..|lia|lia|done|].
    unfold readMessage, readFramed in Hr. destruct (deadlineSet conn); [|done]. cbn [negb] in Hr.
    destruct (readBounded (incoming conn) (incomingEnd conn) maxClusterMessageSize) as [text|] eqn:Hb; [|done].
    exists text. split; [exact Hb|]. destruct (fromJSON text) as [m|]; [|done]. injection Hr as ->. split; [done|].
    apply readBounded_bound in Hb; [lia|done].
Qed.

(** ** What the sync loop does not do *)

(** A round of [syncWithPeers] pings: whatever the network answers, nodes and
    cache stay as they were. *)
Lemma roundTrip_keeps ex clock m c r c' :
  roundTripMessage ex clock m c = (r, c') -> c' = set_seen (seenMACs c') c.
Proof.
  unfold roundTripMessage. assert (c = set_seen (seenMACs c) c) as Hid by (by destruct c).
  destruct ex as [conn|]; [|by intros [= _ <-]]. destruct (writeMessage _ m) as [w|e]; [|by intros [= _ <-]].
  destruct (readMessage _) as [response|e]; [|by intros [= _ <-]]. unfold verify.
  destruct (verifyMessage _ _ _ _ _) as [[e|] seen]; by intros [= _ <-].
Qed.

Lemma pingNode_keeps ex clock c : pingNode ex clock c = set_seen (seenMACs (pingNode ex clock c)) c.
Proof.
  unfold pingNode. destruct (sign c _) as [msg|e]; [|by destruct c].
  destruct (roundTripMessage ex clock msg c) as [r c'] eqn:E. cbn [snd]. by apply roundTrip_keeps in E.
Qed.

Theorem sync_round_only_pings net clock c :
  state (syncWithPeers net clock c) = state c /\ nodes (syncWithPeers net clock c) = nodes c.
Proof.
  unfold syncWithPeers. set (peers := List.filter _ _). clearbody peers. revert c.
  induction peers as [|n peers IH]; intros c; [done|]. cbn [fold_left].
  destruct (IH (pingNode (net (nodeAddress n)) (clock (nodeAddress n)) c)) as [-> ->]. by rewrite pingNode_keeps.
Qed.

(** A ping does not change the cache of the node that answers it. *)
Theorem ping_keeps_cache clock msg c : Type_ msg = MsgTypePing -> state (handleMessage clock msg c).2 = state c.
Proof.
  intros Ht. unfold handleMessage. rewrite Ht. unfold handlePing, updateNode. simpl.
  by destruct (nodes c !! From_ msg) as [[]|].
Qed.

(** A state that does not fit one message is not sent at all, and the node that
    asked for it reports no error. *)
Theorem large_state_not_synced clock c msg sm t ok :
  readMessage (mkConn true msg StreamEOF ok) = Ok sm -> Type_ sm = MsgTypeSyncReq ->
  (forall r, signMessage (cl_SharedSecret (cfg c)) (message MsgTypeSync (nodeID c) (clock 2%nat) t) = Ok r ->
     exists text, toJSON r = Some text /\ maxClusterMessageSize < len text) ->
  toJSON (syncPayload (state c)) = Some t ->
  (handleConnection clock (mkConn true msg StreamEOF ok) c).1 = [].
Proof.
  intros Hread Ht Hbig Hst. unfold handleConnection. rewrite Hread. unfold verify.
  destruct (verifyMessage _ _ _ _ _) as [[e|] seen]; [reflexivity|].
  assert (handleMessage clock sm (set_seen seen c) = handleSyncRequest clock sm (set_seen seen c)) as ->
    by (unfold handleMessage; rewrite Ht; reflexivity).
  unfold handleSyncRequest. cbn [state set_seen nodeID]. rewrite Hst. cbn [mbind option_bind]. unfold sign. cbn [cfg set_seen].
  destruct (signMessage _ _) as [r|e] eqn:Es; [|reflexivity]. destruct (Hbig r eq_refl) as (text & Hr & Hlen).
  unfold writeMessage, writeFramed. rewrite Hr. rewrite decide_True by exact Hlen. reflexivity.
Qed.

End Protocol.

(** ** Two nodes *)

Definition demoCfg (id : bytes) : ClusterConfig :=
  mkClusterConfig true id (bs "::1") 7946 [] 0 [] (bs "crdt") 5 (bs "s") [] true 0 0 (mkClusterTLSConfig false [] [] [] false [] []).

Definition demoClock (t : Z) (i : nat) : Z := t + Z.of_nat i.

Definition demoEntry (d : string) (t : Z) : KeyEntry := mkKeyEntry (bs "x.org") (bs "k") (bs d) 0 t (bs "b") [].

Definition demoA : Cluster := setLocalState NodeStateHealthy 0 (NewCluster (demoClock 0) (demoCfg (bs "a"))).
Definition demoB : Cluster :=
  set_state (applyEntryLocked (demoEntry "new" 5) (mkCRDT ∅ 0)).2 (setLocalState NodeStateHealthy 0 (NewCluster (demoClock 0) (demoCfg (bs "b")))).

Definition demoJ := signed (bs "s") (message MsgTypeJoin (bs "a") 12 (bs "a")).
Definition demoP := signed (bs "s") (message MsgTypePong (bs "b") 23 (bs "b")).
Definition demoR := signed (bs "s") (message MsgTypeSyncReq (bs "a") 32 []).
Definition demoS := signed (bs "s") (message MsgTypeSync (bs "b") 42 (bs "s")).

(** Texts for the values of this exchange. *)
#[local] Instance demoMessages : JsonCodec RPCMessage := {|
  toJSON m := Some (Type_ m);
  fromJSON t := if decide (t = MsgTypeJoin) then Some demoJ else if decide (t = MsgTypePong) then Some demoP
                else if decide (t = MsgTypeSyncReq) then Some demoR else if decide (t = MsgTypeSync) then Some demoS else None |}.
#[local] Instance demoNodes : JsonCodec Node := {|
  toJSON n := Some (nd_ID n);
  fromJSON t := if decide (t = bs "a") then Some (localNode demoA) else if decide (t = bs "b") then Some (localNode demoB) else None |}.
#[local] Instance demoEntries : JsonCodec KeyEntry := {| toJSON e := None; fromJSON t := None |}.
#[local] Instance demoStates : JsonCodec (gmap bytes (gmap bytes (option KeyEntry))) := {|
  toJSON st := Some (bs "s");
  fromJSON t := if decide (t = bs "s") then Some (syncPayload (state demoB)) else None |}.

Lemma demo_sendable m :
  Type_ m ∈ [MsgTypeJoin; MsgTypePong; MsgTypeSyncReq; MsgTypeSync] -> fromJSON (Type_ m) = Some m -> sendable m.
Proof.
  intros Hin Hd. split.
  - exists (Type_ m). split; [reflexivity|]. split; [|exact Hd]. clear Hd.
    repeat (apply elem_of_cons in Hin as [->|Hin]; [split; [done|]; split; [refine (bool_decide_eq_true_1 _ _); by vm_compute|by vm_compute]|]).
    by apply elem_of_nil in Hin.
  - unfold wire. cbn [toJSON demoMessages].
    repeat (apply elem_of_cons in Hin as [->|Hin]; [by vm_compute|]). by apply elem_of_nil in Hin.
Qed.

Lemma demo_signatures : Signature demoR <> Signature demoJ /\ Signature demoS <> Signature demoP.
Proof. split; vm_compute; discriminate. Qed.

Lemma demo_session : session (demoClock 10) (demoClock 30) (demoClock 20) (demoClock 40) demoA demoB (bs "a") (bs "b") (bs "s").
Proof.
  destruct demo_signatures as [HRJ HSP]. split.
  - reflexivity.
  - split; reflexivity.
  - split; reflexivity.
  - split; reflexivity.
  - repeat (apply Forall_cons; split).
    + apply (demo_sendable demoJ); [by constructor|reflexivity].
    + apply (demo_sendable demoP); [by do 2 constructor|reflexivity].
    + apply (demo_sendable demoR); [by do 3 constructor|reflexivity].
    + apply (demo_sendable demoS); [by do 4 constructor|reflexivity].
    + apply Forall_nil. exact I.
  - repeat split; by vm_compute.
  - split; [apply lookup_empty|]. split; [apply lookup_empty|exact HRJ].
  - split; [apply lookup_empty|]. split; [apply lookup_empty|exact HSP].
Qed.

Lemma join_learns_witness :
  exists a', (forall s k, GetCachedKey s k (state a') = newer (GetCachedKey s k (state demoA)) (GetCachedKey s k (state demoB)))
    /\ nodes a' = <[bs "b" := RefNode (localNode demoB)]> (nodes demoA)
    /\ GetCachedKey (bs "x.org") (bs "k") (state a') = Some (demoEntry "new" 5).
Proof.
  destruct (join_learns (demoClock 10) (demoClock 30) (demoClock 20) (demoClock 40) demoA demoB (bs "a") (bs "b") (bs "s") demo_session)
    as (a' & _ & Hn & _ & Hk & _).
  exists a'. split; [exact Hk|]. split; [exact Hn|]. rewrite Hk. vm_compute. reflexivity.
Defined.
