(* ===== verification/CircuitBreaker.v ===== *)
(** * The upstream circuit breaker (internal/keys/circuitbreaker.go)

    Each operation takes the instant its [time.Now()] returned, in
    nanoseconds. [servers] maps a name to its circuit; the source stores only
    non-nil pointers and every access holds the mutex, so a pointer is its
    value. The loop of [evictOldestLocked] ranges over a Go map, in an order the
    language leaves open: the order is an argument. The Prometheus gauges are
    recomputed from the state and hold no state of their own; the two counters
    are part of it. *)
From S2P Require Import Prelude Decimal GoTime.
From Stdlib Require Import ZArith Lia.
From stdpp Require Import base gmap list strings fin_maps.
#[local] Open Scope Z_scope.

Inductive CircuitState : Type := CircuitClosed | CircuitOpen | CircuitHalfOpen.

#[export] Instance CircuitState_eq_dec : EqDecision CircuitState.
Proof. solve_decision. Defined.

Record serverCircuit : Type := mkCircuit {
  state : CircuitState;
  failures : Z;
  lastFailure : Z;
  lastTouched : Z;
  halfOpenReqs : Z;
}.

Record CircuitBreaker : Type := mkBreaker {
  failureThreshold : Z;
  resetTimeout : Z;
  halfOpenMax : Z;
  serverTTL : Z;
  maxTracked : Z;
  servers : gmap bytes serverCircuit;
  circuitTripsTotal : Z;
  circuitRecoveriesTotal : Z;
}.

Definition set_servers (f : gmap bytes serverCircuit -> gmap bytes serverCircuit) (cb : CircuitBreaker) : CircuitBreaker :=
  mkBreaker (failureThreshold cb) (resetTimeout cb) (halfOpenMax cb) (serverTTL cb) (maxTracked cb)
    (f (servers cb)) (circuitTripsTotal cb) (circuitRecoveriesTotal cb).

Definition incTrips (cb : CircuitBreaker) : CircuitBreaker :=
  mkBreaker (failureThreshold cb) (resetTimeout cb) (halfOpenMax cb) (serverTTL cb) (maxTracked cb)
    (servers cb) (circuitTripsTotal cb + 1) (circuitRecoveriesTotal cb).

Definition incRecoveries (cb : CircuitBreaker) : CircuitBreaker :=
  mkBreaker (failureThreshold cb) (resetTimeout cb) (halfOpenMax cb) (serverTTL cb) (maxTracked cb)
    (servers cb) (circuitTripsTotal cb) (circuitRecoveriesTotal cb + 1).

Definition maxDuration (a b : Z) : Z := if decide (b < a) then a else b.

Definition NewCircuitBreaker (failureThreshold resetTimeout : Z) : CircuitBreaker :=
  let failureThreshold := if decide (failureThreshold <= 0) then 5 else failureThreshold in
  let resetTimeout := if decide (resetTimeout <= 0) then 60 * Second else resetTimeout in
  mkBreaker failureThreshold resetTimeout 1
    (maxDuration (15 * Minute) (wrap_int (resetTimeout * 10))) 4096 ∅ 0 0.

Definition isExpiredLocked (cb : CircuitBreaker) (sc : serverCircuit) (now : Z) : bool :=
  bool_decide (serverTTL cb < timeSub now (lastTouched sc)).

Definition cleanupLocked (now : Z) (cb : CircuitBreaker) : CircuitBreaker :=
  set_servers (filter (fun kv => isExpiredLocked cb kv.2 now = false)) cb.

(** One iteration of the eviction loop on [(oldestName, oldestTime)]. *)
Definition evictStep (m : gmap bytes serverCircuit) (acc : bytes * Z) (serverName : bytes) : bytes * Z :=
  match m !! serverName with
  | None => acc
  | Some sc =>
      if decide (acc.1 = [] \/ lastTouched sc < acc.2) then (serverName, lastTouched sc) else acc
  end.

Definition evictOldestLocked (order : list bytes) (cb : CircuitBreaker) : CircuitBreaker :=
  let '(oldestName, _) := fold_left (evictStep (servers cb)) order ([], zeroTime) in
  if decide (oldestName <> []) then set_servers (delete oldestName) cb else cb.

Definition Allow (now : Z) (serverName : bytes) (cb : CircuitBreaker) : bool * CircuitBreaker :=
  match servers cb !! serverName with
  | None => (true, cb)
  | Some sc =>
      if isExpiredLocked cb sc now then (true, set_servers (delete serverName) cb)
      else
        let put sc := set_servers <[serverName := sc]> cb in
        let sc := mkCircuit (state sc) (failures sc) (lastFailure sc) now (halfOpenReqs sc) in
        match state sc with
        | CircuitClosed => (true, put sc)
        | CircuitOpen =>
            if decide (resetTimeout cb < timeSub now (lastFailure sc))
            then (true, put (mkCircuit CircuitHalfOpen (failures sc) (lastFailure sc) now 0))
            else (false, put sc)
        | CircuitHalfOpen =>
            if decide (halfOpenReqs sc < halfOpenMax cb)
            then (true, put (mkCircuit CircuitHalfOpen (failures sc) (lastFailure sc) now (wrap_int (halfOpenReqs sc + 1))))
            else (false, put sc)
        end
  end.

Definition RecordSuccess (now : Z) (serverName : bytes) (cb : CircuitBreaker) : CircuitBreaker :=
  match servers cb !! serverName with
  | None => cb
  | Some sc =>
      let put sc := set_servers <[serverName := sc]> in
      match state sc with
      | CircuitHalfOpen => incRecoveries (put (mkCircuit CircuitClosed 0 (lastFailure sc) now 0) cb)
      | CircuitClosed => put (mkCircuit CircuitClosed 0 (lastFailure sc) now (halfOpenReqs sc)) cb
      | CircuitOpen => put (mkCircuit CircuitOpen (failures sc) (lastFailure sc) now (halfOpenReqs sc)) cb
      end
  end.

(** The tail of [RecordFailure], on the circuit that was found or created. *)
Definition failCircuit (now : Z) (serverName : bytes) (sc : serverCircuit) (cb : CircuitBreaker) : CircuitBreaker :=
  let put st := set_servers <[serverName := mkCircuit st (wrap_int (failures sc + 1)) now now (halfOpenReqs sc)]> cb in
  match state sc with
  | CircuitClosed =>
      if decide (failureThreshold cb <= wrap_int (failures sc + 1))
      then incTrips (put CircuitOpen) else put CircuitClosed
  | CircuitHalfOpen => incTrips (put CircuitOpen)
  | CircuitOpen => put CircuitOpen
  end.

Definition RecordFailure (order : list bytes) (now : Z) (serverName : bytes) (cb : CircuitBreaker) : CircuitBreaker :=
  let cb := cleanupLocked now cb in
  match servers cb !! serverName with
  | Some sc => failCircuit now serverName sc cb
  | None =>
      let cb := if decide (maxTracked cb <= Z.of_nat (size (servers cb)))
                then evictOldestLocked order cb else cb in
      failCircuit now serverName (mkCircuit CircuitClosed 0 zeroTime now 0) cb
  end.

(** [State] and [Reset]. *)
Definition CircuitBreaker_State (now : Z) (serverName : bytes) (cb : CircuitBreaker) : CircuitState * CircuitBreaker :=
  match servers cb !! serverName with
  | None => (CircuitClosed, cb)
  | Some sc =>
      if isExpiredLocked cb sc now then (CircuitClosed, set_servers (delete serverName) cb)
      else (state sc, cb)
  end.

Definition Reset_ (serverName : bytes) (cb : CircuitBreaker) : CircuitBreaker :=
  set_servers (delete serverName) cb.

(** [Stats]: the number of circuits, of open and of half-open ones. *)
Definition countState (st : CircuitState) (cb : CircuitBreaker) : Z :=
  Z.of_nat (size (filter (fun kv => state kv.2 = st) (servers cb))).

Definition Stats (now : Z) (cb : CircuitBreaker) : (Z * Z * Z) * CircuitBreaker :=
  let cb := cleanupLocked now cb in
  ((Z.of_nat (size (servers cb)), countState CircuitOpen cb, countState CircuitHalfOpen cb), cb).

(** The three gauges [updateMetricsLocked] sets. *)
Definition updateMetricsLocked (cb : CircuitBreaker) : Z * Z * Z :=
  (countState CircuitClosed cb, countState CircuitOpen cb, countState CircuitHalfOpen cb).

(** ** Tripping *)

(** The configuration is sane: what [NewCircuitBreaker] builds for any reset
    timeout up to 29 years. *)
Definition configOK (cb : CircuitBreaker) : Prop :=
  1 <= failureThreshold cb /\ 0 < resetTimeout cb <= serverTTL cb /\ serverTTL cb < 2 ^ 63 - 1
  /\ 0 <= halfOpenMax cb < 2 ^ 63 - 1.

Lemma NewCircuitBreaker_configOK th rt : rt * 10 < 2 ^ 63 - 1 -> configOK (NewCircuitBreaker th rt).
Proof.
  intros H. unfold configOK, NewCircuitBreaker, maxDuration, Minute, Second. cbn -[Z.mul Z.pow wrap_int].
  repeat case_decide; rewrite ?wrap_int_small in * by (unfold int_ok; lia); lia.
Qed.

Definition sameConfig (a b : CircuitBreaker) : Prop :=
  failureThreshold a = failureThreshold b /\ resetTimeout a = resetTimeout b /\ halfOpenMax a = halfOpenMax b
  /\ serverTTL a = serverTTL b /\ maxTracked a = maxTracked b.

#[export] Instance sameConfig_equiv : Equivalence sameConfig.
Proof.
  split.
  - intros a. by split_and!.
  - intros a b (?&?&?&?&?). by split_and!.
  - intros a b c (?&?&?&?&?) (?&?&?&?&?). split_and!; congruence.
Qed.

Lemma sameConfig_ok a b : sameConfig a b -> configOK a -> configOK b.
Proof. unfold configOK. intros (<-&<-&<-&<-&_). done. Qed.

Lemma config_evict order cb : sameConfig cb (evictOldestLocked order cb).
Proof. unfold evictOldestLocked. case_match. by case_decide. Qed.

Lemma config_fail now s sc cb : sameConfig cb (failCircuit now s sc cb).
Proof. unfold failCircuit. destruct (state sc); [case_decide|..]; done. Qed.

Lemma config_RecordFailure order now s cb : sameConfig cb (RecordFailure order now s cb).
Proof.
  unfold RecordFailure. trans (cleanupLocked now cb); [done|].
  case_match; [apply config_fail|]. case_decide; [|apply config_fail].
  etrans; [apply config_evict|apply config_fail].
Qed.

Lemma lookup_cleanup now cb s :
  servers (cleanupLocked now cb) !! s =
    sc ← servers cb !! s; if isExpiredLocked cb sc now then None else Some sc.
Proof.
  unfold cleanupLocked. cbn [servers set_servers]. rewrite map_lookup_filter.
  destruct (servers cb !! s) as [sc|]; [|done]. simpl. unfold guard.
  destruct (isExpiredLocked cb sc now) eqn:E; case_decide as Hd; simpl in *; (congruence || done).
Qed.

Lemma lookup_fail now s sc cb :
  servers (failCircuit now s sc cb) !! s =
    Some (mkCircuit (match state sc with
                     | CircuitClosed => if decide (failureThreshold cb <= wrap_int (failures sc + 1))
                                        then CircuitOpen else CircuitClosed
                     | _ => CircuitOpen
                     end) (wrap_int (failures sc + 1)) now now (halfOpenReqs sc)).
Proof. unfold failCircuit. destruct (state sc); [case_decide|..]; apply lookup_insert_eq. Qed.

Lemma expired_false cb sc now :
  configOK cb -> isExpiredLocked cb sc now = false <-> now - lastTouched sc <= serverTTL cb.
Proof.
  intros (_ & Hr & Ht & _). unfold isExpiredLocked. rewrite bool_decide_eq_false, timeSub_gt; lia.
Qed.

(** One more failure of a tracked server. *)
Lemma RecordFailure_tracked order now s cb sc :
  servers cb !! s = Some sc -> isExpiredLocked cb sc now = false ->
  RecordFailure order now s cb = failCircuit now s sc (cleanupLocked now cb).
Proof.
  intros Hs He. unfold RecordFailure. rewrite lookup_cleanup, Hs. simpl. by rewrite He.
Qed.

Lemma lookup_first_failure order now s cb :
  servers cb !! s = None ->
  servers (RecordFailure order now s cb) !! s =
    Some (mkCircuit (if decide (failureThreshold cb <= 1) then CircuitOpen else CircuitClosed) 1 now now 0).
Proof.
  intros Hs. unfold RecordFailure. rewrite lookup_cleanup, Hs. simpl.
  rewrite lookup_fail. simpl. change (wrap_int (0 + 1)) with 1.
  destruct (decide (maxTracked _ <= _)); [|done].
  by destruct (config_evict order (cleanupLocked now cb)) as (<- & _).
Qed.

(** A run of failures of one server, each with its eviction order and instant. *)
Definition failAll (s : bytes) (fs : list (list bytes * Z)) (cb : CircuitBreaker) : CircuitBreaker :=
  fold_left (fun cb f => RecordFailure f.1 f.2 s cb) fs cb.

(** Consecutive instants are at most the server lifetime apart. *)
Fixpoint spaced (ttl t : Z) (ts : list Z) : Prop :=
  match ts with
  | [] => True
  | u :: ts => t <= u <= t + ttl /\ spaced ttl u ts
  end.

Definition circuitAfter (th n t : Z) : serverCircuit :=
  mkCircuit (if decide (th <= n) then CircuitOpen else CircuitClosed) n t t 0.

Lemma failAll_tracked s fs cb n t :
  configOK cb -> 1 <= n -> n + len fs < 2 ^ 63 -> spaced (serverTTL cb) t fs.*2 ->
  servers cb !! s = Some (circuitAfter (failureThreshold cb) n t) ->
  sameConfig cb (failAll s fs cb)
  /\ servers (failAll s fs cb) !! s =
       Some (circuitAfter (failureThreshold cb) (n + len fs) (default t (last fs.*2))).
Proof.
  revert cb n t. induction fs as [|[order u] fs IH]; intros cb n t Hc Hn Hlen Hsp Hs.
  { simpl. rewrite len_nil, Z.add_0_r. done. }
  rewrite len_cons in Hlen. pose proof (len_nonneg fs). destruct Hsp as [Hu Hsp].
  assert (isExpiredLocked cb (circuitAfter (failureThreshold cb) n t) u = false) as He.
  { apply expired_false; [done|]. unfold circuitAfter. simpl in *. lia. }
  pose proof (config_RecordFailure order u s cb) as Hcfg.
  destruct (IH (RecordFailure order u s cb) (n + 1) u) as [IH1 IH2].
  - by eapply sameConfig_ok.
  - lia.
  - lia.
  - destruct Hcfg as (_&_&_&<-&_). done.
  - destruct Hcfg as (<-&_). rewrite (RecordFailure_tracked _ _ _ _ _ Hs He), lookup_fail.
    simpl. rewrite wrap_int_small by (unfold int_ok; lia).
    unfold circuitAfter. destruct (decide (failureThreshold cb <= n)) as [Hd|Hd].
    { rewrite decide_True by lia. done. }
    done.
  - change (failAll s ((order, u) :: fs) cb) with (failAll s fs (RecordFailure order u s cb)).
    split; [by etrans|]. rewrite IH2. destruct Hcfg as (<-&_). rewrite len_cons. f_equal.
    replace (n + 1 + len fs) with (n + (1 + len fs)) by lia. rewrite fmap_cons, last_cons.
    by destruct (last fs.*2).
Qed.

(** Tripping: after [n] consecutive failures of a server that was not
    tracked, none of them a server lifetime after the previous one, the circuit is
    open exactly when [n] reaches the threshold; a request is then refused exactly
    while the last failure is at most the reset timeout old. *)
Theorem breaker_trips (cb : CircuitBreaker) (s : bytes) (order : list bytes) (t : Z)
    (fs : list (list bytes * Z)) (now : Z)
    (Hcfg : configOK cb) (Hnew : servers cb !! s = None)
    (Hlen : 1 + len fs < 2 ^ 63) (Hsp : spaced (serverTTL cb) t fs.*2) :
  let n := 1 + len fs in
  let tlast := default t (last fs.*2) in
  let cb' := failAll s ((order, t) :: fs) cb in
  servers cb' !! s = Some (mkCircuit (if decide (failureThreshold cb <= n) then CircuitOpen else CircuitClosed)
                             n tlast tlast 0)
  /\ ((Allow now s cb').1 = false <-> failureThreshold cb <= n /\ now - tlast <= resetTimeout cb).
Proof.
  intros n tlast cb'.
  pose proof (config_RecordFailure order t s cb) as Hc1.
  destruct (failAll_tracked s fs (RecordFailure order t s cb) 1 t) as [Hc2 Hs].
  - by eapply sameConfig_ok.
  - lia.
  - lia.
  - destruct Hc1 as (_&_&_&<-&_). done.
  - rewrite lookup_first_failure by done. by destruct Hc1 as (<-&_).
  - change (failAll s fs (RecordFailure order t s cb)) with cb' in Hs, Hc2.
    assert (sameConfig cb cb') as Hc by by etrans.
    destruct Hc1 as (Hth&_). rewrite <- Hth in Hs. split; [done|].
    unfold Allow. rewrite Hs. pose proof (sameConfig_ok _ _ Hc Hcfg) as Hcfg'.
    destruct (isExpiredLocked cb' _ now) eqn:He.
    + split; [done|]. intros [_ Hle]. apply not_false_iff_true in He. destruct He.
      apply expired_false; [done|]. cbn [circuitAfter lastTouched].
      destruct Hc as (_&_&_&<-&_), Hcfg as (_&?&_). fold tlast. lia.
    + destruct Hc as (_&<-&_), Hcfg as (_&?&?&_). cbn [circuitAfter state lastFailure]. fold n tlast.
      destruct (decide (failureThreshold cb <= n)); [|simpl; split; [done|lia]].
      destruct (decide (resetTimeout cb < timeSub now tlast)) as [Hd|Hd]; simpl;
        rewrite timeSub_gt in Hd by lia; (split; [|done || lia]); [done|lia].
Qed.

Lemma breaker_trips_witness :
  let cb := failAll (bs "a.org") [([], 10); ([], 20); ([], 30)] (NewCircuitBreaker 3 1000) in
  (Allow 1030 (bs "a.org") cb).1 = false.
Proof.
  intros cb.
  apply (breaker_trips (NewCircuitBreaker 3 1000) (bs "a.org") [] 10 [([], 20); ([], 30)] 1030).
  - apply NewCircuitBreaker_configOK. lia.
  - done.
  - vm_compute. done.
  - vm_compute. repeat split; discriminate.
  - vm_compute. split; discriminate.
Defined.

(** ** Bounds of the table *)

(** What the table keeps: at most [maxTracked] circuits, none for the empty
    name, and no circuit past its half-open allowance. *)
Definition tableOK (cb : CircuitBreaker) : Prop :=
  Z.of_nat (size (servers cb)) <= maxTracked cb /\ 1 <= maxTracked cb /\ 0 <= halfOpenMax cb < 2 ^ 63 - 1
  /\ servers cb !! [] = None
  /\ map_Forall (fun _ sc => 0 <= halfOpenReqs sc <= halfOpenMax cb) (servers cb).

(** [order] enumerates the table. *)
Definition enumerates (order : list bytes) (cb : CircuitBreaker) : Prop :=
  order ≡ₚ (map_to_list (servers cb)).*1.

(** One call of the API by a caller with a non-empty server name. *)
Inductive breaker_step (cb : CircuitBreaker) : CircuitBreaker -> Prop :=
  | step_allow now s : s <> [] -> breaker_step cb (Allow now s cb).2
  | step_success now s : s <> [] -> breaker_step cb (RecordSuccess now s cb)
  | step_failure order now s : s <> [] -> enumerates order (cleanupLocked now cb) ->
      breaker_step cb (RecordFailure order now s cb)
  | step_state now s : s <> [] -> breaker_step cb (CircuitBreaker_State now s cb).2
  | step_reset s : s <> [] -> breaker_step cb (Reset_ s cb)
  | step_stats now : breaker_step cb (Stats now cb).2.

Lemma tableOK_smaller cb m :
  tableOK cb -> m ⊆ servers cb -> tableOK (set_servers (fun _ => m) cb).
Proof.
  intros (Hsz & Hm & Hh & He & Hf) Hsub. unfold tableOK. simpl. split_and!; try done || lia.
  - pose proof (map_subseteq_size m (servers cb) Hsub). lia.
  - eapply lookup_weaken_None; eauto.
  - intros k sc Hk. apply (Hf k). by eapply lookup_weaken.
Qed.

Lemma tableOK_insert cb s sc (ts rs : Z) :
  tableOK cb -> s <> [] -> 0 <= halfOpenReqs sc <= halfOpenMax cb ->
  (is_Some (servers cb !! s) \/ Z.of_nat (size (servers cb)) < maxTracked cb) ->
  tableOK (mkBreaker (failureThreshold cb) (resetTimeout cb) (halfOpenMax cb) (serverTTL cb) (maxTracked cb)
             (<[s := sc]> (servers cb)) ts rs).
Proof.
  intros (Hsz & Hm & Hh & He & Hf) Hs Hr Hroom. unfold tableOK. simpl. split_and!; try done || lia.
  - destruct (servers cb !! s) as [old|] eqn:E.
    + rewrite map_size_insert_Some by eauto. done.
    + rewrite map_size_insert_None by done. destruct Hroom as [[? ?]|]; [done|lia].
  - by rewrite lookup_insert_ne by done.
  - by apply map_Forall_insert_2.
Qed.

Lemma tableOK_reqs cb s sc : tableOK cb -> servers cb !! s = Some sc -> 0 <= halfOpenReqs sc <= halfOpenMax cb.
Proof. intros (_ & _ & _ & _ & Hf) Hs. apply (Hf _ _ Hs). Qed.

Lemma tableOK_fail cb now s sc :
  tableOK cb -> s <> [] -> 0 <= halfOpenReqs sc <= halfOpenMax cb ->
  (is_Some (servers cb !! s) \/ Z.of_nat (size (servers cb)) < maxTracked cb) ->
  tableOK (failCircuit now s sc cb).
Proof.
  intros. unfold failCircuit. destruct (state sc); [case_decide|..]; by apply (tableOK_insert cb s).
Qed.

(** The eviction loop keeps the least recently touched name seen so far. *)
Lemma evictStep_fold m order acc :
  (forall n, n ∈ order -> n <> [] /\ is_Some (m !! n)) ->
  (acc.1 = [] \/ exists sc, m !! acc.1 = Some sc /\ lastTouched sc = acc.2) ->
  let r := fold_left (evictStep m) order acc in
  (r.1 = [] /\ order = [] /\ acc.1 = [])
  \/ exists sc, m !! r.1 = Some sc /\ lastTouched sc = r.2 /\ r.1 <> []
     /\ (acc.1 <> [] -> r.2 <= acc.2)
     /\ forall n sc', n ∈ order -> m !! n = Some sc' -> r.2 <= lastTouched sc'.
Proof.
  revert acc. induction order as [|n order IH]; intros acc Hin Hacc r.
  { subst r. simpl. destruct (decide (acc.1 = [])) as [E|E]; [by left|right].
    destruct Hacc as [|(sc & Hsc & Ht)]; [done|]. exists sc. split_and!; try done.
    intros n sc' Hn. by apply not_elem_of_nil in Hn. }
  destruct (Hin n ltac:(left)) as [Hn [sc Hsc]].
  set (acc' := evictStep m acc n).
  assert (acc'.1 <> [] /\ (exists sc', m !! acc'.1 = Some sc' /\ lastTouched sc' = acc'.2)
          /\ acc'.2 <= lastTouched sc /\ (acc.1 <> [] -> acc'.2 <= acc.2)) as (Hne & Hsome & Hle & Hle').
  { unfold acc', evictStep. rewrite Hsc. case_decide as Hd; simpl.
    - split_and!; [done|eauto|lia|]. intros Hx. destruct Hd; [done|lia].
    - apply Decidable.not_or in Hd as [Hd1 Hd2]. destruct Hacc as [|Hacc]; [done|].
      split_and!; [done|done|lia|lia]. }
  destruct (IH acc') as [(H1 & H2 & H3)|(scr & Hr1 & Hr2 & Hr3 & Hr4 & Hr5)].
  - intros x Hx. apply Hin. by right.
  - by right.
  - done.
  - right. exists scr. split_and!; try done.
    + intros Ha. specialize (Hr4 Hne). specialize (Hle' Ha). subst r. simpl. fold acc'. lia.
    + intros x sc' Hx Hsc'. apply elem_of_cons in Hx as [->|Hx]; [|by eapply Hr5].
      specialize (Hr4 Hne). simplify_eq. subst r. simpl. fold acc'. lia.
Qed.

(** Eviction removes one circuit, a least recently touched one. *)
Lemma evict_least cb order :
  tableOK cb -> enumerates order cb -> servers cb <> ∅ ->
  exists s sc, servers cb !! s = Some sc
    /\ evictOldestLocked order cb = set_servers (delete s) cb
    /\ map_Forall (fun _ sc' => lastTouched sc <= lastTouched sc') (servers cb).
Proof.
  intros (_ & _ & _ & He & _) Hord Hne.
  assert (forall n, n ∈ order <-> is_Some (servers cb !! n)) as Hdom.
  { intros n. rewrite Hord. rewrite list_elem_of_fmap. split.
    - intros ([k v] & -> & Hin). apply elem_of_map_to_list in Hin. simpl. eauto.
    - intros [v Hv]. exists (n, v). split; [done|]. by apply elem_of_map_to_list. }
  pose proof (evictStep_fold (servers cb) order ([], zeroTime)) as H.
  unfold evictOldestLocked. destruct (fold_left _ order _) as [nm t].
  destruct H as [(H1 & H2 & _)|(sc & H1 & H2 & H3 & _ & H5)]; simpl in *.
  - intros n Hn. apply Hdom in Hn. split; [|done]. intros ->. destruct Hn as [? Hn]. congruence.
  - by left.
  - exfalso. apply Hne, map_empty. intros n. destruct (servers cb !! n) as [v|] eqn:E; [|done].
    assert (n ∈ order) as Hn by (apply Hdom; eauto). subst order. by apply not_elem_of_nil in Hn.
  - exists nm, sc. rewrite decide_True by done. split_and!; [done|done|].
    intros n v Hn. rewrite H2. eapply H5; [apply Hdom; eauto|done].
Qed.

Lemma tableOK_delete cb s : tableOK cb -> tableOK (set_servers (delete s) cb).
Proof. intros H. by apply (tableOK_smaller cb (delete s (servers cb))); [|apply delete_subseteq]. Qed.

Lemma tableOK_cleanup cb now : tableOK cb -> tableOK (cleanupLocked now cb).
Proof. intros H. by apply (tableOK_smaller cb (filter _ (servers cb))); [|apply map_filter_subseteq]. Qed.

Lemma tableOK_RecordFailure cb order now s :
  tableOK cb -> s <> [] -> enumerates order (cleanupLocked now cb) -> tableOK (RecordFailure order now s cb).
Proof.
  intros Hok Hs Hord. apply (tableOK_cleanup cb now) in Hok. unfold RecordFailure.
  set (c := cleanupLocked now cb) in *. destruct (servers c !! s) as [sc|] eqn:E.
  { apply tableOK_fail; [done|done|by eapply tableOK_reqs|eauto]. }
  pose proof Hok as (Hsz & Hm & Hh & _).
  case_decide as Hd; [|apply tableOK_fail; [done|done|cbn [halfOpenReqs]; lia|right; lia]].
  destruct (evict_least c order) as (s' & sc' & Hs' & -> & _); [done|done| |].
  { intros Hempty. rewrite Hempty, map_size_empty in Hd. lia. }
  apply tableOK_fail; [by apply tableOK_delete|done|cbn [halfOpenReqs halfOpenMax set_servers]; lia|right].
  cbn [servers set_servers maxTracked]. rewrite map_size_delete_Some by eauto. pose proof (map_size_ne_0_lookup_2 (servers c) s' ltac:(eauto)). lia.
Qed.

Lemma breaker_step_ok cb cb' : tableOK cb -> breaker_step cb cb' -> tableOK cb' /\ sameConfig cb cb'.
Proof.
  intros Hok Hst. inversion Hst as [now s Hs|now s Hs|order now s Hs Hord|now s Hs|s Hs|now]; subst.
  - unfold Allow. destruct (servers cb !! s) as [sc|] eqn:E; [|done].
    pose proof (tableOK_reqs _ _ _ Hok E) as Hr. pose proof Hok as (_ & _ & Hh & _).
    destruct (isExpiredLocked cb sc now); [split; [by apply tableOK_delete|done]|].
    destruct (state sc); simpl; repeat case_decide; simpl;
      (split; [apply (tableOK_insert cb s); try done; try (left; by eauto)|done]); simpl in *; try lia.
    rewrite wrap_int_small by (unfold int_ok; lia). lia.
  - unfold RecordSuccess. destruct (servers cb !! s) as [sc|] eqn:E; [|done].
    pose proof (tableOK_reqs _ _ _ Hok E) as Hr. pose proof Hok as (_ & _ & Hh & _).
    destruct (state sc); (split; [apply (tableOK_insert cb s); try done; try (left; by eauto)|done]); simpl in *; lia.
  - split; [by apply tableOK_RecordFailure|apply config_RecordFailure].
  - unfold CircuitBreaker_State. destruct (servers cb !! s) as [sc|]; [|done].
    destruct (isExpiredLocked cb sc now); [split; [by apply tableOK_delete|done]|done].
  - split; [by apply tableOK_delete|done].
  - split; [by apply tableOK_cleanup|done].
Qed.

Lemma breaker_reachable_ok th rt cb :
  rtc breaker_step (NewCircuitBreaker th rt) cb -> tableOK cb /\ sameConfig (NewCircuitBreaker th rt) cb.
Proof.
  intros H. assert (tableOK (NewCircuitBreaker th rt)) as H0.
  { unfold tableOK. simpl. rewrite map_size_empty. split_and!; try done. }
  revert H0. induction H as [|a b c Hab _ IH]; intros H0; [done|].
  destruct (breaker_step_ok _ _ H0 Hab) as [Hb Hc]. destruct (IH Hb). split; [done|by etrans].
Qed.

(** Bounded memory: whatever sequence of calls with non-empty server names
    is made, the breaker tracks at most 4096 servers, never admits a counted
    half-open request beyond its allowance of one, and when a full table must make
    room it drops one server, a least recently touched one. *)
Theorem breaker_bounded (th rt : Z) (cb : CircuitBreaker)
    (Hreach : rtc breaker_step (NewCircuitBreaker th rt) cb) :
  Z.of_nat (size (servers cb)) <= 4096
  /\ map_Forall (fun _ sc => 0 <= halfOpenReqs sc <= 1) (servers cb)
  /\ forall order, enumerates order cb -> servers cb <> ∅ ->
       exists s sc, servers cb !! s = Some sc
         /\ servers (evictOldestLocked order cb) = delete s (servers cb)
         /\ map_Forall (fun _ sc' => lastTouched sc <= lastTouched sc') (servers cb).
Proof.
  destruct (breaker_reachable_ok _ _ _ Hreach) as [Hok Hcfg].
  destruct Hcfg as (_ & _ & Hh & _ & Hm). pose proof Hok as (Hsz & _ & _ & _ & Hf).
  rewrite <- Hm in Hsz. rewrite <- Hh in Hf. split_and!; [done|done|].
  intros order Ho Hne. destruct (evict_least cb order Hok Ho Hne) as (s & sc & H1 & -> & H2).
  by exists s, sc.
Qed.

Lemma breaker_bounded_witness :
  Z.of_nat (size (servers (RecordFailure [] 5 (bs "a.org") (NewCircuitBreaker 3 1000)))) <= 4096.
Proof.
  refine (proj1 (breaker_bounded 3 1000 _ _)). apply rtc_once, step_failure; [done|].
  unfold enumerates. vm_compute. reflexivity.
Defined.

(** ** Probing *)

Definition allowAll (s : bytes) (nows : list Z) (cb : CircuitBreaker) : list bool * CircuitBreaker :=
  fold_left (fun acc now => let '(ok, cb) := Allow now s acc.2 in (acc.1 ++ [ok], cb)) nows ([], cb).

Lemma allowAll_snoc s nows now cb :
  allowAll s (nows ++ [now]) cb =
    ((allowAll s nows cb).1 ++ [(Allow now s (allowAll s nows cb).2).1], (Allow now s (allowAll s nows cb).2).2).
Proof. unfold allowAll. rewrite fold_left_app. simpl. by destruct (Allow _ _ _). Qed.

Lemma spaced_app ttl t ts us : spaced ttl t (ts ++ us) <-> spaced ttl t ts /\ spaced ttl (default t (last ts)) us.
Proof.
  revert t. induction ts as [|u ts IH]; intros t; [simpl; tauto|].
  cbn [spaced app]. rewrite IH, last_cons. destruct (last ts); simpl; tauto.
Qed.

(** Probing: once an open circuit's reset timeout is over, of any number of
    requests without a reported outcome exactly the first [halfOpenMax + 1] are
    admitted, the one that moves the circuit to half-open not being counted
    against the allowance. *)
Theorem half_open_probes (cb : CircuitBreaker) (s : bytes) (sc : serverCircuit) (nows : list Z)
    (Hcfg : configOK cb) (Hs : servers cb !! s = Some sc) (Hst : state sc = CircuitOpen)
    (Hsp : spaced (serverTTL cb) (lastTouched sc) nows)
    (Hdue : Forall (fun now => lastFailure sc + resetTimeout cb < now) nows) :
  (allowAll s nows cb).1 =
    (fun i => bool_decide (Z.of_nat i < halfOpenMax cb + 1)) <$> seq 0 (length nows).
Proof.
  enough (let r := allowAll s nows cb in
    r.1 = ((fun i => bool_decide (Z.of_nat i < halfOpenMax cb + 1)) <$> seq 0 (length nows))
    /\ sameConfig cb r.2
    /\ servers r.2 !! s = Some (if decide (nows = []) then sc else
         mkCircuit CircuitHalfOpen (failures sc) (lastFailure sc) (default 0 (last nows))
           (Z.min (halfOpenMax cb) (len nows - 1)))) as H by exact (proj1 H).
  induction nows as [|now nows IH] using rev_ind; [by rewrite decide_True by done|].
  apply spaced_app in Hsp as [Hsp Hnow]. apply Forall_app in Hdue as [Hdue Hdue1].
  destruct (IH Hsp Hdue) as (IH1 & IH2 & IH3). clear IH.
  rewrite allowAll_snoc. cbn [fst snd]. rewrite IH1. set (c := (allowAll s nows cb).2) in *. clear IH1.
  rewrite length_app, seq_app, fmap_app. cbn [length seq]. rewrite Nat.add_0_l.
  rewrite (decide_False (P := nows ++ [now] = [])) by (by destruct nows).
  rewrite last_snoc, len_app. change (len [now]) with 1. simpl default.
  pose proof (sameConfig_ok _ _ IH2 Hcfg) as Hc. pose proof IH2 as (_ & Hreset & Hhalf & Httl & _).
  rewrite Forall_singleton in Hdue1. simpl in Hnow. destruct Hnow as [Hnow _].
  destruct Hcfg as (_ & Hr & Ht & Hm).
  unfold Allow. rewrite IH3. destruct (decide (nows = [])) as [->|Hne].
  - assert (isExpiredLocked c sc now = false) as -> by (apply expired_false; [done|]; simpl in Hnow; lia).
    simpl. rewrite Hst. rewrite (decide_True (P := resetTimeout c < timeSub now (lastFailure sc))) by (apply timeSub_gt; lia). simpl.
    rewrite bool_decide_eq_true_2 by lia. split_and!; [done|done|].
    rewrite lookup_insert_eq. do 2 f_equal; unfold len; simpl; lia.
  - assert (exists t, last nows = Some t) as [t Hl] by (apply last_is_Some; done).
    rewrite Hl in Hnow |- *. simpl in Hnow |- *.
    assert (1 <= len nows) as Hln by (destruct nows; [done|rewrite len_cons; pose proof (len_nonneg nows); lia]).
    rewrite (proj2 (expired_false c _ now Hc)) by (simpl; lia). simpl.
    rewrite <- Hhalf. case_decide as Hd; simpl; split_and!; try done.
    + rewrite bool_decide_eq_true_2; [done|]. unfold len in *. lia.
    + rewrite lookup_insert_eq. rewrite wrap_int_small by (unfold int_ok; lia). do 2 f_equal; lia.
    + rewrite bool_decide_eq_false_2; [done|]. unfold len in *. lia.
    + rewrite lookup_insert_eq. do 2 f_equal; lia.
Qed.

Lemma half_open_probes_witness :
  let cb := failAll (bs "a.org") [([], 10)] (NewCircuitBreaker 1 1000) in
  (allowAll (bs "a.org") [2000; 2001; 2002] cb).1 = [true; true; false].
Proof.
  intros cb. apply (half_open_probes cb (bs "a.org") (mkCircuit CircuitOpen 1 10 10 0)).
  - unfold cb. eapply sameConfig_ok; [apply config_RecordFailure|]. apply NewCircuitBreaker_configOK. lia.
  - vm_compute. reflexivity.
  - done.
  - vm_compute. repeat split; discriminate.
  - repeat constructor; vm_compute; reflexivity.
Defined.
