(* ===== verification/Fetcher.v ===== *)
(** * Fetching the keys of a server
    (keys/fetcher.go, fetcher_direct.go, fetcher_notary.go, fetcher_orchestration.go, fetcher_retry.go,
    fetcher_signature.go, errors.go)

    A fetch asks the circuit breaker, tries the origin server with retries, then
    the fallback notaries, and tells the breaker how it went. It runs in a state
    monad over the resolver's state (with the clock readings and the exchanges
    made) and the breaker.

    Parameters: the network, the answer to the n-th key request, Ed25519, and
    encoding/json's decoders of a response, of a query response and of generic
    objects and values, with its encoder of an object. Of an error only what the
    code asks is kept: what kind it is, and for an error of the transport whether
    [isRetryableError] finds a timeout, a DNS, network or system-call error or an
    unexpected end in it. Log lines and counters are left out. *)
From S2P Require Import Prelude Base64 GoTime GoStrings Canonical NetIP TrustPolicy NotarySignature.
From S2P Require Import Resolver CircuitBreaker.
From Stdlib Require Import ZArith Lia.
From stdpp Require Import base gmap list strings fin_maps.
#[local] Open Scope Z_scope.

Definition defaultRetryAttempts : Z := 3.
Definition retryBackoffBase : Z := 200 * 1000000.
Definition maxFederationBody : Z := 2 ^ 20.

Record FetcherConfig : Type := mkFetcherConfig {
  cfg_FallbackServers : list bytes;
  cfg_TrustedNotaries : list TrustedNotaryKey;
  cfg_RetryAttempts : Z;
  cfg_MaxSignatures : Z;
  cfg_BlockPrivateIPs : option bool;
}.

Record Fetcher : Type := mkFetcher {
  fallbackServers : list bytes;
  trustedNotaries : gmap bytes TrustedNotaryKey;
  retryAttempts : Z;
  maxSignatures : Z;
  f_blockPrivateIPs : bool;
}.

(** The later of two pinned keys of a notary stays in the map. *)
Definition NewFetcherWithConfig (cfg : FetcherConfig) : Fetcher :=
  mkFetcher (cfg_FallbackServers cfg)
    (fold_left (fun m tn => <[tn_ServerName tn := tn]> m) (cfg_TrustedNotaries cfg) ∅)
    (if decide (cfg_RetryAttempts cfg <= 0) then defaultRetryAttempts else cfg_RetryAttempts cfg)
    (if decide (cfg_MaxSignatures cfg <= 0) then 10 else cfg_MaxSignatures cfg)
    (default true (cfg_BlockPrivateIPs cfg)).

(** ** Errors *)

Inductive self_err : Type :=
  | SelfNameEmpty | SelfNoKeys | SelfExpired | SelfNoSignature | SelfTooMany | SelfParse | SelfReencode
  | SelfCanonical | SelfNoValid.

Inductive fetch_err : Type :=
  | FetchContextCanceled
  | FetchCircuitOpen
  | FetchConcurrencyLimit
  | FetchResolveFailed
  | FetchTransport (retryable : bool)
  | FetchStatus (status : Z)
  | FetchTooLarge
  | FetchDecode
  | FetchServerNameMismatch
  | FetchSignatureInvalid (e : self_err)
  | FetchNotaryRefused (e : notary_err)
  | FetchNotInNotary
  | FetchAllFailed.

Definition IsPermanentError (e : fetch_err) : bool :=
  match e with FetchSignatureInvalid _ | FetchServerNameMismatch => true | _ => false end.

(** The error of a failed resolution is formatted into the new one with %v, so
    nothing of it is left to find. *)
Definition isRetryableError (e : fetch_err) : bool :=
  match e with FetchTransport retryable => retryable | _ => false end.

(** ** The transport *)

(** What a response body yields: its bytes up to the end or to an error. *)
Record stream : Type := mkStream {
  stream_data : bytes;
  stream_err : option bool;
}.

Inductive http_reply : Type :=
  | HttpError (retryable : bool)
  | HttpResponse (status : Z) (body : stream).

Definition readLimitedBody (r : stream) (limit : Z) : result fetch_err bytes :=
  if decide (limit <= 0) then Err (FetchTransport false)
  else if decide (limit < len (stream_data r)) then Err FetchTooLarge
  else match stream_err r with
       | Some retryable => Err (FetchTransport retryable)
       | None => Ok (stream_data r)
       end.

(** What the caller's context says when it is asked: at the start, by the
    semaphore, and while waiting before the given attempt. *)
Record context : Type := mkContext {
  ctx_Err : bool;
  ctx_Acquire : bool;
  ctx_Done : nat -> bool;
}.

Record fstate : Type := mkFState {
  fs_resolver : Resolver;
  fs_breaker : CircuitBreaker;
}.

Definition F (A : Type) : Type := fstate -> A * fstate.
Definition fret {A} (a : A) : F A := fun s => (a, s).
Definition fbind {A B} (m : F A) (k : A -> F B) : F B := fun s => let '(a, s) := m s in k a s.
Definition flift {A} (m : M A) : F A :=
  fun s => let '(a, r) := m (fs_resolver s) in (a, mkFState r (fs_breaker s)).

Declare Scope fetcher_scope.
Notation "x <-- m ;; k" := (fbind m (fun x => k)) (at level 20, m at level 99, k at level 200, only parsing) : fetcher_scope.
Notation "m ;; k" := (fbind m (fun _ => k)) (at level 100, k at level 200, only parsing) : fetcher_scope.
#[local] Open Scope fetcher_scope.

Section Fetcher.
Context {E : Ed25519}.
Variable net : network.
Variable exchange : nat -> list bytes -> bytes -> http_reply.
Variable decodeResponse : bytes -> option ServerKeysResponse.
Variable decodeQuery : bytes -> option (list ServerKeysResponse).
Variable decodeObject : bytes -> option (list (bytes * gvalue)).
Variable encodeObject : list (bytes * gvalue) -> option bytes.
Variable decodeValue : bytes -> option gvalue.
Variable evictionOrder : list bytes.

Definition fnow : F Z := flift (now net).

Definition request (kind : key_request) (hosts : list bytes) (serverName : bytes) : F http_reply :=
  n <-- flift (record_event (EvFetch kind hosts serverName));; fret (exchange n hosts serverName).

(** ** The self-signature *)

(** [canonical.JSON]: one document, then the canonical text. *)
Definition canonicalJSON (input : bytes) : option bytes :=
  v ← decodeValue input; match Marshal v with Ok out => Some out | Err _ => None end.

Definition deleteKey (k : bytes) (obj : list (bytes * gvalue)) : list (bytes * gvalue) :=
  filter (fun kv => kv.1 <> k) obj.

(** The public key a key ID stands for: a current key, else an old one. *)
Definition keyText (resp : ServerKeysResponse) (keyID : bytes) : option bytes :=
  match VerifyKeys resp !! keyID with
  | Some k => Some (vk_Key k)
  | None => ok_Key <$> OldVerifyKeys resp !! keyID
  end.

Definition signatureValid (resp : ServerKeysResponse) (canonicalBytes keyID sigBase64 : bytes) : bool :=
  match (text ← keyText resp keyID; DecodeRaw text), DecodeRaw sigBase64 with
  | Some pubKeyBytes, Some sig =>
      bool_decide (length pubKeyBytes = PublicKeySize) && bool_decide (length sig = SignatureSize)
      && Verify pubKeyBytes canonicalBytes sig
  | _, _ => false
  end.

(** [nowMs] is [time.Now().UnixMilli()]. *)
Definition verifySelfSignature (f : Fetcher) (nowMs : Z) (resp : ServerKeysResponse) (rawJSON : bytes) : option self_err :=
  if decide (skr_ServerName resp = []) then Some SelfNameEmpty
  else if decide (VerifyKeys resp = ∅) then Some SelfNoKeys
  else if decide (ValidUntilTS resp <= nowMs) then Some SelfExpired
  else
    match Signatures resp !! skr_ServerName resp with
    | None => Some SelfNoSignature
    | Some serverSigs =>
        if decide (maxSignatures f < Z.of_nat (size serverSigs)) then Some SelfTooMany
        else
          match decodeObject rawJSON with
          | None => Some SelfParse
          | Some parsed =>
              match encodeObject (deleteKey (bs "unsigned") (deleteKey (bs "signatures") parsed)) with
              | None => Some SelfReencode
              | Some stripped =>
                  match canonicalJSON stripped with
                  | None => Some SelfCanonical
                  | Some canonicalBytes =>
                      if existsb (fun kv => signatureValid resp canonicalBytes kv.1 kv.2) (map_to_list serverSigs)
                      then None else Some SelfNoValid
                  end
              end
          end
    end.

(** ** One source *)

Definition set_raw (raw : bytes) (resp : ServerKeysResponse) : ServerKeysResponse :=
  mkResponse (skr_ServerName resp) (VerifyKeys resp) (OldVerifyKeys resp) (ValidUntilTS resp) (Signatures resp) raw.

(** The request and the body of a 200 answer. *)
Definition fetchBody (kind : key_request) (hosts : list bytes) (serverName : bytes) : F (result fetch_err bytes) :=
  reply <-- request kind hosts serverName;;
  match reply with
  | HttpError retryable => fret (Err (FetchTransport retryable))
  | HttpResponse status body =>
      if decide (status <> 200) then fret (Err (FetchStatus status))
      else fret (readLimitedBody body maxFederationBody)
  end.

Definition fetchDirect (f : Fetcher) (serverName : bytes) : F (result fetch_err ServerKeysResponse) :=
  hosts <-- flift (fetchHosts net (f_blockPrivateIPs f) serverName);;
  match hosts with
  | None => fret (Err FetchResolveFailed)
  | Some hosts =>
      body <-- fetchBody DirectKeys hosts serverName;;
      match body with
      | Err e => fret (Err e)
      | Ok body =>
          match decodeResponse body with
          | None => fret (Err FetchDecode)
          | Some keysResp =>
              if decide (skr_ServerName keysResp <> serverName) then fret (Err FetchServerNameMismatch)
              else
                t <-- fnow;;
                match verifySelfSignature f (t / 1000000) keysResp body with
                | Some e => fret (Err (FetchSignatureInvalid e))
                | None => fret (Ok (set_raw body keysResp))
                end
          end
      end
  end.

Definition fetchFromNotary (f : Fetcher) (notary serverName : bytes) : F (result fetch_err ServerKeysResponse) :=
  hosts <-- flift (fetchHosts net (f_blockPrivateIPs f) notary);;
  match hosts with
  | None => fret (Err FetchResolveFailed)
  | Some hosts =>
      body <-- fetchBody (NotaryKeys notary) hosts serverName;;
      match body with
      | Err e => fret (Err e)
      | Ok body =>
          match decodeQuery body with
          | None => fret (Err FetchDecode)
          | Some answers =>
              match List.find (fun keys => bool_decide (skr_ServerName keys = serverName)) answers with
              | None => fret (Err FetchNotInNotary)
              | Some keys =>
                  match verifyNotarySignature (trustedNotaries f) notary keys with
                  | Some e => fret (Err (FetchNotaryRefused e))
                  | None => fret (Ok keys)
                  end
              end
          end
      end
  end.

(** ** Orchestration *)

(** The wait before an attempt. *)
Definition backoff (attempt : nat) : Z := wrap_int (retryBackoffBase * wrap_int (Z.shiftl 1 (Z.of_nat attempt - 1))).

(** [remaining] attempts are left, [attempt] were made. *)
Fixpoint retryLoop (f : Fetcher) (ctx : context) (serverName : bytes) (remaining attempt : nat) (lastErr : fetch_err)
  : F (result fetch_err ServerKeysResponse) :=
  match remaining with
  | O => fret (Err lastErr)
  | S remaining =>
      if decide ((0 < attempt)%nat /\ ctx_Done ctx attempt = true) then fret (Err FetchContextCanceled)
      else
        r <-- fetchDirect f serverName;;
        match r with
        | Ok resp => fret (Ok resp)
        | Err e =>
            if IsPermanentError e then fret (Err e)
            else if negb (isRetryableError e) then fret (Err e)
            else retryLoop f ctx serverName remaining (S attempt) e
        end
  end.

Definition fetchDirectWithRetry (f : Fetcher) (ctx : context) (serverName : bytes) : F (result fetch_err ServerKeysResponse) :=
  retryLoop f ctx serverName (Z.to_nat (retryAttempts f)) 0 FetchAllFailed.

(** The fallback notaries in order; [None] when none of them answered. *)
Fixpoint fallbackLoop (f : Fetcher) (fallbacks : list bytes) (serverName : bytes) : F (option ServerKeysResponse) :=
  match fallbacks with
  | [] => fret None
  | fallback :: fallbacks =>
      r <-- fetchFromNotary f fallback serverName;;
      match r with
      | Ok resp => fret (Some resp)
      | Err _ => fallbackLoop f fallbacks serverName
      end
  end.

Definition withBreaker {A} (op : Z -> CircuitBreaker -> A * CircuitBreaker) : F A :=
  t <-- fnow;; fun s => let '(a, cb) := op t (fs_breaker s) in (a, mkFState (fs_resolver s) cb).

Definition recordSuccess (serverName : bytes) : F unit :=
  withBreaker (fun t cb => (tt, RecordSuccess t serverName cb)).

Definition recordFailure (serverName : bytes) : F unit :=
  withBreaker (fun t cb => (tt, RecordFailure evictionOrder t serverName cb)).

Definition FetchServerKeys (f : Fetcher) (ctx : context) (serverName : bytes) : F (result fetch_err ServerKeysResponse) :=
  if ctx_Err ctx then fret (Err FetchContextCanceled)
  else
    allowed <-- withBreaker (fun t => Allow t serverName);;
    if negb allowed then fret (Err FetchCircuitOpen)
    else if negb (ctx_Acquire ctx) then fret (Err FetchConcurrencyLimit)
    else
      r <-- fetchDirectWithRetry f ctx serverName;;
      match r with
      | Ok resp => recordSuccess serverName;; fret (Ok resp)
      | Err _ =>
          fallback <-- fallbackLoop f (fallbackServers f) serverName;;
          match fallback with
          | Some resp => recordSuccess serverName;; fret (Ok resp)
          | None => recordFailure serverName;; fret (Err FetchAllFailed)
          end
      end.

End Fetcher.
