(* ===== verification/FetcherProofs.v ===== *)
(** * Fetching: what is returned, how often is asked, and a leak in the breaker *)
From S2P Require Import Prelude Base64 GoTime GoStrings Canonical NetIP TrustPolicy NotarySignature.
From S2P Require Import Resolver ResolverProofs CircuitBreaker Fetcher.
From Stdlib Require Import ZArith Lia.
From stdpp Require Import base gmap list strings fin_maps.
#[local] Open Scope Z_scope.
#[local] Open Scope fetcher_scope.

Section FetcherProofs.
Context {E : Ed25519}.
Variable net : network.
Variable exchange : nat -> list bytes -> bytes -> http_reply.
Variable decodeResponse : bytes -> option ServerKeysResponse.
Variable decodeQuery : bytes -> option (list ServerKeysResponse).
Variable decodeObject : bytes -> option (list (bytes * gvalue)).
Variable encodeObject : list (bytes * gvalue) -> option bytes.
Variable decodeValue : bytes -> option gvalue.
Variable evictionOrder : list bytes.

Abbreviation fetchDirect := (fetchDirect net exchange decodeResponse decodeObject encodeObject decodeValue).
Abbreviation fetchFromNotary := (fetchFromNotary net exchange decodeQuery).
Abbreviation retryLoop := (retryLoop net exchange decodeResponse decodeObject encodeObject decodeValue).
Abbreviation fallbackLoop := (fallbackLoop net exchange decodeQuery).
Abbreviation FetchServerKeys :=
  (FetchServerKeys net exchange decodeResponse decodeQuery decodeObject encodeObject decodeValue evictionOrder).
Abbreviation verifySelfSignature := (verifySelfSignature decodeObject encodeObject decodeValue).
Abbreviation canonicalJSON := (canonicalJSON decodeValue).

(** ** What is returned *)

(** The bytes an origin signs: the canonical text of the document without its
    signatures and unsigned part. *)
Definition originText (raw : bytes) : option bytes :=
  parsed ← decodeObject raw;
  stripped ← encodeObject (deleteKey (bs "unsigned") (deleteKey (bs "signatures") parsed));
  canonicalJSON stripped.

(** The response is signed, under its own name, with a key that it lists, over
    the bytes that it arrived with. *)
Definition selfSigned (resp : ServerKeysResponse) : Prop :=
  exists text serverSigs keyID sigText pub sig,
    originText (Raw resp) = Some text
    /\ Signatures resp !! skr_ServerName resp = Some serverSigs /\ serverSigs !! keyID = Some sigText
    /\ (keyText resp keyID ≫= DecodeRaw) = Some pub /\ length pub = PublicKeySize
    /\ DecodeRaw sigText = Some sig /\ length sig = SignatureSize
    /\ Verify pub text sig = true.

Lemma verifySelfSignature_ok f nowMs resp raw :
  verifySelfSignature f nowMs resp raw = None ->
  selfSigned (set_raw raw resp) /\ nowMs < ValidUntilTS resp /\ VerifyKeys resp <> ∅.
Proof.
  unfold Fetcher.verifySelfSignature. case_decide; [done|]. case_decide as Hk; [done|]. case_decide as Ht; [done|].
  destruct (Signatures resp !! skr_ServerName resp) as [serverSigs|] eqn:Es; [|done]. case_decide; [done|].
  destruct (decodeObject raw) as [parsed|] eqn:Ed; [|done]. destruct (encodeObject _) as [stripped|] eqn:Ee; [|done].
  destruct (canonicalJSON stripped) as [text|] eqn:Ec; [|done].
  destruct (existsb _ _) eqn:Ex; [|done]. intros _. split; [|split; [lia|done]].
  apply existsb_exists in Ex as ([keyID sigText] & Hin & Hv). cbn [fst snd] in Hv.
  apply list_elem_of_In, elem_of_map_to_list in Hin. unfold signatureValid in Hv.
  destruct (keyText resp keyID ≫= DecodeRaw) as [pub|] eqn:Ep; [|done].
  destruct (DecodeRaw sigText) as [sig|] eqn:Eg; [|done].
  apply andb_prop in Hv as [Hv Hver]. apply andb_prop in Hv as [Hlp Hlg].
  apply bool_decide_eq_true in Hlp, Hlg. exists text, serverSigs, keyID, sigText, pub, sig. split_and!; try done.
  unfold originText. simpl Raw. rewrite Ed. simpl. rewrite Ee. done.
Qed.

(** [m] yields only values of [P]. *)
Definition yieldsF {A} (m : F A) (P : A -> Prop) : Prop := forall s, P (m s).1.

Lemma yieldsF_ret {A} (a : A) (P : A -> Prop) : P a -> yieldsF (fret a) P.
Proof. by intros H s. Qed.

Lemma yieldsF_bind {A B} (m : F A) (k : A -> F B) (P : A -> Prop) (Q : B -> Prop) :
  yieldsF m P -> (forall a, P a -> yieldsF (k a) Q) -> yieldsF (fbind m k) Q.
Proof. intros Hm Hk s. unfold fbind. specialize (Hm s). destruct (m s) as [a s']. by apply Hk. Qed.

Lemma yieldsF_any {A B} (m : F A) (k : A -> F B) (Q : B -> Prop) :
  (forall a, yieldsF (k a) Q) -> yieldsF (fbind m k) Q.
Proof. intros Hk. by apply (yieldsF_bind _ _ (fun _ => True)). Qed.

Definition okP {Er A} (P : A -> Prop) (r : result Er A) : Prop := match r with Ok a => P a | Err _ => True end.

Definition direct_ok (serverName : bytes) (resp : ServerKeysResponse) : Prop :=
  skr_ServerName resp = serverName /\ selfSigned resp /\ exists k, net_clock net k / 1000000 < ValidUntilTS resp.

Lemma fetchDirect_yields f serverName : yieldsF (fetchDirect f serverName) (okP (direct_ok serverName)).
Proof.
  apply yieldsF_any. intros [hosts|]; [|done]. apply yieldsF_any. intros [body|e]; [|done].
  destruct (decodeResponse body) as [resp|]; [|done]. case_decide as Hn; [done|].
  apply (yieldsF_bind _ _ (fun t => exists k, t = net_clock net k)); [intros s; by eexists|]. intros t [k ->].
  destruct (verifySelfSignature f (net_clock net k / 1000000) resp body) eqn:Ev; [done|].
  apply yieldsF_ret. apply verifySelfSignature_ok in Ev as (Hs & Hv & _). split; [done|]. split; [done|]. by exists k.
Qed.

Lemma retryLoop_yields f ctx serverName remaining attempt lastErr :
  yieldsF (retryLoop f ctx serverName remaining attempt lastErr) (okP (direct_ok serverName)).
Proof.
  revert attempt lastErr. induction remaining as [|remaining IH]; intros attempt lastErr; [done|]. simpl.
  case_decide; [done|]. eapply yieldsF_bind; [apply fetchDirect_yields|]. intros [resp|e] Hr; [by apply yieldsF_ret|].
  destruct (IsPermanentError e); [done|]. destruct (isRetryableError e); [apply IH|done].
Qed.

(** What a fallback notary vouches for. *)
Definition notary_ok (f : Fetcher) (serverName : bytes) (resp : ServerKeysResponse) : Prop :=
  skr_ServerName resp = serverName
  /\ exists notary, notary ∈ fallbackServers f /\ verifyNotarySignature (trustedNotaries f) notary resp = None.

Lemma fetchFromNotary_yields f notary serverName :
  yieldsF (fetchFromNotary f notary serverName)
    (okP (fun resp => skr_ServerName resp = serverName /\ verifyNotarySignature (trustedNotaries f) notary resp = None)).
Proof.
  apply yieldsF_any. intros [hosts|]; [|done]. apply yieldsF_any. intros [body|e]; [|done].
  destruct (decodeQuery body) as [answers|]; [|done].
  destruct (List.find _ answers) as [resp|] eqn:Ef; [|done].
  destruct (verifyNotarySignature (trustedNotaries f) notary resp) eqn:Ev; [done|].
  apply find_some in Ef as [_ Hn%bool_decide_eq_true]. by apply yieldsF_ret.
Qed.

Lemma fallbackLoop_yields f fallbacks serverName :
  (forall n, n ∈ fallbacks -> n ∈ fallbackServers f) ->
  yieldsF (fallbackLoop f fallbacks serverName) (fun o => forall resp, o = Some resp -> notary_ok f serverName resp).
Proof.
  induction fallbacks as [|n fallbacks IH]; intros Hin; [done|]. simpl.
  eapply yieldsF_bind; [apply fetchFromNotary_yields|]. intros [resp|e] Hr.
  - apply yieldsF_ret. intros ? [= <-]. destruct Hr as [Hn Hv]. split; [done|]. exists n. split; [apply Hin; left|done].
  - apply IH. intros m Hm. apply Hin. by right.
Qed.

(** C24. Whatever a fetch returns is about the server that was asked for, and
    either the origin's own response, unexpired and signed over the bytes that
    arrived with a key it lists, or the answer of a configured fallback notary
    that passed the check against its pinned key, if one is pinned. *)
Theorem fetch_authentic f ctx serverName s resp s' :
  FetchServerKeys f ctx serverName s = (Ok resp, s') ->
  skr_ServerName resp = serverName
  /\ ((selfSigned resp /\ exists k, net_clock net k / 1000000 < ValidUntilTS resp)
      \/ exists notary, notary ∈ fallbackServers f /\ verifyNotarySignature (trustedNotaries f) notary resp = None).
Proof.
  assert (yieldsF (FetchServerKeys f ctx serverName)
    (okP (fun resp => direct_ok serverName resp \/ notary_ok f serverName resp))) as H.
  { unfold Fetcher.FetchServerKeys. destruct (ctx_Err ctx); [done|]. apply yieldsF_any. intros [|]; [|done]. simpl negb.
    destruct (ctx_Acquire ctx); [|done]. simpl negb. cbv iota.
    eapply yieldsF_bind; [apply retryLoop_yields|]. intros [r|e] Hr.
    - apply yieldsF_any. intros _. apply yieldsF_ret. by left.
    - eapply yieldsF_bind; [by apply fallbackLoop_yields|]. intros [r|] Hf; apply yieldsF_any; intros _; [|done].
      apply yieldsF_ret. right. by apply Hf. }
  intros Ef. specialize (H s). rewrite Ef in H. simpl in H. destruct H as [[Hn Hs]|[Hn Hs]]; auto.
Qed.

(** ** How often is asked *)

Definition kindOf (e : event) : option key_request := match e with EvFetch kind _ _ => Some kind | _ => None end.

(** The key requests among the exchanges made so far, in order. *)
Definition asked (s : fstate) : list key_request := omap kindOf (trace (fs_resolver s)).

(** [m] adds key requests as [P] says. *)
Definition adds {A} (m : F A) (P : list key_request -> Prop) : Prop := forall s, exists l, asked (m s).2 = asked s ++ l /\ P l.

Abbreviation nothing := (fun l : list key_request => l = []).

Lemma adds_weaken {A} (m : F A) (P Q : list key_request -> Prop) : adds m P -> (forall l, P l -> Q l) -> adds m Q.
Proof. intros Hm HPQ s. destruct (Hm s) as (l & Hl & Hp). eauto. Qed.

Lemma adds_ret {A} (a : A) (P : list key_request -> Prop) : P [] -> adds (fret a) P.
Proof. intros Hp s. exists []. by rewrite app_nil_r. Qed.

Lemma adds_bind {A B} (m : F A) (k : A -> F B) (P Q R : list key_request -> Prop) :
  adds m P -> (forall a, adds (k a) Q) -> (forall l l', P l -> Q l' -> R (l ++ l')) -> adds (fbind m k) R.
Proof.
  intros Hm Hk HR s. unfold fbind. destruct (Hm s) as (l & Hl & Hp). destruct (m s) as [a s']. simpl in Hl.
  destruct (Hk a s') as (l' & Hl' & Hq). exists (l ++ l'). rewrite Hl', Hl, app_assoc. auto.
Qed.

(** Around something that adds nothing. *)
Lemma adds_after {A B} (m : F A) (k : A -> F B) (Q : list key_request -> Prop) :
  adds m nothing -> (forall a, adds (k a) Q) -> adds (fbind m k) Q.
Proof. intros Hm Hk. apply (adds_bind m k nothing Q); [done|done|]. by intros l l' ->. Qed.

Lemma adds_before {A B} (m : F A) (k : A -> F B) (P : list key_request -> Prop) :
  adds m P -> (forall a, adds (k a) nothing) -> adds (fbind m k) P.
Proof. intros Hm Hk. apply (adds_bind m k P nothing); [done|done|]. intros l l' Hl ->. by rewrite app_nil_r. Qed.

Lemma adds_lift {A} (m : M A) : grows m -> adds (flift m) nothing.
Proof.
  intros Hm s. unfold flift, asked. destruct (Hm (fs_resolver s)) as (l & Hl & Hd). destruct (m (fs_resolver s)) as [a r].
  simpl in *. exists []. split; [|done]. rewrite Hl, omap_app. f_equal.
  clear -Hd. induction Hd as [|e l He _ IH]; [done|]. simpl. by destruct e.
Qed.

Lemma adds_now : adds (fnow net) nothing.
Proof. apply adds_lift. by apply grows_quiet. Qed.

Lemma adds_fetchBody kind hosts serverName : adds (fetchBody exchange kind hosts serverName) (fun l => l = [kind]).
Proof.
  apply adds_before.
  - intros s. exists [kind]. split; [|done]. unfold asked. simpl. by rewrite omap_app.
  - intros [r|status body]; [by apply adds_ret|]. case_decide; by apply adds_ret.
Qed.

Definition atMostOne (kind : key_request) (l : list key_request) : Prop := l = [] \/ l = [kind].

Lemma adds_fetchDirect f serverName : adds (fetchDirect f serverName) (atMostOne DirectKeys).
Proof.
  apply adds_after; [apply adds_lift, fetchHosts_grows|]. intros [hosts|]; [|apply adds_ret; by left].
  apply adds_before; [eapply adds_weaken; [apply adds_fetchBody|by right]|]. intros [body|e]; [|by apply adds_ret].
  destruct (decodeResponse body) as [resp|]; [|by apply adds_ret]. case_decide; [by apply adds_ret|].
  apply adds_after; [apply adds_now|]. intros t. destruct (verifySelfSignature _ _ _ _); by apply adds_ret.
Qed.

Lemma adds_fetchFromNotary f notary serverName : adds (fetchFromNotary f notary serverName) (atMostOne (NotaryKeys notary)).
Proof.
  apply adds_after; [apply adds_lift, fetchHosts_grows|]. intros [hosts|]; [|apply adds_ret; by left].
  apply adds_before; [eapply adds_weaken; [apply adds_fetchBody|by right]|]. intros [body|e]; [|by apply adds_ret].
  destruct (decodeQuery body) as [answers|]; [|by apply adds_ret]. destruct (List.find _ answers); [|by apply adds_ret].
  destruct (verifyNotarySignature _ _ _); by apply adds_ret.
Qed.

(** At most [n] requests to the origin. *)
Definition direct (n : nat) (l : list key_request) : Prop := exists k, (k <= n)%nat /\ l = replicate k DirectKeys.

Lemma adds_retryLoop f ctx serverName remaining attempt lastErr :
  adds (retryLoop f ctx serverName remaining attempt lastErr) (direct remaining).
Proof.
  assert (forall n, direct n []) as Hnil by (intros n; exists 0%nat; split; [lia|done]).
  revert attempt lastErr. induction remaining as [|remaining IH]; intros attempt lastErr; [by apply adds_ret|]. simpl.
  case_decide; [by apply adds_ret|]. apply (adds_bind _ _ (atMostOne DirectKeys) (direct remaining)).
  - apply adds_fetchDirect.
  - intros [resp|e]; [by apply adds_ret|].
    destruct (IsPermanentError e); [by apply adds_ret|]. destruct (isRetryableError e); [apply IH|by apply adds_ret].
  - intros l l' Hl (k & Hk & ->). destruct Hl as [->| ->]; [by exists k; split; [lia|]|]. exists (S k). split; [lia|done].
Qed.

(** Some of the fallbacks, in their order, each at most as often as it is listed. *)
Definition notaries (fallbacks : list bytes) (l : list key_request) : Prop :=
  exists ns, ns `sublist_of` fallbacks /\ l = map NotaryKeys ns.

Lemma adds_fallbackLoop f fallbacks serverName : adds (fallbackLoop f fallbacks serverName) (notaries fallbacks).
Proof.
  assert (forall ns, notaries ns []) as Hnil by (intros ns; exists []; split; [apply sublist_nil_l|done]).
  induction fallbacks as [|n fallbacks IH]; [by apply adds_ret|]. simpl.
  apply (adds_bind _ _ (atMostOne (NotaryKeys n)) (notaries fallbacks)).
  - apply adds_fetchFromNotary.
  - intros [resp|e]; [by apply adds_ret|apply IH].
  - intros l l' Hl (ns & Hns & ->). destruct Hl as [->| ->]; [exists ns|exists (n :: ns)]; split; try done;
      [by apply sublist_cons|by apply sublist_skip].
Qed.

Lemma adds_withBreaker {A} (op : Z -> CircuitBreaker -> A * CircuitBreaker) : adds (withBreaker net op) nothing.
Proof.
  apply adds_after; [apply adds_now|]. intros t s. destruct (op t (fs_breaker s)) as [a cb]. exists []. by rewrite app_nil_r.
Qed.

Lemma adds_recorded {A} serverName (op : bytes -> F unit) (a : A) :
  adds (op serverName) nothing -> adds (op serverName;; fret a) nothing.
Proof. intros Hop. apply adds_after; [done|]. intros _. by apply adds_ret. Qed.

(** C32. The key requests of one fetch are, in this order, at most [retryAttempts]
    to the origin and then at most one for each entry of the list of fallback
    notaries, in the order of the list, and none to anyone else; and when the circuit
    breaker refuses the server, it makes no exchange at all and says so. *)
Theorem fetch_bounded f ctx serverName s :
  (exists k ns, asked (FetchServerKeys f ctx serverName s).2 = asked s ++ replicate k DirectKeys ++ map NotaryKeys ns
     /\ (k <= Z.to_nat (retryAttempts f))%nat /\ ns `sublist_of` fallbackServers f)
  /\ (ctx_Err ctx = false ->
      (Allow (net_clock net (clockReads (fs_resolver s))) serverName (fs_breaker s)).1 = false ->
      (FetchServerKeys f ctx serverName s).1 = Err FetchCircuitOpen
      /\ trace (fs_resolver (FetchServerKeys f ctx serverName s).2) = trace (fs_resolver s)).
Proof.
  split.
  - set (P l := exists l1 l2, l = l1 ++ l2 /\ direct (Z.to_nat (retryAttempts f)) l1 /\ notaries (fallbackServers f) l2).
    enough (adds (FetchServerKeys f ctx serverName) P) as H.
    { destruct (H s) as (l & Hl & l1 & l2 & -> & (k & Hk & ->) & ns & Hns & ->). eauto. }
    assert (direct (Z.to_nat (retryAttempts f)) []) as Hd by (exists 0%nat; split; [lia|done]).
    assert (notaries (fallbackServers f) []) as Hn by (exists []; split; [apply sublist_nil_l|done]).
    assert (P []) as Hnil by (by exists [], []).
    unfold Fetcher.FetchServerKeys. destruct (ctx_Err ctx); [by apply adds_ret|].
    apply adds_after; [apply adds_withBreaker|]. intros [|]; [|by apply adds_ret]. simpl negb.
    destruct (ctx_Acquire ctx); [|by apply adds_ret]. simpl negb. cbv iota.
    apply (adds_bind _ _ (direct (Z.to_nat (retryAttempts f))) (notaries (fallbackServers f))); [apply adds_retryLoop| |intros l l' Hl Hl'; by exists l, l'].
    intros [resp|e]; [eapply adds_weaken; [apply adds_recorded, adds_withBreaker|by intros l ->]|].
    apply adds_before; [apply adds_fallbackLoop|]. intros [resp|]; apply adds_recorded, adds_withBreaker.
  - intros He Ha. unfold Fetcher.FetchServerKeys. rewrite He. unfold fbind at 1, withBreaker, fbind, fnow, flift, now. simpl.
    destruct (Allow _ _ _) as [a cb]. simpl in Ha. subst a. done.
Qed.

(** ** A permit that is not given back *)

(** The answers of the breaker to a server's requests at these times. *)
Fixpoint allowAll (times : list Z) (serverName : bytes) (cb : CircuitBreaker) : list bool :=
  match times with
  | [] => []
  | t :: times => let '(a, cb) := Allow t serverName cb in a :: allowAll times serverName cb
  end.

(** Requests that keep coming: none later than the breaker's memory after the
    one before. *)
Fixpoint spaced (ttl last : Z) (times : list Z) : Prop :=
  match times with
  | [] => True
  | t :: times => timeSub t last <= ttl /\ spaced ttl t times
  end.

Lemma allowAll_wedged times serverName cb sc :
  servers cb !! serverName = Some sc -> state sc = CircuitHalfOpen -> halfOpenMax cb <= halfOpenReqs sc ->
  spaced (serverTTL cb) (lastTouched sc) times -> Forall (fun a => a = false) (allowAll times serverName cb).
Proof.
  revert cb sc. induction times as [|t times IH]; intros cb sc Hsc Hst Hmax Hsp; [constructor|]. destruct Hsp as [Ht Hsp].
  simpl. destruct (Allow t serverName cb) as [a cb'] eqn:Ea. unfold Allow in Ea. rewrite Hsc in Ea.
  unfold isExpiredLocked in Ea. rewrite bool_decide_eq_false_2 in Ea by lia. simpl in Ea. rewrite Hst in Ea.
  rewrite decide_False in Ea by lia. injection Ea as <- <-. constructor; [done|].
  eapply (IH _ (mkCircuit CircuitHalfOpen (failures sc) (lastFailure sc) t (halfOpenReqs sc))); try done.
  simpl. by rewrite lookup_insert_eq.
Qed.

(** A fetch that is admitted on the last half-open permit and then does not get
    the semaphore reports nothing to the breaker: the permit stays taken, and
    from then on every request is refused for as long as requests keep coming. *)
Theorem half_open_permit_leaks f ctx serverName s sc times :
  servers (fs_breaker s) !! serverName = Some sc -> state sc = CircuitHalfOpen ->
  halfOpenReqs sc + 1 = halfOpenMax (fs_breaker s) -> int_ok (halfOpenMax (fs_breaker s)) ->
  let t := net_clock net (clockReads (fs_resolver s)) in
  timeSub t (lastTouched sc) <= serverTTL (fs_breaker s) ->
  ctx_Err ctx = false -> ctx_Acquire ctx = false -> spaced (serverTTL (fs_breaker s)) t times ->
  (FetchServerKeys f ctx serverName s).1 = Err FetchConcurrencyLimit
  /\ Forall (fun a => a = false) (allowAll times serverName (fs_breaker (FetchServerKeys f ctx serverName s).2)).
Proof.
  intros Hsc Hst Hreq Hint t Ht He Ha Hsp.
  assert (Allow t serverName (fs_breaker s) = (true, set_servers <[serverName :=
    mkCircuit CircuitHalfOpen (failures sc) (lastFailure sc) t (halfOpenReqs sc + 1)]> (fs_breaker s))) as Eallow.
  { unfold Allow. rewrite Hsc. unfold isExpiredLocked. rewrite bool_decide_eq_false_2 by lia. simpl. rewrite Hst.
    rewrite decide_True by lia. rewrite wrap_int_small by (rewrite Hreq; done). done. }
  assert (FetchServerKeys f ctx serverName s
    = (Err FetchConcurrencyLimit, mkFState (now net (fs_resolver s)).2 (Allow t serverName (fs_breaker s)).2)) as Ef.
  { unfold Fetcher.FetchServerKeys. rewrite He, Ha. unfold withBreaker, fbind, fnow, flift, now. simpl. fold t.
    by rewrite Eallow. }
  rewrite Ef, Eallow. split; [done|]. simpl.
  eapply (allowAll_wedged times serverName _ (mkCircuit CircuitHalfOpen (failures sc) (lastFailure sc) t (halfOpenReqs sc + 1)));
    simpl; [by rewrite lookup_insert_eq|done|lia|done].
Qed.

End FetcherProofs.

(** ** Instances *)

#[local] Instance demo_scheme : Ed25519 := {
  Public sk := take 32 sk;
  Sign _ _ := replicate 64 Byte.x00;
  Verify _ _ s := bool_decide (s = replicate 64 Byte.x00);
}.

Definition demo_keys : ServerKeysResponse :=
  mkResponse (bs "origin.org") {[bs "ed25519:a" := mkVerifyKey (EncodeRaw (replicate 32 Byte.x01))]} ∅ 1700000000000
    {[bs "origin.org" := {[bs "ed25519:a" := EncodeRaw (replicate 64 Byte.x00)]}]} [].

Definition demo_fetcher : Fetcher := NewFetcherWithConfig (mkFetcherConfig [bs "notary.org"] [] 0 0 (Some false)).

Definition quietNet : network :=
  mkNetwork (fun _ _ => WkTransportError) (fun _ _ _ _ => mkSrvReply [] (Some true)) (fun _ _ => None) (fun n => Z.of_nat n).

Definition demo_start : fstate := mkFState NewResolver (NewCircuitBreaker 5 0).

Definition demo_ctx : context := mkContext false true (fun _ => false).

Definition demo_fetch : F (result fetch_err ServerKeysResponse) :=
  FetchServerKeys quietNet (fun _ _ _ => HttpResponse 200 (mkStream (bs "{}") None)) (fun _ => Some demo_keys)
    (fun _ => Some []) (fun _ => Some []) (fun _ => Some (bs "{}")) (fun _ => Some (VObject [])) []
    demo_fetcher demo_ctx (bs "origin.org").

Lemma fetch_authentic_witness :
  exists resp s', demo_fetch demo_start = (Ok resp, s') /\ skr_ServerName resp = bs "origin.org".
Proof.
  destruct (demo_fetch demo_start) as [[resp|e] s'] eqn:Ef.
  - exists resp, s'. split; [reflexivity|]. unfold demo_fetch in Ef. apply fetch_authentic in Ef as [Hn _]. exact Hn.
  - exfalso. assert (is_ok (demo_fetch demo_start).1 = true) as Hok by (vm_compute; reflexivity).
    rewrite Ef in Hok. discriminate Hok.
Defined.

(** Keys that expired at the start of the epoch, with no signature at all. *)
Definition expired_keys : ServerKeysResponse :=
  mkResponse (bs "origin.org") {[bs "ed25519:a" := mkVerifyKey (bs "AQ")]} ∅ 0 ∅ [].

(** The origin's answer does not decode, and the fallback notary, for which no
    key is pinned, answers with the expired keys: they are returned. *)
Example expired_fallback_returned :
  match (FetchServerKeys quietNet (fun _ _ _ => HttpResponse 200 (mkStream (bs "{}") None)) (fun _ => None)
           (fun _ => Some [expired_keys]) (fun _ => Some []) (fun _ => Some (bs "{}")) (fun _ => Some (VObject [])) []
           demo_fetcher demo_ctx (bs "origin.org") demo_start).1 with
  | Ok resp => ValidUntilTS resp = 0 /\ size (Signatures resp) = 0%nat
  | Err _ => False
  end.
Proof. vm_compute. split; reflexivity. Qed.
