(* ===== verification/NotaryQuery.v ===== *)
(** * Answering a key query
    (keys/notary_query.go, notary_cleanup.go, notary_fetch_store.go, response_clone.go)

    The notary looks in its memory cache, then in the database, then fetches; it
    adds its signature, checks the policy, and reports every requested server
    either with keys or with a failure.

    One call runs at a time, so the lock, the pointer comparison and the sharing
    of concurrent fetches do not appear, and a copied response is its value. The
    database is a parameter: what it answers at a moment, counted by the clock
    readings; whether it stored something is only logged. The fetch is the one of
    [Fetcher]. Analytics, the transparency log and the broadcast to the cluster
    receive values and return nothing that is used. *)
From S2P Require Import Prelude GoTime GoStrings Canonical CanonicalProofs NetIP TrustPolicy NotarySignature.
From S2P Require Import Resolver CircuitBreaker Fetcher.
From Stdlib Require Import ZArith Lia.
From stdpp Require Import base gmap list strings fin_maps.
#[local] Open Scope Z_scope.

Record cachedResponse : Type := mkCached {
  cr_response : ServerKeysResponse;
  cr_validUntil : Z;
}.

Record nstate : Type := mkNState {
  ns_fetch : fstate;
  ns_cache : gmap bytes cachedResponse;
}.

Definition NQ (A : Type) : Type := nstate -> A * nstate.
Definition nret {A} (a : A) : NQ A := fun s => (a, s).
Definition nbind {A B} (m : NQ A) (k : A -> NQ B) : NQ B := fun s => let '(a, s) := m s in k a s.
Definition nlift {A} (m : F A) : NQ A :=
  fun s => let '(a, fs) := m (ns_fetch s) in (a, mkNState fs (ns_cache s)).

Declare Scope notary_scope.
Notation "x <-- m ;; k" := (nbind m (fun x => k)) (at level 20, m at level 99, k at level 200, only parsing) : notary_scope.
Notation "m ;; k" := (nbind m (fun _ => k)) (at level 100, k at level 200, only parsing) : notary_scope.
#[local] Open Scope notary_scope.

Definition cacheGet (serverName : bytes) : NQ (option cachedResponse) := fun s => (ns_cache s !! serverName, s).
Definition cachePut (serverName : bytes) (c : cachedResponse) : NQ unit :=
  fun s => (tt, mkNState (ns_fetch s) (<[serverName := c]> (ns_cache s))).
Definition cacheDelete (serverName : bytes) : NQ unit :=
  fun s => (tt, mkNState (ns_fetch s) (delete serverName (ns_cache s))).

(** Instants are nanoseconds; [UnixMilli] and back. *)
Definition toMilli (t : Z) : Z := t / 1000000.
Definition ofMilli (ms : Z) : Z := ms * 1000000.

(** ** The memory cache ([notary_cleanup.go]) *)

Section Cache.
Variable cacheTTLHours : Z.

Definition cacheExpiresAt (response : ServerKeysResponse) (t : Z) : Z :=
  let cacheExpiry := t + wrap_int (cacheTTLHours * Hour) in
  if decide (ValidUntilTS response <= 0) then cacheExpiry
  else if decide (ofMilli (ValidUntilTS response) < cacheExpiry) then ofMilli (ValidUntilTS response) else cacheExpiry.

Definition cacheEntryValid (c : cachedResponse) (t : Z) : bool :=
  if decide (~ t < cr_validUntil c) then false else bool_decide (toMilli t < ValidUntilTS (cr_response c)).

Variable net : network.

Definition nnow : NQ Z := nlift (fnow net).

Definition storeInMemoryCache (serverName : bytes) (response : ServerKeysResponse) : NQ unit :=
  t <-- nnow;;
  let expiresAt := cacheExpiresAt response t in
  if decide (~ t < expiresAt) then cacheDelete serverName else cachePut serverName (mkCached response expiresAt).

(** [cleanup]: every entry is compared with its own clock reading. *)
Fixpoint cleanupEntries (names : list bytes) : NQ unit :=
  match names with
  | [] => nret tt
  | name :: names =>
      t <-- nnow;;
      c <-- cacheGet name;;
      match c with
      | Some c => (if decide (cr_validUntil c < t) then cacheDelete name else nret tt);; cleanupEntries names
      | None => cleanupEntries names
      end
  end.

Definition cleanup_ : NQ unit := fun s => cleanupEntries (map fst (map_to_list (ns_cache s))) s.

(** ** Getting the keys of one server *)

Variable stored : nat -> bytes -> option ServerKeysResponse.
Variable fetchKeys : context -> bytes -> F (result fetch_err ServerKeysResponse).

Definition readStorage (serverName : bytes) : NQ (option ServerKeysResponse) :=
  fun s => (stored (clockReads (fs_resolver (ns_fetch s))) serverName, s).

(** [fetchAndStoreWithSource], up to what is logged and counted. *)
Definition fetchAndStore (ctx : context) (serverName : bytes) : NQ (result fetch_err ServerKeysResponse) :=
  r <-- nlift (fetchKeys ctx serverName);;
  match r with
  | Err e => nret (Err e)
  | Ok keys => storeInMemoryCache serverName keys;; nret (Ok keys)
  end.

Definition GetServerKeys (ctx : context) (serverName : bytes) : NQ (result fetch_err ServerKeysResponse) :=
  if ctx_Err ctx then nret (Err FetchContextCanceled)
  else
    t <-- nnow;;
    cached <-- cacheGet serverName;;
    match (match cached with Some c => if cacheEntryValid c t then Some c else None | None => None end) with
    | Some c => nret (Ok (cr_response c))
    | None =>
        (match cached with Some _ => cacheDelete serverName | None => nret tt end);;
        fromStorage <-- readStorage serverName;;
        match (match fromStorage with
               | Some r => if decide (toMilli t < ValidUntilTS r) then Some r else None
               | None => None end) with
        | Some r => storeInMemoryCache serverName r;; nret (Ok r)
        | None =>
            result <-- fetchAndStore ctx serverName;;
            match result with
            | Ok keys => nret (Ok keys)
            | Err e =>
                expired <-- cacheGet serverName;;
                match expired with
                | None => nret (Err e)
                | Some c =>
                    t' <-- nnow;;
                    if decide (t' < ofMilli (ValidUntilTS (cr_response c))) then nret (Ok (cr_response c)) else nret (Err e)
                end
            end
        end
    end.

Definition GetServerKeysWithCriteria (ctx : context) (serverName : bytes) (minValidUntil : Z)
  : NQ (result fetch_err ServerKeysResponse) :=
  r <-- GetServerKeys ctx serverName;;
  match r with
  | Err e => nret (Err e)
  | Ok keys =>
      if decide (minValidUntil > 0 /\ ValidUntilTS keys < minValidUntil)
      then fetchAndStore ctx serverName
      else nret (Ok keys)
  end.

End Cache.

(** ** The query ([notary_query.go]) *)

(** The Matrix error of a server: its code, and the message or the violation. *)
Inductive failure : Type :=
  | MatrixFailure (errcode message : bytes)
  | PolicyFailure (v : PolicyViolation).

Definition sanitizeQueryFailure (e : fetch_err) : failure :=
  match e with
  | FetchContextCanceled => MatrixFailure (bs "M_UNKNOWN") (bs "Request canceled")
  | FetchConcurrencyLimit | FetchCircuitOpen => MatrixFailure (bs "M_LIMIT_EXCEEDED") (bs "Upstream temporarily unavailable")
  | FetchResolveFailed => MatrixFailure (bs "M_NOT_FOUND") (bs "Unable to resolve remote server")
  | FetchAllFailed => MatrixFailure (bs "M_UNKNOWN") (bs "Unable to fetch remote server keys")
  | FetchSignatureInvalid _ | FetchServerNameMismatch | FetchNotaryRefused ErrNotaryKeyMismatch =>
      MatrixFailure (bs "M_INVALID_PARAM") (bs "Remote server keys failed verification")
  | _ => MatrixFailure (bs "M_UNKNOWN") (bs "Unable to obtain verified keys")
  end.

(** The criteria of a query: server, key ID, [minimum_valid_until_ts]. *)
Definition KeyQueryRequest : Type := gmap bytes (gmap bytes Z).

Record KeyQueryResponse : Type := mkQueryResponse {
  ServerKeys : list ServerKeysResponse;
  Failures : gmap bytes failure;
}.

(** The denied servers with their violations; [None] if a check panics. *)
Fixpoint policyFailures (tp : TrustPolicy) (names : list bytes) : option (gmap bytes failure) :=
  match names with
  | [] => Some ∅
  | name :: names =>
      v ← CheckServer tp name;
      rest ← policyFailures tp names;
      Some (match v with Some violation => <[name := PolicyFailure violation]> rest | None => rest end)
  end.

(** [applyTrustPolicyToRequest]: the failures, and the request without them. *)
Definition applyTrustPolicyToRequest (tp : option TrustPolicy) (request : KeyQueryRequest)
  : option (gmap bytes failure * KeyQueryRequest) :=
  match tp with
  | None => Some (∅, request)
  | Some tp =>
      failures ← policyFailures tp (map fst (map_to_list request));
      Some (failures, filter (fun kv => failures !! kv.1 = None) request)
  end.

Definition sortedServerNames (request : KeyQueryRequest) : list bytes := map fst (sortKeys (map_to_list request)).

Definition minimumValid (criteria : gmap bytes Z) : Z :=
  fold_left (fun m kv => if decide (m < kv.2) then kv.2 else m) (map_to_list criteria) 0.

Definition checkResponsePolicy (tp : option TrustPolicy) (t : Z) (serverName : bytes) (resp : ServerKeysResponse)
  : option PolicyViolation :=
  match tp with None => None | Some tp => CheckResponse t tp serverName resp end.

Section Query.
Context {E : Ed25519}.
Variable net : network.
Variable getKeys : context -> bytes -> Z -> NQ (result fetch_err ServerKeysResponse).
Variable decode : bytes -> option (list (bytes * gvalue)).
Variable n : Notary.
Variable tp : option TrustPolicy.

(** The raw form with this notary's signature; on an error the text stays as it
    was, and with it what [MarshalJSON] delivers. *)
Definition attachRaw (resp : ServerKeysResponse) : ServerKeysResponse :=
  if decide (Raw resp = []) then resp
  else match AttachNotarySignature decode (Raw resp) (serverName n) (serverKeyID n) (serverKeyPair n) with
       | Ok finalRaw => set_raw finalRaw resp
       | Err _ => resp
       end.

(** The body of the loop over the servers. *)
Definition queryOne (ctx : context) (name : bytes) (criteria : gmap bytes Z) : NQ (result failure ServerKeysResponse) :=
  r <-- getKeys ctx name (minimumValid criteria);;
  match r with
  | Err e => nret (Err (sanitizeQueryFailure e))
  | Ok keys =>
      match addNotarySignature n keys with
      | Err _ => nret (Err (MatrixFailure (bs "M_UNKNOWN") (bs "Internal signing error")))
      | Ok keysForResponse =>
          let keysForResponse := attachRaw keysForResponse in
          t <-- nnow net;;
          match checkResponsePolicy tp t name keysForResponse with
          | Some violation => nret (Err (PolicyFailure violation))
          | None => nret (Ok keysForResponse)
          end
      end
  end.

Fixpoint queryLoop (ctx : context) (request : KeyQueryRequest) (names : list bytes) (response : KeyQueryResponse)
  : NQ KeyQueryResponse :=
  match names with
  | [] => nret response
  | name :: names =>
      r <-- queryOne ctx name (default ∅ (request !! name));;
      queryLoop ctx request names
        match r with
        | Ok keys => mkQueryResponse (ServerKeys response ++ [keys]) (Failures response)
        | Err fl => mkQueryResponse (ServerKeys response) (<[name := fl]> (Failures response))
        end
  end.

(** [None] is a panic in a policy check, before anything is fetched. *)
Definition QueryKeys (ctx : context) (request : KeyQueryRequest) : option (NQ KeyQueryResponse) :=
  '(failures, request) ← applyTrustPolicyToRequest tp request;
  Some (queryLoop ctx request (sortedServerNames request) (mkQueryResponse [] failures)).

End Query.
