(* ===== verification/NotaryQueryProofs.v ===== *)
(** * A query answers for every server, within the policy *)
From S2P Require Import Prelude Base64 GoTime GoStrings Canonical CanonicalProofs NetIP TrustPolicy NotarySignature.
From S2P Require Import Resolver CircuitBreaker Fetcher FetcherProofs NotaryQuery.
From Stdlib Require Import ZArith Lia.
From stdpp Require Import base gmap list strings fin_maps.
#[local] Open Scope Z_scope.
#[local] Open Scope notary_scope.

(** ** The policy on the request *)

Lemma policyFailures_spec tp names failures :
  policyFailures tp names = Some failures ->
  forall name, match failures !! name with
               | Some fl => name ∈ names /\ exists v, fl = PolicyFailure v /\ CheckServer tp name = Some (Some v)
               | None => name ∈ names -> CheckServer tp name = Some None
               end.
Proof.
  revert failures. induction names as [|n names IH]; intros failures; simpl.
  { intros [= <-] name. rewrite lookup_empty. intros Hin. by apply elem_of_nil in Hin. }
  destruct (CheckServer tp n) as [v|] eqn:Ev; [|done]. simpl.
  destruct (policyFailures tp names) as [rest|]; [|done]. simpl. intros [= <-] name. specialize (IH rest eq_refl name).
  destruct v as [v|].
  - destruct (decide (name = n)) as [->|Hne].
    + rewrite lookup_insert_eq. split; [left|]. by exists v.
    + rewrite lookup_insert_ne by done. destruct (rest !! name) as [fl|].
      * destruct IH as [Hin Hfl]. split; [by right|done].
      * intros Hin. apply elem_of_cons in Hin as [->|Hin]; [done|by apply IH].
  - destruct (rest !! name) as [fl|].
    + destruct IH as [Hin Hfl]. split; [by right|done].
    + intros Hin. apply elem_of_cons in Hin as [->|Hin]; [done|by apply IH].
Qed.

(** The servers that the policy admits. *)
Definition admitted (tp : option TrustPolicy) (name : bytes) : Prop :=
  match tp with None => True | Some tp => CheckServer tp name = Some None end.

Lemma keys_elem (request : KeyQueryRequest) name : name ∈ map fst (map_to_list request) <-> is_Some (request !! name).
Proof.
  rewrite list_elem_of_In, in_map_iff. split.
  - intros ([k v] & <- & Hin). apply list_elem_of_In, elem_of_map_to_list in Hin. by exists v.
  - intros [v Hv]. exists (name, v). split; [done|]. by apply list_elem_of_In, elem_of_map_to_list.
Qed.

Lemma applyTrustPolicy_spec tp request failures request' :
  applyTrustPolicyToRequest tp request = Some (failures, request') ->
  dom failures ∪ dom request' = dom request /\ dom failures ## dom request'
  /\ (forall name, name ∈ dom request' -> admitted tp name)
  /\ (forall name fl, failures !! name = Some fl -> exists v, fl = PolicyFailure v /\ ~ admitted tp name).
Proof.
  unfold applyTrustPolicyToRequest, KeyQueryRequest in *. destruct tp as [tp|].
  - destruct (policyFailures tp _) as [fs|] eqn:Ef; simpl; [|done]. intros [= <- <-].
    pose proof (policyFailures_spec _ _ _ Ef) as H. split_and!.
    + apply set_eq. intros name. rewrite elem_of_union, !elem_of_dom. specialize (H name).
      destruct (fs !! name) as [fl|] eqn:El.
      * destruct H as [Hin _]. apply keys_elem in Hin. split; intros _; [done|]. left. by eexists.
      * split.
        -- intros [[? ?]|[c [Hc _]%map_lookup_filter_Some]]; [done|by eexists].
        -- intros [c Hc]. right. exists c. by apply map_lookup_filter_Some.
    + intros name. rewrite !elem_of_dom. intros [fl Hfl] [c [_ Hc]%map_lookup_filter_Some]. simpl in Hc. congruence.
    + intros name. rewrite elem_of_dom. intros [c [Hc Hn]%map_lookup_filter_Some]. simpl in Hn. specialize (H name).
      rewrite Hn in H. apply H, keys_elem. by eexists.
    + intros name fl Hfl. specialize (H name). rewrite Hfl in H. destruct H as (_ & v & -> & Hv).
      exists v. split; [done|]. simpl. by rewrite Hv.
  - intros [= <- <-]. split_and!; [by rewrite dom_empty_L, union_empty_l_L|by rewrite dom_empty_L|done|].
    intros name fl. by rewrite lookup_empty.
Qed.

Lemma sortedServerNames_spec (request : KeyQueryRequest) :
  NoDup (sortedServerNames request) /\ forall name, name ∈ sortedServerNames request <-> name ∈ dom request.
Proof.
  assert (sortedServerNames request ≡ₚ map fst (map_to_list request)) as Hp.
  { unfold sortedServerNames. by rewrite sortKeys_perm. }
  split.
  - rewrite Hp. apply NoDup_fst_map_to_list.
  - intros name. rewrite Hp, keys_elem. symmetry. apply (elem_of_dom (D := gset bytes)).
Qed.

(** ** The loop *)

Section Query.
Context {E : Ed25519} {HE : Ed25519Laws E}.
Variable net : network.
Variable getKeys : context -> bytes -> Z -> NQ (result fetch_err ServerKeysResponse).
Variable decode : bytes -> option (list (bytes * gvalue)).
Variable n : Notary.
Variable tp : option TrustPolicy.
Hypothesis Hkey : length (serverKeyPair n) = PrivateKeySize.

Abbreviation queryOne := (queryOne net getKeys decode n tp).
Abbreviation queryLoop := (queryLoop net getKeys decode n tp).
Abbreviation QueryKeys := (QueryKeys net getKeys decode n tp).

(** The pins of a peer that trusts this notary. *)
Definition pinned : gmap bytes TrustedNotaryKey :=
  {[serverName n := mkTrusted (serverName n) (serverKeyID n) (Public (serverKeyPair n))]}.

(** The text that is delivered for the origin's text [raw]: none for none, and the
    fields of the response speak; otherwise the canonical text of an object that has
    the origin's signed fields, the signatures of the other signers and a signature
    of this notary that verifies over the text a reader of the object computes; and
    if that text cannot be made, the origin's, as it was. *)
Definition textFor (raw out : bytes) : Prop :=
  (raw = [] /\ out = [])
  \/ (exists obj obj' sig signBytes,
        decode raw = Some obj /\ Marshal (VObject obj') = Ok out
        /\ signedPart obj' = signedPart obj
        /\ (forall signer, signer <> serverName n -> extractSignatures obj' !! signer = extractSignatures obj !! signer)
        /\ (extractSignatures obj' !! serverName n ≫= lookup (serverKeyID n)) = Some (EncodeRaw sig)
        /\ Marshal (VObject (buildSignable obj' (extractSignatures obj') (serverName n))) = Ok signBytes
        /\ Verify (Public (serverKeyPair n)) signBytes sig = true)
  \/ (raw <> [] /\ out = raw
      /\ exists e, AttachNotarySignature decode raw (serverName n) (serverKeyID n) (serverKeyPair n) = Err e).

(** What is delivered for a server: a response within the policy, whose fields are
    the keys that were obtained for the server and carry a signature of this notary
    that [verifyNotarySignature] accepts over them, and whose text is that of the
    keys with a signature of its own. *)
Definition delivered (ctx : context) (name : bytes) (resp : ServerKeysResponse) : Prop :=
  (exists t, checkResponsePolicy tp t name resp = None)
  /\ verifyNotarySignature pinned (serverName n) resp = None
  /\ exists keys minValid s s', getKeys ctx name minValid s = (Ok keys, s')
       /\ skr_ServerName resp = skr_ServerName keys /\ VerifyKeys resp = VerifyKeys keys
       /\ OldVerifyKeys resp = OldVerifyKeys keys /\ ValidUntilTS resp = ValidUntilTS keys
       /\ textFor (Raw keys) (Raw resp).

Lemma attachRaw_fields resp :
  exists raw, attachRaw decode n resp = set_raw raw resp /\ textFor (Raw resp) raw.
Proof.
  unfold attachRaw. case_decide as Hr; [exists (Raw resp); split; [by destruct resp|by left]|].
  destruct (AttachNotarySignature _ _ _ _ _) as [raw|e] eqn:Ea.
  - exists raw. split; [done|]. right. left. by apply raw_attach_preserves.
  - exists (Raw resp). split; [by destruct resp|]. right. right. split_and!; [done..|by exists e].
Qed.

Lemma verify_set_raw trusted notary raw resp :
  verifyNotarySignature trusted notary (set_raw raw resp) = verifyNotarySignature trusted notary resp.
Proof. done. Qed.

Lemma queryOne_delivers ctx name criteria s :
  match (queryOne ctx name criteria s).1 with Ok resp => delivered ctx name resp | Err _ => True end.
Proof.
  unfold NotaryQuery.queryOne, nbind at 1. destruct (getKeys ctx name (minimumValid criteria) s) as [[keys|e] s1] eqn:Eg; [|done].
  destruct (addNotarySignature n keys) as [signed|e] eqn:Ea; [|done].
  destruct (attachRaw_fields signed) as (raw & Er & Ht).
  unfold nbind. destruct (nnow net s1) as [t s2]. destruct (checkResponsePolicy _ _ _ _) eqn:Ec; [done|]. simpl.
  split; [by exists t|]. rewrite Er, verify_set_raw.
  destruct (perspective_signature_accepted n keys signed pinned (serverName n) Hkey (lookup_singleton_eq _ _) Ea) as (Hv & Hf & _).
  split; [done|]. exists keys, (minimumValid criteria), s, s1. split; [done|].
  destruct signed, keys. unfold set_signatures in Hf. simpl in *. injection Hf as -> -> -> -> ->. done.
Qed.

(** The servers answered so far, with their responses. *)
Lemma queryLoop_spec ctx request names response s :
  NoDup names -> (forall name, name ∈ names -> Failures response !! name = None) ->
  let final := (queryLoop ctx request names response s).1 in
  exists served : list (bytes * ServerKeysResponse),
    ServerKeys final = ServerKeys response ++ map snd served
    /\ Forall (fun nr => delivered ctx nr.1 nr.2) served
    /\ NoDup (map fst served)
    /\ (forall name, name ∈ map fst served -> name ∈ names /\ Failures final !! name = None)
    /\ (forall name, name ∈ names -> name ∈ map fst served \/ is_Some (Failures final !! name))
    /\ (forall name, name ∉ names -> Failures final !! name = Failures response !! name).
Proof.
  revert response s. induction names as [|name names IH]; intros response s Hnd Hf.
  { exists []. rewrite app_nil_r. split_and!; try done; intros x Hx; by apply elem_of_nil in Hx. }
  inversion Hnd as [|? ? Hn Hnd']; subst. simpl. unfold nbind.
  pose proof (queryOne_delivers ctx name (default ∅ (request !! name)) s) as Hone.
  destruct (queryOne ctx name (default ∅ (request !! name)) s) as [[keys|fl] s1]; simpl in Hone.
  - destruct (IH (mkQueryResponse (ServerKeys response ++ [keys]) (Failures response)) s1 Hnd') as (served & H1 & H2 & H3 & H4 & H5 & H6).
    { intros x Hx. apply Hf. by right. }
    assert (name ∉ map fst served) as Hns by (intros Hx; by apply H4 in Hx as [Hx _]).
    exists ((name, keys) :: served). cbn [map fst snd]. split_and!.
    + rewrite H1. simpl. by rewrite <- app_assoc.
    + by constructor.
    + by constructor.
    + intros x [->|Hx]%elem_of_cons; [split; [left|]; rewrite H6 by done; apply Hf; left|].
      apply H4 in Hx as [Hx Hfx]. split; [by right|done].
    + intros x [->|Hx]%elem_of_cons; [left; left|]. destruct (H5 x Hx) as [?|?]; [left; by right|by right].
    + intros x Hx. apply not_elem_of_cons in Hx as [_ Hx]. by apply H6.
  - destruct (IH (mkQueryResponse (ServerKeys response) (<[name := fl]> (Failures response))) s1 Hnd') as (served & H1 & H2 & H3 & H4 & H5 & H6).
    { intros x Hx. simpl. rewrite lookup_insert_ne by (intros ->; done). apply Hf. by right. }
    exists served. split_and!; try done.
    + intros x Hx. apply H4 in Hx as [Hx Hfx]. split; [by right|done].
    + intros x [->|Hx]%elem_of_cons; [right; rewrite H6 by done; simpl; rewrite lookup_insert_eq; by eexists|by apply H5].
    + intros x Hx. apply not_elem_of_cons in Hx as [Hne Hx]. rewrite H6 by done. simpl. by rewrite lookup_insert_ne by done.
Qed.


End Query.

(** ** Where keys come from *)

Section Cache.
Variable cacheTTLHours : Z.
Variable net : network.
Variable stored : nat -> bytes -> option ServerKeysResponse.
Variable fetchKeys : context -> bytes -> F (result fetch_err ServerKeysResponse).

Abbreviation GetServerKeys := (GetServerKeys cacheTTLHours net stored fetchKeys).
Abbreviation fetchAndStore := (fetchAndStore cacheTTLHours net fetchKeys).

(** The keys come from a cache: from a valid entry in memory or, unexpired, from
    the database. [t] is the reading the call starts with. *)
Definition fromCache (serverName : bytes) (s : nstate) (keys : ServerKeysResponse) : Prop :=
  let t := (nnow net s).1 in
  (exists c, ns_cache s !! serverName = Some c /\ cacheEntryValid c t = true /\ keys = cr_response c)
  \/ (stored (S (clockReads (fs_resolver (ns_fetch s)))) serverName = Some keys /\ toMilli t < ValidUntilTS keys).

(** The outcome is that of a fetch. *)
Definition fetched (ctx : context) (serverName : bytes) (r : result fetch_err ServerKeysResponse) : Prop :=
  exists fs fs', fetchKeys ctx serverName fs = (r, fs').

Lemma fetchAndStore_outcome ctx serverName s :
  exists fs', fetchKeys ctx serverName (ns_fetch s) = ((fetchAndStore ctx serverName s).1, fs')
    /\ (is_ok (fetchAndStore ctx serverName s).1 = false ->
        ns_cache (fetchAndStore ctx serverName s).2 = ns_cache s).
Proof.
  unfold NotaryQuery.fetchAndStore, nbind, nlift. destruct (fetchKeys ctx serverName (ns_fetch s)) as [[keys|e] fs'] eqn:Ef.
  - exists fs'. destruct (storeInMemoryCache _ _ _ _ _) as [u s1]. by split.
  - exists fs'. by split.
Qed.

(** Keys come from a cache or from a fetch, and a failure is that of the fetch. *)
Lemma GetServerKeys_outcome ctx serverName s :
  ctx_Err ctx = false ->
  match (GetServerKeys ctx serverName s).1 with
  | Ok keys => fromCache serverName s keys \/ fetched ctx serverName (Ok keys)
  | Err e => fetched ctx serverName (Err e)
  end.
Proof.
  unfold fromCache, NotaryQuery.GetServerKeys. intros ->.
  unfold nbind at 1. destruct (nnow net s) as [t s1] eqn:En.
  assert (ns_cache s1 = ns_cache s /\ clockReads (fs_resolver (ns_fetch s1)) = S (clockReads (fs_resolver (ns_fetch s))))
    as [Hcache Hreads] by (injection En as _ <-; done).
  unfold nbind at 1, cacheGet at 1. cbn [fst] in *. rewrite <- Hcache, <- Hreads.
  destruct (ns_cache s1 !! serverName) as [c|] eqn:Ec; [destruct (cacheEntryValid c t) eqn:Ev|].
  { left. left. by exists c. }
  all: unfold nbind at 1.
  1: destruct (cacheDelete serverName s1) as [u s2] eqn:Ep.
  2: destruct (nret tt s1) as [u s2] eqn:Ep.
  1: assert (ns_cache s2 !! serverName = None) as Hnone by (injection Ep as _ <-; apply lookup_delete_eq).
  2: assert (ns_cache s2 !! serverName = None) as Hnone by (injection Ep as _ <-; exact Ec).
  all: assert (ns_fetch s2 = ns_fetch s1) as <- by (injection Ep as _ <-; done).
  all: unfold nbind at 1, readStorage; destruct (stored _ serverName) as [r|];
       [destruct (decide (toMilli t < ValidUntilTS r)) as [Hr|Hr]|].
  1, 4: unfold nbind; destruct (storeInMemoryCache _ _ _ _ _) as [u' s3]; left; by right.
  all: unfold nbind at 1; destruct (fetchAndStore_outcome ctx serverName s2) as (fs' & Ef & Hc);
       destruct (fetchAndStore ctx serverName s2) as [[keys|e] s3]; cbn [fst snd is_ok] in *;
       [right; by do 2 eexists|].
  all: unfold nbind at 1, cacheGet; rewrite Hc by done; rewrite Hnone; by do 2 eexists.
Qed.

(** The entry that is past its time in the cache, but whose keys are still
    valid, is never used when the fetch fails: it was deleted before the fetch. *)
Theorem stale_entry_never_used ctx serverName s e :
  ctx_Err ctx = false -> (forall fs, (fetchKeys ctx serverName fs).1 = Err e) ->
  (forall k, stored k serverName = None) ->
  (forall c, ns_cache s !! serverName = Some c -> cacheEntryValid c (nnow net s).1 = false) ->
  (GetServerKeys ctx serverName s).1 = Err e.
Proof.
  intros Hctx Hfail Hnone Hstale. pose proof (GetServerKeys_outcome ctx serverName s Hctx) as Hout.
  destruct (GetServerKeys ctx serverName s).1 as [keys|e'].
  - destruct Hout as [[(c & Hc & Hv & _)|[Hs _]]|(fs & fs' & Hf)].
    + by rewrite (Hstale c Hc) in Hv.
    + by rewrite Hnone in Hs.
    + pose proof (Hfail fs) as He. by rewrite Hf in He.
  - destruct Hout as (fs & fs' & Hf). pose proof (Hfail fs) as He. rewrite Hf in He. by injection He as ->.
Qed.

End Cache.

(** ** Where no signature is delivered *)

(** An origin whose [unsigned] part holds a fraction: the text it signed is canonical,
    the whole object has none, so no signature can be attached to its text; the
    response keeps the text, which is what is sent, and in it nothing is signed by
    this notary. *)
Example unsigned_fraction_unattached :
  let obj := [(bs "server_name", VString (bs "origin.org")); (bs "unsigned", VNumber (bs "1.5"))] in
  let resp := set_raw (bs "{}") demo_response in
  (exists text, Marshal (VObject (buildSignable obj (extractSignatures obj) (bs "notary.org"))) = Ok text)
  /\ attachRaw (E := plainScheme) (fun _ => Some obj) demo_notary resp = resp
  /\ extractSignatures obj !! bs "notary.org" = None.
Proof. split_and!; [eexists|..]; vm_compute; reflexivity. Qed.

(** ** Instances *)

Definition demo_asked : KeyQueryRequest := {[bs "origin.org" := ∅; bs "down.org" := ∅; bs "a.spam.org" := ∅]}.

(** One server answers, one is down, and the policy refuses the third. *)
Definition demo_get : context -> bytes -> Z -> NQ (result fetch_err ServerKeysResponse) :=
  GetServerKeysWithCriteria 1 quietNet (fun _ _ => None)
    (fun _ name fs => (if decide (name = bs "origin.org") then Ok demo_keys else Err FetchAllFailed, fs)).

Definition demo_query : option (NQ KeyQueryResponse) :=
  QueryKeys (E := plainScheme) quietNet demo_get (fun _ => None) demo_notary (Some demo_policy) demo_ctx demo_asked.

Definition demo_state : nstate := mkNState demo_start ∅.

