(* ===== verification/RateLimit.v ===== *)
(** * The per-client rate limiter (internal/server/ratelimit.go)

    [container/list] as the program uses it: [order] is the sequence of element
    identities, front (most recently used) first; [elements] is the heap of the
    visitors those elements point to, in which a visitor survives its removal
    from the list, as it does for a request that still holds it; [visitors] maps
    a client address to its element.

    [golang.org/x/time/rate] is outside the repository: a limiter is a value of
    the parameter [Limiter], built by [NewLimiter] and asked by [LAllow] at an
    instant. *)
From S2P Require Import Prelude.
From Stdlib Require Import ZArith Lia.
From stdpp Require Import base gmap list strings fin_maps sorting.
#[local] Open Scope Z_scope.

Definition defaultMaxVisitors : Z := 100000.

(** [10 * time.Minute] in nanoseconds. *)
Definition defaultIdleTTL : Z := 600000000000.

Section RateLimit.
Context {Rate Limiter : Type}.
Variable NewLimiter : Rate -> Z -> Limiter.
Variable LAllow : Z -> Limiter -> bool * Limiter.

Record visitor : Type := mkVisitor {
  ip : bytes;
  limiter : Limiter;
  queryLimiter : Limiter;
  lastSeen : Z;
}.

Record RateLimitConfig : Type := mkRLConfig {
  GlobalRequestsPerSecond : Rate;
  GlobalBurst : Z;
  QueryRequestsPerSecond : Rate;
  QueryBurst : Z;
  MaxVisitors : Z;
  IdleTTL : Z;
}.

Record RateLimiter : Type := mkRL {
  visitors : gmap bytes nat;
  order : list nat;
  elements : gmap nat visitor;
  nextElement : nat;
  globalRate : Rate;
  globalBurst : Z;
  queryRate : Rate;
  queryBurst : Z;
  maxVisitors : Z;
  idleTTL : Z;
}.

Definition NewRateLimiter (cfg : RateLimitConfig) : RateLimiter :=
  mkRL ∅ [] ∅ 0 (GlobalRequestsPerSecond cfg) (GlobalBurst cfg)
    (QueryRequestsPerSecond cfg) (QueryBurst cfg)
    (if decide (MaxVisitors cfg <= 0) then defaultMaxVisitors else MaxVisitors cfg)
    (if decide (IdleTTL cfg <= 0) then defaultIdleTTL else IdleTTL cfg).

(** The fields the operations write. *)
Definition update (vs : gmap bytes nat) (o : list nat) (es : gmap nat visitor) (next : nat)
    (rl : RateLimiter) : RateLimiter :=
  mkRL vs o es next (globalRate rl) (globalBurst rl) (queryRate rl) (queryBurst rl)
    (maxVisitors rl) (idleTTL rl).

(** [order.Remove(el)] with [delete(visitors, v.ip)] of its visitor. *)
Definition dropElement (el : nat) (rl : RateLimiter) : RateLimiter :=
  update (match elements rl !! el with Some v => delete (ip v) (visitors rl) | None => visitors rl end)
    (filter (fun e => e <> el) (order rl)) (elements rl) (nextElement rl) rl.

Definition evictOldestLocked (rl : RateLimiter) : RateLimiter :=
  match last (order rl) with
  | None => rl
  | Some el => dropElement el rl
  end.

(** [getVisitor]: the element of the visitor it returns. *)
Definition getVisitor (now : Z) (addr : bytes) (rl : RateLimiter) : nat * RateLimiter :=
  match visitors rl !! addr with
  | Some el =>
      (el, update (visitors rl) (el :: filter (fun e => e <> el) (order rl))
             (alter (fun v => mkVisitor (ip v) (limiter v) (queryLimiter v) now) el (elements rl))
             (nextElement rl) rl)
  | None =>
      let rl := if decide (maxVisitors rl <= len (order rl)) then evictOldestLocked rl else rl in
      let v := mkVisitor addr (NewLimiter (globalRate rl) (globalBurst rl))
                 (NewLimiter (queryRate rl) (queryBurst rl)) now in
      let el := nextElement rl in
      (el, update (<[addr := el]> (visitors rl)) (el :: order rl) (<[el := v]> (elements rl)) (S el) rl)
  end.

(** The sweep of [cleanup], from the back of the list. *)
Fixpoint sweep (cutoff : Z) (els : list nat) (rl : RateLimiter) : RateLimiter :=
  match els with
  | [] => rl
  | el :: els =>
      match elements rl !! el with
      | Some v => if decide (~ lastSeen v < cutoff) then rl else sweep cutoff els (dropElement el rl)
      | None => rl
      end
  end.

Definition cleanup (now : Z) (rl : RateLimiter) : RateLimiter :=
  sweep (now - idleTTL rl) (rev (order rl)) rl.

(** The two middlewares: whether the request reaches the next handler, or is
    answered with 429. [now] is the clock read by [getVisitor], [now'] the one
    the limiter reads. The two calls are one step here; a request that runs between
    them in the code finds the map and the list as [getVisitor] left them. *)
Definition Middleware (now now' : Z) (addr : bytes) (rl : RateLimiter) : bool * RateLimiter :=
  let '(el, rl) := getVisitor now addr rl in
  match elements rl !! el with
  | None => (false, rl)
  | Some v =>
      let '(ok, l) := LAllow now' (limiter v) in
      (ok, update (visitors rl) (order rl) (<[el := mkVisitor (ip v) l (queryLimiter v) (lastSeen v)]> (elements rl))
             (nextElement rl) rl)
  end.

Definition QueryMiddleware (now now' : Z) (addr : bytes) (rl : RateLimiter) : bool * RateLimiter :=
  let '(el, rl) := getVisitor now addr rl in
  match elements rl !! el with
  | None => (false, rl)
  | Some v =>
      let '(ok, l) := LAllow now' (queryLimiter v) in
      (ok, update (visitors rl) (order rl) (<[el := mkVisitor (ip v) (limiter v) l (lastSeen v)]> (elements rl))
             (nextElement rl) rl)
  end.

(** ** The invariant *)

Definition seenAt (rl : RateLimiter) (el : nat) : Z := default 0 (lastSeen <$> elements rl !! el).

(** [tracked rl addr el]: the list holds the element of the client [addr]. *)
Definition tracked (rl : RateLimiter) (addr : bytes) (el : nat) : Prop :=
  el ∈ order rl /\ ip <$> elements rl !! el = Some addr.

(** The map and the list agree, elements are never reused, the table has room
    for its content, and the list is ordered by the last use up to [clock]. *)
Record limiterOK (clock : Z) (rl : RateLimiter) : Prop := mkOK {
  ok_nodup : NoDup (order rl);
  ok_alive : forall el, el ∈ order rl -> is_Some (elements rl !! el);
  ok_index : forall addr el, visitors rl !! addr = Some el <-> tracked rl addr el;
  ok_fresh : forall el, el ∈ order rl -> (el < nextElement rl)%nat;
  ok_room : len (order rl) <= maxVisitors rl;
  ok_max : 1 <= maxVisitors rl;
  ok_sorted : StronglySorted (fun a b => seenAt rl b <= seenAt rl a) (order rl);
  ok_clock : forall el, el ∈ order rl -> seenAt rl el <= clock;
}.

Lemma filter_id {A} (P : A -> Prop) `{!forall x, Decision (P x)} (l : list A) : Forall P l -> filter P l = l.
Proof. induction 1 as [|x l Hx _ IH]; [done|]. by rewrite filter_cons_True, IH. Qed.

Lemma StronglySorted_sublist {A} (R : A -> A -> Prop) l k : sublist l k -> StronglySorted R k -> StronglySorted R l.
Proof.
  induction 1 as [|x l k Hs IH|x l k Hs IH]; intros H; inversion H as [|? ? Hk Hf]; subst; [done| |by apply IH].
  constructor; [by apply IH|]. rewrite Forall_forall in *. intros y Hy. apply Hf.
  by eapply elem_of_sublist.
Qed.

Lemma StronglySorted_ext {A} (R Q : A -> A -> Prop) l :
  (forall a b, a ∈ l -> b ∈ l -> R a b -> Q a b) -> StronglySorted R l -> StronglySorted Q l.
Proof.
  intros HRQ. induction 1 as [|a l Hs IH Hf]; constructor.
  - apply IH. intros x y Hx Hy. apply HRQ; by right.
  - rewrite Forall_forall in *. intros x Hx. apply HRQ; [by left|by right|by apply Hf].
Qed.

Lemma limiterOK_clock c c' rl : c <= c' -> limiterOK c rl -> limiterOK c' rl.
Proof. intros Hc []. split; auto. intros el Hel. specialize (ok_clock0 el Hel). lia. Qed.

Lemma elem_of_drop rl el e : e ∈ order (dropElement el rl) <-> e <> el /\ e ∈ order rl.
Proof. unfold dropElement. simpl. by rewrite list_elem_of_filter. Qed.

Lemma drop_ok c rl el : limiterOK c rl -> el ∈ order rl -> limiterOK c (dropElement el rl).
Proof.
  intros Hok Hel. destruct Hok. destruct (ok_alive0 el Hel) as [v Hv].
  pose proof (sublist_filter (fun e => e <> el) (order rl)) as Hsub.
  split; try done.
  - simpl. eapply sublist_NoDup; eauto.
  - intros e He. apply elem_of_drop in He as [_ He]. by apply ok_alive0.
  - intros addr e. unfold tracked. rewrite elem_of_drop. unfold dropElement. simpl. rewrite Hv.
    destruct (decide (addr = ip v)) as [->|Hne].
    + rewrite lookup_delete_eq. split; [done|]. intros [[Hne He] Hip].
      assert (visitors rl !! ip v = Some e) as H1 by (by apply ok_index0).
      assert (visitors rl !! ip v = Some el) as H2 by (apply ok_index0; split; [done|by rewrite Hv]). congruence.
    + rewrite lookup_delete_ne by done. rewrite ok_index0. unfold tracked. split; [|tauto].
      intros [He Hip]. split; [|done]. split; [|done]. intros ->. rewrite Hv in Hip. simpl in Hip. congruence.
  - intros e He. apply elem_of_drop in He as [_ He]. by apply ok_fresh0.
  - simpl. unfold len in *. apply sublist_length in Hsub. lia.
  - simpl. by eapply StronglySorted_sublist.
  - intros e He. apply elem_of_drop in He as [_ He]. by apply ok_clock0.
Qed.

(** Replacing the limiters of a visitor. *)
Lemma set_limiters_ok c rl el v v' :
  limiterOK c rl -> elements rl !! el = Some v -> ip v' = ip v -> lastSeen v' = lastSeen v ->
  limiterOK c (update (visitors rl) (order rl) (<[el := v']> (elements rl)) (nextElement rl) rl).
Proof.
  intros [] Hv Hip Hseen.
  assert (forall e, ip <$> <[el := v']> (elements rl) !! e = ip <$> elements rl !! e) as Ei.
  { intros e. destruct (decide (e = el)) as [->|]; [rewrite lookup_insert_eq, Hv; simpl; congruence|by rewrite lookup_insert_ne]. }
  assert (forall e, seenAt (update (visitors rl) (order rl) (<[el := v']> (elements rl)) (nextElement rl) rl) e = seenAt rl e) as Es.
  { intros e. unfold seenAt. simpl.
    destruct (decide (e = el)) as [->|]; [rewrite lookup_insert_eq, Hv; simpl; congruence|by rewrite lookup_insert_ne]. }
  split; try done.
  - intros e He. destruct (decide (e = el)) as [->|]; simpl; [by rewrite lookup_insert_eq|rewrite lookup_insert_ne by done; auto].
  - intros addr e. unfold tracked. simpl. rewrite Ei. apply ok_index0.
  - simpl. eapply StronglySorted_ext; [|done]. intros a b _ _. by rewrite !Es.
  - intros e He. rewrite Es. by apply ok_clock0.
Qed.

Lemma evict_ok c rl : limiterOK c rl -> limiterOK c (evictOldestLocked rl).
Proof.
  intros H. unfold evictOldestLocked. destruct (last (order rl)) as [el|] eqn:E; [|done].
  apply drop_ok; [done|]. by eapply last_Some_elem_of.
Qed.

Lemma evict_fields rl :
  maxVisitors (evictOldestLocked rl) = maxVisitors rl /\ elements (evictOldestLocked rl) = elements rl
  /\ idleTTL (evictOldestLocked rl) = idleTTL rl /\ nextElement (evictOldestLocked rl) = nextElement rl
  /\ globalRate (evictOldestLocked rl) = globalRate rl /\ globalBurst (evictOldestLocked rl) = globalBurst rl
  /\ queryRate (evictOldestLocked rl) = queryRate rl /\ queryBurst (evictOldestLocked rl) = queryBurst rl.
Proof. unfold evictOldestLocked. by destruct (last (order rl)). Qed.

Lemma evict_room c rl :
  limiterOK c rl -> maxVisitors rl <= len (order rl) -> len (order (evictOldestLocked rl)) < maxVisitors rl.
Proof.
  intros Hok Hfull. unfold evictOldestLocked. destruct (last (order rl)) as [el|] eqn:E.
  - apply last_Some_elem_of in E. destruct Hok.
    assert (length (order (dropElement el rl)) < length (order rl))%nat as Hlt.
    { unfold dropElement. cbn [order update]. apply length_filter_lt with el; [done|].
      intros Hx. by apply Hx. }
    unfold len in *. lia.
  - apply last_None in E. destruct Hok. rewrite E, len_nil in *. lia.
Qed.

(** A new element at the front. *)
Lemma push_ok c now rl v :
  limiterOK c rl -> c <= now -> lastSeen v = now -> visitors rl !! ip v = None -> len (order rl) < maxVisitors rl ->
  limiterOK now (update (<[ip v := nextElement rl]> (visitors rl)) (nextElement rl :: order rl)
                   (<[nextElement rl := v]> (elements rl)) (S (nextElement rl)) rl).
Proof.
  intros Hok Hc Hv Hnew Hroom. destruct Hok. set (el := nextElement rl) in *.
  assert (forall e, e ∈ order rl -> e <> el) as Hne by (intros e He ->; specialize (ok_fresh0 _ He); lia).
  assert (forall e, e ∈ order rl -> seenAt (update (<[ip v := el]> (visitors rl)) (el :: order rl)
            (<[el := v]> (elements rl)) (S el) rl) e = seenAt rl e) as Es.
  { intros e He. unfold seenAt. simpl. by rewrite lookup_insert_ne by (symmetry; apply Hne, He). }
  split; cbn [order visitors elements nextElement update maxVisitors].
  - constructor; [|done]. intros He. by apply (Hne el He).
  - intros e He. apply elem_of_cons in He as [->|He]; [by rewrite lookup_insert_eq|].
    rewrite lookup_insert_ne by (symmetry; by apply Hne). by apply ok_alive0.
  - intros addr e. unfold tracked. cbn [order elements update]. rewrite elem_of_cons.
    destruct (decide (e = el)) as [->|Hee].
    + rewrite lookup_insert_eq. simpl. split.
      * intros Hl. split; [by left|]. destruct (decide (addr = ip v)) as [->|Ha]; [done|].
        rewrite lookup_insert_ne in Hl by done. apply ok_index0 in Hl as [He _]. by destruct (Hne el He).
      * intros [_ [= <-]]. by rewrite lookup_insert_eq.
    + rewrite (lookup_insert_ne (elements rl)) by done. destruct (decide (addr = ip v)) as [->|Ha].
      * rewrite lookup_insert_eq. split; [congruence|]. intros [[?|He] Hip]; [done|].
        assert (visitors rl !! ip v = Some e) by (by apply ok_index0). congruence.
      * rewrite lookup_insert_ne by done. rewrite ok_index0. unfold tracked. tauto.
  - intros e He. apply elem_of_cons in He as [->|He]; [lia|]. specialize (ok_fresh0 e He). lia.
  - rewrite len_cons. lia.
  - done.
  - constructor.
    + eapply StronglySorted_ext; [|done]. intros a b Ha Hb. by rewrite !Es.
    + apply Forall_forall. intros e He. rewrite Es by done. unfold seenAt at 2. simpl. rewrite lookup_insert_eq. simpl.
      specialize (ok_clock0 e He). lia.
  - intros e He. apply elem_of_cons in He as [->|He].
    + unfold seenAt. simpl. rewrite lookup_insert_eq. simpl. lia.
    + rewrite Es by done. specialize (ok_clock0 e He). lia.
Qed.

(** An element promoted to the front. *)
Lemma promote_ok c now rl el v :
  limiterOK c rl -> c <= now -> el ∈ order rl -> elements rl !! el = Some v ->
  limiterOK now (update (visitors rl) (el :: filter (fun e => e <> el) (order rl))
     (alter (fun v => mkVisitor (ip v) (limiter v) (queryLimiter v) now) el (elements rl)) (nextElement rl) rl).
Proof.
  intros Hok Hc Hel Hv. destruct Hok.
  set (rl' := update _ _ _ _ _).
  assert (forall e, e ∈ order rl' <-> e ∈ order rl) as Hin.
  { intros e. simpl. rewrite elem_of_cons, list_elem_of_filter. destruct (decide (e = el)) as [->|]; tauto. }
  assert (forall e, ip <$> elements rl' !! e = ip <$> elements rl !! e) as Ei.
  { intros e. simpl. destruct (decide (e = el)) as [->|]; [by rewrite lookup_alter_eq, Hv|by rewrite lookup_alter_ne]. }
  assert (seenAt rl' el = now) as Enow by (unfold seenAt; simpl; by rewrite lookup_alter_eq, Hv).
  assert (forall e, e <> el -> seenAt rl' e = seenAt rl e) as Es.
  { intros e He. unfold seenAt. simpl. by rewrite lookup_alter_ne. }
  pose proof (sublist_filter (fun e => e <> el) (order rl)) as Hsub.
  split.
  - simpl. constructor; [rewrite list_elem_of_filter; tauto|eapply sublist_NoDup; eauto].
  - intros e He. apply Hin in He. apply ok_alive0 in He as [w Hw]. simpl.
    destruct (decide (e = el)) as [->|]; [by rewrite lookup_alter_eq, Hv|rewrite lookup_alter_ne by done; eauto].
  - intros addr e. unfold tracked. rewrite Hin, Ei. apply ok_index0.
  - intros e He. apply Hin in He. by apply ok_fresh0.
  - simpl. rewrite len_cons. assert (length (filter (fun e => e <> el) (order rl)) < length (order rl))%nat.
    { apply length_filter_lt with el; [done|]. intros Hx. by apply Hx. }
    unfold len in *. lia.
  - done.
  - simpl order. constructor.
    + eapply StronglySorted_ext; [|by eapply StronglySorted_sublist].
      intros a b Ha Hb. apply list_elem_of_filter in Ha as [Ha _], Hb as [Hb _]. by rewrite !Es.
    + apply Forall_forall. intros e He. apply list_elem_of_filter in He as [He Hin'].
      rewrite Es, Enow by done. specialize (ok_clock0 e Hin'). lia.
  - intros e He. apply Hin in He. destruct (decide (e = el)) as [->|Hne]; [lia|].
    rewrite Es by done. specialize (ok_clock0 e He). lia.
Qed.

(** ** The specification: one pair of limiters per client *)

Definition freshLimiters (rl : RateLimiter) : Limiter * Limiter :=
  (NewLimiter (globalRate rl) (globalBurst rl), NewLimiter (queryRate rl) (queryBurst rl)).

(** The limiters the table holds for a client. *)
Definition limitersOf (rl : RateLimiter) (addr : bytes) : option (Limiter * Limiter) :=
  el ← visitors rl !! addr; v ← elements rl !! el; Some (limiter v, queryLimiter v).

(** [victim rl addr]: the table is full and [addr] is the least recently seen. *)
Definition victim (rl : RateLimiter) (addr : bytes) : Prop :=
  maxVisitors rl <= len (order rl) /\ exists el, last (order rl) = Some el /\ tracked rl addr el.

Lemma evict_visitors c rl addr :
  limiterOK c rl -> maxVisitors rl <= len (order rl) ->
  visitors (evictOldestLocked rl) !! addr = visitors rl !! addr
  \/ (victim rl addr /\ visitors (evictOldestLocked rl) !! addr = None).
Proof.
  intros Hok Hfull. unfold evictOldestLocked. destruct (last (order rl)) as [el|] eqn:E; [|by left].
  pose proof (last_Some_elem_of _ _ E) as Hel. destruct Hok. destruct (ok_alive0 el Hel) as [v Hv].
  unfold dropElement. simpl. rewrite Hv. destruct (decide (addr = ip v)) as [->|Hne].
  - right. split; [|apply lookup_delete_eq]. split; [done|]. exists el. split; [done|]. split; [done|by rewrite Hv].
  - left. by rewrite lookup_delete_ne.
Qed.

Lemma getVisitor_spec c now addr rl :
  limiterOK c rl -> c <= now ->
  let '(el, rl') := getVisitor now addr rl in
  limiterOK now rl' /\ visitors rl' !! addr = Some el
  /\ (exists v, elements rl' !! el = Some v
        /\ (limiter v, queryLimiter v) = default (freshLimiters rl) (limitersOf rl addr))
  /\ (forall other, other <> addr -> limitersOf rl' other = limitersOf rl other
        \/ (visitors rl !! addr = None /\ victim rl other /\ limitersOf rl' other = None))
  /\ maxVisitors rl' = maxVisitors rl /\ idleTTL rl' = idleTTL rl /\ freshLimiters rl' = freshLimiters rl.
Proof.
  intros Hok Hc. unfold getVisitor. destruct (visitors rl !! addr) as [el|] eqn:E.
  - pose proof Hok as []. pose proof (proj1 (ok_index0 _ _) E) as [Hel Hip].
    destruct (ok_alive0 el Hel) as [v Hv]. split_and!; [by eapply promote_ok|done| | |done|done|done].
    + eexists. simpl. rewrite lookup_alter_eq, Hv. simpl. split; [done|]. unfold limitersOf. rewrite E. simpl. by rewrite Hv.
    + intros other Hother. left. unfold limitersOf. simpl.
      destruct (visitors rl !! other) as [e|] eqn:Eo; [|done]. simpl.
      rewrite lookup_alter_ne; [done|]. intros <-. apply ok_index0 in Eo as [_ Ho]. congruence.
  - set (rl1 := if decide _ then _ else rl).
    assert (limiterOK c rl1) as Hok1 by (unfold rl1; case_decide; [by apply evict_ok|done]).
    assert (maxVisitors rl1 = maxVisitors rl /\ elements rl1 = elements rl /\ idleTTL rl1 = idleTTL rl
            /\ freshLimiters rl1 = freshLimiters rl) as (Hm & He & Hi & Hfr).
    { unfold rl1. case_decide; [|done]. unfold freshLimiters.
      destruct (evict_fields rl) as (->&->&->&_&->&->&->&->). done. }
    assert (len (order rl1) < maxVisitors rl1) as Hroom.
    { rewrite Hm. unfold rl1. case_decide; [by eapply evict_room|]. lia. }
    assert (forall other, visitors rl1 !! other = visitors rl !! other \/ victim rl other /\ visitors rl1 !! other = None) as Hvis.
    { intros other. unfold rl1. case_decide; [by eapply evict_visitors|by left]. }
    clearbody rl1. assert (visitors rl1 !! addr = None) as Enew by (destruct (Hvis addr) as [->|[_ ?]]; done).
    split_and!; [by apply (push_ok c now rl1 (mkVisitor addr (freshLimiters rl1).1 (freshLimiters rl1).2 now))|apply lookup_insert_eq| | |done|done|by rewrite <- Hfr].
    + eexists. simpl. rewrite lookup_insert_eq. split; [done|]. unfold limitersOf. rewrite E. simpl. exact Hfr.
    + intros other Hother. unfold limitersOf. simpl. rewrite lookup_insert_ne by done.
      destruct (visitors rl1 !! other) as [e|] eqn:Eo; simpl.
      * left. destruct (Hvis other) as [Hv|[_ Hv]]; [|congruence]. rewrite <- Hv, Eo. simpl.
        rewrite lookup_insert_ne; [by rewrite He|]. intros <-. destruct Hok1.
        apply ok_index0 in Eo as [Ho _]. specialize (ok_fresh0 _ Ho). lia.
      * destruct (Hvis other) as [Hv|[Hv _]]; [left; by rewrite <- Hv, Eo|by right].
Qed.

(** The common tail of the two middlewares. *)
Lemma serve_spec c now addr rl el rl1 v v' :
  limiterOK c rl -> c <= now -> getVisitor now addr rl = (el, rl1) -> elements rl1 !! el = Some v ->
  ip v' = ip v -> lastSeen v' = lastSeen v ->
  let rl' := update (visitors rl1) (order rl1) (<[el := v']> (elements rl1)) (nextElement rl1) rl1 in
  limiterOK now rl' /\ limitersOf rl' addr = Some (limiter v', queryLimiter v')
  /\ (forall other, other <> addr -> limitersOf rl' other = limitersOf rl other
        \/ (visitors rl !! addr = None /\ victim rl other /\ limitersOf rl' other = None))
  /\ maxVisitors rl' = maxVisitors rl /\ idleTTL rl' = idleTTL rl.
Proof.
  intros Hok Hc Hget Hv Hip Hseen rl'. pose proof (getVisitor_spec c now addr rl Hok Hc) as Hspec.
  rewrite Hget in Hspec. destruct Hspec as (Hok1 & Hvis & _ & Hother & Hm & Hi & _).
  split_and!; [by eapply set_limiters_ok| | |done|done].
  - unfold limitersOf, rl'. simpl. rewrite Hvis. simpl. by rewrite lookup_insert_eq.
  - intros other Hne. enough (limitersOf rl' other = limitersOf rl1 other) as -> by auto.
    unfold limitersOf, rl'. simpl. destruct (visitors rl1 !! other) as [e|] eqn:Eo; [|done]. simpl.
    rewrite lookup_insert_ne; [done|]. intros <-. destruct Hok1.
    apply ok_index0 in Eo as [_ Ho]. apply ok_index0 in Hvis as [_ Ha]. congruence.
Qed.

(** ** Reachable limiters *)

Inductive limiter_step : Z * RateLimiter -> Z * RateLimiter -> Prop :=
  | step_request c now now' addr rl : c <= now ->
      limiter_step (c, rl) (now, (Middleware now now' addr rl).2)
  | step_query c now now' addr rl : c <= now ->
      limiter_step (c, rl) (now, (QueryMiddleware now now' addr rl).2)
  | step_cleanup c now rl : c <= now -> limiter_step (c, rl) (now, cleanup now rl).

Definition reachable (cfg : RateLimitConfig) (s : Z * RateLimiter) : Prop :=
  exists c, rtc limiter_step (c, NewRateLimiter cfg) s.

Lemma Middleware_ok c now now' addr rl :
  limiterOK c rl -> c <= now -> limiterOK now (Middleware now now' addr rl).2
    /\ maxVisitors (Middleware now now' addr rl).2 = maxVisitors rl.
Proof.
  intros Hok Hc. pose proof (getVisitor_spec c now addr rl Hok Hc) as Hspec. unfold Middleware.
  destruct (getVisitor now addr rl) as [el rl1] eqn:Hget. destruct Hspec as (_ & _ & (v & Hv & _) & _).
  rewrite Hv. destruct (LAllow now' (limiter v)) as [ok l].
  by destruct (serve_spec c now addr rl el rl1 v (mkVisitor (ip v) l (queryLimiter v) (lastSeen v)) Hok Hc Hget Hv) as (?&_&_&?&_).
Qed.

Lemma QueryMiddleware_ok c now now' addr rl :
  limiterOK c rl -> c <= now -> limiterOK now (QueryMiddleware now now' addr rl).2
    /\ maxVisitors (QueryMiddleware now now' addr rl).2 = maxVisitors rl.
Proof.
  intros Hok Hc. pose proof (getVisitor_spec c now addr rl Hok Hc) as Hspec. unfold QueryMiddleware.
  destruct (getVisitor now addr rl) as [el rl1] eqn:Hget. destruct Hspec as (_ & _ & (v & Hv & _) & _).
  rewrite Hv. destruct (LAllow now' (queryLimiter v)) as [ok l].
  by destruct (serve_spec c now addr rl el rl1 v (mkVisitor (ip v) (limiter v) l (lastSeen v)) Hok Hc Hget Hv) as (?&_&_&?&_).
Qed.

(** The sweep over the back part [rev els] of a list sorted by last use. *)
Lemma sweep_spec c cutoff keep els rl :
  limiterOK c rl -> order rl = keep ++ rev els ->
  let rl' := sweep cutoff els rl in
  limiterOK c rl' /\ maxVisitors rl' = maxVisitors rl /\ elements rl' = elements rl
  /\ forall el, el ∈ order rl' <-> el ∈ order rl /\ (el ∈ keep \/ cutoff <= seenAt rl el).
Proof.
  revert rl. induction els as [|el els IH]; intros rl Hok Hord rl'; subst rl'; simpl.
  { split_and!; [done|done|done|]. intros e. rewrite Hord. simpl. rewrite app_nil_r. tauto. }
  simpl in Hord. rewrite app_assoc in Hord. pose proof Hok as [].
  assert (el ∈ [el]) as Hin by left.
  assert (el ∈ order rl) as Hel by (rewrite Hord; apply elem_of_app; by right).
  destruct (ok_alive0 el Hel) as [v Hv]. rewrite Hv.
  assert (seenAt rl el = lastSeen v) as Hseen by (unfold seenAt; by rewrite Hv).
  case_decide as Hd.
  - split_and!; [done|done|done|]. intros e. split; [|tauto]. intros He. split; [done|].
    rewrite Hord in He, ok_sorted0. apply elem_of_app in He as [He|He].
    + right. apply StronglySorted_app_1_elem_of with (x1 := e) (x2 := el) in ok_sorted0; [lia|done|done].
    + apply list_elem_of_singleton in He as ->. right. lia.
  - destruct (IH (dropElement el rl)) as (H1 & H2 & H3 & H4).
    + by apply drop_ok.
    + unfold dropElement. cbn [order update]. rewrite Hord in ok_nodup0 |- *.
      apply NoDup_app in ok_nodup0 as (_ & Hdis & _).
      rewrite filter_app, filter_cons_False, filter_nil, app_nil_r by (intros Hx; by apply Hx).
      apply filter_id. apply Forall_forall. intros x Hx ->. by apply (Hdis el Hx).
    + split_and!; [done|done|done|]. intros e. rewrite H4, elem_of_drop.
      change (seenAt (dropElement el rl) e) with (seenAt rl e).
      split; [tauto|]. intros [He Hor]. split; [split; [|done]|done]. intros ->.
      destruct Hor as [Hk|Hk]; [|lia]. rewrite Hord in ok_nodup0. apply NoDup_app in ok_nodup0 as (_ & Hdis & _).
      apply (Hdis el); [apply elem_of_app; by left|done].
Qed.

Lemma cleanup_keeps c now rl :
  limiterOK c rl ->
  limiterOK c (cleanup now rl) /\ maxVisitors (cleanup now rl) = maxVisitors rl
  /\ elements (cleanup now rl) = elements rl
  /\ forall el, el ∈ order (cleanup now rl) <-> el ∈ order rl /\ now - idleTTL rl <= seenAt rl el.
Proof.
  intros Hok. destruct (sweep_spec c (now - idleTTL rl) [] (rev (order rl)) rl Hok) as (H1 & H2 & H3 & H4).
  { by rewrite rev_involutive. }
  split_and!; [done|done|done|]. intros el. unfold cleanup. rewrite H4, elem_of_nil. tauto.
Qed.

Lemma step_ok c rl c' rl' : limiterOK c rl -> limiter_step (c, rl) (c', rl') ->
  limiterOK c' rl' /\ maxVisitors rl' = maxVisitors rl.
Proof.
  intros Hok Hst. inversion Hst; subst; [by eapply Middleware_ok|by eapply QueryMiddleware_ok|].
  destruct (cleanup_keeps c c' rl Hok) as (H1 & H2 & _). split; [|done]. by eapply limiterOK_clock.
Qed.

Lemma reachable_ok cfg c rl : reachable cfg (c, rl) ->
  limiterOK c rl /\ maxVisitors rl = maxVisitors (NewRateLimiter cfg).
Proof.
  intros [c0 H]. assert (limiterOK c0 (NewRateLimiter cfg)) as H0.
  { split; simpl; try (intros ? He; by apply not_elem_of_nil in He); try constructor.
    - done.
    - intros [He _]. by apply not_elem_of_nil in He.
    - rewrite len_nil. unfold defaultMaxVisitors. case_decide; lia.
    - unfold defaultMaxVisitors. case_decide; lia. }
  remember (c0, NewRateLimiter cfg) as s eqn:Es. remember (c, rl) as s' eqn:Es'.
  assert (limiterOK s.1 s.2 /\ maxVisitors s.2 = maxVisitors (NewRateLimiter cfg)) as Hs by by subst.
  assert (limiterOK s'.1 s'.2 /\ maxVisitors s'.2 = maxVisitors (NewRateLimiter cfg)) as Hs'; [|by subst].
  clear Es Es' H0. induction H as [|[ca a] [cb b] s' Hab _ IH]; [done|]. apply IH.
  destruct Hs as [Ha Hm]. destruct (step_ok _ _ _ _ Ha Hab) as [Hb Hmb]. split; [done|]. simpl in *. congruence.
Qed.

(** C39. Bounded memory of the limiter: in every state that requests and sweeps
    can reach under a clock that does not go back, at most [MaxVisitors] clients
    are tracked, the map and the list hold the same clients, each once, and the
    list runs from the most to the least recently seen. *)
Theorem limiter_bounded (cfg : RateLimitConfig) (c : Z) (rl : RateLimiter) (Hreach : reachable cfg (c, rl)) :
  Z.of_nat (size (visitors rl)) = len (order rl)
  /\ len (order rl) <= (if decide (MaxVisitors cfg <= 0) then defaultMaxVisitors else MaxVisitors cfg)
  /\ NoDup (order rl)
  /\ (forall addr el, visitors rl !! addr = Some el <-> tracked rl addr el)
  /\ StronglySorted (fun a b => seenAt rl b <= seenAt rl a) (order rl).
Proof.
  destruct (reachable_ok _ _ _ Hreach) as [Hok Hm]. pose proof Hok as []. rewrite Hm in ok_room0.
  split_and!; try done. unfold len. f_equal.
  rewrite <- length_map_to_list, <- (length_fmap snd). apply Permutation_length, NoDup_Permutation; [|done|].
  - apply NoDup_fmap_2_strong; [|apply NoDup_map_to_list].
    intros [a1 e1] [a2 e2] H1 H2 He. simpl in He. subst e2.
    apply elem_of_map_to_list in H1, H2. apply ok_index0 in H1 as H1', H2 as H2'.
    destruct H1' as [_ Hi1], H2' as [_ Hi2]. congruence.
  - intros el. rewrite list_elem_of_fmap. split.
    + intros ([a e] & -> & Hin). apply elem_of_map_to_list in Hin. by apply ok_index0 in Hin as [? _].
    + intros Hel. destruct (ok_alive0 el Hel) as [v Hv]. exists (ip v, el). split; [done|].
      apply elem_of_map_to_list, ok_index0. split; [done|by rewrite Hv].
Qed.

(** One limiter per client: a request is decided by its own client's
    limiter, a fresh one when the client is not tracked, and changes no other
    client's limiters; only the least recently seen client can be forgotten, and
    only when the table is full and the requester is new. *)
Theorem middleware_isolates (cfg : RateLimitConfig) (c : Z) (rl : RateLimiter) (now now' : Z) (addr : bytes)
    (Hreach : reachable cfg (c, rl)) (Hclock : c <= now) :
  let own := default (freshLimiters rl) (limitersOf rl addr) in
  let '(ok, rl1) := Middleware now now' addr rl in
  let '(okq, rl2) := QueryMiddleware now now' addr rl in
  ok = (LAllow now' own.1).1 /\ limitersOf rl1 addr = Some ((LAllow now' own.1).2, own.2)
  /\ okq = (LAllow now' own.2).1 /\ limitersOf rl2 addr = Some (own.1, (LAllow now' own.2).2)
  /\ forall other, other <> addr ->
       (limitersOf rl1 other = limitersOf rl other /\ limitersOf rl2 other = limitersOf rl other)
       \/ (visitors rl !! addr = None /\ victim rl other).
Proof.
  destruct (reachable_ok _ _ _ Hreach) as [Hok _].
  pose proof (getVisitor_spec c now addr rl Hok Hclock) as Hspec. unfold Middleware, QueryMiddleware.
  destruct (getVisitor now addr rl) as [el rl0] eqn:Hget. destruct Hspec as (_ & _ & (v & Hv & Hown) & _).
  rewrite <- Hown, Hv. cbn [fst snd]. clear Hown.
  destruct (LAllow now' (limiter v)) as [ok l] eqn:E1, (LAllow now' (queryLimiter v)) as [okq q] eqn:E2.
  destruct (serve_spec c now addr rl el rl0 v (mkVisitor (ip v) l (queryLimiter v) (lastSeen v)) Hok Hclock Hget Hv)
    as (_ & H1 & H2 & _); [done|done|].
  destruct (serve_spec c now addr rl el rl0 v (mkVisitor (ip v) (limiter v) q (lastSeen v)) Hok Hclock Hget Hv)
    as (_ & H3 & H4 & _); [done|done|].
  split_and!; try done. intros other Hne.
  destruct (H2 other Hne) as [Ha|(?&?&_)]; [|by right]. destruct (H4 other Hne) as [Hb|(?&?&_)]; [|by right]. by left.
Qed.

(** The sweep: in every reachable state, walking from the tail and stopping
    at the first recent visitor forgets exactly the clients that were idle for
    longer than [idleTTL]. *)
Theorem cleanup_exact (cfg : RateLimitConfig) (c : Z) (rl : RateLimiter) (now : Z) (addr : bytes) (el : nat)
    (Hreach : reachable cfg (c, rl)) (Hclock : c <= now) :
  visitors (cleanup now rl) !! addr = Some el <->
  visitors rl !! addr = Some el /\ now - idleTTL rl <= seenAt rl el.
Proof.
  destruct (reachable_ok _ _ _ Hreach) as [Hok _].
  destruct (cleanup_keeps c now rl Hok) as (Hok' & _ & He & Hord).
  destruct Hok, Hok'. rewrite ok_index1, ok_index0. unfold tracked. rewrite He, Hord. tauto.
Qed.

End RateLimit.

(** ** Witnesses

    A token bucket without refill stands for [golang.org/x/time/rate]. *)

#[local] Abbreviation newBucket := (fun (_ : unit) (burst : Z) => burst).
#[local] Abbreviation takeToken := (fun (_ : Z) (tokens : Z) => if decide (0 < tokens) then (true, tokens - 1) else (false, tokens)).
#[local] Abbreviation demoConfig := (mkRLConfig tt 2 tt 1 1 100).
#[local] Abbreviation demoLimiter := ((Middleware newBucket takeToken 10 10 (bs "10.0.0.1") (NewRateLimiter demoConfig)).2).

Lemma demo_reachable : reachable newBucket takeToken demoConfig (10, demoLimiter).
Proof. exists 0. apply rtc_once. by apply step_request. Qed.

Lemma limiter_bounded_witness : len (order demoLimiter) <= 1.
Proof. apply (limiter_bounded newBucket takeToken demoConfig 10 demoLimiter demo_reachable). Defined.

Lemma middleware_isolates_witness :
  (Middleware newBucket takeToken 20 20 (bs "10.0.0.2") demoLimiter).1 = true
  /\ limitersOf (QueryMiddleware newBucket takeToken 20 20 (bs "10.0.0.1") demoLimiter).2 (bs "10.0.0.1") = Some (1, 0).
Proof.
  pose proof (middleware_isolates newBucket takeToken demoConfig 10 demoLimiter 20 20 (bs "10.0.0.2")
    demo_reachable ltac:(lia)) as H.
  pose proof (middleware_isolates newBucket takeToken demoConfig 10 demoLimiter 20 20 (bs "10.0.0.1")
    demo_reachable ltac:(lia)) as H'.
  cbv zeta in H, H'. destruct (Middleware newBucket takeToken 20 20 (bs "10.0.0.2") demoLimiter) as [ok1 rl1].
  destruct (QueryMiddleware newBucket takeToken 20 20 (bs "10.0.0.2") demoLimiter).
  destruct (Middleware newBucket takeToken 20 20 (bs "10.0.0.1") demoLimiter).
  destruct (QueryMiddleware newBucket takeToken 20 20 (bs "10.0.0.1") demoLimiter).
  destruct H as (-> & _), H' as (_ & _ & _ & H' & _). split; [vm_compute; reflexivity|].
  simpl. rewrite H'. vm_compute. reflexivity.
Defined.

Lemma cleanup_exact_witness : visitors (cleanup 200 demoLimiter) !! bs "10.0.0.1" <> Some 0%nat.
Proof.
  intros H. apply (cleanup_exact newBucket takeToken demoConfig 10 demoLimiter 200 _ _ demo_reachable) in H as [_ H].
  - vm_compute in H. by apply H.
  - lia.
Defined.
