(* ===== verification/ClientIP.v ===== *)
(** * The client address behind proxies (server/client_ip.go)

    Which address a request is accounted to by the rate limiter and the logs:
    the direct peer, or, when the peer is a trusted proxy, the rightmost address
    of X-Forwarded-For that is not one. The package variables are the record
    [ClientIPPolicy]; a header is the list of its values, of which [Get] returns
    the first. *)
From S2P Require Import Prelude Decimal GoStrings NetIP NetIPProofs.
From Stdlib Require Import ZArith Lia.
From stdpp Require Import base list strings.
#[local] Open Scope Z_scope.

Record ClientIPPolicy : Type := mkClientIPPolicy {
  trustForwardedHeaders : bool;
  trustedProxyNetworks : list IPNet;
}.

Record Request : Type := mkRequest {
  RemoteAddr : bytes;
  XForwardedFor : list bytes;
  XRealIP : list bytes;
}.

(** [Header.Get]. *)
Definition headerGet (values : list bytes) : bytes := default [] (head values).

(** [net.SplitHostPort], up to the host; [None] is the error. *)
Definition SplitHost (hostport : bytes) : option bytes :=
  match LastIndexByte hostport Byte.x3a with
  | None => None
  | Some i =>
      if decide (head hostport = Some Byte.x5b) then
        match Index_ hostport (bs "]") with
        | None => None
        | Some e =>
            if decide (e + 1 <> i)%nat then None
            else if decide (Byte.x5b ∈ drop 1 hostport \/ Byte.x5d ∈ drop (e + 1) hostport) then None
            else Some (drop 1 (take e hostport))
        end
      else
        let host := take i hostport in
        if decide (Byte.x3a ∈ host \/ Byte.x5b ∈ hostport \/ Byte.x5d ∈ hostport) then None else Some host
  end.

(** The networks of the configured proxies; [None] is the error. *)
Fixpoint proxyNetworks (trustedProxies : list bytes) : option (list IPNet) :=
  match trustedProxies with
  | [] => Some []
  | raw :: rest =>
      let raw := TrimSpace raw in
      if decide (raw = []) then proxyNetworks rest
      else
        network ← match ParseIP raw with
                  | Some ip => Some (match To4 ip with Some _ => mkNet ip true 32 | None => mkNet ip false 128 end)
                  | None => ParseCIDR raw
                  end;
        networks ← proxyNetworks rest;
        Some (network :: networks)
  end.

(** An error leaves the policy as it was. *)
Definition ConfigureClientIPPolicy (trustForwarded : bool) (trustedProxies : list bytes) (p : ClientIPPolicy)
  : bool * ClientIPPolicy :=
  match proxyNetworks trustedProxies with
  | None => (false, p)
  | Some networks => (true, mkClientIPPolicy trustForwarded networks)
  end.

Definition isTrustedProxyIP (p : ClientIPPolicy) (ip : IP) : bool :=
  existsb (fun network => netContains network ip) (trustedProxyNetworks p).

Definition shouldTrustForwardedHeaders (p : ClientIPPolicy) (directIP : option IP) : bool :=
  match directIP with
  | None => false
  | Some ip => if negb (trustForwardedHeaders p) then false else isTrustedProxyIP p ip
  end.

Definition directPeerIP (r : Request) : option IP :=
  match SplitHost (RemoteAddr r) with
  | None => ParseIP (TrimSpace (RemoteAddr r))
  | Some host => ParseIP (TrimSpace host)
  end.

Definition forwardedIPChain (header : bytes) : list IP :=
  omap (fun candidate => ParseIP (TrimSpace candidate)) (Split header Byte.x2c).

(** The loop from the right, then the leftmost address. *)
Definition rightmostUntrusted (p : ClientIPPolicy) (chain : list IP) : option IP :=
  match List.find (fun ip => negb (isTrustedProxyIP p ip)) (rev chain) with
  | Some ip => Some ip
  | None => head chain
  end.

Definition realIP (r : Request) : option IP :=
  let xri := TrimSpace (headerGet (XRealIP r)) in
  if decide (xri <> []) then ParseIP xri else None.

Definition forwardedClientIP (p : ClientIPPolicy) (r : Request) : option IP :=
  let xff := headerGet (XForwardedFor r) in
  if decide (xff <> []) then
    match rightmostUntrusted p (forwardedIPChain xff) with
    | Some ip => Some ip
    | None => realIP r
    end
  else realIP r.

Definition clientIPFromRequest (p : ClientIPPolicy) (r : Request) : bytes :=
  let directIP := directPeerIP r in
  let direct := match directIP with None => RemoteAddr r | Some ip => IP_String ip end in
  if shouldTrustForwardedHeaders p directIP then
    match forwardedClientIP p r with
    | Some ip => IP_String ip
    | None => direct
    end
  else direct.

(** ** What a client can forge *)

Lemma Split_sep a c b : Split (a ++ c :: b) c = Split a c ++ Split b c.
Proof.
  pose proof (Split_free a c) as Hf. pose proof (Split_not_nil a c) as Hne.
  rewrite <- (Join_Split a c) at 1. revert Hf Hne. generalize (Split a c) as parts.
  induction 1 as [|part parts Hp _ IH]; [done|]. intros _. destruct parts as [|q parts]; [by apply Split_app|].
  change (Join_ (part :: q :: parts) c) with (part ++ c :: Join_ (q :: parts) c). rewrite <- app_assoc.
  change ((c :: ?x) ++ ?y) with (c :: x ++ y). rewrite Split_app by done. by rewrite IH.
Qed.

Lemma chain_app forged real :
  forwardedIPChain (forged ++ Byte.x2c :: real) = forwardedIPChain forged ++ forwardedIPChain real.
Proof. unfold forwardedIPChain. by rewrite Split_sep, omap_app. Qed.

Lemma find_app {A} (f : A -> bool) l l' x : List.find f l = Some x -> List.find f (l ++ l') = Some x.
Proof. induction l as [|a l IH]; [done|]. simpl. by destruct (f a). Qed.

(** A chain with an untrusted address decides, whatever is put in front. *)
Lemma rightmost_app p chain :
  Exists (fun ip => isTrustedProxyIP p ip = false) chain ->
  exists ip, ip ∈ chain /\ isTrustedProxyIP p ip = false
    /\ forall forged, rightmostUntrusted p (forged ++ chain) = Some ip.
Proof.
  intros He. unfold rightmostUntrusted.
  destruct (List.find (fun ip => negb (isTrustedProxyIP p ip)) (rev chain)) as [ip|] eqn:E.
  - apply find_some in E as E'. destruct E' as [Hin Ht]. exists ip. rewrite <- in_rev in Hin.
    split; [by apply list_elem_of_In|]. split; [by apply negb_true_iff|].
    intros forged. by rewrite rev_app_distr, (find_app _ _ _ _ E).
  - apply Exists_exists in He as (ip & Hin & Ht). apply list_elem_of_In, in_rev in Hin.
    by apply (find_none _ _ E) in Hin; rewrite Ht in Hin.
Qed.

(** C33. When a client cannot choose the address it is accounted to. Without trust in
    the direct peer, no header matters. Behind a trusted proxy, let [real] be the list
    that the proxies appended. If it holds an address that parses and is not a
    proxy's, then the result is such an address of [real], whatever the client wrote
    in front of it, in further header lines or in X-Real-IP. If [real] holds no such
    address, because what the proxies appended does not parse or names proxies only,
    nothing is promised: the client's part is then searched
    ([unparsable_entry_skipped]). *)
Theorem client_ip_unforgeable p remote :
  (shouldTrustForwardedHeaders p (directPeerIP (mkRequest remote [] [])) = false ->
   forall xff xri, clientIPFromRequest p (mkRequest remote xff xri) = clientIPFromRequest p (mkRequest remote [] []))
  /\ (shouldTrustForwardedHeaders p (directPeerIP (mkRequest remote [] [])) = true ->
      forall real, Exists (fun ip => isTrustedProxyIP p ip = false) (forwardedIPChain real) ->
      exists ip, ip ∈ forwardedIPChain real /\ isTrustedProxyIP p ip = false
        /\ clientIPFromRequest p (mkRequest remote [real] []) = IP_String ip
        /\ forall forged more xri,
             clientIPFromRequest p (mkRequest remote ((forged ++ Byte.x2c :: real) :: more) xri) = IP_String ip).
Proof.
  assert (forall xff xri, directPeerIP (mkRequest remote xff xri) = directPeerIP (mkRequest remote [] [])) as Hd by done.
  unfold clientIPFromRequest. split.
  - intros Ht xff xri. by rewrite Hd, Ht.
  - intros Ht real He. destruct (rightmost_app p _ He) as (ip & Hin & Hn & Hr). exists ip.
    split; [done|]. split; [done|]. assert (real <> []) as Hne.
    { intros ->. assert (forwardedIPChain [] = []) as E by (by vm_compute). rewrite E in He. by apply Exists_nil in He. }
    rewrite Hd, Ht. unfold forwardedClientIP. split.
    + change (headerGet (XForwardedFor (mkRequest remote [real] []))) with real.
      specialize (Hr []). change ([] ++ ?l) with l in Hr. rewrite decide_True by done. by rewrite Hr.
    + intros forged more xri. rewrite Hd, Ht.
      change (headerGet (XForwardedFor (mkRequest remote (?l :: more) xri))) with l.
      rewrite decide_True by (by destruct forged). by rewrite chain_app, Hr.
Qed.

Definition demo_proxies : ClientIPPolicy :=
  (ConfigureClientIPPolicy true [bs "10.0.0.0/8"; bs " ::1 "] (mkClientIPPolicy false [])).2.

Lemma demo_chain : forwardedIPChain (bs "203.0.113.7, 10.1.2.3") = [mapped 3405803783; mapped 167838211].
Proof. by vm_compute. Qed.

Lemma demo_untrusted :
  Exists (fun ip => isTrustedProxyIP demo_proxies ip = false) (forwardedIPChain (bs "203.0.113.7, 10.1.2.3")).
Proof. rewrite demo_chain. left. by vm_compute. Qed.

Lemma client_ip_unforgeable_witness :
  (forall xff xri, clientIPFromRequest demo_proxies (mkRequest (bs "192.0.2.1:5000") xff xri)
                   = clientIPFromRequest demo_proxies (mkRequest (bs "192.0.2.1:5000") [] []))
  /\ exists ip, ip ∈ forwardedIPChain (bs "203.0.113.7, 10.1.2.3") /\ isTrustedProxyIP demo_proxies ip = false
       /\ clientIPFromRequest demo_proxies (mkRequest (bs "[::1]:5000") [bs "203.0.113.7, 10.1.2.3"] []) = IP_String ip
       /\ forall forged more xri,
            clientIPFromRequest demo_proxies
              (mkRequest (bs "[::1]:5000") ((forged ++ Byte.x2c :: bs "203.0.113.7, 10.1.2.3") :: more) xri) = IP_String ip.
Proof.
  split.
  - apply (proj1 (client_ip_unforgeable demo_proxies (bs "192.0.2.1:5000"))). by vm_compute.
  - refine (proj2 (client_ip_unforgeable demo_proxies (bs "[::1]:5000")) _ _ demo_untrusted). by vm_compute.
Defined.

Example client_vectors :
  clientIPFromRequest demo_proxies (mkRequest (bs "10.0.0.9:80") [bs "1.2.3.4, 203.0.113.7, 10.1.2.3"] []) = bs "203.0.113.7"
  /\ clientIPFromRequest demo_proxies (mkRequest (bs "192.0.2.1:5000") [bs "1.2.3.4"] []) = bs "192.0.2.1"
  /\ clientIPFromRequest demo_proxies (mkRequest (bs "10.0.0.9:80") [] [bs " 2001:db8::1 "]) = bs "2001:db8::1"
  /\ clientIPFromRequest demo_proxies (mkRequest (bs "nonsense") [] []) = bs "nonsense".
Proof. by vm_compute. Qed.

(** An entry that is not an address is passed over, also when a trusted proxy
    appended it: with the port that some proxies add, the address the client
    wrote in front of it is taken. *)
Theorem unparsable_entry_skipped :
  clientIPFromRequest demo_proxies (mkRequest (bs "10.0.0.9:80") [bs "1.2.3.4, 203.0.113.7:40001"] []) = bs "1.2.3.4".
Proof. by vm_compute. Qed.

(** Two addresses are never accounted under one key. *)
Theorem client_keys_distinct ip ip' : ip_ok ip -> ip_ok ip' -> IP_String ip = IP_String ip' -> ip = ip'.
Proof. intros H H' E. apply ParseIP_String in H, H'. congruence. Qed.
