(* ===== verification/ConfigProofs.v ===== *)
(** * What a configuration that loads promises to the components it configures

    [Validate] repeats, or approximates, the checks that the components make of
    their settings when they are set up. *)
From S2P Require Import Prelude Crypto Decimal Base64 GoTime GoStrings NetIP Canonical.
From S2P Require Import NotarySignature FileIO RaftTypes Wal RaftNode RaftSnapshot Merkle Transparency.
From S2P Require Import TrustPolicy ConfigMap Config ClientIP.
From Stdlib Require Import ZArith Lia.
From stdpp Require Import base gmap list strings fin_maps.
#[local] Open Scope Z_scope.
#[local] Set Warnings "-register-all".

(** ** Validation *)

Lemma firstError_None checks : firstError checks = None -> Forall (fun c => c.1 = true) checks.
Proof. induction checks as [|[ok name] checks IH]; cbn [firstError]; [by constructor|]. destruct ok; [|done]. intros H. constructor; auto. Qed.

(** A check that is among those that passed. *)
Lemma check_passed checks ok name : firstError checks = None -> (ok, name) ∈ checks -> ok = true.
Proof. intros H Hin. apply firstError_None in H. rewrite Forall_forall in H. by apply (H _ Hin). Qed.

Lemma Validate_None c :
  Validate c = None ->
  firstError (generalChecks c) = None /\ validateCluster (c_Cluster c) = None
  /\ validateTrustedNotaries (sec_TrustedNotaries (c_Security c)) = None.
Proof.
  unfold Validate. destruct (firstError (generalChecks c)); [done|]. destruct (validateCluster _); [done|].
  by destruct (validateTrustedNotaries _).
Qed.

Ltac among := apply list_elem_of_In; repeat first [left; reflexivity | right].

Lemma proxies_configure c trust p :
  firstError (generalChecks c) = None ->
  (ConfigureClientIPPolicy trust (sec_TrustedProxies (c_Security c)) p).1 = true.
Proof.
  intros H. assert (forallb proxyValid (sec_TrustedProxies (c_Security c)) = true) as Hv
    by (apply (check_passed _ _ "security.trusted_proxies"%string H); unfold generalChecks; among).
  unfold ConfigureClientIPPolicy. assert (is_Some (proxyNetworks (sec_TrustedProxies (c_Security c)))) as [nets ->]; [|done].
  induction (sec_TrustedProxies (c_Security c)) as [|raw rest IH]; [by eexists|]. cbn [forallb proxyNetworks] in *.
  apply andb_prop in Hv as [Hraw Hv]. destruct (IH Hv) as [nets Hn]. case_decide; [by eexists|]. unfold proxyValid in Hraw.
  destruct (ParseIP (TrimSpace raw)); [|apply bool_decide_eq_true in Hraw as [net ->]];
    cbn [mbind option_bind]; rewrite Hn; cbn [mbind option_bind]; eauto.
Qed.

(** ** The notaries' keys *)

Definition trimmed_key (n : TrustedNotary) : Prop := TrimSpace (ctn_PublicKey n) = ctn_PublicKey n.

Lemma notaries_decode ns :
  Forall trimmed_key ns -> validateTrustedNotaries ns = None ->
  exists keys, decodeTrustedNotaries ns = Some keys /\ Forall (fun k => length (tn_PublicKey k) = PublicKeySize) keys
    /\ map (fun k => (tn_ServerName k, tn_KeyID k)) keys = map (fun n => (ctn_ServerName n, ctn_KeyID n)) ns.
Proof.
  induction 1 as [|n ns Hn Hns IH]; cbn [validateTrustedNotaries decodeTrustedNotaries]; [by exists []|].
  destruct (checkNotary n) eqn:E; [done|]. intros H. destruct (IH H) as (keys & -> & Hlen & Hnames).
  unfold checkNotary in E. rewrite Hn in E.
  pose proof (check_passed _ (match decodeNotaryPublicKey (ctn_PublicKey n) with Some b => bool_decide (length b = PublicKeySize) | None => false end)
    "trusted_notaries.public_key"%string E ltac:(among)) as Hk.
  fold (decodeNotaryPublicKey (ctn_PublicKey n)). destruct (decodeNotaryPublicKey (ctn_PublicKey n)) as [b|]; [|done].
  apply bool_decide_eq_true in Hk. cbn [mbind option_bind]. eexists. split; [done|]. split; [by constructor|].
  cbn [map]. f_equal. exact Hnames.
Qed.

Lemma notaryOfChunk_trimmed chunk n : notaryOfChunk chunk = Some n -> trimmed_key n.
Proof.
  unfold notaryOfChunk. destruct (Split chunk Byte.x7c) as [|a [|b [|c [|]]]]; try done. destruct (completeNotary _); [|done].
  intros [= <-]. apply TrimSpace_idem.
Qed.

Lemma env_notaries_trimmed v : Forall trimmed_key (parseTrustedNotariesEnv v).
Proof.
  apply Forall_forall. intros n Hn. apply list_elem_of_omap in Hn as (chunk & _ & H). by apply notaryOfChunk_trimmed in H.
Qed.

Lemma map_notaries_trimmed f : Forall trimmed_key (parseTrustedNotariesFromMap f).
Proof.
  apply Forall_forall. intros n Hn. apply list_elem_of_In, filter_In in Hn as [Hn _].
  apply in_map_iff in Hn as (item & <- & _). apply TrimSpace_idem.
Qed.

Section Loading.
Variable ParseFloat : bytes -> option float64.
Variable ParseDuration : bytes -> option Z.

Lemma applyMapConfig_trimmed f c :
  Forall trimmed_key (sec_TrustedNotaries (c_Security c)) ->
  Forall trimmed_key (sec_TrustedNotaries (c_Security (applyMapConfig ParseFloat ParseDuration f c))).
Proof. intros Hc. cbn. case_decide; [apply map_notaries_trimmed|done]. Qed.

Lemma rbind_Ok {E A B} (r : result E A) (k : A -> result E B) b : rbind r k = Ok b -> exists a, r = Ok a /\ k a = Ok b.
Proof. destruct r as [a|e]; cbn [rbind]; [eauto|done]. Qed.

Lemma envSecurity_trimmed environ c c' :
  Forall trimmed_key (sec_TrustedNotaries c) -> envSecurity environ c = Ok c' -> Forall trimmed_key (sec_TrustedNotaries c').
Proof.
  intros Hc H. unfold envSecurity in H. do 6 (apply rbind_Ok in H as (? & _ & H)). injection H as <-. cbn [sec_TrustedNotaries].
  case_decide; [apply env_notaries_trimmed|done].
Qed.

Lemma applyEnvOverrides_trimmed environ c c' :
  Forall trimmed_key (sec_TrustedNotaries (c_Security c)) -> applyEnvOverrides ParseFloat environ c = Ok c' ->
  Forall trimmed_key (sec_TrustedNotaries (c_Security c')).
Proof.
  intros Hc H. unfold applyEnvOverrides in H. do 4 (apply rbind_Ok in H as (? & _ & H)).
  apply rbind_Ok in H as (sec & Hsec & H). do 3 (apply rbind_Ok in H as (? & _ & H)). injection H as <-. cbn [c_Security].
  by apply (envSecurity_trimmed environ (c_Security c)).
Qed.

(** What [LoadConfig] returns passed [Validate], with trimmed notary keys. *)
Lemma LoadConfig_Ok files environ explicit c :
  LoadConfig ParseFloat ParseDuration files environ explicit = Ok c ->
  Validate c = None /\ Forall trimmed_key (sec_TrustedNotaries (c_Security c)).
Proof.
  unfold LoadConfig. intros H. apply rbind_Ok in H as (file & _ & H). apply rbind_Ok in H as (c0 & Hc0 & H).
  apply rbind_Ok in H as (c1 & Hc1 & H). destruct (Validate c1) eqn:Hv; [done|]. injection H as ->. split; [done|].
  destruct (applyEnvOverrides ParseFloat environ c0) as [c2|] eqn:He; [|done]. injection Hc1 as ->.
  apply (applyEnvOverrides_trimmed environ c0); [|done]. destruct file as [contents|].
  - unfold fromFile in Hc0. destruct (Load ParseFloat contents) as [f|]; [|done]. cbn [mbind option_bind] in Hc0.
    injection Hc0 as <-. apply applyMapConfig_trimmed. constructor.
  - injection Hc0 as <-. constructor.
Qed.

End Loading.

(** ** The cluster *)

Lemma cluster_settings c :
  validateCluster c = None -> cl_Enabled c = true ->
  (32 <= len (cl_SharedSecret c)) /\ 1 <= cl_BindPort c <= 65535
  /\ (cl_ConsensusMode c = bs "crdt" \/ (cl_ConsensusMode c = bs "raft" /\ cl_RaftStateDir c <> [])).
Proof.
  unfold validateCluster. intros H Hen. rewrite Hen in H. cbn [negb] in H. destruct (firstError (clusterChecks c)) eqn:E; [done|].
  pose proof (fun ok name => check_passed _ ok name E) as Hin. unfold clusterChecks in Hin.
  assert (32 <= len (cl_SharedSecret c)) as Hs.
  { pose proof (Hin (bool_decide (~ len (cl_SharedSecret c) < 32)) "cluster.shared_secret"%string ltac:(among)) as Hc.
    apply bool_decide_eq_true in Hc. lia. }
  assert (1 <= cl_BindPort c <= 65535) as Hp.
  { pose proof (Hin (portValid (cl_BindPort c)) "cluster.bind_port"%string ltac:(among)) as Hc.
    unfold portValid in Hc. apply bool_decide_eq_true in Hc. lia. }
  split; [done|]. split; [done|].
  pose proof (Hin _ "cluster.consensus_mode"%string ltac:(among)) as Hm. apply bool_decide_eq_true in Hm as [Hm|Hm]; [by left|].
  right. split; [done|].
  pose proof (Hin _ "cluster.raft_state_dir"%string ltac:(among)) as Hd. apply negb_true_iff, andb_false_iff in Hd as [Hd|Hd].
  - by apply bool_decide_eq_false in Hd.
  - apply negb_false_iff in Hd. unfold notBlank in Hd. apply bool_decide_eq_true in Hd. intros Hnil. apply Hd. by rewrite Hnil.
Qed.

(** Errors of [SetStateDir] that its arguments alone decide. *)
Definition misconfigured (e : attach_err) : bool :=
  match e with
  | AttachDirRequired | AttachSecretRequired | AttachOpen WalDirRequired | AttachOpen WalKeyRequired => true
  | AttachOpen _ => false
  end.

(** No state of the disk makes [ensureMagic] blame the arguments. *)
Lemma ensureMagic_err name w e :
  (ensureMagic name w).1 = Some e -> e <> WalDirRequired /\ e <> WalKeyRequired.
Proof.
  unfold ensureMagic, bind, ret. destruct (fs_check w) as [[] w1]; [|by intros [= <-]]. cbn [negb].
  case_decide; [|repeat (case_decide; [by intros [= <-]|]); by intros [= <-]].
  destruct (fs_write name walMagic w1) as [[] w2]; [done|by intros [= <-]].
Qed.

Lemma OpenWAL_configured dir key sync w e :
  dir <> [] -> key <> [] -> (OpenWAL dir key sync w).1 = Err e -> misconfigured (AttachOpen e) = false.
Proof.
  intros Hd Hk. unfold OpenWAL. rewrite decide_False by done. rewrite decide_False by (destruct key; [done|unfold len; simpl; lia]).
  unfold bind, ret. destruct (fs_check w) as [[] w1]; [|by intros [= <-]]. cbn [negb].
  destruct (fs_check w1) as [[] w2]; [|by intros [= <-]]. cbn [negb].
  destruct (fs_open_append walFileName w2) as [[] w3]; [|by intros [= <-]]. cbn [negb].
  destruct (ensureMagic walFileName w3) as [[err|] w4] eqn:E; [|done]. destruct (fs_check w4). intros [= <-].
  destruct (ensureMagic_err walFileName w3 err) as [H1 H2]; [by rewrite E|]. by destruct err.
Qed.

(** An attached log is left alone. *)
Lemma SetStateDir_configured dir sync n wal w e :
  dir <> [] -> SharedSecret (config n) <> [] -> (SetStateDir dir sync n wal w).1.1.1 = Some e -> misconfigured e = false.
Proof.
  intros Hd Hs. unfold SetStateDir. rewrite decide_False by done. destruct (walAttached n); [done|]. rewrite decide_False by done.
  unfold bind, ret. destruct (OpenWAL dir (SharedSecret (config n)) sync w) as [[w'|err] w1] eqn:E; [done|]. intros [= <-].
  apply (OpenWAL_configured dir (SharedSecret (config n)) sync w); [done|done|by rewrite E].
Qed.

Lemma addMerkleHashes_err hashes t e t' : addMerkleHashes hashes t = (Some e, t') -> e = TlDecode.
Proof.
  revert t. induction hashes as [|h hashes IH]; intros t; cbn [addMerkleHashes]; [done|].
  unfold tbind, addMerkleHash. destruct (Hex.DecodeString h); [|by intros [= <-]]. unfold tbind, tmodify, tret. apply IH.
Qed.

Lemma rebuildMerkleTree_err t e t' : rebuildMerkleTree t = (Some e, t') -> e <> TlUnsafeTable.
Proof.
  unfold rebuildMerkleTree, tbind, tget, tret. destruct (statement t) as [[] t1]; [|by intros [= <-]..].
  intros H. apply addMerkleHashes_err in H as ->. done.
Qed.

Lemma loadLastHash_err t e t' : loadLastHash t = (Some e, t') -> e <> TlUnsafeTable.
Proof. unfold loadLastHash, tbind, tget, tret, tmodify. destruct (statement t) as [[] t1]; [done|by intros [= <-]..]. Qed.

(** A log that fails to open under a safe name fails in the database. *)
Lemma NewTransparencyLog_named cfg t :
  safeSQLIdentifier (tc_TableName cfg) = true -> tc_TableName cfg <> [] -> NewTransparencyLog cfg t <> Err TlUnsafeTable.
Proof.
  intros Hs Hne. unfold NewTransparencyLog. rewrite decide_False by done. rewrite Hs. cbn [negb].
  destruct (tc_Enabled cfg); [|done]. cbn [negb]. set (t0 := mkTransparency _ _ _ _ _ _ _).
  destruct (if decide (tc_TableName cfg = defaultTransparencyTableName) then (DbOk, t0) else statement t0) as [[] t1]; try done.
  destruct (loadLastHash t1) as [[e|] t2] eqn:E.
  - intros [= ->]. by apply loadLastHash_err in E.
  - destruct (rebuildMerkleTree t2) as [[e|] t3] eqn:E'; [|done]. intros [= ->]. by apply rebuildMerkleTree_err in E'.
Qed.

(** A configuration that loads starts: for every configuration [LoadConfig]
    accepts, whatever the file, the variables and the state of disk and database,
    the client-address policy accepts the proxies; every pinned notary key
    decodes to 32 bytes under its own name; the transparency log does not refuse
    its table's name; and in raft mode the state directory is never refused for
    the settings, under a secret of at least 32 bytes. *)
Theorem valid_config_starts ParseFloat ParseDuration files environ explicit c :
  LoadConfig ParseFloat ParseDuration files environ explicit = Ok c ->
  (forall p, (ConfigureClientIPPolicy (sec_TrustForwardedHeaders (c_Security c)) (sec_TrustedProxies (c_Security c)) p).1 = true)
  /\ (exists keys, decodeTrustedNotaries (sec_TrustedNotaries (c_Security c)) = Some keys
        /\ Forall (fun k => length (tn_PublicKey k) = PublicKeySize) keys
        /\ map (fun k => (tn_ServerName k, tn_KeyID k)) keys
           = map (fun n => (ctn_ServerName n, ctn_KeyID n)) (sec_TrustedNotaries (c_Security c)))
  /\ (forall t, NewTransparencyLog (c_Transparency c) t <> Err TlUnsafeTable)
  /\ (cl_Enabled (c_Cluster c) = true -> 32 <= len (cl_SharedSecret (c_Cluster c)) /\ 1 <= cl_BindPort (c_Cluster c) <= 65535
      /\ (cl_ConsensusMode (c_Cluster c) = bs "crdt"
          \/ cl_ConsensusMode (c_Cluster c) = bs "raft"
             /\ forall n wal w e, SharedSecret (config n) = cl_SharedSecret (c_Cluster c) ->
                  (SetStateDir (cl_RaftStateDir (c_Cluster c)) (cl_RaftSyncOnAppend (c_Cluster c)) n wal w).1.1.1 = Some e ->
                  misconfigured e = false)).
Proof.
  intros H. apply LoadConfig_Ok in H as [Hv Ht]. apply Validate_None in Hv as (Hg & Hc & Hn).
  split; [intros p; by apply proxies_configure|]. split; [by apply notaries_decode|]. split.
  - intros t. pose proof (check_passed _ (safeSQLIdentifier (tc_TableName (c_Transparency c))) "transparency.table_name"%string Hg) as Hs.
    pose proof (check_passed _ (bool_decide (tc_TableName (c_Transparency c) <> [])) "transparency.table_name"%string Hg) as Hne.
    apply NewTransparencyLog_named; [apply Hs; unfold generalChecks; among|].
    apply (bool_decide_eq_true_1 _), Hne. unfold generalChecks. among.
  - intros Hen. destruct (cluster_settings _ Hc Hen) as (Hs & Hp & Hm). split; [done|]. split; [done|].
    destruct Hm as [Hm|[Hm Hd]]; [by left|]. right. split; [done|]. intros n wal w e Hsec. by apply SetStateDir_configured; [|rewrite Hsec; intros Hnil; rewrite Hnil in Hs].
Qed.

(** ** A file and an environment *)

Definition fileOf (lines : list bytes) : bytes := concat (map (fun l => l ++ [Byte.x0a]) lines).

Definition fileAt (lines : list bytes) (path : bytes) : option bytes :=
  if decide (path = bs "config.yaml") then Some (fileOf lines) else None.

Definition noFloat (s : bytes) : option float64 := None.
Definition noDuration (s : bytes) : option Z := None.

(** The base64 of 32 zero bytes: the letter A 43 times. *)
Definition demoKey : bytes := replicate 43 Byte.x41.

Definition demoFile : list bytes :=
  [bs "server:"; bs "  name: x.org"; bs "database:"; bs "  url: postgres://db"; bs "security:"; bs "  trusted_proxies:";
   bs "    - 10.0.0.0/8"; bs "trusted_notaries:"; bs "  - server_name: n.org"; bs "    key_id: ed25519:a";
   bs "    public_key: " ++ demoKey; bs "cluster:"; bs "  enabled: true"; bs "  consensus_mode: raft";
   bs "  advertise_address: 192.0.2.1"; bs "  shared_secret: 0123456789abcdef0123456789abcdef-"].

Definition load (lines environ : list bytes) : result load_err Config := LoadConfig noFloat noDuration (fileAt lines) environ [].

Definition demoConfig : Config := match load demoFile [] with Ok c => c | Err _ => defaults end.

Lemma demo_loads : LoadConfig noFloat noDuration (fileAt demoFile) [] [] = Ok demoConfig.
Proof. vm_compute. reflexivity. Qed.

Lemma valid_config_starts_witness :
  sec_TrustedProxies (c_Security demoConfig) = [bs "10.0.0.0/8"] /\ length (sec_TrustedNotaries (c_Security demoConfig)) = 1%nat
  /\ cl_Enabled (c_Cluster demoConfig) = true
  /\ (exists keys, decodeTrustedNotaries (sec_TrustedNotaries (c_Security demoConfig)) = Some keys
        /\ Forall (fun k => length (tn_PublicKey k) = PublicKeySize) keys)
  /\ 32 <= len (cl_SharedSecret (c_Cluster demoConfig)).
Proof.
  destruct (valid_config_starts noFloat noDuration (fileAt demoFile) [] [] demoConfig demo_loads) as (_ & (keys & Hk & Hl & _) & _ & Hc).
  split; [by vm_compute|]. split; [by vm_compute|]. split; [by vm_compute|]. split; [exists keys; split; assumption|].
  apply Hc. by vm_compute.
Defined.

(** ** Where the documents and the code part *)

(** A variable that is set and empty is no override to [applyEnvOverrides], but
    [WithEnvOverride] writes an empty text, which reads as false. *)
Theorem empty_variable_disables :
  (cl_Enabled ∘ c_Cluster <$> (match load demoFile [] with Ok c => Some c | Err _ => None end)) = Some true
  /\ (cl_Enabled ∘ c_Cluster <$> (match load demoFile [bs "MXKEYS_CLUSTER_ENABLED="] with Ok c => Some c | Err _ => None end)) = Some false.
Proof. split; vm_compute; reflexivity. Qed.

(** The variable of a setting whose name has an underscore reaches no setting
    unless env.go names it: the underscore is taken for a level. *)
Theorem unnamed_variable_ignored :
  (cl_RaftStateDir ∘ c_Cluster <$> (match load demoFile [bs "MXKEYS_CLUSTER_RAFT_STATE_DIR=/data"] with Ok c => Some c | Err _ => None end))
  = Some (bs "/var/lib/mxkeys/raft").
Proof. vm_compute. reflexivity. Qed.

(** A notary without a key is left out, not refused. *)
Theorem incomplete_notary_dropped :
  (sec_TrustedNotaries ∘ c_Security <$>
    (match load (firstn 10 demoFile) [] with Ok c => Some c | Err _ => None end)) = Some [].
Proof. vm_compute. reflexivity. Qed.
