(* ===== verification/KeyProvider.v ===== *)
(** * The notary's signing key (internal/keys/keyprovider, buildKeyProvider of
    server/server.go)

    The key file is read and written in a directory of [FileIO], under its fault
    script. Random bytes are arguments. AES-256-GCM and the expansion of a seed
    are interfaces, with the behaviour their packages document; PBKDF2 is the
    source's own. File modes and mlock are not modelled. *)
From S2P Require Import Prelude Crypto Base64 FileIO NotarySignature ConfigMap Config.
From Stdlib Require Import ZArith Lia.
From stdpp Require Import base gmap list strings fin_maps.
#[local] Open Scope Z_scope.
#[local] Open Scope io_scope.

(** ** Interfaces *)

Class Aead : Type := {
  Seal : bytes -> bytes -> bytes -> bytes -> bytes;          (* key, nonce, plaintext, additional data *)
  Open : bytes -> bytes -> bytes -> bytes -> option bytes;
}.

(** [Open] succeeds exactly on what [Seal] makes. *)
Class AeadLaws (A : Aead) : Prop := {
  open_seal key nonce plain aad : Open key nonce (Seal key nonce plain aad) aad = Some plain;
  seal_open key nonce cipher aad plain : Open key nonce cipher aad = Some plain -> cipher = Seal key nonce plain aad;
}.

(** [ed25519.NewKeyFromSeed]: the seed and then the public key. *)
Class SeedExpansion : Type := { NewKeyFromSeed : bytes -> bytes }.

Definition SeedSize : nat := 32.

Class SeedLaws (S : SeedExpansion) : Prop := {
  expanded_length seed : length seed = SeedSize -> length (NewKeyFromSeed seed) = PrivateKeySize;
  expanded_seed seed : length seed = SeedSize -> take SeedSize (NewKeyFromSeed seed) = seed;
}.

(** ** file_crypto.go *)

Definition encMagic : bytes := bs "MXKENC01".
Definition encSaltLen : nat := 16.
Definition encNonceLen : nat := 12.
Definition encHeaderLen : nat := 40.
Definition productionPBKDF2Iterations : Z := 600000.
Definition minPBKDF2Iterations : Z := 10000.
Definition maxPBKDF2Iterations : Z := 100000000.
Definition aesKeyLen : nat := 32.

(** [u[k] ^= sum[k]] for every [k]. *)
Definition xorBytes : bytes -> bytes -> bytes :=
  zip_with (fun a b => byte_of_Z (Z.lxor (byte_to_Z a) (byte_to_Z b))).

(** One turn of the inner loop on [u] and [prev]. *)
Definition pbkdf2Step (password : bytes) (up : bytes * bytes) : bytes * bytes :=
  let sum := Hmac.hmac_sha256 password up.2 in (xorBytes up.1 sum, sum).

Definition pbkdf2Block (password salt : bytes) (iter : Z) (i : nat) : bytes :=
  let sum := Hmac.hmac_sha256 password (salt ++ Sha256.be32 (Z.of_nat i)) in
  (N.iter (Z.to_N (iter - 1)) (pbkdf2Step password) (sum, sum)).1.

Definition pbkdf2SHA256 (password salt : bytes) (iter : Z) (keyLen : nat) : bytes :=
  let iter := if decide (iter < 1) then 1 else iter in
  let blocks := ((keyLen + 32 - 1) / 32)%nat in
  take keyLen (concat (map (pbkdf2Block password salt iter) (seq 1 blocks))).

Inductive key_err : Type :=
  | KeyMkdir | KeyChmod | KeyNotExist | KeyRead | KeyParse | ErrBadMagic | KeyNoPassphrase | KeyIterations | ErrDecryptFailed
  | KeyRandom | KeyWrite | KeyEncryptedExists | KeyEnvUnset | KeyEnvDecode | KeyPathRequired | ErrNotImplemented | KeyUnknownKind
  | KeyPassphraseEmpty.

(** What [rand.Read] and the temporary file's name yield; [None] is the error. *)
Record random : Type := mkRandom {
  rnd_salt : option bytes;
  rnd_nonce : option bytes;
  rnd_seed : option bytes;
  rnd_suffix : bytes;
}.

Definition random_ok (r : random) : Prop :=
  (forall s, rnd_salt r = Some s -> length s = encSaltLen) /\ (forall s, rnd_nonce r = Some s -> length s = encNonceLen)
  /\ (forall s, rnd_seed r = Some s -> length s = SeedSize).

Definition encHeader (iterations : Z) (salt nonce : bytes) : bytes := encMagic ++ Sha256.be32 iterations ++ salt ++ nonce.

Section Provider.
Context `{Aead} `{SeedExpansion}.

Definition encryptKeyWithIterations (r : random) (plaintext passphrase : bytes) (iterations : Z) : result key_err bytes :=
  if decide (len passphrase = 0) then Err KeyPassphraseEmpty
  else if decide (iterations < minPBKDF2Iterations) then Err KeyIterations
  else
    match rnd_salt r, rnd_nonce r with
    | Some salt, Some nonce =>
        let kek := pbkdf2SHA256 passphrase salt iterations aesKeyLen in
        if decide (iterations < 0 \/ maxPBKDF2Iterations < iterations) then Err KeyIterations
        else
          let header := encHeader iterations salt nonce in
          Ok (header ++ Seal kek nonce plaintext header)
    | _, _ => Err KeyRandom
    end.

Definition encryptKey (r : random) (plaintext passphrase : bytes) : result key_err bytes :=
  encryptKeyWithIterations r plaintext passphrase productionPBKDF2Iterations.

(** [binary.BigEndian.Uint32]. *)
Definition bigEndian (s : bytes) : Z := le_combine (rev s).

Definition decryptKey (blob passphrase : bytes) : result key_err bytes :=
  if decide (length blob < encHeaderLen)%nat then Err ErrBadMagic
  else if decide (take 8 blob <> encMagic) then Err ErrBadMagic
  else if decide (len passphrase = 0) then Err KeyNoPassphrase
  else
    let iterations := bigEndian (take 4 (drop 8 blob)) in
    if decide (iterations < minPBKDF2Iterations) then Err KeyIterations
    else
      let salt := take 16 (drop 12 blob) in
      let nonce := take 12 (drop 28 blob) in
      let ciphertext := drop encHeaderLen blob in
      let kek := pbkdf2SHA256 passphrase salt iterations aesKeyLen in
      match Open kek nonce ciphertext (take encHeaderLen blob) with
      | Some plaintext => Ok plaintext
      | None => Err ErrDecryptFailed
      end.

Definition hasEncryptedMagic (blob : bytes) : bool := bool_decide (8 <= length blob)%nat && bool_decide (take 8 blob = encMagic).

(** ** file.go *)

Definition keyFileName : bytes := bs "mxkeys_ed25519.key".
Definition keyFileEncName : bytes := bs "mxkeys_ed25519.key.enc".

Definition parsePrivateKey (data : bytes) : option bytes :=
  if decide (length data = PrivateKeySize) then Some data
  else if decide (length data = SeedSize) then Some (NewKeyFromSeed data)
  else None.

(** [os.ReadFile], and [os.Stat] for an error that is nil. *)
Definition fs_read (p : bytes) : IO (result key_err bytes) := fun w =>
  let '(ok, w) := fs_check w in
  (if ok : bool then match files w !! p with Some d => Ok d | None => Err KeyNotExist end else Err KeyRead, w).

Definition fs_stat (p : bytes) : IO bool := fun w =>
  let '(ok, w) := fs_check w in (ok && bool_decide (is_Some (files w !! p)), w).

Definition tmpName (path suffix : bytes) : bytes := path ++ bs ".tmp-" ++ suffix.

Definition writeAtomic (r : random) (path data : bytes) : IO bool :=
  let tmp := tmpName path (rnd_suffix r) in
  do ok <- fs_create_trunc tmp; (* CreateTemp *)
  if negb ok then ret false else
  do ok <- fs_write tmp data;
  if negb ok then (do _ <- fs_check; do _ <- fs_remove tmp; ret false) else
  do ok <- fs_check; (* Chmod *)
  if negb ok then (do _ <- fs_check; do _ <- fs_remove tmp; ret false) else
  do ok <- fs_check; (* Sync *)
  if negb ok then (do _ <- fs_check; do _ <- fs_remove tmp; ret false) else
  do ok <- fs_check; (* Close *)
  if negb ok then (do _ <- fs_remove tmp; ret false) else
  do ok <- fs_rename tmp path;
  if negb ok then (do _ <- fs_remove tmp; ret false) else ret true.

Definition loadEncrypted (passphrase path : bytes) : IO (result key_err bytes) :=
  do r <- fs_read path;
  match r with
  | Err e => ret (Err e)
  | Ok blob =>
      match decryptKey blob passphrase with
      | Err e => ret (Err e)
      | Ok plain =>
          match parsePrivateKey plain with
          | None => ret (Err KeyParse)
          | Some priv => do ok <- fs_check; ret (if ok : bool then Ok priv else Err KeyChmod)
          end
      end
  end.

(** [priv.Seed()] is the first half. *)
Definition writeEncrypted (r : random) (passphrase path priv : bytes) : IO (option key_err) :=
  let payload := if decide (length priv = PrivateKeySize) then take SeedSize priv else priv in
  match encryptKey r payload passphrase with
  | Err e => ret (Some e)
  | Ok blob => do ok <- writeAtomic r path blob; ret (if ok : bool then None else Some KeyWrite)
  end.

Definition GenerateKey (r : random) : option bytes := NewKeyFromSeed <$> rnd_seed r.

(** The two modes of [LoadOrGenerate], after the directory is there. *)
Definition loadOrGenerateEncrypted (r : random) (passphrase : bytes) : IO (result key_err bytes) :=
  do loaded <- loadEncrypted passphrase keyFileEncName;
  match loaded with
  | Ok priv => ret (Ok priv)
  | Err KeyNotExist =>
      do legacy <- fs_read keyFileName;
      match legacy with
      | Ok data =>
          match parsePrivateKey data with
          | None => ret (Err KeyParse)
          | Some priv =>
              do e <- writeEncrypted r passphrase keyFileEncName priv;
              match e with
              | Some e => ret (Err e)
              | None => do _ <- fs_remove keyFileName; ret (Ok priv)
              end
          end
      | Err KeyNotExist =>
          match GenerateKey r with
          | None => ret (Err KeyRandom)
          | Some priv =>
              do e <- writeEncrypted r passphrase keyFileEncName priv;
              match e with Some e => ret (Err e) | None => ret (Ok priv) end
          end
      | Err e => ret (Err e)
      end
  | Err e => ret (Err e)
  end.

Definition loadOrGeneratePlain (r : random) : IO (result key_err bytes) :=
  do exists_ <- fs_stat keyFileEncName;
  if exists_ : bool then ret (Err KeyEncryptedExists)
  else
    do plain <- fs_read keyFileName;
    match plain with
    | Ok data =>
        match parsePrivateKey data with
        | None => ret (Err KeyParse)
        | Some priv => do ok <- fs_check; ret (if ok : bool then Ok priv else Err KeyChmod)
        end
    | Err KeyNotExist =>
        match GenerateKey r with
        | None => ret (Err KeyRandom)
        | Some priv => do ok <- writeAtomic r keyFileName priv; ret (if ok : bool then Ok priv else Err KeyWrite)
        end
    | Err e => ret (Err e)
    end.

Definition LoadOrGenerate (r : random) (passphrase : bytes) : IO (result key_err bytes) :=
  do ok <- fs_check; (* MkdirAll *)
  if negb ok then ret (Err KeyMkdir) else
  do ok <- fs_check; (* Chmod *)
  if negb ok then ret (Err KeyChmod) else
  if decide (0 < len passphrase) then loadOrGenerateEncrypted r passphrase else loadOrGeneratePlain r.

(** ** env.go *)

Definition decodeEnvKey (raw : bytes) : option bytes :=
  match DecodeRaw raw with Some b => Some b | None => DecodeStd raw end.

Definition loadFromEnv (environ : list bytes) (envVar : bytes) : result key_err bytes :=
  let raw := Getenv environ envVar in
  if decide (raw = []) then Err KeyEnvUnset
  else
    match decodeEnvKey raw with
    | None => Err KeyEnvDecode
    | Some data => match parsePrivateKey data with Some priv => Ok priv | None => Err KeyParse end
    end.

(** ** provider.go *)

Inductive provider : Type :=
  | FileProvider (storagePath passphrase : bytes)
  | EnvProvider (envVar : bytes)
  | KMSStub (endpoint keyID : bytes).

Record ProviderConfig : Type := mkProviderConfig {
  pc_Kind : bytes;
  pc_StoragePath : bytes;
  pc_Passphrase : bytes;
  pc_EnvVar : bytes;
  pc_KMSEndpoint : bytes;
  pc_KMSKeyID : bytes;
}.

Definition NewProvider (c : ProviderConfig) : result key_err provider :=
  if decide (pc_Kind c = [] \/ pc_Kind c = bs "file") then
    if decide (pc_StoragePath c = []) then Err KeyPathRequired else Ok (FileProvider (pc_StoragePath c) (pc_Passphrase c))
  else if decide (pc_Kind c = bs "env") then
    if decide (pc_EnvVar c = []) then Err KeyPathRequired else Ok (EnvProvider (pc_EnvVar c))
  else if decide (pc_Kind c = bs "kms") then
    if decide (pc_KMSEndpoint c = []) then Err KeyPathRequired else Ok (KMSStub (pc_KMSEndpoint c) (pc_KMSKeyID c))
  else Err KeyUnknownKind.

(** The provider's [LoadOrGenerate]. *)
Definition loadProvider (environ : list bytes) (r : random) (p : provider) : IO (result key_err bytes) :=
  match p with
  | FileProvider _ passphrase => LoadOrGenerate r passphrase
  | EnvProvider envVar => ret (loadFromEnv environ envVar)
  | KMSStub _ _ => ret (Err ErrNotImplemented)
  end.

(** server.go: an encryption variable that is configured must be set. *)
Definition buildKeyProvider (environ : list bytes) (c : KeysConfig) : result key_err provider :=
  let envName := keys_EncryptionPassphraseEnv c in
  if decide (envName <> []) then
    let secret := Getenv environ envName in
    if decide (secret = []) then Err KeyEnvUnset
    else NewProvider (mkProviderConfig (bs "file") (keys_StoragePath c) secret [] [] [])
  else NewProvider (mkProviderConfig (bs "file") (keys_StoragePath c) [] [] [] []).

End Provider.
