(* ===== verification/KeyProviderProofs.v ===== *)
(** * The signing key: derivation, envelope, and the notary's identity *)
From S2P Require Import Prelude Crypto Base64 FileIO NotarySignature ConfigMap Config KeyProvider.
From Stdlib Require Import ZArith Lia.
From stdpp Require Import base gmap list strings fin_maps.
#[local] Open Scope Z_scope.
#[local] Set Warnings "-register-all".

(** ** PBKDF2 as RFC 2898 states it *)

(** [U_1 = PRF (P, S || INT (i))], [U_(j+1) = PRF (P, U_j)]. *)
Fixpoint rfc_U (password salt : bytes) (i : nat) (j : nat) : bytes :=
  match j with
  | O => []
  | S O => Hmac.hmac_sha256 password (salt ++ Sha256.be32 (Z.of_nat i))
  | S j => Hmac.hmac_sha256 password (rfc_U password salt i j)
  end.

(** [T_i = U_1 xor ... xor U_c]. *)
Fixpoint rfc_T (password salt : bytes) (i : nat) (c : nat) : bytes :=
  match c with
  | O => []
  | S O => rfc_U password salt i 1
  | S c => xorBytes (rfc_T password salt i c) (rfc_U password salt i (S c))
  end.

(** [DK = T_1 || ... || T_l] up to the length. *)
Definition rfc_DK (password salt : bytes) (c dkLen : nat) : bytes :=
  take dkLen (concat (map (fun i => rfc_T password salt i c) (seq 1 ((dkLen + 31) / 32)))).

Lemma rfc_U_S password salt i j : rfc_U password salt i (S (S j)) = Hmac.hmac_sha256 password (rfc_U password salt i (S j)).
Proof. done. Qed.

Lemma rfc_T_S password salt i c : rfc_T password salt i (S (S c)) = xorBytes (rfc_T password salt i (S c)) (rfc_U password salt i (S (S c))).
Proof. done. Qed.

Lemma pbkdf2_iter password salt i n :
  N.iter (N.of_nat n) (pbkdf2Step password) (rfc_U password salt i 1, rfc_U password salt i 1)
  = (rfc_T password salt i (S n), rfc_U password salt i (S n)).
Proof.
  induction n as [|n IH]; [done|]. rewrite Nat2N.inj_succ, N.iter_succ, IH. unfold pbkdf2Step. cbn [fst snd].
  by rewrite rfc_T_S, rfc_U_S.
Qed.

Lemma pbkdf2Block_length password salt iter i : length (pbkdf2Block password salt iter i) = 32%nat.
Proof.
  unfold pbkdf2Block. cbv zeta.
  assert (forall n, let r := N.iter n (pbkdf2Step password) (rfc_U password salt i 1, rfc_U password salt i 1) in
    length r.1 = 32%nat /\ length r.2 = 32%nat) as Hn.
  { intros n. induction n as [|n IH] using N.peano_ind; [cbn; by rewrite Hmac.length_hmac|].
    rewrite N.iter_succ. cbv zeta in *. destruct IH as [H1 H2]. unfold pbkdf2Step at 1 3. cbn [fst snd].
    split; [unfold xorBytes; rewrite length_zip_with, H1|]; by rewrite Hmac.length_hmac. }
  apply Hn.
Qed.

(** The key derivation is PBKDF2: for every password, salt, iteration count
    and length, the nested loops compute the derived key of RFC 2898 with
    HMAC-SHA256, a count below one taken as one; the key of an AES-256 envelope is
    32 bytes. *)
Theorem pbkdf2_rfc2898 password salt iter keyLen :
  pbkdf2SHA256 password salt iter keyLen = rfc_DK password salt (Z.to_nat (Z.max 1 iter)) keyLen
  /\ length (pbkdf2SHA256 password salt iter keyLen) = keyLen.
Proof.
  assert (pbkdf2SHA256 password salt iter keyLen = rfc_DK password salt (Z.to_nat (Z.max 1 iter)) keyLen) as E.
  { unfold pbkdf2SHA256, rfc_DK. cbv zeta. replace (keyLen + 32 - 1)%nat with (keyLen + 31)%nat by lia. f_equal. f_equal.
    apply map_ext. intros i. unfold pbkdf2Block. cbv zeta.
    set (it := if decide (iter < 1) then 1 else iter). assert (1 <= it /\ it = Z.max 1 iter) as [Hit Hmax] by (unfold it; case_decide; lia).
    replace (Z.to_N (it - 1)) with (N.of_nat (Z.to_nat (it - 1))) by lia.
    change (Hmac.hmac_sha256 password (salt ++ Sha256.be32 (Z.of_nat i))) with (rfc_U password salt i 1).
    rewrite pbkdf2_iter. cbn [fst]. f_equal. lia. }
  split; [exact E|]. unfold pbkdf2SHA256. cbv zeta. rewrite length_take. apply Nat.min_l.
  set (it := if decide (iter < 1) then 1 else iter).
  assert (forall i, length (pbkdf2Block password salt it i) = 32%nat) as Hb by (intros i; apply pbkdf2Block_length).
  assert (forall l, length (concat (map (pbkdf2Block password salt it) l)) = (32 * length l)%nat) as Hl.
  { induction l as [|i l IH]; [done|]. cbn [map concat]. rewrite length_app, Hb, IH. simpl. lia. }
  rewrite Hl, length_seq. pose proof (Nat.div_mod (keyLen + 32 - 1) 32 ltac:(lia)) as Hd.
  pose proof (Nat.mod_upper_bound (keyLen + 32 - 1) 32 ltac:(lia)). lia.
Qed.

(** ** The envelope *)

Section Envelope.
Context `{Aead} `{!AeadLaws _} `{SeedExpansion} `{!SeedLaws _}.

Lemma bigEndian_be32 z : 0 <= z < 2 ^ 32 -> bigEndian (Sha256.be32 z) = z.
Proof. intros Hz. unfold bigEndian, Sha256.be32. rewrite rev_involutive. by apply le_combine_split_small. Qed.

Lemma be32_bigEndian s : length s = 4%nat -> Sha256.be32 (bigEndian s) = s.
Proof.
  intros Hs. unfold bigEndian, Sha256.be32. rewrite <- (length_rev s) in Hs. rewrite <- Hs, le_split_combine. apply rev_involutive.
Qed.

Lemma bigEndian_range s : length s = 4%nat -> 0 <= bigEndian s < 2 ^ 32.
Proof. intros Hs. unfold bigEndian. pose proof (le_combine_range (rev s)) as Hr. unfold len in Hr. rewrite length_rev, Hs in Hr. exact Hr. Qed.

(** The fields of an envelope. *)
Lemma header_fields it salt nonce c :
  length salt = encSaltLen -> length nonce = encNonceLen ->
  let blob := encHeader it salt nonce ++ c in
  (encHeaderLen <= length blob)%nat /\ take 8 blob = encMagic /\ take 4 (drop 8 blob) = Sha256.be32 it
  /\ take 16 (drop 12 blob) = salt /\ take 12 (drop 28 blob) = nonce /\ drop encHeaderLen blob = c
  /\ take encHeaderLen blob = encHeader it salt nonce.
Proof.
  intros Hs Hn blob. assert (length (encHeader it salt nonce) = encHeaderLen) as Hh.
  { unfold encHeader. rewrite !length_app, Sha256.length_be32, Hs, Hn. done. }
  assert (blob = encMagic ++ Sha256.be32 it ++ salt ++ nonce ++ c) as Hb by (unfold blob, encHeader; by rewrite <- !app_assoc).
  assert (length encMagic = 8%nat) as Hm by done. pose proof (Sha256.length_be32 it) as H4. unfold encSaltLen, encNonceLen in *.
  split_and!.
  - unfold blob. rewrite length_app. lia.
  - rewrite Hb. by rewrite take_app_length'.
  - rewrite Hb, drop_app_length' by done. by rewrite take_app_length'.
  - rewrite Hb, app_assoc, drop_app_length' by (by rewrite length_app, Hm, H4). by rewrite take_app_length'.
  - rewrite Hb, !app_assoc, <- (app_assoc _ nonce), drop_app_length' by (by rewrite !length_app, Hm, H4, Hs). by rewrite take_app_length'.
  - unfold blob. by rewrite drop_app_length'.
  - unfold blob. by rewrite take_app_length'.
Qed.

Lemma take_split {A} (l : list A) n m : take n l ++ take m (drop n l) = take (n + m) l.
Proof. rewrite <- (take_drop n (take (n + m) l)) at 1. rewrite take_take, Nat.min_l by lia. by rewrite skipn_firstn_comm, Nat.add_comm, Nat.add_sub. Qed.

Lemma header_parts (blob : bytes) :
  take 8 blob ++ take 4 (drop 8 blob) ++ take 16 (drop 12 blob) ++ take 12 (drop 28 blob) = take 40 blob.
Proof.
  rewrite !app_assoc. rewrite (take_split blob 8 4). cbn [Nat.add]. rewrite (take_split blob 12 16). cbn [Nat.add].
  by rewrite (take_split blob 28 12).
Qed.

Lemma decrypt_sealed it salt nonce pass p :
  length salt = encSaltLen -> length nonce = encNonceLen -> pass <> [] -> minPBKDF2Iterations <= it < 2 ^ 32 ->
  decryptKey (encHeader it salt nonce ++ Seal (pbkdf2SHA256 pass salt it aesKeyLen) nonce p (encHeader it salt nonce)) pass = Ok p.
Proof.
  intros Hs Hn Hp Hit.
  destruct (header_fields it salt nonce (Seal (pbkdf2SHA256 pass salt it aesKeyLen) nonce p (encHeader it salt nonce)) Hs Hn)
    as (F1 & F2 & F3 & F4 & F5 & F6 & F7).
  unfold decryptKey. rewrite decide_False by lia. rewrite F2. rewrite decide_False by (intros Hne; by apply Hne).
  rewrite decide_False by (destruct pass; [done|unfold len; simpl; lia]). cbv zeta. rewrite F3, F4, F5, F6, F7.
  rewrite bigEndian_be32 by (unfold minPBKDF2Iterations in Hit; lia). rewrite decide_False by lia. by rewrite open_seal.
Qed.

Lemma encrypt_decrypt r p pass blob : random_ok r -> encryptKey r p pass = Ok blob -> decryptKey blob pass = Ok p.
Proof.
  intros (Hs & Hn & _) He. unfold encryptKey, encryptKeyWithIterations in He. case_decide as Hp; [done|]. case_decide as Hi; [done|].
  destruct (rnd_salt r) as [salt|]; [|done]. destruct (rnd_nonce r) as [nonce|]; [|done]. cbv zeta in He. case_decide as Hm; [done|].
  injection He as <-. apply decrypt_sealed; [by apply Hs|by apply Hn|by intros ->|].
  unfold maxPBKDF2Iterations in Hm. lia.
Qed.

(** The envelope is exact: what [encryptKey] writes under a passphrase,
    whatever the salt and the nonce drawn, [decryptKey] opens under it to the same
    bytes; and a blob that opens at all is, byte for byte, the header of some
    iteration count of at least ten thousand, salt and nonce, followed by the
    sealing of the plaintext under the key derived from that header and bound to
    it. So a file with any other byte in it, header included, does not open to
    that plaintext under the same header. *)
Theorem envelope_exact r p pass :
  random_ok r ->
  (forall blob, encryptKey r p pass = Ok blob -> decryptKey blob pass = Ok p)
  /\ (forall blob q, decryptKey blob pass = Ok q ->
        exists it salt nonce, minPBKDF2Iterations <= it < 2 ^ 32 /\ length salt = encSaltLen /\ length nonce = encNonceLen
          /\ blob = encHeader it salt nonce ++ Seal (pbkdf2SHA256 pass salt it aesKeyLen) nonce q (encHeader it salt nonce)).
Proof.
  intros Hr. split; [intros blob; by apply encrypt_decrypt|]. intros blob q Hd. unfold decryptKey in Hd.
  destruct (decide (length blob < encHeaderLen)%nat) as [|Hlen]; [done|]. destruct (decide _) as [|Hm]; [done|]. apply dec_stable in Hm.
  destruct (decide _) as [|Hp]; [done|]. cbv zeta in Hd. destruct (decide _) as [|Hi]; [done|].
  destruct (Open _ _ _ _) as [plain|] eqn:Ho; [|done]. injection Hd as ->. apply seal_open in Ho. unfold encHeaderLen in *.
  assert (length (take 4 (drop 8 blob)) = 4%nat) as H4 by (rewrite length_take, length_drop; lia).
  exists (bigEndian (take 4 (drop 8 blob))), (take 16 (drop 12 blob)), (take 12 (drop 28 blob)).
  pose proof (bigEndian_range _ H4) as Hr4. split; [lia|]. unfold encSaltLen, encNonceLen.
  split; [rewrite length_take, length_drop; lia|]. split; [rewrite length_take, length_drop; lia|].
  assert (encHeader (bigEndian (take 4 (drop 8 blob))) (take 16 (drop 12 blob)) (take 12 (drop 28 blob)) = take 40 blob) as Hh.
  { unfold encHeader. rewrite be32_bigEndian by done. rewrite <- Hm. apply header_parts. }
  rewrite Hh, <- Ho. by rewrite take_drop.
Qed.

End Envelope.

(** ** Files *)

Lemma fs_read_files p w r w' :
  fs_read p w = (r, w') -> files w' = files w
    /\ (r = Err KeyRead \/ r = match files w !! p with Some d => Ok d | None => Err KeyNotExist end).
Proof.
  unfold fs_read. destruct (fs_check w) as [ok w1] eqn:E. apply check_files in E. intros [= <- <-]. split; [done|].
  destruct ok; [right; by rewrite E|by left].
Qed.

Lemma fs_read_nil p w : faults w = [] -> fs_read p w = (match files w !! p with Some d => Ok d | None => Err KeyNotExist end, w).
Proof. intros Hn. unfold fs_read. by rewrite fs_check_nil. Qed.

Lemma tmp_other path suffix q : q = keyFileName \/ q = keyFileEncName -> path = keyFileName \/ path = keyFileEncName -> tmpName path suffix <> q.
Proof. intros [-> | ->] [-> | ->]; by destruct suffix. Qed.

(** The ways an atomic write gives up. *)
Lemma remove_effect tmp q w ok w' :
  tmp <> q -> bind (fs_remove tmp) (fun _ => ret false) w = (ok, w') -> ok = false /\ files w' !! q = files w !! q.
Proof.
  intros Hne Hw. unfold bind, ret in Hw. destruct (fs_remove tmp w) as [b w1] eqn:E. injection Hw as <- <-.
  split; [done|]. by apply (preserves_run q _ _ _ _ (preserves_remove q tmp Hne) E).
Qed.

Lemma abort_effect tmp q w ok w' :
  tmp <> q -> bind fs_check (fun _ => bind (fs_remove tmp) (fun _ => ret false)) w = (ok, w') ->
  ok = false /\ files w' !! q = files w !! q.
Proof.
  intros Hne Hw. unfold bind at 1 in Hw. destruct (fs_check w) as [b w1] eqn:E. apply check_files in E. rewrite <- E.
  by apply remove_effect with (tmp := tmp).
Qed.

(** An atomic write replaces the file or leaves it, and touches no other file
    than its temporary one. *)
Lemma writeAtomic_effect r path data w ok w' q :
  q = keyFileName \/ q = keyFileEncName -> path = keyFileName \/ path = keyFileEncName ->
  writeAtomic r path data w = (ok, w') ->
  files w' !! q = if ok then (if decide (q = path) then Some data else files w !! q) else files w !! q.
Proof.
  intros Hq Hp Hw. pose proof (tmp_other path (rnd_suffix r) q Hq Hp) as Hne. unfold writeAtomic in Hw.
  set (tmp := tmpName path (rnd_suffix r)) in *.
  io_step Hw ok1 w1 E1. pose proof (preserves_run q _ _ _ _ (preserves_create q tmp Hne) E1) as H1.
  destruct ok1; cbn [negb] in Hw; [|injection Hw as <- <-; exact H1]. apply fs_create_ok in E1.
  io_step Hw ok2 w2 E2. pose proof (preserves_run q _ _ _ _ (preserves_write q tmp data Hne) E2) as H2. rewrite H1 in H2.
  destruct ok2; cbn [negb] in Hw; [|apply (abort_effect tmp q) in Hw as [-> ->]; done]. apply fs_write_ok in E2.
  assert (files w2 !! tmp = Some data) as Htmp.
  { rewrite E2, lookup_insert_eq. unfold contents. by rewrite E1, lookup_insert_eq. }
  io_step Hw ok3 w3 E3. apply check_files in E3. rewrite <- E3 in H2, Htmp.
  destruct ok3; cbn [negb] in Hw; [|apply (abort_effect tmp q) in Hw as [-> ->]; done].
  io_step Hw ok4 w4 E4. apply check_files in E4. rewrite <- E4 in H2, Htmp.
  destruct ok4; cbn [negb] in Hw; [|apply (abort_effect tmp q) in Hw as [-> ->]; done].
  io_step Hw ok5 w5 E5. apply check_files in E5. rewrite <- E5 in H2, Htmp.
  destruct ok5; cbn [negb] in Hw; [|apply (remove_effect tmp q) in Hw as [-> ->]; done].
  io_step Hw ok6 w6 E6. apply fs_rename_inv in E6 as [[-> F6]|(-> & d & Hd & F6)]; cbn [negb] in Hw.
  - apply (remove_effect tmp q) in Hw as [-> ->]; [|done]. by rewrite F6.
  - injection Hw as <- <-. rewrite F6. rewrite Htmp in Hd. injection Hd as <-. destruct (decide (q = path)) as [->|Hqp].
    + apply lookup_insert_eq.
    + rewrite lookup_insert_ne by (intros E; by apply Hqp). by rewrite lookup_delete_ne.
Qed.

(** ** The identity *)

Section Identity.
Context `{Aead} `{!AeadLaws _} `{SeedExpansion} `{!SeedLaws _}.

(** A private key is the expansion of its first half. *)
Definition genuine (k : bytes) : Prop := length k = PrivateKeySize /\ NewKeyFromSeed (take SeedSize k) = k.

Lemma genuine_expanded seed : length seed = SeedSize -> genuine (NewKeyFromSeed seed).
Proof. intros Hs. split; [by apply expanded_length|]. by rewrite expanded_seed. Qed.

(** The directory holds the key [k] for a provider with this passphrase. *)
Definition stored (data k : bytes) : Prop := parsePrivateKey data = Some k.

Definition sealed_key (passphrase blob k : bytes) : Prop := exists p, decryptKey blob passphrase = Ok p /\ stored p k.

Definition holds (passphrase k : bytes) (fs : gmap bytes bytes) : Prop :=
  match fs !! keyFileEncName with
  | Some blob => passphrase <> [] /\ sealed_key passphrase blob k
  | None => exists d, fs !! keyFileName = Some d /\ stored d k
  end.

Lemma key_names : keyFileEncName <> keyFileName.
Proof. done. Qed.

Lemma encrypted_holds r passphrase k blob :
  random_ok r -> genuine k -> passphrase <> [] ->
  encryptKey r (if decide (length k = PrivateKeySize) then take SeedSize k else k) passphrase = Ok blob -> sealed_key passphrase blob k.
Proof.
  intros Hr [Hl Hg] Hp He. rewrite decide_True in He by done. exists (take SeedSize k). split; [by apply (encrypt_decrypt r)|].
  unfold stored, parsePrivateKey. assert (length (take SeedSize k) = SeedSize) as Hs by (rewrite length_take, Hl; done).
  rewrite decide_False by (rewrite Hs; done). rewrite decide_True by done. by rewrite Hg.
Qed.

(** [writeEncrypted] puts the key in its file, or leaves both files. *)
Lemma writeEncrypted_effect r passphrase k w e w' :
  random_ok r -> genuine k -> passphrase <> [] ->
  writeEncrypted r passphrase keyFileEncName k w = (e, w') ->
  files w' !! keyFileName = files w !! keyFileName
  /\ match e with
     | None => exists blob, files w' !! keyFileEncName = Some blob /\ sealed_key passphrase blob k
     | Some _ => files w' !! keyFileEncName = files w !! keyFileEncName
     end.
Proof.
  intros Hr Hg Hp Hw. unfold writeEncrypted in Hw. cbv zeta in Hw.
  destruct (encryptKey r _ passphrase) as [blob|err] eqn:Ee; [|injection Hw as <- <-; done].
  io_step Hw ok w1 E1. pose proof (writeAtomic_effect r keyFileEncName blob w ok w1 keyFileName ltac:(by left) ltac:(by right) E1) as F1.
  pose proof (writeAtomic_effect r keyFileEncName blob w ok w1 keyFileEncName ltac:(by right) ltac:(by right) E1) as F2.
  rewrite decide_True in F2 by done. rewrite decide_False in F1 by done. destruct ok; injection Hw as <- <-; (split; [done|]); [|done].
  exists blob. split; [done|]. by apply (encrypted_holds r).
Qed.

Lemma decryptKey_err blob passphrase e : decryptKey blob passphrase = Err e -> e <> KeyNotExist.
Proof.
  unfold decryptKey. cbv zeta. do 4 (destruct (decide _); [by intros [= <-]|]).
  destruct (Open _ _ _ _); [done|by intros [= <-]].
Qed.

(** Opening the encrypted file changes nothing. *)
Lemma loadEncrypted_effect passphrase w res w' :
  loadEncrypted passphrase keyFileEncName w = (res, w') ->
  files w' = files w
  /\ match res with
     | Ok k => exists blob, files w !! keyFileEncName = Some blob /\ sealed_key passphrase blob k
     | Err KeyNotExist => files w !! keyFileEncName = None
     | Err _ => True
     end.
Proof.
  intros Hw. unfold loadEncrypted in Hw. io_step Hw r w1 E1. apply fs_read_files in E1 as [F1 Hr].
  destruct r as [blob|e].
  - destruct Hr as [?|Hr]; [done|]. destruct (files w !! keyFileEncName) as [d|] eqn:Ef; [|done]. injection Hr as <-.
    destruct (decryptKey blob passphrase) as [p|e] eqn:Ed.
    + destruct (parsePrivateKey p) as [k|] eqn:Ep; [|injection Hw as <- <-; done].
      io_step Hw ok w2 E2. apply check_files in E2. destruct ok; injection Hw as <- <-; (split; [congruence|]); [|done].
      exists blob. split; [done|]. by exists p.
    + injection Hw as <- <-. split; [done|]. apply decryptKey_err in Ed. by destruct e.
  - injection Hw as <- <-. split; [done|]. destruct Hr as [[= ->]|Hr]; [done|].
    by destruct (files w !! keyFileEncName); [|injection Hr as ->].
Qed.

(** A load that succeeds leaves the directory holding the key it returned. *)
Lemma encrypted_load_holds r passphrase k w w' :
  random_ok r -> genuine k -> passphrase <> [] ->
  loadOrGenerateEncrypted r passphrase w = (Ok k, w') -> holds passphrase k (files w').
Proof.
  intros Hr Hg Hp Hw. unfold loadOrGenerateEncrypted in Hw. io_step Hw res w1 E1. apply loadEncrypted_effect in E1 as [F1 Hres].
  destruct res as [k'|e].
  { injection Hw as -> ->. destruct Hres as (blob & Hb & Hs). unfold holds. rewrite F1, Hb. done. }
  destruct e; try done. io_step Hw legacy w2 E2. apply fs_read_files in E2 as [F2 Hl]. destruct legacy as [data|e].
  - destruct (parsePrivateKey data) as [priv|] eqn:Ep; [|done]. io_step Hw we w3 E3. destruct we as [e|]; [done|].
    io_step Hw rm w4 E4. injection Hw as -> ->. apply writeEncrypted_effect in E3 as (_ & blob & Hb & Hs); [|done..].
    unfold holds. rewrite (preserves_run keyFileEncName _ _ _ _ (preserves_remove keyFileEncName keyFileName ltac:(done)) E4), Hb. done.
  - destruct e; try done. destruct (GenerateKey r) as [priv|] eqn:Eg; [|done]. io_step Hw we w3 E3. destruct we as [e|]; [done|].
    injection Hw as -> ->. apply writeEncrypted_effect in E3 as (_ & blob & Hb & Hs); [|done..]. unfold holds. rewrite Hb. done.
Qed.

Lemma plain_load_holds r k w w' :
  genuine k -> files w !! keyFileEncName = None -> loadOrGeneratePlain r w = (Ok k, w') -> holds [] k (files w').
Proof.
  intros Hg Henc Hw. unfold loadOrGeneratePlain in Hw. io_step Hw found w1 E1. unfold fs_stat in E1.
  destruct (fs_check w) as [ok w0] eqn:E0. apply check_files in E0. injection E1 as <- <-.
  destruct (ok && _); [done|]. io_step Hw plain w2 E2. apply fs_read_files in E2 as [F2 Hp].
  destruct plain as [data|e].
  - destruct Hp as [?|Hp]; [done|]. destruct (files w0 !! keyFileName) as [d|] eqn:Ef; [|done]. injection Hp as <-.
    destruct (parsePrivateKey data) as [priv|] eqn:Ep; [|done]. io_step Hw ok3 w3 E3. apply check_files in E3.
    destruct ok3; [|done]. injection Hw as -> ->. unfold holds. rewrite E3, F2, E0, Henc. exists data. by rewrite <- E0.
  - destruct e; try done. destruct (GenerateKey r) as [priv|]; [|done]. io_step Hw ok3 w3 E3. destruct ok3; [|done].
    injection Hw as -> ->.
    pose proof (writeAtomic_effect r keyFileName k w2 true w' keyFileName ltac:(by left) ltac:(by left) E3) as W1.
    pose proof (writeAtomic_effect r keyFileName k w2 true w' keyFileEncName ltac:(by right) ltac:(by left) E3) as W2.
    rewrite decide_True in W1 by done. rewrite decide_False in W2 by done. unfold holds. rewrite W2, F2, E0, Henc, W1.
    exists k. split; [done|]. unfold stored, parsePrivateKey. by rewrite decide_True by apply Hg.
Qed.

(** Once a key is there, a load returns it or an error, and it stays. *)
Lemma encrypted_load_keeps r passphrase k w res w' :
  random_ok r -> genuine k -> passphrase <> [] -> holds passphrase k (files w) ->
  loadOrGenerateEncrypted r passphrase w = (res, w') -> (res = Ok k \/ exists e, res = Err e) /\ holds passphrase k (files w').
Proof.
  intros Hr Hg Hp Hh Hw. unfold loadOrGenerateEncrypted in Hw. io_step Hw res1 w1 E1. apply loadEncrypted_effect in E1 as [F1 Hres].
  rewrite <- F1 in Hh. destruct res1 as [k'|e].
  { injection Hw as <- <-. split; [left|done]. destruct Hres as (blob & Hb & p' & Hd' & Hs'). rewrite <- F1 in Hb. unfold holds in Hh.
    rewrite Hb in Hh. destruct Hh as (_ & p & Hd & Hs). unfold stored in *. congruence. }
  destruct e; try (injection Hw as <- <-; split; [right; by eexists|done]).
  rewrite <- F1 in Hres. unfold holds in Hh. rewrite Hres in Hh. destruct Hh as (d & Hplain & Hst).
  assert (forall ww, files ww !! keyFileName = Some d -> files ww !! keyFileEncName = None -> holds passphrase k (files ww)) as Hkeep.
  { intros ww H1 H2. unfold holds. rewrite H2. eauto. }
  io_step Hw legacy w2 E2. apply fs_read_files in E2 as [F2 Hl]. rewrite Hplain in Hl. rewrite <- F2 in Hplain, Hres.
  destruct Hl as [-> | ->]; [injection Hw as <- <-; split; [right; by eexists|by apply Hkeep]|]. unfold stored in Hst. rewrite Hst in Hw.
  io_step Hw we w3 E3. apply writeEncrypted_effect in E3 as (Hpl & He); [|done..]. destruct we as [e|].
  - injection Hw as <- <-. split; [right; by eexists|]. apply Hkeep; [by rewrite Hpl|by rewrite He].
  - io_step Hw rm w4 E4. injection Hw as <- <-. split; [by left|]. destruct He as (blob & Hb & Hs).
    unfold holds. rewrite (preserves_run keyFileEncName _ _ _ _ (preserves_remove keyFileEncName keyFileName ltac:(done)) E4), Hb. done.
Qed.

Lemma plain_load_keeps r k w res w' :
  holds [] k (files w) -> loadOrGeneratePlain r w = (res, w') ->
  (res = Ok k \/ exists e, res = Err e) /\ holds [] k (files w').
Proof.
  intros Hh Hw. unfold loadOrGeneratePlain in Hw. io_step Hw found w1 E1. unfold fs_stat in E1.
  destruct (fs_check w) as [ok w0] eqn:E0. apply check_files in E0. injection E1 as <- <-. rewrite <- E0 in Hh.
  destruct (ok && _); [injection Hw as <- <-; split; [right; by eexists|done]|].
  io_step Hw plain w2 E2. apply fs_read_files in E2 as [F2 Hp]. rewrite <- F2 in Hh.
  destruct Hp as [-> | ->]; [injection Hw as <- <-; split; [right; by eexists|done]|].
  rewrite <- F2 in Hw. unfold holds in Hh. destruct (files w2 !! keyFileEncName) eqn:Ee; [by destruct Hh|].
  destruct Hh as (d & Hd & Hs). rewrite Hd in Hw. unfold stored in Hs. rewrite Hs in Hw.
  io_step Hw ok3 w3 E3. apply check_files in E3. destruct ok3; injection Hw as <- <-; (split; [eauto|]);
    unfold holds; rewrite E3, Ee; eauto.
Qed.

(** A sequence of loads, each with its own random bytes, on one disk. *)
Fixpoint loads (rs : list random) (passphrase : bytes) (w : world) : list (result key_err bytes) * world :=
  match rs with
  | [] => ([], w)
  | r :: rs =>
      let '(res, w) := LoadOrGenerate r passphrase w in
      let '(more, w) := loads rs passphrase w in (res :: more, w)
  end.

Lemma load_dispatch r passphrase w res w' :
  LoadOrGenerate r passphrase w = (res, w') ->
  (exists e, res = Err e /\ files w' = files w)
  \/ exists w1, files w1 = files w
       /\ (if decide (passphrase = []) then loadOrGeneratePlain r else loadOrGenerateEncrypted r passphrase) w1 = (res, w').
Proof.
  intros Hw. unfold LoadOrGenerate in Hw. io_step Hw ok1 w1 E1. apply check_files in E1.
  destruct ok1; cbn [negb] in Hw; [|injection Hw as <- <-; left; eauto].
  io_step Hw ok2 w2 E2. apply check_files in E2. destruct ok2; cbn [negb] in Hw; [|injection Hw as <- <-; left; eexists; split; [done|congruence]].
  right. exists w2. split; [congruence|]. destruct (decide (passphrase = [])) as [->|Hp].
  - by rewrite decide_False in Hw by (unfold len; simpl; lia).
  - by rewrite decide_True in Hw by (destruct passphrase; [done|unfold len; simpl; lia]).
Qed.

Lemma load_holds r passphrase k w w' :
  random_ok r -> genuine k -> (passphrase = [] -> files w !! keyFileEncName = None) ->
  LoadOrGenerate r passphrase w = (Ok k, w') -> holds passphrase k (files w').
Proof.
  intros Hr Hg Henc Hw. apply load_dispatch in Hw as [(e & He & _)|(w1 & F1 & Hw)]; [done|]. case_decide as Hp.
  - subst passphrase. apply (plain_load_holds r k w1); [done|rewrite F1; by apply Henc|done].
  - by apply (encrypted_load_holds r passphrase k w1).
Qed.

Lemma load_keeps r passphrase k w res w' :
  random_ok r -> genuine k -> holds passphrase k (files w) -> LoadOrGenerate r passphrase w = (res, w') ->
  (res = Ok k \/ exists e, res = Err e) /\ holds passphrase k (files w').
Proof.
  intros Hr Hg Hh Hw. apply load_dispatch in Hw as [(e & -> & F)|(w1 & F1 & Hw)]; [rewrite F; eauto|]. rewrite <- F1 in Hh. case_decide as Hp.
  - subst passphrase. by apply (plain_load_keeps r k w1).
  - by apply (encrypted_load_keeps r passphrase k w1).
Qed.

Lemma loads_keep rs passphrase k w :
  Forall random_ok rs -> genuine k -> holds passphrase k (files w) ->
  Forall (fun res => res = Ok k \/ exists e, res = Err e) (loads rs passphrase w).1 /\ holds passphrase k (files (loads rs passphrase w).2).
Proof.
  intros Hrs Hg. revert w. induction Hrs as [|r rs Hr Hrs IH]; intros w Hh; cbn [loads]; [done|].
  destruct (LoadOrGenerate r passphrase w) as [res w1] eqn:E. apply (load_keeps r passphrase k) in E as [Hres Hh1]; [|done..].
  destruct (IH w1 Hh1) as [Hmore Hend]. destruct (loads rs passphrase w1) as [more w2]. cbn [fst snd] in *. split; [by constructor|done].
Qed.

(** ** Without faults *)

Lemma writeAtomic_nil r path data w :
  path = keyFileName \/ path = keyFileEncName -> faults w = [] -> exists w', writeAtomic r path data w = (true, w') /\ faults w' = [].
Proof.
  intros Hp Hn. unfold writeAtomic. set (tmp := tmpName path (rnd_suffix r)).
  unfold bind at 1. rewrite fs_create_nil by done. cbn [negb]. unfold bind at 1. rewrite fs_write_nil by done. cbn [negb].
  do 3 (unfold bind at 1; rewrite fs_check_nil by done; cbn [negb]). unfold bind at 1.
  rewrite (fs_rename_nil tmp path _ (contents (with_files <[tmp := []]> w) tmp ++ data)); [|done|apply lookup_insert_eq].
  cbn [negb]. eexists. split; [reflexivity|done].
Qed.

Lemma load_live r passphrase k w :
  random_ok r -> is_Some (rnd_salt r) -> is_Some (rnd_nonce r) -> genuine k -> holds passphrase k (files w) -> faults w = [] ->
  (LoadOrGenerate r passphrase w).1 = Ok k.
Proof.
  intros Hr [salt Hsalt] [nonce Hnonce] Hg Hh Hn. unfold LoadOrGenerate. do 2 (unfold bind at 1; rewrite fs_check_nil by done; cbn [negb]).
  destruct (decide (0 < len passphrase)) as [Hp|Hp].
  - unfold loadOrGenerateEncrypted, loadEncrypted. unfold bind at 1. unfold bind at 1. rewrite fs_read_nil by done. unfold holds in Hh.
    destruct (files w !! keyFileEncName) as [blob|] eqn:Ee.
    + destruct Hh as (_ & p & Hd & Hs). rewrite Hd. unfold stored in Hs. rewrite Hs. unfold bind at 1. by rewrite fs_check_nil.
    + destruct Hh as (d & Hd & Hs). unfold ret at 1. unfold bind at 1. rewrite fs_read_nil by done. rewrite Hd. unfold stored in Hs. rewrite Hs.
      unfold writeEncrypted. cbv zeta. unfold bind at 1.
      assert (exists blob, encryptKey r (if decide (length k = PrivateKeySize) then take SeedSize k else k) passphrase = Ok blob) as [blob ->].
      { unfold encryptKey, encryptKeyWithIterations. rewrite decide_False by lia. rewrite decide_False by done. rewrite Hsalt, Hnonce.
        cbv zeta. rewrite decide_False by (intros [?|?]; done). by eexists. }
      destruct (writeAtomic_nil r keyFileEncName blob w ltac:(by right) Hn) as (w1 & Hw1 & Hn1). unfold bind at 1. rewrite Hw1.
      unfold ret at 1. unfold bind at 1. by destruct (fs_remove keyFileName w1).
  - unfold loadOrGeneratePlain, fs_stat. unfold bind at 1. rewrite fs_check_nil by done. unfold holds in Hh.
    destruct (files w !! keyFileEncName) as [blob|] eqn:Ee.
    { destruct Hh as [Hne _]. destruct passphrase; [done|]. unfold len in Hp. simpl in Hp. lia. }
    destruct Hh as (d & Hd & Hs). rewrite bool_decide_eq_false_2 by (by intros [? ?]). cbn [andb]. unfold bind at 1.
    rewrite fs_read_nil by done. rewrite Hd. unfold stored in Hs. rewrite Hs. unfold bind at 1. by rewrite fs_check_nil.
Qed.

(** C11. The notary keeps its identity: once a load of the key file has returned a
    key that is the expansion of its seed, whether loaded, upgraded from plaintext or
    newly generated, every later load with the same passphrase returns that key or an
    error, whatever calls fail or tear in between, a failed upgrade included; and when
    the faults stop and the random source answers, it returns the key. The random
    source gives strings of the sizes asked for, or nothing; and a load without a
    passphrase finds no encrypted file in the directory: where there is one, a failing
    [stat] makes such a load mint a new key ([stat_error_mints_key]). *)
Theorem identity_stable r0 rs passphrase k w w0 :
  Forall random_ok (r0 :: rs) -> genuine k -> (passphrase = [] -> files w !! keyFileEncName = None) ->
  LoadOrGenerate r0 passphrase w = (Ok k, w0) ->
  Forall (fun res => res = Ok k \/ exists e, res = Err e) (loads rs passphrase w0).1
  /\ forall r, random_ok r -> is_Some (rnd_salt r) -> is_Some (rnd_nonce r) ->
       (LoadOrGenerate r passphrase (World (files (loads rs passphrase w0).2) [])).1 = Ok k.
Proof.
  intros Hrs Hg Henc Hw. apply Forall_cons in Hrs as [Hr0 Hrs]. apply load_holds in Hw; [|done..].
  destruct (loads_keep rs passphrase k w0 Hrs Hg Hw) as [Hres Hend]. split; [exact Hres|]. intros r Hr Hs Hn. by apply load_live.
Qed.

(** ** Where the upgrade and the refusal fall short *)

(** The plaintext file that an upgrade failed to remove stays: later loads take
    the encrypted file and do not look at it. *)
Theorem leftover_plaintext_stays r passphrase blob w res w' :
  passphrase <> [] -> files w !! keyFileEncName = Some blob -> LoadOrGenerate r passphrase w = (res, w') ->
  files w' !! keyFileName = files w !! keyFileName.
Proof.
  intros Hp He Hw. apply load_dispatch in Hw as [(e & _ & F)|(w1 & F1 & Hw)]; [by rewrite F|]. rewrite decide_False in Hw by done.
  unfold loadOrGenerateEncrypted in Hw. io_step Hw res1 w2 E1. apply loadEncrypted_effect in E1 as [F2 Hres]. rewrite <- F1.
  destruct res1 as [k|e]; [injection Hw as <- <-; by rewrite F2|]. destruct e; try (injection Hw as <- <-; by rewrite F2). congruence.
Qed.

End Identity.

(** ** Instances *)

#[local] Instance demoAead : Aead := {| Seal _ _ plain _ := plain; Open _ _ cipher _ := Some cipher |}.
#[local] Instance demoAeadLaws : AeadLaws demoAead.
Proof. split; [done|]. by intros key nonce cipher aad plain [= ->]. Qed.

#[local] Instance demoSeeds : SeedExpansion := {| NewKeyFromSeed seed := seed ++ seed |}.
#[local] Instance demoSeedLaws : SeedLaws demoSeeds.
Proof.
  split; intros seed Hs; cbn [NewKeyFromSeed demoSeeds].
  - by rewrite length_app, Hs.
  - by rewrite <- Hs, take_app_length.
Qed.

Definition demoRandom : random :=
  mkRandom (Some (replicate 16 Byte.x01)) (Some (replicate 12 Byte.x02)) (Some (replicate 32 Byte.x03)) (bs "1").

Lemma demoRandom_ok : random_ok demoRandom.
Proof. split_and!; intros s [= <-]; reflexivity. Qed.

Definition demoSeed : bytes := replicate 32 Byte.x07.

Lemma envelope_exact_witness :
  exists blob, encryptKey demoRandom demoSeed (bs "pw") = Ok blob /\ decryptKey blob (bs "pw") = Ok demoSeed.
Proof.
  eexists. split; [reflexivity|].
  exact (proj1 (envelope_exact demoRandom demoSeed (bs "pw") demoRandom_ok) _ eq_refl).
Defined.

(** A plaintext key, the next write of which is torn. *)
Definition demoDisk (faults : list outcome) : world := World {[keyFileName := demoSeed ++ demoSeed]} faults.

Lemma demo_genuine : genuine (demoSeed ++ demoSeed).
Proof. split; reflexivity. Qed.

Lemma demo_key_held : holds (bs "pw") (demoSeed ++ demoSeed) (files (demoDisk [])).
Proof. exists (demoSeed ++ demoSeed). split; reflexivity. Qed.

Lemma demo_first : LoadOrGenerate demoRandom (bs "pw") (demoDisk []) = (Ok (demoSeed ++ demoSeed), (LoadOrGenerate demoRandom (bs "pw") (demoDisk [])).2).
Proof.
  apply injective_projections; [|reflexivity].
  apply load_live; [apply demoRandom_ok|by eexists..|apply demo_genuine|apply demo_key_held|reflexivity].
Qed.

Lemma identity_stable_witness :
  Forall (fun res => res = Ok (demoSeed ++ demoSeed) \/ exists e, res = Err e)
    (loads [demoRandom; demoRandom] (bs "pw") (LoadOrGenerate demoRandom (bs "pw") (demoDisk [])).2).1.
Proof.
  apply (identity_stable demoRandom [demoRandom; demoRandom] (bs "pw") (demoSeed ++ demoSeed) (demoDisk [])).
  - repeat (apply Forall_cons; split; [apply demoRandom_ok|]). apply Forall_nil. exact I.
  - apply demo_genuine.
  - intros Hnil. discriminate Hnil.
  - apply demo_first.
Defined.

(** Without a passphrase an encrypted key file is refused, unless the call that
    looks for it fails: then a new key is generated beside it. *)
Theorem stat_error_mints_key :
  let disk := {[keyFileEncName := bs "sealed"]} in
  (LoadOrGenerate demoRandom [] (World disk [])).1 = Err KeyEncryptedExists
  /\ (LoadOrGenerate demoRandom [] (World disk [IoOk; IoOk; IoFail 0])).1 = Ok (replicate 64 Byte.x03).
Proof. split; vm_compute; reflexivity. Qed.

(** Sealing an empty key needs a passphrase; a damaged header is not taken for a
    plaintext key. *)
Example envelope_vectors :
  encryptKey demoRandom demoSeed [] = Err KeyPassphraseEmpty
  /\ decryptKey demoSeed (bs "pw") = Err ErrBadMagic
  /\ (LoadOrGenerate demoRandom (bs "pw") (World {[keyFileEncName := demoSeed]} [])).1 = Err ErrBadMagic.
Proof. split_and!; vm_compute; reflexivity. Qed.
