(* ===== verification/HttpApi.v ===== *)
(** * The HTTP interface (internal/server: json_decode.go, handlers_query.go,
    handlers_keys.go, handlers_helpers.go, handlers_probes.go, admin_access.go,
    middleware.go, server_http.go; GetOwnKeys of keys/notary.go)

    A handler's outcome is its status with the Matrix error code, or the value it
    writes. A request is its body, as a stream, and the headers the handlers look
    at. [encoding/json] is a parameter: the tokens [Decoder.Token] yields with
    whether they end in [io.EOF], and the first value [Decode] reads with whether
    [io.EOF] follows it. Metrics and logs are not modelled. *)
From S2P Require Import Prelude Crypto Base64 GoTime GoStrings Canonical NetIP ServerNames.
From S2P Require Import TrustPolicy NotarySignature Resolver Fetcher NotaryQuery Auth Wire.
From S2P Require Import ConfigMap Config.
From Stdlib Require Import ZArith Lia.
From stdpp Require Import base gmap list strings fin_maps.
#[local] Open Scope Z_scope.

Inductive http_response (A : Type) : Type :=
  | HttpError (status : Z) (errcode : bytes)
  | HttpValue (value : A).
Arguments HttpError {A} status errcode.
Arguments HttpValue {A} value.

(** ** json_decode.go *)

Inductive jtoken : Type := TOpen | TClose | TOther.

Definition defaultMaxJSONDepth : Z := 64.

(** The loop; [eof] is whether the tokens end in [io.EOF]. *)
Fixpoint depthLoop (maxDepth : Z) (tokens : list jtoken) (eof : bool) (depth maxSeen : Z) : bool :=
  match tokens with
  | [] => eof
  | TOther :: tokens => depthLoop maxDepth tokens eof depth maxSeen
  | TOpen :: tokens =>
      let depth := depth + 1 in
      let maxSeen := if decide (maxSeen < depth) then depth else maxSeen in
      if decide (maxDepth < maxSeen) then false else depthLoop maxDepth tokens eof depth maxSeen
  | TClose :: tokens => depthLoop maxDepth tokens eof (if decide (0 < depth) then depth - 1 else depth) maxSeen
  end.

(** [true] when there is no error. *)
Definition validateJSONDepth (tokens : list jtoken * bool) (maxDepth : Z) : bool :=
  let maxDepth := if decide (maxDepth <= 0) then defaultMaxJSONDepth else maxDepth in
  depthLoop maxDepth tokens.1 tokens.2 0 0.

Inductive decode_err : Type := DecodeTooLarge | DecodeInvalid.

(** [http.MaxBytesReader] under [io.ReadAll]. *)
Definition maxRequestBodySize : Z := 2 ^ 20.

Definition readBody (data : bytes) (e : stream_end) : result decode_err bytes :=
  if decide (maxRequestBodySize < len data) then Err DecodeTooLarge
  else match e with StreamEOF => Ok data | StreamFailed => Err DecodeInvalid end.

Definition decodeStrictJSON {A} (tokens : bytes -> list jtoken * bool) (decodeValue : bytes -> option (A * bool))
    (data : bytes) (e : stream_end) (maxDepth : Z) : result decode_err A :=
  match readBody data e with
  | Err err => Err err
  | Ok body =>
      if negb (validateJSONDepth (tokens body) maxDepth) then Err DecodeInvalid
      else match decodeValue body with
           | Some (a, true) => Ok a
           | _ => Err DecodeInvalid
           end
  end.

(** ** handlers_helpers.go *)

(** [true] when a server's criteria are in order. *)
Definition criteriaOk (criteria : gmap bytes Z) : bool :=
  forallb (fun kc => bool_decide (kc.1 <> []) && bool_decide (ValidateKeyID kc.1 = None) && bool_decide (~ kc.2 < 0)) (map_to_list criteria).

Definition validateKeyQueryServerKeys (serverKeys : KeyQueryRequest) (maxNameLen : Z) : bool :=
  forallb (fun sk => bool_decide (ValidateServerName sk.1 maxNameLen = None) && criteriaOk sk.2) (map_to_list serverKeys).

(** ** handlers_query.go *)

Definition maxServersPerQuery : Z := 100.

Section Query.
Context {E : Ed25519}.
Variable tokens : bytes -> list jtoken * bool.
Variable decodeRequest : bytes -> option (KeyQueryRequest * bool).
Variable net : network.
Variable getKeys : context -> bytes -> Z -> NQ (result fetch_err ServerKeysResponse).
Variable decode : bytes -> option (list (bytes * gvalue)).
Variable n : Notary.
Variable tp : option TrustPolicy.

(** [None] is a panic. *)
Definition handleKeyQuery (sec : SecurityConfig) (ctx : context) (data : bytes) (e : stream_end) (s : nstate)
  : option (http_response KeyQueryResponse * nstate) :=
  match decodeStrictJSON tokens decodeRequest data e (sec_MaxJSONDepth sec) with
  | Err DecodeTooLarge => Some (HttpError 413 (bs "M_TOO_LARGE"), s)
  | Err DecodeInvalid => Some (HttpError 400 (bs "M_BAD_JSON"), s)
  | Ok request =>
      if decide (size request = 0%nat) then Some (HttpError 400 (bs "M_BAD_JSON"), s)
      else
        let maxServers := if decide (sec_MaxServersPerQuery sec <= 0) then maxServersPerQuery else sec_MaxServersPerQuery sec in
        if decide (maxServers < Z.of_nat (size request)) then Some (HttpError 400 (bs "M_BAD_JSON"), s)
        else
          let maxNameLen := if decide (sec_MaxServerNameLength sec <= 0) then 255 else sec_MaxServerNameLength sec in
          if negb (validateKeyQueryServerKeys request maxNameLen) then Some (HttpError 400 (bs "M_INVALID_PARAM"), s)
          else
            run ← NotaryQuery.QueryKeys net getKeys decode n tp ctx request;
            let '(response, s) := run s in Some (HttpValue response, s)
  end.

(** ** handlers_keys.go *)

(** [GetOwnKeys] at the instant [now]; [UnixMilli] rounds down. *)
Definition GetOwnKeys (validityHours now : Z) : result canon_err ServerKeysResponse :=
  signResponse n
    (mkResponse (serverName n) {[serverKeyID n := mkVerifyKey (EncodeRaw (Public (serverKeyPair n)))]} ∅
       (toMilli (now + wrap_int (validityHours * Hour))) ∅ []).

Definition handleServerKeys (validityHours now : Z) (requestedKeyID : bytes) : http_response ServerKeysResponse :=
  let own := match GetOwnKeys validityHours now with
             | Ok response => HttpValue response
             | Err _ => HttpError 500 (bs "M_UNKNOWN")
             end in
  if decide (requestedKeyID = []) then own
  else if negb (bool_decide (ValidateKeyID requestedKeyID = None)) then HttpError 400 (bs "M_INVALID_PARAM")
  else if decide (requestedKeyID <> serverKeyID n) then HttpError 404 (bs "M_NOT_FOUND")
  else own.

(** ** handlers_probes.go *)

Inductive readiness : Type := Draining | DatabaseUnavailable | KeyNotLoaded | Ready.

Definition handleReadiness (shuttingDown pingOk : bool) : readiness :=
  if shuttingDown then Draining
  else if negb pingOk then DatabaseUnavailable
  else if decide (serverKeyID n = []) then KeyNotLoaded
  else Ready.

End Query.

(** ** admin_access.go *)

Record RequestHeaders : Type := mkHeaders {
  h_Authorization : bytes;
  h_AdminToken : bytes;
  h_RequestID : bytes;
}.

(** [strings.Fields]: the maximal parts without white space. [word] is the part
    being read, its last byte first. *)
Definition emitWord (word : bytes) (rest : list bytes) : list bytes := if decide (word = []) then rest else rev word :: rest.

Fixpoint fieldsFrom (fuel : nat) (word s : bytes) : list bytes :=
  match fuel with
  | O => emitWord word []
  | S fuel =>
      match s with
      | [] => emitWord word []
      | b :: t =>
          match List.find (HasPrefix s) spaces with
          | Some sp => emitWord word (fieldsFrom fuel [] (drop (length sp) s))
          | None => fieldsFrom fuel (b :: word) t
          end
      end
  end.

Definition Fields (s : bytes) : list bytes := fieldsFrom (S (length s)) [] s.

(** [strings.EqualFold] with a text whose letters have no other case than the
    ASCII ones. *)
Definition EqualFold (s t : bytes) : bool := bool_decide (ToLower s = ToLower t).

Definition adminTokenFromRequest (h : RequestHeaders) : bytes :=
  let fallback := TrimSpace (h_AdminToken h) in
  let authz := TrimSpace (h_Authorization h) in
  if decide (authz <> []) then
    match Fields authz with
    | scheme :: ((_ :: _) as args) =>
        if EqualFold scheme (bs "Bearer") then TrimSpace (Join_ args Byte.x20) else fallback
    | _ => fallback
    end
  else fallback.

Definition secureTokenCompare (provided expected : bytes) : bool := bool_decide (Sha256.sum256 provided = Sha256.sum256 expected).

Definition withAdminAccess {A} (adminAccessToken : bytes) (h : RequestHeaders) (next : http_response A) : http_response A :=
  if decide (adminAccessToken = []) then HttpError 404 (bs "M_NOT_FOUND")
  else if negb (secureTokenCompare (adminTokenFromRequest h) adminAccessToken) then HttpError 401 (bs "M_UNAUTHORIZED")
  else next.

(** server_http.go: open when no token is configured. *)
Definition withOperationalAccess {A} (adminAccessToken : bytes) (h : RequestHeaders) (next : http_response A) : http_response A :=
  if decide (adminAccessToken <> []) then
    if negb (secureTokenCompare (adminTokenFromRequest h) adminAccessToken) then HttpError 401 (bs "M_UNAUTHORIZED") else next
  else next.

(** ** middleware.go *)

Definition maxRequestIDLength : Z := 128.

(** [^[A-Za-z0-9._:/-]{1,128}$] *)
Definition requestIDByte (b : byte) : bool :=
  alnum b || bool_decide (b ∈ [Byte.x2e; Byte.x5f; Byte.x3a; Byte.x2f; Byte.x2d]).

Definition requestIDPattern (s : bytes) : bool := bool_decide (1 <= len s <= 128) && forallb requestIDByte s.

Definition normalizeRequestID (raw : bytes) : option bytes :=
  let requestID := TrimSpace raw in
  if decide (requestID = []) then None
  else if decide (maxRequestIDLength < len requestID) then None
  else if requestIDPattern requestID then Some requestID else None.

(** Sixteen random bytes, [None] when there are none. *)
Definition generateRequestID (random : option bytes) : bytes :=
  match random with Some b => Hex.EncodeToString b | None => bs "unknown" end.

(** The request ID that the response and the log carry. *)
Definition RequestIDMiddleware (random : option bytes) (h : RequestHeaders) : bytes :=
  match normalizeRequestID (h_RequestID h) with
  | Some requestID => requestID
  | None => generateRequestID random
  end.

Definition RequestIDRequirementMiddleware {A} (required : bool) (h : RequestHeaders) (next : http_response A) : http_response A :=
  if negb required then next
  else match normalizeRequestID (h_RequestID h) with
       | None => HttpError 400 (bs "M_INVALID_PARAM")
       | Some _ => next
       end.

(** The path is a rooted one. *)
Definition isAPIPath (path : bytes) : bool :=
  match path with
  | [] => false
  | b :: t => bool_decide (b = Byte.x2f) && match t with [] => true | c :: _ => bool_decide (c <> Byte.x2f) end
  end.

Example http_vectors :
  adminTokenFromRequest (mkHeaders (bs " bearer  a  b ") [] []) = bs "a b"
  /\ adminTokenFromRequest (mkHeaders (bs "Basic x") (bs " t ") []) = bs "t"
  /\ normalizeRequestID (bs " req-1/a:b ") = Some (bs "req-1/a:b") /\ normalizeRequestID (bs "a b") = None
  /\ isAPIPath (bs "/_matrix") = true /\ isAPIPath (bs "//x") = false
  /\ validateJSONDepth ([TOpen; TOther; TOpen; TClose; TOpen; TClose; TClose], true) 2 = true
  /\ validateJSONDepth ([TOpen; TOpen; TOpen; TClose; TClose; TClose], true) 2 = false.
Proof. vm_compute. split_and!; reflexivity. Qed.
