(* ===== verification/HttpApiProofs.v ===== *)
(** * What reaches the notary over HTTP *)
From S2P Require Import Prelude Crypto Base64 GoTime GoStrings Canonical CanonicalProofs NetIP.
From S2P Require Import ServerNames TrustPolicy NotarySignature Resolver Fetcher NotaryQuery NotaryQueryProofs Auth.
From S2P Require Import Wire ConfigMap Config HttpApi.
From Stdlib Require Import ZArith Lia.
From stdpp Require Import base gmap list strings fin_maps.
#[local] Open Scope Z_scope.
#[local] Set Warnings "-register-all".

(** ** Nesting *)

(** The depth after some tokens; a surplus close is ignored. *)
Definition depthAfter (tokens : list jtoken) (depth : Z) : Z :=
  fold_left (fun d t => match t with TOpen => d + 1 | TClose => Z.max 0 (d - 1) | TOther => d end) tokens depth.

(** The loop accepts a stream that ends, no prefix of which is too deep. *)
Lemma depthLoop_spec maxDepth tokens eof depth maxSeen :
  0 <= depth <= maxSeen -> maxSeen <= maxDepth ->
  depthLoop maxDepth tokens eof depth maxSeen = true
  <-> eof = true /\ forall p q, tokens = p ++ q -> depthAfter p depth <= maxDepth.
Proof.
  revert depth maxSeen. induction tokens as [|t tokens IH]; intros depth maxSeen Hd Hm; cbn [depthLoop].
  { split; [|by intros [? _]]. intros ->. split; [done|]. intros p q Hpq. destruct p; [cbn; lia|done]. }
  assert (forall d', (forall p q, tokens = p ++ q -> depthAfter p d' <= maxDepth) ->
    d' = depthAfter [t] depth -> forall p q, t :: tokens = p ++ q -> depthAfter p depth <= maxDepth) as Hcons.
  { intros d' Hp -> p q Hpq. destruct p as [|t' p]; [cbn; lia|]. injection Hpq as <- Hpq. exact (Hp p q Hpq). }
  assert (forall d', (forall p q, t :: tokens = p ++ q -> depthAfter p depth <= maxDepth) ->
    d' = depthAfter [t] depth -> forall p q, tokens = p ++ q -> depthAfter p d' <= maxDepth) as Huncons.
  { intros d' Hp -> p q ->. exact (Hp (t :: p) q eq_refl). }
  destruct t.
  - destruct (decide (maxSeen < depth + 1)) as [Hs|Hs].
    + destruct (decide (maxDepth < depth + 1)) as [Hx|Hx].
      * split; [done|]. intros [_ Hp]. specialize (Hp [TOpen] tokens eq_refl). cbn in Hp. lia.
      * rewrite IH by lia. split; intros [-> Hp]; (split; [done|]); [apply (Hcons (depth + 1))|apply Huncons]; done.
    + rewrite decide_False by lia. rewrite IH by lia.
      split; intros [-> Hp]; (split; [done|]); [apply (Hcons (depth + 1))|apply Huncons]; done.
  - assert ((if decide (0 < depth) then depth - 1 else depth) = Z.max 0 (depth - 1)) as -> by (case_decide; lia).
    rewrite IH by lia. split; intros [-> Hp]; (split; [done|]); [apply (Hcons (Z.max 0 (depth - 1)))|apply Huncons]; done.
  - rewrite IH by lia. split; intros [-> Hp]; (split; [done|]); [apply (Hcons depth)|apply Huncons]; done.
Qed.

Definition depthLimit (maxDepth : Z) : Z := if decide (maxDepth <= 0) then defaultMaxJSONDepth else maxDepth.

Lemma validateJSONDepth_spec tokens maxDepth :
  validateJSONDepth tokens maxDepth = true
  <-> tokens.2 = true /\ forall p q, tokens.1 = p ++ q -> depthAfter p 0 <= depthLimit maxDepth.
Proof.
  unfold validateJSONDepth. fold (depthLimit maxDepth). apply depthLoop_spec; [lia|].
  unfold depthLimit, defaultMaxJSONDepth. case_decide; lia.
Qed.

(** ** Panics *)

(** No entry of the policy's lists has fixed ends that overlap in the name. *)
Definition policy_answers (tp : option TrustPolicy) (name : bytes) : Prop :=
  match tp with
  | None => True
  | Some tp => policy_ok tp /\ Forall (fun e => ~ overlap e name) (denyList tp ++ allowList tp)
  end.

Lemma CheckServer_answers tp name : policy_answers (Some tp) name -> is_Some (CheckServer tp name).
Proof.
  intros [[Hd Ha] Ho]. apply Forall_app in Ho as [Hod Hoa]. unfold CheckServer, isDenied, isAllowed. rewrite Hd, Ha.
  destruct (enabled tp); [|by eexists]. cbn [negb]. destruct (listed_spec _ _ Hod) as (d & -> & _). destruct d; [by eexists|].
  destruct (listed_spec _ _ Hoa) as (a & -> & _).
  assert (exists b, (if decide (allowList tp <> []) then Some a else Some true) = Some b) as [b ->] by (case_decide; by eexists).
  destruct b; [|by eexists]. cbv zeta. destruct (if blockPrivateIPs tp then _ else _); [by eexists|].
  destruct (if requireWellKnown tp then _ else _); by eexists.
Qed.

Lemma policyFailures_answers tp names : Forall (policy_answers (Some tp)) names -> is_Some (policyFailures tp names).
Proof.
  induction 1 as [|name names Hn Hns [rest IH]]; cbn [policyFailures]; [by eexists|].
  destruct (CheckServer_answers tp name Hn) as [v ->]. cbn [mbind option_bind]. rewrite IH. by eexists.
Qed.

Section Query.
Context {E : Ed25519}.
Variable tokens : bytes -> list jtoken * bool.
Variable decodeRequest : bytes -> option (KeyQueryRequest * bool).
Variable net : network.
Variable getKeys : context -> bytes -> Z -> NQ (result fetch_err ServerKeysResponse).
Variable decode : bytes -> option (list (bytes * gvalue)).
Variable n : Notary.
Variable tp : option TrustPolicy.

Abbreviation QueryKeys := (NotaryQuery.QueryKeys net getKeys decode n tp).
Abbreviation handleKeyQuery := (handleKeyQuery tokens decodeRequest net getKeys decode n tp).

Lemma QueryKeys_answers ctx request : Forall (policy_answers tp) (map fst (map_to_list request)) -> is_Some (QueryKeys ctx request).
Proof.
  intros Hp. unfold NotaryQuery.QueryKeys, applyTrustPolicyToRequest. destruct tp as [p|]; [|by eexists].
  destruct (policyFailures_answers p _ Hp) as [fs ->]. cbn [mbind option_bind]. by eexists.
Qed.

(** A request the handler may pass on: in a body of at most one mebibyte, nested
    no deeper than the limit, for at least one server and no more than the limit,
    with valid names, valid key identifiers and no negative instant. *)
Record admissible_request (sec : SecurityConfig) (data : bytes) (request : KeyQueryRequest) : Prop := {
  body_bounded : len data <= maxRequestBodySize;
  nesting_bounded : forall p q, (tokens data).1 = p ++ q -> depthAfter p 0 <= depthLimit (sec_MaxJSONDepth sec);
  body_decoded : decodeRequest data = Some (request, true);
  servers_bounded : 0 < Z.of_nat (size request)
    <= (if decide (sec_MaxServersPerQuery sec <= 0) then maxServersPerQuery else sec_MaxServersPerQuery sec);
  names_valid : forall name criteria, request !! name = Some criteria ->
    ValidateServerName name (if decide (sec_MaxServerNameLength sec <= 0) then 255 else sec_MaxServerNameLength sec) = None
    /\ forall keyID ts, criteria !! keyID = Some ts -> ValidateKeyID keyID = None /\ 0 <= ts;
}.

Lemma criteriaOk_spec criteria keyID ts :
  criteriaOk criteria = true -> criteria !! keyID = Some ts -> ValidateKeyID keyID = None /\ 0 <= ts.
Proof.
  intros Hc Hk. unfold criteriaOk in Hc. rewrite forallb_forall in Hc.
  specialize (Hc (keyID, ts) ltac:(by apply list_elem_of_In, elem_of_map_to_list)). cbn [fst snd] in Hc.
  apply andb_prop in Hc as [Hc Ht]. apply andb_prop in Hc as [_ Hv]. apply bool_decide_eq_true in Hv, Ht. split; [done|lia].
Qed.

Lemma validate_spec request maxNameLen :
  validateKeyQueryServerKeys request maxNameLen = true ->
  forall name criteria, request !! name = Some criteria ->
    ValidateServerName name maxNameLen = None /\ forall keyID ts, criteria !! keyID = Some ts -> ValidateKeyID keyID = None /\ 0 <= ts.
Proof.
  intros Hv name criteria Hn. unfold validateKeyQueryServerKeys in Hv. rewrite forallb_forall in Hv.
  specialize (Hv (name, criteria) ltac:(by apply list_elem_of_In, elem_of_map_to_list)). cbn [fst snd] in Hv.
  apply andb_prop in Hv as [Hs Hc]. apply bool_decide_eq_true in Hs. split; [done|]. intros keyID ts. by apply criteriaOk_spec.
Qed.

(** The same, from the conditions to the check. *)
Lemma validate_complete request maxNameLen :
  (forall name criteria, request !! name = Some criteria ->
    ValidateServerName name maxNameLen = None /\ forall keyID ts, criteria !! keyID = Some ts -> ValidateKeyID keyID = None /\ 0 <= ts) ->
  validateKeyQueryServerKeys request maxNameLen = true.
Proof.
  intros Hall. apply forallb_forall. intros [name criteria] Hin. apply list_elem_of_In, elem_of_map_to_list in Hin.
  destruct (Hall name criteria Hin) as [Hv Hk]. cbn [fst snd]. apply andb_true_intro. split; [by apply bool_decide_eq_true|].
  apply forallb_forall. intros [keyID ts] Hkin. apply list_elem_of_In, elem_of_map_to_list in Hkin.
  destruct (Hk keyID ts Hkin) as [Hid Hts]. cbn [fst snd]. rewrite (bool_decide_eq_true_2 (ValidateKeyID keyID = None)) by done.
  rewrite (bool_decide_eq_true_2 (~ ts < 0)) by lia. rewrite bool_decide_eq_true_2; [done|]. by intros ->.
Qed.

Lemma decodeStrictJSON_Ok data e maxDepth request :
  decodeStrictJSON tokens decodeRequest data e maxDepth = Ok request
  <-> len data <= maxRequestBodySize /\ e = StreamEOF /\ validateJSONDepth (tokens data) maxDepth = true
      /\ decodeRequest data = Some (request, true).
Proof.
  unfold decodeStrictJSON, readBody. destruct (decide (maxRequestBodySize < len data)) as [Hl|Hl].
  { split; [done|]. intros [? _]. lia. }
  destruct e; [|by split; [|intros (_ & ? & _)]]. destruct (validateJSONDepth (tokens data) maxDepth); [|by split; [|intros (_ & _ & ? & _)]].
  cbn [negb]. destruct (decodeRequest data) as [[r []]|]; (split; [|intros (_ & _ & _ & [=])]); try done; [intros [= ->]; split_and!; done || lia|by subst].
Qed.

Lemma decodeStrictJSON_large data e maxDepth :
  decodeStrictJSON tokens decodeRequest data e maxDepth = Err DecodeTooLarge <-> maxRequestBodySize < len data.
Proof.
  unfold decodeStrictJSON, readBody. destruct (decide (maxRequestBodySize < len data)) as [Hl|Hl]; [done|]. split; [|done].
  destruct e; [|done]. destruct (validateJSONDepth _ _); [|done]. cbn [negb]. by destruct (decodeRequest data) as [[r []]|].
Qed.

(** What the handler does with a decoded request. *)
Lemma handleKeyQuery_decoded sec ctx data e s request :
  decodeStrictJSON tokens decodeRequest data e (sec_MaxJSONDepth sec) = Ok request ->
  (admissible_request sec data request
   /\ handleKeyQuery sec ctx data e s = (run ← QueryKeys ctx request; let '(response, s) := run s in Some (HttpValue response, s)))
  \/ (~ admissible_request sec data request /\ exists code, handleKeyQuery sec ctx data e s = Some (HttpError 400 code, s)).
Proof.
  intros Hd. unfold HttpApi.handleKeyQuery. rewrite Hd. apply decodeStrictJSON_Ok in Hd as (Hl & -> & Hv & Hr).
  apply validateJSONDepth_spec in Hv as [_ Hv].
  destruct (decide (size request = 0%nat)) as [Hz|Hz]; [right; split; [intros [_ _ _ ? _]; lia|by eexists]|]. cbv zeta.
  destruct (decide (_ < Z.of_nat (size request))) as [Hm|Hm]; [right; split; [intros [_ _ _ ? _]; lia|by eexists]|].
  destruct (validateKeyQueryServerKeys request _) eqn:Hk; cbn [negb].
  - left. split; [|done]. split; [done|done|done|lia|by apply validate_spec].
  - right. split; [|by eexists]. intros [_ _ _ _ Hn]. apply validate_complete in Hn. congruence.
Qed.

(** C29. What the notary is asked over HTTP is checked first. For every body,
    however malformed: the handler answers with an error and leaves the notary's
    state alone, status 413 exactly when the body is larger than one mebibyte; or
    it answers with what the notary's query returns for the decoded request, and
    then the body is within the bounds on size and nesting, the request names at
    least one server and at most the configured number, and every server name,
    key identifier and instant in it is valid. A request that satisfies all this, in
    a body that arrives whole and whose tokens scan to the end, is not answered with
    an error. The handler panics
    only if the trust policy has a wildcard entry whose fixed ends overlap in a name
    of such a request, so it always answers where the policy has no such entry. *)
Theorem key_query_guarded sec ctx data e s :
  match handleKeyQuery sec ctx data e s with
  | None => exists request, admissible_request sec data request /\ ~ Forall (policy_answers tp) (map fst (map_to_list request))
  | Some (HttpError status _, s') =>
      s' = s /\ (status = 413 \/ status = 400) /\ (status = 413 <-> maxRequestBodySize < len data)
      /\ ((tokens data).2 = true -> e = StreamEOF -> forall request, ~ admissible_request sec data request)
  | Some (HttpValue response, s') =>
      exists request run, admissible_request sec data request /\ QueryKeys ctx request = Some run /\ run s = (response, s')
  end.
Proof.
  destruct (decodeStrictJSON tokens decodeRequest data e (sec_MaxJSONDepth sec)) as [request|err] eqn:Hd.
  - pose proof Hd as Hd'. apply decodeStrictJSON_Ok in Hd' as (Hl & _ & _ & Hr).
    destruct (handleKeyQuery_decoded sec ctx data e s request Hd) as [[Ha ->]|[Hna [code ->]]].
    + destruct (QueryKeys ctx request) as [run|] eqn:Eq; cbn [mbind option_bind].
      * destruct (run s) as [response s'] eqn:Er. eauto.
      * exists request. split; [done|]. intros Hp. destruct (QueryKeys_answers ctx request Hp) as [? ?]. congruence.
    + split; [done|]. split; [by right|]. split; [split; [done|lia]|]. intros _ _ request' Ha'.
      apply Hna. pose proof Ha' as [_ _ Hr' _ _]. rewrite Hr in Hr'. by injection Hr' as ->.
  - pose proof (decodeStrictJSON_large data e (sec_MaxJSONDepth sec)) as Hlarge. rewrite Hd in Hlarge.
    assert ((tokens data).2 = true -> e = StreamEOF -> forall request, ~ admissible_request sec data request) as Hno.
    { intros Ht He request [Hl Hn Hr _ _]. assert (decodeStrictJSON tokens decodeRequest data e (sec_MaxJSONDepth sec) = Ok request) as Hok.
      { apply decodeStrictJSON_Ok. split_and!; [done|done|by apply validateJSONDepth_spec|done]. }
      congruence. }
    unfold HttpApi.handleKeyQuery. rewrite Hd. destruct err.
    + split; [done|]. split; [by left|]. split; [|exact Hno]. split; [intros _; by apply Hlarge|done].
    + split; [done|]. split; [by right|]. split; [|exact Hno]. split; [done|]. intros Hl. by apply Hlarge in Hl.
Qed.

End Query.

(** ** Tokens and request identifiers *)

(** The admin routes answer only a request that carries the configured token, or
    one with the same SHA-256; without a configured token they do not exist. *)
Theorem admin_access_guarded {A} token h (value : A) :
  withAdminAccess token h (HttpValue value) = HttpValue value ->
  token <> [] /\ Sha256.sum256 (adminTokenFromRequest h) = Sha256.sum256 token.
Proof.
  unfold withAdminAccess, secureTokenCompare. case_decide; [done|]. destruct (bool_decide _) eqn:Eb; [|done].
  intros _. split; [done|]. by apply bool_decide_eq_true in Eb.
Qed.

Lemma request_id_byte_hex n : requestIDByte (Hex.nibble n) = true.
Proof.
  unfold Hex.nibble. destruct (nth_in_or_default (Z.to_nat n) Hex.digits Byte.x30) as [Hin| ->]; [|done].
  assert (forallb requestIDByte Hex.digits = true) as Hall by (by vm_compute). rewrite forallb_forall in Hall. by apply Hall.
Qed.

Lemma request_id_hex m : forallb requestIDByte (Hex.EncodeToString m) = true /\ len (Hex.EncodeToString m) = 2 * len m.
Proof.
  induction m as [|b m [IH Hl]]; [done|]. cbn [Hex.EncodeToString forallb]. rewrite !request_id_byte_hex, IH. split; [done|].
  unfold len in *. cbn [length]. lia.
Qed.

(** Whatever the client sends as X-Request-ID, what the response header and the
    log carry has no more than 128 bytes, all of them letters, digits or one of
    five marks: no line break and no quote gets through. *)
Theorem request_id_clean random h :
  match random with Some b => length b = 16%nat | None => True end -> requestIDPattern (RequestIDMiddleware random h) = true.
Proof.
  intros Hr. unfold RequestIDMiddleware, normalizeRequestID.
  assert (requestIDPattern (generateRequestID random) = true) as Hgen.
  { destruct random as [b|]; [|by vm_compute]. unfold generateRequestID, requestIDPattern. destruct (request_id_hex b) as [-> Hl].
    rewrite bool_decide_eq_true_2; [done|]. unfold len in *. lia. }
  case_decide; [done|]. case_decide; [done|]. by destruct (requestIDPattern (TrimSpace (h_RequestID h))) eqn:Ep.
Qed.
