(* ===== verification/VerifyTool.v ===== *)
(** * The signed tree head and the tool that checks it
    (keys/notary_sth.go, GetPublicKeyInfo of keys/notary_accessors.go, cmd/mxkeys-verify)

    The notary publishes its public key with a fingerprint and a signature of its
    own, and the head of the transparency log with a signature. The tool fetches
    both, checks the signatures, compares the head with one it saved before, and
    saves the new one.

    Parameters: what an HTTP request yields, what a file holds, whether it can be
    written, Ed25519, and encoding/json's decoders and encoder of the two
    documents. A run is its exit code, the result it reports, how it reports it,
    and the file it wrote. Progress lines are left out. *)
From S2P Require Import Prelude Crypto Base64 Decimal GoTime GoStrings Merkle NotarySignature.
From S2P Require Import Transparency TransparencyProofs.
From Stdlib Require Import ZArith Lia.
From stdpp Require Import base list strings.
#[local] Open Scope Z_scope.

(** ** The documents *)

Record signedTreeHead : Type := mkHead {
  sth_TreeSize : Z;
  sth_RootHash : bytes;
  sth_Timestamp : bytes;
  sth_TimestampMS : Z;
  sth_Signer : bytes;
  sth_KeyID : bytes;
  sth_Signature : bytes;
  sth_SignPayload : bytes;
}.

Record notaryKey : Type := mkNotaryKey {
  nk_ServerName : bytes;
  nk_KeyID : bytes;
  nk_Algorithm : bytes;
  nk_PublicKey : bytes;
  nk_Fingerprint : bytes;
  nk_SelfSignature : bytes;
  nk_SignPayload : bytes;
}.

(** ** What the notary publishes *)

(** [t.Format(time.RFC3339)] of a UTC time: whole seconds. *)
Definition FormatRFC3339 (t : Z) : bytes := FormatRFC3339Nano (t - t mod Second).

Definition headPayload (treeSize : Z) (rootHash : bytes) (ms : Z) : bytes :=
  FormatInt treeSize ++ bar :: rootHash ++ bar :: FormatInt ms.

Section Notary.
Context {E : Ed25519}.

(** [None] is the error that the log is not enabled; [now] is an instant. *)
Definition SignedTreeHead (n : Notary) (tl : option TransparencyLog) (now : Z) : option signedTreeHead :=
  tl ← tl;
  let treeSize := TreeLeafCount (merkleTree tl) in
  let rootHash := RootHex (merkleTree tl) in
  let payload := headPayload treeSize rootHash (now / 1000000) in
  Some (mkHead treeSize rootHash (FormatRFC3339 now) (now / 1000000) (serverName n) (serverKeyID n)
          (EncodeRaw (Sign (serverKeyPair n) payload)) payload).

Definition fingerprintOf (publicKey : bytes) : bytes := Hex.EncodeToString (Sha256.sum256 publicKey).

Definition GetPublicKeyInfo (n : Notary) : notaryKey :=
  let publicKey := Public (serverKeyPair n) in
  let pubB64 := EncodeRaw publicKey in
  let fpHex := fingerprintOf publicKey in
  let payload := serverName n ++ bar :: serverKeyID n ++ bar :: pubB64 ++ bar :: fpHex in
  mkNotaryKey (serverName n) (serverKeyID n) (bs "ed25519") pubB64 fpHex (EncodeRaw (Sign (serverKeyPair n) payload)) payload.

End Notary.

(** ** The tool *)

Definition ExitOK : Z := 0.
Definition ExitUsageError : Z := 1.
Definition ExitFetchError : Z := 2.
Definition ExitSignatureInvalid : Z := 3.
Definition ExitConsistencyFailed : Z := 4.
Definition ExitIOError : Z := 5.

(** The messages of [result.Error], without the texts of system errors. *)
Inductive verify_err : Type :=
  | VeURLRequired | VeFetchKey | VePublicKey | VeFingerprint (got expected : bytes) | VeFetchHead | VeSignatureEncoding
  | VeSignatureInvalid | VeReadPrevious | VeParsePrevious | VeSizeDecreased | VeRootChanged | VeTimeBackwards | VeSave.

Record verifyResult : Type := mkVerifyResult {
  vr_OK : bool;
  vr_Server : bytes;
  vr_KeyFingerprint : bytes;
  vr_TreeSize : Z;
  vr_RootHash : bytes;
  vr_Timestamp : bytes;
  vr_SignatureValid : bool;
  vr_ConsistencyValid : option bool;
  vr_PrevTreeSize : option Z;
  vr_TrustLevel : Z;
  vr_TrustLevelName : bytes;
  vr_Error : option verify_err;
}.

Record flags : Type := mkFlags {
  fl_url : bytes;
  fl_prev : bytes;
  fl_out : bytes;
  fl_json : bool;
  fl_quiet : bool;
  fl_expectedFP : bytes;
}.

(** A GET: an error of the transport, or a status and a body. *)
Inductive get_reply : Type :=
  | GetError
  | GetReply (status : Z) (body : bytes).

Inductive report : Type :=
  | ReportJSON (r : verifyResult)
  | ReportUsage
  | ReportFail (e : option verify_err)
  | ReportPassed (level : Z) (name : bytes)
  | ReportNothing.

Record run : Type := mkRun {
  run_exit : Z;
  run_result : verifyResult;
  run_report : report;
  run_written : option (bytes * bytes);
}.

Definition trustLevelName (level : Z) : bytes :=
  if decide (level = 1) then bs "transport_retrieval"
  else if decide (level = 2) then bs "self_consistency"
  else if decide (level = 3) then bs "origin_trust"
  else bs "unknown".

Definition set_error e (r : verifyResult) : verifyResult :=
  mkVerifyResult (vr_OK r) (vr_Server r) (vr_KeyFingerprint r) (vr_TreeSize r) (vr_RootHash r) (vr_Timestamp r) (vr_SignatureValid r)
    (vr_ConsistencyValid r) (vr_PrevTreeSize r) (vr_TrustLevel r) (vr_TrustLevelName r) e.
Definition set_levelName name (r : verifyResult) : verifyResult :=
  mkVerifyResult (vr_OK r) (vr_Server r) (vr_KeyFingerprint r) (vr_TreeSize r) (vr_RootHash r) (vr_Timestamp r) (vr_SignatureValid r)
    (vr_ConsistencyValid r) (vr_PrevTreeSize r) (vr_TrustLevel r) name (vr_Error r).
Definition set_level level (r : verifyResult) : verifyResult :=
  mkVerifyResult (vr_OK r) (vr_Server r) (vr_KeyFingerprint r) (vr_TreeSize r) (vr_RootHash r) (vr_Timestamp r) (vr_SignatureValid r)
    (vr_ConsistencyValid r) (vr_PrevTreeSize r) level (vr_TrustLevelName r) (vr_Error r).
Definition set_key (k : notaryKey) (r : verifyResult) : verifyResult :=
  mkVerifyResult (vr_OK r) (nk_ServerName k) (nk_Fingerprint k) (vr_TreeSize r) (vr_RootHash r) (vr_Timestamp r) (vr_SignatureValid r)
    (vr_ConsistencyValid r) (vr_PrevTreeSize r) (vr_TrustLevel r) (vr_TrustLevelName r) (vr_Error r).
Definition set_head (h : signedTreeHead) (r : verifyResult) : verifyResult :=
  mkVerifyResult (vr_OK r) (vr_Server r) (vr_KeyFingerprint r) (sth_TreeSize h) (sth_RootHash h) (sth_Timestamp h)
    (vr_SignatureValid r) (vr_ConsistencyValid r) (vr_PrevTreeSize r) (vr_TrustLevel r) (vr_TrustLevelName r) (vr_Error r).
Definition set_signatureValid b (r : verifyResult) : verifyResult :=
  mkVerifyResult (vr_OK r) (vr_Server r) (vr_KeyFingerprint r) (vr_TreeSize r) (vr_RootHash r) (vr_Timestamp r) b
    (vr_ConsistencyValid r) (vr_PrevTreeSize r) (vr_TrustLevel r) (vr_TrustLevelName r) (vr_Error r).
Definition set_previous size consistent (r : verifyResult) : verifyResult :=
  mkVerifyResult (vr_OK r) (vr_Server r) (vr_KeyFingerprint r) (vr_TreeSize r) (vr_RootHash r) (vr_Timestamp r) (vr_SignatureValid r)
    consistent size (vr_TrustLevel r) (vr_TrustLevelName r) (vr_Error r).
Definition set_ok (r : verifyResult) : verifyResult :=
  mkVerifyResult true (vr_Server r) (vr_KeyFingerprint r) (vr_TreeSize r) (vr_RootHash r) (vr_Timestamp r) (vr_SignatureValid r)
    (vr_ConsistencyValid r) (vr_PrevTreeSize r) (vr_TrustLevel r) (vr_TrustLevelName r) (vr_Error r).

Definition emptyResult : verifyResult := mkVerifyResult false [] [] 0 [] [] false None None 0 [] None.

(** [finish]: [os.Exit] ends the run. *)
Definition finish (jsonMode : bool) (r : verifyResult) (e : verify_err) (code : Z) (written : option (bytes * bytes)) : run :=
  let r := set_levelName (trustLevelName (vr_TrustLevel r)) (set_error (Some e) r) in
  mkRun code r (if jsonMode then ReportJSON r else ReportFail (vr_Error r)) written.

Section Tool.
Context {E : Ed25519}.
Variable get : bytes -> get_reply.
Variable readFile : bytes -> option bytes.
Variable writeOk : bytes -> bool.
Variable decodeKey : bytes -> option notaryKey.
Variable decodeHead : bytes -> option signedTreeHead.
Variable unmarshalHead : bytes -> option signedTreeHead.
Variable marshalHead : signedTreeHead -> bytes.

Definition fetchJSON {T} (decode : bytes -> option T) (url : bytes) : option T :=
  match get url with
  | GetError => None
  | GetReply status body => if decide (status <> 200) then None else decode body
  end.

(** The key's own signature, when it brings one. *)
Definition selfSigned (key : notaryKey) (pubKeyBytes : bytes) : bool :=
  if decide (nk_SelfSignature key <> [] /\ nk_SignPayload key <> []) then
    match DecodeRaw (nk_SelfSignature key) with
    | Some selfSig => Verify pubKeyBytes (nk_SignPayload key) selfSig
    | None => false
    end
  else false.

(** What is wrong with a head that follows [prev]. *)
Definition compareHeads (prev sth : signedTreeHead) : option verify_err :=
  if decide (sth_TreeSize sth < sth_TreeSize prev) then Some VeSizeDecreased
  else if decide (sth_TreeSize sth = sth_TreeSize prev /\ sth_RootHash sth <> sth_RootHash prev) then Some VeRootChanged
  else if decide (sth_TimestampMS sth < sth_TimestampMS prev) then Some VeTimeBackwards
  else None.

(** From "Save snapshot" to the end. *)
Definition saveAndReport (fl : flags) (sth : signedTreeHead) (r : verifyResult) : run :=
  let saved := if decide (fl_out fl <> []) then writeOk (fl_out fl) else true in
  if negb saved then finish (fl_json fl) r VeSave ExitIOError None
  else
    let r := set_ok r in
    let r := set_levelName (trustLevelName (vr_TrustLevel r)) r in
    mkRun ExitOK r
      (if fl_json fl then ReportJSON r
       else if fl_quiet fl then ReportNothing else ReportPassed (vr_TrustLevel r) (vr_TrustLevelName r))
      (if decide (fl_out fl <> []) then Some (fl_out fl, marshalHead sth) else None).

(** From "Consistency check". *)
Definition checkConsistency (fl : flags) (sth : signedTreeHead) (r : verifyResult) : run :=
  if decide (fl_prev fl <> []) then
    match readFile (fl_prev fl) with
    | None => finish (fl_json fl) r VeReadPrevious ExitIOError None
    | Some prevData =>
        match unmarshalHead prevData with
        | None => finish (fl_json fl) r VeParsePrevious ExitIOError None
        | Some prev =>
            match compareHeads prev sth with
            | Some e =>
                finish (fl_json fl) (set_previous (Some (sth_TreeSize prev)) (Some false) r) e ExitConsistencyFailed None
            | None => saveAndReport fl sth (set_previous (Some (sth_TreeSize prev)) (Some true) r)
            end
        end
    end
  else saveAndReport fl sth r.

(** From "Fetch and verify STH". *)
Definition checkHead (fl : flags) (pubKeyBytes : bytes) (r : verifyResult) : run :=
  match fetchJSON decodeHead (fl_url fl ++ bs "/_mxkeys/transparency/signed-head") with
  | None => finish (fl_json fl) r VeFetchHead ExitFetchError None
  | Some sth =>
      let r := set_head sth r in
      match DecodeRaw (sth_Signature sth) with
      | None => finish (fl_json fl) r VeSignatureEncoding ExitSignatureInvalid None
      | Some sigBytes =>
          if negb (Verify pubKeyBytes (sth_SignPayload sth) sigBytes)
          then finish (fl_json fl) (set_signatureValid false r) VeSignatureInvalid ExitSignatureInvalid None
          else checkConsistency fl sth (set_signatureValid true r)
      end
  end.

Definition main (fl : flags) : run :=
  if decide (fl_url fl = []) then
    let r := set_error (Some VeURLRequired) emptyResult in
    mkRun ExitUsageError r
      (if fl_json fl then ReportJSON r else if fl_quiet fl then ReportNothing else ReportUsage) None
  else
    let r := set_level 1 emptyResult in
    match fetchJSON decodeKey (fl_url fl ++ bs "/_mxkeys/notary/key") with
    | None => finish (fl_json fl) r VeFetchKey ExitFetchError None
    | Some key =>
        let r := set_key key r in
        match DecodeRaw (nk_PublicKey key) with
        | None => finish (fl_json fl) r VePublicKey ExitFetchError None
        | Some pubKeyBytes =>
            if decide (length pubKeyBytes <> PublicKeySize) then finish (fl_json fl) r VePublicKey ExitFetchError None
            else
              let r := if selfSigned key pubKeyBytes then set_level 2 r else r in
              if decide (fl_expectedFP fl <> []) then
                if decide (nk_Fingerprint key <> fl_expectedFP fl)
                then finish (fl_json fl) r (VeFingerprint (nk_Fingerprint key) (fl_expectedFP fl)) ExitSignatureInvalid None
                else checkHead fl pubKeyBytes (set_level 3 r)
              else checkHead fl pubKeyBytes r
        end
    end.

End Tool.

(** ** What the verification tool establishes

    When it succeeds, exactly; that it succeeds on what an honest notary
    publishes as its log grows; and what it leaves unchecked. *)

(** [sth] can follow [prev] in an append-only log. *)
Definition follows (prev sth : signedTreeHead) : Prop :=
  sth_TreeSize prev <= sth_TreeSize sth
  /\ (sth_TreeSize prev = sth_TreeSize sth -> sth_RootHash prev = sth_RootHash sth)
  /\ sth_TimestampMS prev <= sth_TimestampMS sth.

Lemma compareHeads_follows prev sth : compareHeads prev sth = None <-> follows prev sth.
Proof.
  unfold compareHeads, follows. case_decide as H1; [split; [done|lia]|]. case_decide as H2.
  - split; [done|]. intros (_ & Hr & _). destruct H2 as [E Hn]. destruct Hn. symmetry. by apply Hr.
  - case_decide as H3; [split; [done|lia]|]. split; [|done]. intros _. split; [lia|]. split; [|lia]. intros E.
    destruct (decide (sth_RootHash sth = sth_RootHash prev)) as [|Hn]; [done|]. by destruct H2.
Qed.

Lemma follows_trans h1 h2 h3 : follows h1 h2 -> follows h2 h3 -> follows h1 h3.
Proof.
  intros (A & B & C) (A' & B' & C'). split; [lia|]. split; [|lia]. intros E. rewrite B by lia. apply B'. lia.
Qed.

Section Tool.
Context {E : Ed25519}.
Variable get : bytes -> get_reply.
Variable readFile : bytes -> option bytes.
Variable writeOk : bytes -> bool.
Variable decodeKey : bytes -> option notaryKey.
Variable decodeHead : bytes -> option signedTreeHead.
Variable unmarshalHead : bytes -> option signedTreeHead.
Variable marshalHead : signedTreeHead -> bytes.

Abbreviation run_tool := (main get readFile writeOk decodeKey decodeHead unmarshalHead marshalHead).
Abbreviation key_of fl := (fetchJSON get decodeKey (fl_url fl ++ bs "/_mxkeys/notary/key")).
Abbreviation head_of fl := (fetchJSON get decodeHead (fl_url fl ++ bs "/_mxkeys/transparency/signed-head")).

Definition level_of (fl : flags) (key : notaryKey) (pub : bytes) : Z :=
  if decide (fl_expectedFP fl <> []) then 3 else if selfSigned key pub then 2 else 1.

(** The saved head, if one is given, is readable and followed. *)
Definition previous_ok (fl : flags) (sth : signedTreeHead) : Prop :=
  fl_prev fl <> [] -> exists data prev, readFile (fl_prev fl) = Some data /\ unmarshalHead data = Some prev /\ follows prev sth.

Definition save_ok (fl : flags) : Prop := fl_out fl <> [] -> writeOk (fl_out fl) = true.

(** Key and head are served, and the key signed the head's payload. *)
Record checked (fl : flags) (key : notaryKey) (pub : bytes) (sth : signedTreeHead) (sig : bytes) : Prop := {
  chk_url : fl_url fl <> [];
  chk_key : key_of fl = Some key;
  chk_pub : DecodeRaw (nk_PublicKey key) = Some pub;
  chk_size : length pub = PublicKeySize;
  chk_pin : fl_expectedFP fl <> [] -> nk_Fingerprint key = fl_expectedFP fl;
  chk_head : head_of fl = Some sth;
  chk_sig : DecodeRaw (sth_Signature sth) = Some sig;
  chk_verify : Verify pub (sth_SignPayload sth) sig = true;
  chk_prev : previous_ok fl sth;
  chk_save : save_ok fl;
}.

Definition reports (r : run) (key : notaryKey) (sth : signedTreeHead) (level : Z) : Prop :=
  vr_OK (run_result r) = true /\ vr_SignatureValid (run_result r) = true
  /\ vr_Server (run_result r) = nk_ServerName key
  /\ vr_TreeSize (run_result r) = sth_TreeSize sth /\ vr_RootHash (run_result r) = sth_RootHash sth
  /\ vr_TrustLevel (run_result r) = level /\ vr_TrustLevelName (run_result r) = trustLevelName level
  /\ vr_Error (run_result r) = None.

Definition saved (fl : flags) (sth : signedTreeHead) : option (bytes * bytes) :=
  if decide (fl_out fl <> []) then Some (fl_out fl, marshalHead sth) else None.

Lemma saveAndReport_ok fl sth r :
  run_exit (saveAndReport writeOk marshalHead fl sth r) = ExitOK <-> save_ok fl.
Proof.
  unfold saveAndReport, save_ok. case_decide as Ho; cbn [negb].
  - destruct (writeOk (fl_out fl)); cbn; split; try done. intros H. by specialize (H Ho).
  - by cbn.
Qed.

Lemma checkConsistency_ok fl sth r :
  run_exit (checkConsistency readFile writeOk unmarshalHead marshalHead fl sth r) = ExitOK
  <-> previous_ok fl sth /\ save_ok fl.
Proof.
  unfold checkConsistency, previous_ok. case_decide as Hp.
  - destruct (readFile (fl_prev fl)) as [data|]; [|split; [done|]; intros [H _]; by destruct (H Hp) as (? & ? & ? & _)].
    destruct (unmarshalHead data) as [prev|] eqn:Hu;
      [|split; [done|]; intros [H _]; destruct (H Hp) as (? & ? & [= <-] & Hn & _); congruence].
    destruct (compareHeads prev sth) as [e|] eqn:Hc.
    + split; [done|]. intros [H _]. destruct (H Hp) as (? & ? & [= <-] & Hn & Hf). rewrite Hu in Hn. injection Hn as <-.
      apply compareHeads_follows in Hf. congruence.
    + rewrite saveAndReport_ok. apply compareHeads_follows in Hc. split; [|by intros [_ H]]. intros Hs. split; [|done].
      intros _. by exists data, prev.
  - rewrite saveAndReport_ok. tauto.
Qed.

Lemma checkHead_ok fl pub r :
  run_exit (checkHead get readFile writeOk decodeHead unmarshalHead marshalHead fl pub r) = ExitOK
  <-> exists sth sig, head_of fl = Some sth /\ DecodeRaw (sth_Signature sth) = Some sig
        /\ Verify pub (sth_SignPayload sth) sig = true /\ previous_ok fl sth /\ save_ok fl.
Proof.
  unfold checkHead. destruct (head_of fl) as [sth|]; [|split; [done|]; by intros (? & ? & ? & _)].
  destruct (DecodeRaw (sth_Signature sth)) as [sig|] eqn:Hs;
    [|split; [done|]; intros (? & ? & [= <-] & Hn & _); congruence].
  destruct (Verify pub (sth_SignPayload sth) sig) eqn:Hv; cbn [negb].
  - rewrite checkConsistency_ok. split; [intros [H1 H2]; by exists sth, sig|].
    by intros (? & ? & [= <-] & _ & _ & H).
  - split; [done|]. intros (? & ? & [= <-] & Hn & Hv' & _). congruence.
Qed.

(** The steps of a run that gets through. *)
Lemma main_checked fl key pub sth sig :
  checked fl key pub sth sig ->
  reports (run_tool fl) key sth (level_of fl key pub) /\ run_written (run_tool fl) = saved fl sth
  /\ (fl_prev fl <> [] -> vr_ConsistencyValid (run_result (run_tool fl)) = Some true).
Proof.
  intros [Hu Hk Hp Hl Hfp Hh Hs Hv Hprev Hsave]. unfold main. rewrite decide_False by done. rewrite Hk, Hp.
  rewrite decide_False by (intros H; by apply H). unfold level_of, saved.
  assert (Hrest : forall r lvl, vr_TrustLevel r = lvl -> vr_Server r = nk_ServerName key -> vr_Error r = None ->
    let out := checkHead get readFile writeOk decodeHead unmarshalHead marshalHead fl pub r in
    reports out key sth lvl /\ run_written out = (if decide (fl_out fl <> []) then Some (fl_out fl, marshalHead sth) else None)
    /\ (fl_prev fl <> [] -> vr_ConsistencyValid (run_result out) = Some true)).
  { intros r lvl <- Hr He. unfold checkHead. rewrite Hh, Hs, Hv. cbn [negb]. unfold checkConsistency.
    unfold previous_ok in Hprev. unfold save_ok in Hsave.
    destruct (decide (fl_prev fl <> [])) as [Hp'|Hp'].
    - destruct (Hprev Hp') as (data & prev & Hr1 & Hr2 & Hf). rewrite Hr1, Hr2. apply compareHeads_follows in Hf. rewrite Hf.
      unfold saveAndReport, reports. destruct (decide (fl_out fl <> [])) as [Ho|Ho]; [rewrite (Hsave Ho)|]; by cbn.
    - unfold saveAndReport, reports. destruct (decide (fl_out fl <> [])) as [Ho|Ho]; [rewrite (Hsave Ho)|]; by cbn. }
  destruct (decide (fl_expectedFP fl <> [])) as [Hf|Hf].
  - rewrite decide_False by (intros H; apply H; by apply Hfp). apply Hrest; by destruct (selfSigned key pub).
  - apply Hrest; by destruct (selfSigned key pub).
Qed.

Lemma main_exit fl :
  run_exit (run_tool fl) = ExitOK <-> exists key pub sth sig, checked fl key pub sth sig.
Proof.
  unfold main. case_decide as Hu; [split; [done|]; intros (? & ? & ? & ? & []); congruence|].
  destruct (key_of fl) as [key|] eqn:Hk; [|split; [done|]; intros (? & ? & ? & ? & []); congruence].
  destruct (DecodeRaw (nk_PublicKey key)) as [pub|] eqn:Hp;
    [|split; [done|]; intros (? & ? & ? & ? & []); congruence].
  case_decide as Hl; [split; [done|]; intros (? & ? & ? & ? & []); congruence|].
  assert (length pub = PublicKeySize) as Hl' by (destruct (decide (length pub = PublicKeySize)); tauto).
  assert (Hrest : forall r, (fl_expectedFP fl <> [] -> nk_Fingerprint key = fl_expectedFP fl) ->
    run_exit (checkHead get readFile writeOk decodeHead unmarshalHead marshalHead fl pub r) = ExitOK
    <-> exists key pub sth sig, checked fl key pub sth sig).
  { intros r Hfp. rewrite checkHead_ok. split.
    - intros (sth & sig & H1 & H2 & H3 & H4 & H5). by exists key, pub, sth, sig.
    - intros (key' & pub' & sth & sig & [_ Hk' Hp' _ _ Hh Hs Hv Hpr Hsv]). exists sth, sig.
      rewrite Hk in Hk'. injection Hk' as <-. rewrite Hp in Hp'. by injection Hp' as <-. }
  cbv zeta. case_decide as Hf; [|by apply Hrest].
  case_decide as Hm; [split; [done|]; intros (? & ? & ? & ? & [_ Hk' _ _ Hpin _ _ _ _ _]);
    rewrite Hk in Hk'; injection Hk' as <-; by apply Hpin in Hf|].
  apply Hrest. intros _. by destruct (decide (nk_Fingerprint key = fl_expectedFP fl)); [|tauto].
Qed.

End Tool.

(** ** What its success means *)

(** The tool exits with 0 in exactly these cases: the two documents were served
    with status 200 and decoded, the key has the size of an Ed25519 key, it signed
    the payload the head brings, a pinned fingerprint is the one the document
    names, the saved head is readable and not ahead of the new one in size or
    time (nor of the same size with another root), and the new head could be
    saved. It then reports the server, the size and the root of the head, the
    level it reached, and writes the head it checked. *)
Theorem verify_tool_exact {E : Ed25519} get readFile writeOk decodeKey decodeHead unmarshalHead marshalHead fl :
  let r := main get readFile writeOk decodeKey decodeHead unmarshalHead marshalHead fl in
  (run_exit r = ExitOK <-> exists key pub sth sig, checked get readFile writeOk decodeKey decodeHead unmarshalHead fl key pub sth sig)
  /\ (forall key pub sth sig, checked get readFile writeOk decodeKey decodeHead unmarshalHead fl key pub sth sig ->
        reports r key sth (level_of fl key pub) /\ run_written r = saved marshalHead fl sth).
Proof.
  intros r. split; [apply main_exit|]. intros key pub sth sig Hc.
  destruct (main_checked get readFile writeOk decodeKey decodeHead unmarshalHead marshalHead fl key pub sth sig Hc) as (H1 & H2 & _).
  done.
Qed.

(** ** What an honest notary publishes *)

Section Honest.
Context {E : Ed25519}.

Lemma head_fields n t now h :
  SignedTreeHead n (Some t) now = Some h ->
  sth_TreeSize h = TreeLeafCount (merkleTree t) /\ sth_RootHash h = RootHex (merkleTree t) /\ sth_TimestampMS h = now / 1000000
  /\ sth_SignPayload h = headPayload (TreeLeafCount (merkleTree t)) (RootHex (merkleTree t)) (now / 1000000)
  /\ sth_Signature h = EncodeRaw (Sign (serverKeyPair n) (sth_SignPayload h)).
Proof. by intros [= <-]. Qed.

Lemma log_tree_size t : log_ok t -> TreeLeafCount (merkleTree t) = len (rows t).
Proof.
  intros [_ _ [hs [Hhs Ht]] _]. rewrite Ht. unfold TreeLeafCount, NewFromHashes, len. rewrite leaves_rebuild.
  apply (f_equal length) in Hhs. rewrite !length_map in Hhs. by rewrite Hhs.
Qed.

Lemma same_rows_same_tree t t' : log_ok t -> log_ok t' -> rows t = rows t' -> merkleTree t = merkleTree t'.
Proof.
  intros [_ _ [hs [Hhs Ht]] _] [_ _ [hs' [Hhs' Ht']] _] Hr. rewrite Ht, Ht'. f_equal. rewrite Hr, <- Hhs' in Hhs.
  by apply (inj (fmap Some)) in Hhs.
Qed.

(** Heads of one growing log, in the order of their times, follow one another. *)
Lemma heads_follow n t t' now now' h h' :
  log_ok t -> log_ok t' -> rows t `prefix_of` rows t' -> now <= now' ->
  SignedTreeHead n (Some t) now = Some h -> SignedTreeHead n (Some t') now' = Some h' -> follows h h'.
Proof.
  intros Ht Ht' Hp Hn Hh Hh'. apply head_fields in Hh as (H1 & H2 & H3 & _). apply head_fields in Hh' as (H1' & H2' & H3' & _).
  unfold follows. rewrite H1, H1', H2, H2', H3, H3', !log_tree_size by done. split_and!.
  - unfold len. apply prefix_length in Hp. lia.
  - intros El. f_equal. apply same_rows_same_tree; [done..|]. destruct Hp as [k Hk]. unfold len in El.
    rewrite Hk, length_app in El. destruct k; [by rewrite app_nil_r in Hk|simpl in El; lia].
  - apply Z.div_le_mono; lia.
Qed.

(** The key document that [GetPublicKeyInfo] yields passes every check. *)
Lemma key_info_checks `{!Ed25519Laws E} n :
  length (serverKeyPair n) = PrivateKeySize ->
  DecodeRaw (nk_PublicKey (GetPublicKeyInfo n)) = Some (Public (serverKeyPair n))
  /\ length (Public (serverKeyPair n)) = PublicKeySize
  /\ nk_Fingerprint (GetPublicKeyInfo n) = fingerprintOf (Public (serverKeyPair n))
  /\ selfSigned (GetPublicKeyInfo n) (Public (serverKeyPair n)) = true.
Proof.
  intros Hl. split; [apply DecodeRaw_EncodeRaw|]. split; [by apply Public_length|]. split; [reflexivity|].
  unfold selfSigned. set (info := GetPublicKeyInfo n). assert (nk_SignPayload info <> []) as Hp.
  { subst info. unfold GetPublicKeyInfo. cbn [nk_SignPayload]. by destruct (serverName n). }
  assert (nk_SelfSignature info = EncodeRaw (Sign (serverKeyPair n) (nk_SignPayload info))) as Hs by reflexivity.
  clearbody info. rewrite Hs. rewrite DecodeRaw_EncodeRaw. rewrite Verify_Sign by done. rewrite decide_True; [done|]. split; [|done].
  intros Hn. apply (f_equal DecodeRaw) in Hn. rewrite DecodeRaw_EncodeRaw in Hn. injection Hn as Hn.
  apply (f_equal length) in Hn. by rewrite Sign_length in Hn.
Qed.

End Honest.

(** The documents at the tool's two addresses. *)
Definition serves (get : bytes -> get_reply) (decodeKey : bytes -> option notaryKey) (decodeHead : bytes -> option signedTreeHead)
    (fl : flags) (key : notaryKey) (sth : signedTreeHead) : Prop :=
  fetchJSON get decodeKey (fl_url fl ++ bs "/_mxkeys/notary/key") = Some key
  /\ fetchJSON get decodeHead (fl_url fl ++ bs "/_mxkeys/transparency/signed-head") = Some sth.

(** C13. The heads that a notary publishes for its log verify: take a head of a
    well-formed transparency log, let the log record anything, take a later head. A
    tool that pins the notary's fingerprint, has saved the earlier head and is served
    the later one and the notary's key succeeds with level 3, reports the number of
    rows of the log as the size of the tree, and finds the heads consistent. It is
    assumed that the database returns timestamps in the text that was hashed (a clock
    of whole microseconds), that no statement is carried out without being
    acknowledged, that the later head is not taken at an earlier time, that the key
    has the size of a private key and that a result to be saved can be written. *)
Theorem published_heads_verify {E : Ed25519} `{!Ed25519Laws E} clock dbTime ops get readFile writeOk decodeKey decodeHead
    unmarshalHead marshalHead fl n t now now' h h' data :
  (forall i, faithful dbTime (clock i)) -> log_ok t -> length (serverKeyPair n) = PrivateKeySize -> now <= now' ->
  let t' := runOps clock dbTime ops t in
  SignedTreeHead n (Some t) now = Some h -> SignedTreeHead n (Some t') now' = Some h' ->
  serves get decodeKey decodeHead fl (GetPublicKeyInfo n) h' ->
  fl_url fl <> [] -> fl_expectedFP fl = fingerprintOf (Public (serverKeyPair n)) ->
  fl_prev fl <> [] -> readFile (fl_prev fl) = Some data -> unmarshalHead data = Some h ->
  save_ok writeOk fl ->
  let r := main get readFile writeOk decodeKey decodeHead unmarshalHead marshalHead fl in
  run_exit r = ExitOK /\ vr_TrustLevel (run_result r) = 3 /\ vr_SignatureValid (run_result r) = true
  /\ vr_ConsistencyValid (run_result r) = Some true /\ vr_TreeSize (run_result r) = len (rows t').
Proof.
  intros Hclock Ht Hl Hnow t' Hh Hh' [Hk Hs] Hurl Hfp Hp Hread Hun Hsave r.
  destruct (runOps_keeps clock dbTime Hclock ops t Ht) as [Ht' Hpre]. fold t' in Ht', Hpre.
  destruct (key_info_checks n Hl) as (Kpub & Klen & Kfp & Kself).
  destruct (head_fields _ _ _ _ Hh') as (H1 & _ & _ & _ & Hsig).
  assert (checked get readFile writeOk decodeKey decodeHead unmarshalHead fl (GetPublicKeyInfo n)
            (Public (serverKeyPair n)) h' (Sign (serverKeyPair n) (sth_SignPayload h'))) as Hc.
  { constructor; try assumption.
    - intros _. by rewrite Hfp.
    - rewrite Hsig. apply DecodeRaw_EncodeRaw.
    - by apply Verify_Sign.
    - intros _. exists data, h. split; [done|]. split; [done|]. by apply (heads_follow n t t' now now'). }
  destruct (main_checked get readFile writeOk decodeKey decodeHead unmarshalHead marshalHead _ _ _ _ _ Hc)
    as ((Hok & Hsv & _ & Hsz & _ & Hlv & _) & _ & Hcons). fold r in Hok, Hsv, Hsz, Hlv, Hcons.
  split; [apply main_exit; eauto|]. split_and!; [|done|by apply Hcons|].
  - rewrite Hlv. unfold level_of. rewrite decide_True; [done|]. rewrite Hfp. unfold fingerprintOf. intros Hn.
    apply (f_equal Hex.DecodeString) in Hn. rewrite Hex.decode_encode in Hn. injection Hn as Hn.
    apply (f_equal length) in Hn. by rewrite Sha256.length_sum256 in Hn.
  - by rewrite Hsz, H1, log_tree_size.
Qed.

(** ** What it leaves unchecked *)

(** The fingerprint is not computed from the key: whoever answers the tool can
    name the pinned one beside a key of its own, and is accepted at level 3 with
    any tree it claims. The size and the root are not compared with the signed
    payload either. *)
Theorem pin_accepts_any_key {E : Ed25519} `{!Ed25519Laws E} get readFile writeOk decodeKey decodeHead unmarshalHead marshalHead
    fl sk name keyID algorithm size root ts ms payload :
  length sk = PrivateKeySize -> fl_url fl <> [] -> fl_expectedFP fl <> [] -> fl_prev fl = [] -> fl_out fl = [] ->
  serves get decodeKey decodeHead fl
    (mkNotaryKey name keyID algorithm (EncodeRaw (Public sk)) (fl_expectedFP fl) [] [])
    (mkHead size root ts ms name keyID (EncodeRaw (Sign sk payload)) payload) ->
  let r := main get readFile writeOk decodeKey decodeHead unmarshalHead marshalHead fl in
  run_exit r = ExitOK /\ vr_TrustLevel (run_result r) = 3 /\ vr_TreeSize (run_result r) = size /\ vr_RootHash (run_result r) = root.
Proof.
  intros Hl Hurl Hfp Hp Ho [Hk Hs] r.
  assert (checked get readFile writeOk decodeKey decodeHead unmarshalHead fl
            (mkNotaryKey name keyID algorithm (EncodeRaw (Public sk)) (fl_expectedFP fl) [] []) (Public sk)
            (mkHead size root ts ms name keyID (EncodeRaw (Sign sk payload)) payload) (Sign sk payload)) as Hc.
  { constructor; try done.
    - apply DecodeRaw_EncodeRaw.
    - by apply Public_length.
    - apply DecodeRaw_EncodeRaw.
    - by apply Verify_Sign.
    - by intros [].
    - by intros []. }
  destruct (main_checked get readFile writeOk decodeKey decodeHead unmarshalHead marshalHead _ _ _ _ _ Hc)
    as ((_ & _ & _ & Hsz & Hr & Hlv & _) & _). fold r in Hsz, Hr, Hlv.
  split; [apply main_exit; eauto|]. rewrite Hlv, Hsz, Hr. unfold level_of. by rewrite decide_True.
Qed.

(** ** Instances *)

#[local] Existing Instance plainScheme.
#[local] Existing Instance plainScheme_laws.

Definition demo_flags : flags :=
  mkFlags (bs "https://n.org") (bs "old.json") (bs "new.json") true false (fingerprintOf (Public (serverKeyPair demo_notary))).

Definition demo_ops : list log_op := [OpFailure (bs "a.org") (bs "timeout")].

Definition demo_head (t : TransparencyLog) (now : Z) : signedTreeHead :=
  default (mkHead 0 [] [] 0 [] [] [] []) (SignedTreeHead demo_notary (Some t) now).

Definition demo_later : TransparencyLog := runOps micro_clock roundMicro demo_ops demo_log.

(** Addresses, and documents that stand for their own texts. *)
Definition demo_get (url : bytes) : get_reply :=
  GetReply 200 (if decide (url = bs "https://n.org/_mxkeys/notary/key") then bs "key" else bs "head").

Lemma demo_log_ok : log_ok demo_log.
Proof. split; [done|reflexivity|by exists []|by apply not_elem_of_nil]. Qed.

Lemma published_heads_verify_witness :
  let r := main demo_get (fun _ => Some (bs "old")) (fun _ => true) (fun _ => Some (GetPublicKeyInfo demo_notary))
             (fun _ => Some (demo_head demo_later 2000000)) (fun _ => Some (demo_head demo_log 1000000)) (fun _ => []) demo_flags in
  run_exit r = ExitOK /\ vr_TreeSize (run_result r) = 1.
Proof.
  intros r.
  destruct (published_heads_verify micro_clock roundMicro demo_ops demo_get (fun _ => Some (bs "old")) (fun _ => true)
    (fun _ => Some (GetPublicKeyInfo demo_notary)) (fun _ => Some (demo_head demo_later 2000000))
    (fun _ => Some (demo_head demo_log 1000000)) (fun _ => []) demo_flags demo_notary demo_log 1000000 2000000
    (demo_head demo_log 1000000) (demo_head demo_later 2000000) (bs "old")
    roundMicro_faithful demo_log_ok eq_refl ltac:(lia) eq_refl eq_refl
    (conj eq_refl eq_refl) ltac:(discriminate) eq_refl ltac:(discriminate) eq_refl eq_refl (fun _ => eq_refl))
    as (H1 & _ & _ & _ & H5).
  split; [exact H1|]. etransitivity; [exact H5|]. vm_compute. reflexivity.
Defined.
