(* ===== verification/Storage.v ===== *)
(** * The key store (keys/storage.go, storage_server_response.go)

    The tables of migrations 0001, 0003 and 0004 as maps on their primary keys, with
    the statements the code sends: upserts, reads by key, deletes of what has
    expired. PostgreSQL itself is a parameter in three places: [dbNow] is what
    [NOW()] is in the n-th statement, [dbTime] what comes back for an instant that
    was stored, [jsonb] the text that comes back for a JSON document. A script says
    how each statement ends: well, with an error, or with an error after it was
    carried out, which is how a lost connection looks. Of an error those parts are
    kept that [isRetryableStorageError] asks for. *)
From S2P Require Import Prelude GoTime NetIP TrustPolicy NotarySignature Resolver CircuitBreaker Fetcher.
From Stdlib Require Import ZArith Lia.
From stdpp Require Import base gmap list strings fin_maps.
#[local] Open Scope Z_scope.

(** ** Errors *)

Inductive errno : Type :=
  | ECONNREFUSED | ECONNRESET | EPIPE | EHOSTUNREACH | ENETUNREACH | ETIMEDOUT | EOTHER.

(** What [errors.Is] and [errors.As] find in an error: a [net.Error] with its
    [Timeout], a [net.OpError], an [os.SyscallError] with its number if it holds
    one, a [syscall.Errno]. *)
Record db_error : Type := mkDbError {
  de_badConn : bool;
  de_deadline : bool;
  de_netTimeout : option bool;
  de_opError : bool;
  de_syscall : option (option errno);
  de_errno : option errno;
}.

Definition retryableErrno (e : errno) : bool :=
  match e with
  | ECONNREFUSED | ECONNRESET | EPIPE | EHOSTUNREACH | ENETUNREACH | ETIMEDOUT => true
  | EOTHER => false
  end.

Definition isRetryableStorageError (err : option db_error) : bool :=
  match err with
  | None => false
  | Some err =>
      if de_badConn err then true
      else if de_deadline err then true
      else if match de_netTimeout err with Some timeout => timeout | None => false end then true
      else if de_opError err then true
      else if match de_syscall err with Some (Some e) => retryableErrno e | _ => false end then true
      else match de_errno err with Some e => retryableErrno e | None => false end
  end.

(** ** The tables *)

Record key_row : Type := mkKeyRow {
  kr_PublicKey : bytes;
  kr_ValidUntil : Z;
  kr_FetchedAt : Z;
}.

Record response_row : Type := mkResponseRow {
  rr_response : bytes;
  rr_raw : option bytes;
  rr_ValidUntil : Z;
  rr_FetchedAt : Z;
}.

Record info_row : Type := mkInfoRow {
  ir_info : bytes;
  ir_FetchedAt : Z;
  ir_ExpiresAt : Z;
}.

Record tables : Type := mkTables {
  server_keys : gmap (bytes * bytes) key_row;
  server_key_responses : gmap bytes response_row;
  server_info_cache : gmap bytes info_row;
}.

(** How a statement ends. [RowsBroken k e]: the rows stop after [k] with an error. *)
Inductive exec_outcome : Type :=
  | ExecOk
  | ExecErr (e : db_error) (carried : bool)
  | RowsBroken (k : nat) (e : db_error).

(** [statements] counts what was sent; [slept] are the waits between attempts. *)
Record database : Type := mkDatabase {
  tbl : tables;
  outcomes : list exec_outcome;
  statements : nat;
  slept : list Z;
}.

Definition DB (A : Type) : Type := database -> A * database.
Definition dret {A} (a : A) : DB A := fun d => (a, d).
Definition dbind {A B} (m : DB A) (k : A -> DB B) : DB B := fun d => let '(a, d) := m d in k a d.

Declare Scope storage_scope.
Notation "x <-- m ;; k" := (dbind m (fun x => k)) (at level 20, m at level 99, k at level 200, only parsing) : storage_scope.
Notation "m ;; k" := (dbind m (fun _ => k)) (at level 100, k at level 200, only parsing) : storage_scope.
#[local] Open Scope storage_scope.

Definition on_keys (f : gmap (bytes * bytes) key_row -> gmap (bytes * bytes) key_row) (t : tables) : tables :=
  mkTables (f (server_keys t)) (server_key_responses t) (server_info_cache t).
Definition on_responses (f : gmap bytes response_row -> gmap bytes response_row) (t : tables) : tables :=
  mkTables (server_keys t) (f (server_key_responses t)) (server_info_cache t).
Definition on_info (f : gmap bytes info_row -> gmap bytes info_row) (t : tables) : tables :=
  mkTables (server_keys t) (server_key_responses t) (f (server_info_cache t)).

Definition nextOutcome (d : database) : exec_outcome := default ExecOk (head (outcomes d)).

(** The statement after this one. *)
Definition advance (t : tables) (d : database) : database := mkDatabase t (tail (outcomes d)) (S (statements d)) (slept d).

Definition sleep (ns : Z) : DB unit := fun d => (tt, mkDatabase (tbl d) (outcomes d) (statements d) (slept d ++ [ns])).

Section Storage.
Variable dbNow : nat -> Z.
Variable dbTime : Z -> Z.

(** A statement that writes; [effect] is given [NOW()]. *)
Definition exec (effect : Z -> tables -> tables) : DB (option db_error) := fun d =>
  let done := effect (dbNow (statements d)) (tbl d) in
  match nextOutcome d with
  | ExecOk => (None, advance done d)
  | ExecErr e carried => (Some e, advance (if carried then done else tbl d) d)
  | RowsBroken _ e => (Some e, advance (tbl d) d)
  end.

(** A statement that reads one row. *)
Definition queryRow {A} (f : Z -> tables -> A) : DB (result db_error A) := fun d =>
  (match nextOutcome d with
   | ExecOk => Ok (f (dbNow (statements d)) (tbl d))
   | ExecErr e _ => Err e
   | RowsBroken _ e => Err e
   end, advance (tbl d) d).

(** A statement that reads rows: those read, and the error that ended them; the
    outer error is that of the statement. *)
Definition query {A} (f : Z -> tables -> list A) : DB (result db_error (list A * option db_error)) := fun d =>
  let found := f (dbNow (statements d)) (tbl d) in
  (match nextOutcome d with
   | ExecOk => Ok (found, None)
   | ExecErr e _ => Err e
   | RowsBroken k e => Ok (take k found, Some e)
   end, advance (tbl d) d).

(** ** Writing *)

Definition storageWriteAttempts : nat := 3.
Definition storageRetryBackoff : Z := 100 * 1000000.

Fixpoint writeLoop (remaining attempt : nat) (effect : Z -> tables -> tables) (lastErr : option db_error) : DB (option db_error) :=
  match remaining with
  | O => dret lastErr
  | S remaining =>
      r <-- exec effect;;
      match r with
      | None => dret None
      | Some e =>
          if negb (isRetryableStorageError (Some e)) || Nat.eqb attempt (storageWriteAttempts - 1) then dret (Some e)
          else sleep (storageRetryBackoff * Z.shiftl 1 (Z.of_nat attempt));; writeLoop remaining (S attempt) effect (Some e)
      end
  end.

Definition execWrite (effect : Z -> tables -> tables) : DB (option db_error) := writeLoop storageWriteAttempts 0 effect None.

Definition StoreKey (serverName keyID publicKey : bytes) (validUntil : Z) : DB (option db_error) :=
  execWrite (fun now => on_keys (insert (serverName, keyID) (mkKeyRow publicKey (dbTime validUntil) now))).

(** ** Reading *)

Record StoredKey : Type := mkStoredKey {
  sk_ServerName : bytes;
  sk_KeyID : bytes;
  sk_PublicKey : bytes;
  sk_ValidUntil : Z;
  sk_FetchedAt : Z;
}.

Definition storedKey (serverName keyID : bytes) (r : key_row) : StoredKey :=
  mkStoredKey serverName keyID (kr_PublicKey r) (kr_ValidUntil r) (kr_FetchedAt r).

(** [Ok None] is [nil, nil]: no such row. *)
Definition GetKey (serverName keyID : bytes) : DB (result db_error (option StoredKey)) :=
  queryRow (fun _ t => storedKey serverName keyID <$> server_keys t !! (serverName, keyID)).

Definition GetValidKey (serverName keyID : bytes) : DB (result db_error (option StoredKey)) :=
  queryRow (fun now t =>
    r ← server_keys t !! (serverName, keyID); if decide (now < kr_ValidUntil r) then Some (storedKey serverName keyID r) else None).

(** [order] is the order in which the database goes through the table. *)
Definition GetAllKeysForServer (order : list (bytes * bytes)) (serverName : bytes)
  : DB (result db_error (list StoredKey * option db_error)) :=
  query (fun _ t =>
    omap (fun k => if decide (k.1 = serverName) then storedKey k.1 k.2 <$> server_keys t !! k else None) order).

Definition GetKnownServers (order : list bytes) : DB (result db_error (list bytes * option db_error)) :=
  query (fun _ t => filter (fun name => name ∈ map (fun kv => kv.1.1) (map_to_list (server_keys t))) order).

(** ** Deleting *)

(** How many rows go, and the map without them. *)
Definition expired {K A} `{Countable K} (until : A -> Z) (now : Z) (m : gmap K A) : Z :=
  Z.of_nat (size (filter (fun kv => until kv.2 < now) m)).
Definition unexpired {K A} `{Countable K} (until : A -> Z) (now : Z) (m : gmap K A) : gmap K A :=
  filter (fun kv => ~ until kv.2 < now) m.

(** A DELETE with the number of rows it reports. *)
Definition deleteRows (count : Z -> tables -> Z) (effect : Z -> tables -> tables) : DB (result db_error Z) := fun d =>
  let affected := count (dbNow (statements d)) (tbl d) in
  let '(r, d) := exec effect d in (match r with Some e => Err e | None => Ok affected end, d).

(** The number of rows, and the error. *)
Definition DeleteExpiredKeys : DB (Z * option db_error) :=
  r <-- deleteRows (fun now t => expired kr_ValidUntil now (server_keys t)) (fun now => on_keys (unexpired kr_ValidUntil now));;
  match r with
  | Err e => dret (0, Some e)
  | Ok keysDeleted =>
      r <-- deleteRows (fun now t => expired rr_ValidUntil now (server_key_responses t))
              (fun now => on_responses (unexpired rr_ValidUntil now));;
      match r with
      | Err e => dret (keysDeleted, Some e)
      | Ok responsesDeleted => dret (keysDeleted + responsesDeleted, None)
      end
  end.

(** ** Whole responses (storage_server_response.go) *)

Variable marshalResponse : ServerKeysResponse -> option bytes.
Variable unmarshalResponse : bytes -> option ServerKeysResponse.
Variable jsonb : bytes -> bytes.

Inductive store_err : Type :=
  | StoreMarshal
  | StoreUnmarshal
  | StoreDb (e : db_error).

(** A [nil] slice is NULL. *)
Definition rawColumn (response : ServerKeysResponse) : option bytes :=
  if decide (Raw response = []) then None else Some (Raw response).

Definition StoreServerResponse (serverName : bytes) (response : ServerKeysResponse) (validUntil : Z) : DB (option store_err) :=
  match marshalResponse response with
  | None => dret (Some StoreMarshal)
  | Some responseJSON =>
      r <-- execWrite (fun now => on_responses (insert serverName
              (mkResponseRow (jsonb responseJSON) (rawColumn response) (dbTime validUntil) now)));;
      dret (StoreDb <$> r)
  end.

(** [Ok None] is [nil, nil]. *)
Definition GetServerResponse (serverName : bytes) : DB (result store_err (option ServerKeysResponse)) :=
  r <-- queryRow (fun now t =>
          r ← server_key_responses t !! serverName; if decide (now < rr_ValidUntil r) then Some r else None);;
  dret (match r with
        | Err e => Err (StoreDb e)
        | Ok None => Ok None
        | Ok (Some row) =>
            match unmarshalResponse (rr_response row) with
            | None => Err StoreUnmarshal
            | Some response =>
                Ok (Some match rr_raw row with
                         | Some raw => if decide (raw <> []) then set_raw raw response else response
                         | None => response
                         end)
            end
        end).

End Storage.

(** ** What the key store keeps

    A write that reports success is in the table, however many of its attempts
    failed or were carried out unnoticed, and it is read back until it expires,
    whatever else the store is asked meanwhile. *)

Section Storage.
Variable dbNow : nat -> Z.
Variable dbTime : Z -> Z.

(** ** One statement *)

Lemma exec_spec effect d :
  let '(r, d') := exec dbNow effect d in
  statements d' = S (statements d) /\ outcomes d' = tail (outcomes d) /\ slept d' = slept d
  /\ (tbl d' = effect (dbNow (statements d)) (tbl d) \/ (r <> None /\ tbl d' = tbl d)).
Proof.
  unfold exec. destruct (nextOutcome d) as [|e []|k e]; cbn; auto 10.
Qed.

Lemma query_keeps {A} (f : Z -> tables -> A) d : tbl (queryRow dbNow f d).2 = tbl d.
Proof. done. Qed.

(** ** Writes with retries *)

(** The last write counts. *)
Definition overwrites (effect : Z -> tables -> tables) : Prop := forall n1 n2 t, effect n2 (effect n1 t) = effect n2 t.

(** Nothing happened, or one of the statements from [lo] on took effect. *)
Definition written (effect : Z -> tables -> tables) (lo hi : nat) (t t' : tables) : Prop :=
  exists i, (lo <= i < hi)%nat /\ t' = effect (dbNow i) t.

Lemma written_again effect lo hi k t t1 t' :
  overwrites effect -> written effect lo hi t t1 -> written effect hi k t1 t' -> written effect lo k t t'.
Proof. intros Ho (i & Hi & ->) (j & Hj & ->). exists j. split; [lia|]. apply Ho. Qed.

Lemma writeLoop_spec effect remaining attempt lastErr d :
  overwrites effect ->
  let '(r, d') := writeLoop dbNow remaining attempt effect lastErr d in
  (statements d <= statements d' <= statements d + remaining)%nat
  /\ (written effect (statements d) (statements d') (tbl d) (tbl d')
      \/ tbl d' = tbl d /\ (r <> None \/ (remaining = 0%nat /\ r = lastErr))).
Proof.
  intros Ho. revert attempt lastErr d. induction remaining as [|remaining IH]; intros attempt lastErr d; cbn [writeLoop].
  { cbn. split; [lia|]. right. auto. }
  unfold dbind. pose proof (exec_spec effect d) as He. destruct (exec dbNow effect d) as [r d1].
  destruct He as (Hs & _ & _ & Ht).
  assert (Hstop : (statements d <= statements d1 <= statements d + S remaining)%nat) by lia.
  assert (Hw : written effect (statements d) (statements d1) (tbl d) (tbl d1) \/ tbl d1 = tbl d /\ r <> None).
  { destruct Ht as [Ht|[Hr Ht]]; [left|by right]. exists (statements d). split; [lia|done]. }
  destruct r as [e|]; [|split; [done|]; destruct Hw as [Hw|[_ Hn]]; [by left|done]].
  destruct (negb (isRetryableStorageError (Some e)) || Nat.eqb attempt (storageWriteAttempts - 1)).
  { split; [done|]. destruct Hw as [Hw|[Hw _]]; [by left|]. right. split; [done|]. by left. }
  set (d2 := (sleep (storageRetryBackoff * Z.shiftl 1 (Z.of_nat attempt)) d1).2).
  specialize (IH (S attempt) (Some e) d2).
  change ((sleep (storageRetryBackoff * Z.shiftl 1 (Z.of_nat attempt)) d1)) with (tt, d2). cbv beta iota.
  assert (statements d2 = statements d1 /\ tbl d2 = tbl d1) as [E1 E2] by done.
  destruct (writeLoop dbNow remaining (S attempt) effect (Some e) d2) as [r' d']. rewrite E1, E2 in IH.
  destruct IH as [Hs' IH]. split; [lia|].
  destruct Hw as [Hw|[Hw _]].
  - left. destruct IH as [IH|[IH _]]; [by apply (written_again _ _ _ _ _ _ _ Ho Hw IH)|].
    rewrite IH. destruct Hw as (i & Hi & Hw). exists i. split; [lia|done].
  - rewrite Hw in IH. destruct IH as [(i & Hi & IH)|[IH Hr]]; [left; exists i; split; [lia|done]|].
    right. split; [done|]. left. destruct Hr as [Hr|[_ Hr]]; [done|by rewrite Hr].
Qed.

Lemma execWrite_spec effect d :
  overwrites effect ->
  let '(r, d') := execWrite dbNow effect d in
  (statements d <= statements d' <= statements d + 3)%nat
  /\ (written effect (statements d) (statements d') (tbl d) (tbl d') \/ tbl d' = tbl d /\ r <> None).
Proof.
  intros Ho. pose proof (writeLoop_spec effect storageWriteAttempts 0 None d Ho) as H. unfold execWrite.
  destruct (writeLoop dbNow storageWriteAttempts 0 effect None d) as [r d']. destruct H as [H1 H2].
  split; [exact H1|]. destruct H2 as [H2|[H2 [H3|[H3 _]]]]; [by left|by right|done].
Qed.

(** The waits before the attempts from [attempt] on. *)
Definition waits (attempt k : nat) : list Z := map (fun i => storageRetryBackoff * Z.shiftl 1 (Z.of_nat i)) (seq attempt k).

Lemma writeLoop_sleeps effect remaining attempt lastErr d :
  (attempt + remaining = storageWriteAttempts)%nat ->
  exists k, (k <= remaining - 1)%nat /\ slept (writeLoop dbNow remaining attempt effect lastErr d).2 = slept d ++ waits attempt k.
Proof.
  revert attempt lastErr d. induction remaining as [|remaining IH]; intros attempt lastErr d Ha; cbn [writeLoop].
  { exists 0%nat. cbn. by rewrite app_nil_r. }
  unfold dbind. pose proof (exec_spec effect d) as He. destruct (exec dbNow effect d) as [r d1].
  destruct He as (_ & _ & Hsl & _).
  assert (Hnone : slept d1 = slept d ++ waits attempt 0) by (cbn; by rewrite app_nil_r).
  destruct r as [e|]; [|exists 0%nat; split; [lia|done]].
  destruct (negb (isRetryableStorageError (Some e)) || Nat.eqb attempt (storageWriteAttempts - 1)) eqn:Hb;
    [exists 0%nat; split; [lia|done]|].
  apply orb_false_iff in Hb as [_ Hb]. apply Nat.eqb_neq in Hb.
  set (d2 := (sleep (storageRetryBackoff * Z.shiftl 1 (Z.of_nat attempt)) d1).2).
  destruct (IH (S attempt) (Some e) d2 ltac:(lia)) as (k & Hk & Hw).
  change ((sleep (storageRetryBackoff * Z.shiftl 1 (Z.of_nat attempt)) d1)) with (tt, d2). cbv beta iota.
  exists (S k). split; [lia|]. rewrite Hw. unfold d2. cbn [sleep snd slept]. rewrite Hsl, <- app_assoc. done.
Qed.

Lemma writeLoop_count effect remaining attempt lastErr d :
  (statements (writeLoop dbNow remaining attempt effect lastErr d).2 <= statements d + remaining)%nat.
Proof.
  revert attempt lastErr d. induction remaining as [|remaining IH]; intros attempt lastErr d; cbn [writeLoop]; [cbn; lia|].
  unfold dbind. pose proof (exec_spec effect d) as He. destruct (exec dbNow effect d) as [r d1]. destruct He as (Hs & _).
  destruct r as [e|]; [|cbn; lia]. destruct (_ || _); [cbn; lia|].
  set (d2 := (sleep (storageRetryBackoff * Z.shiftl 1 (Z.of_nat attempt)) d1).2).
  change ((sleep (storageRetryBackoff * Z.shiftl 1 (Z.of_nat attempt)) d1)) with (tt, d2). cbv beta iota.
  specialize (IH (S attempt) (Some e) d2). change (statements d2) with (statements d1) in IH. lia.
Qed.

(** Three attempts, and waits of 100 and 200 milliseconds at most. *)
Lemma execWrite_bounded effect d :
  (statements (execWrite dbNow effect d).2 <= statements d + 3)%nat
  /\ exists k, (k <= 2)%nat /\ slept (execWrite dbNow effect d).2 = slept d ++ waits 0 k.
Proof. split; [apply writeLoop_count|apply (writeLoop_sleeps effect storageWriteAttempts 0 None d eq_refl)]. Qed.

(** ** A response stays until it expires *)

Section Responses.
Variable marshalResponse : ServerKeysResponse -> option bytes.
Variable unmarshalResponse : bytes -> option ServerKeysResponse.
Variable jsonb : bytes -> bytes.

(** What else a store can be asked. *)
Inductive storage_op : Type :=
  | OpStoreKey (serverName keyID publicKey : bytes) (validUntil : Z)
  | OpStoreResponse (serverName : bytes) (response : ServerKeysResponse) (validUntil : Z)
  | OpGetKey (serverName keyID : bytes)
  | OpGetValidKey (serverName keyID : bytes)
  | OpGetResponse (serverName : bytes)
  | OpDeleteExpired.

Definition run_op (op : storage_op) (d : database) : database :=
  match op with
  | OpStoreKey s k p v => (StoreKey dbNow dbTime s k p v d).2
  | OpStoreResponse s r v => (StoreServerResponse dbNow dbTime marshalResponse jsonb s r v d).2
  | OpGetKey s k => (GetKey dbNow s k d).2
  | OpGetValidKey s k => (GetValidKey dbNow s k d).2
  | OpGetResponse s => (GetServerResponse dbNow unmarshalResponse s d).2
  | OpDeleteExpired => (DeleteExpiredKeys dbNow d).2
  end.

Definition run_ops (ops : list storage_op) (d : database) : database := fold_left (fun d op => run_op op d) ops d.

Definition stores_for (serverName : bytes) (op : storage_op) : Prop :=
  match op with OpStoreResponse s _ _ => s = serverName | _ => False end.

(** The row's columns that matter. *)
Definition holds_response (serverName : bytes) (response : ServerKeysResponse) (until : Z) (t : tables) : Prop :=
  exists row text, server_key_responses t !! serverName = Some row /\ marshalResponse response = Some text
    /\ rr_response row = jsonb text /\ rr_raw row = rawColumn response /\ rr_ValidUntil row = until.

Lemma StoreServerResponse_holds serverName response validUntil d d' :
  StoreServerResponse dbNow dbTime marshalResponse jsonb serverName response validUntil d = (None, d') ->
  holds_response serverName response (dbTime validUntil) (tbl d').
Proof.
  unfold StoreServerResponse. destruct (marshalResponse response) as [text|] eqn:Hm; [|done]. unfold dbind.
  set (effect := fun now => on_responses (insert serverName (mkResponseRow (jsonb text) (rawColumn response) (dbTime validUntil) now))).
  assert (Ho : overwrites effect).
  { intros n1 n2 t. unfold effect, on_responses. cbn. by rewrite insert_insert_eq. }
  pose proof (execWrite_spec effect d Ho) as H. destruct (execWrite dbNow effect d) as [r d1]. unfold dret.
  intros [= Hr <-]. destruct H as [_ [(i & _ & ->)|[_ Hn]]]; [|by destruct r].
  exists (mkResponseRow (jsonb text) (rawColumn response) (dbTime validUntil) (dbNow i)), text. unfold effect, on_responses. cbn.
  by rewrite lookup_insert_eq.
Qed.

Lemma unexpired_lookup {A} (until : A -> Z) (now : Z) (m : gmap bytes A) k a :
  m !! k = Some a -> now <= until a -> unexpired until now m !! k = Some a.
Proof. intros Hm Hn. unfold unexpired. apply map_lookup_filter_Some. split; [done|]. cbn. lia. Qed.

(** A write to the other table, or for another server. *)
Lemma execWrite_other effect d (P : tables -> Prop) :
  overwrites effect -> (forall n t, P t -> P (effect n t)) -> P (tbl d) ->
  P (tbl (execWrite dbNow effect d).2) /\ (statements d <= statements (execWrite dbNow effect d).2)%nat.
Proof.
  intros Ho Hk HP. pose proof (execWrite_spec effect d Ho) as H. destruct (execWrite dbNow effect d) as [r d']. cbn.
  destruct H as [Hs [(i & _ & ->)|[-> _]]]; split; try lia; auto.
Qed.

Lemma deleteRows_spec count effect d (P : tables -> Prop) :
  P (effect (dbNow (statements d)) (tbl d)) -> P (tbl d) ->
  P (tbl (deleteRows dbNow count effect d).2) /\ statements (deleteRows dbNow count effect d).2 = S (statements d).
Proof.
  intros He HP. unfold deleteRows. pose proof (exec_spec effect d) as H. destruct (exec dbNow effect d) as [r d']. cbn.
  destruct H as (Hs & _ & _ & [->|[_ ->]]); done.
Qed.

Lemma DeleteExpired_count d : (statements d <= statements (DeleteExpiredKeys dbNow d).2)%nat.
Proof.
  unfold DeleteExpiredKeys, dbind.
  pose proof (deleteRows_spec (fun now t => expired kr_ValidUntil now (server_keys t)) (fun now => on_keys (unexpired kr_ValidUntil now)) d
                (fun _ => True) I I) as [_ S1].
  destruct (deleteRows dbNow _ _ d) as [r d1]. cbn [snd] in S1. destruct r as [n|e]; [|cbn; lia].
  pose proof (deleteRows_spec (fun now t => expired rr_ValidUntil now (server_key_responses t))
                (fun now => on_responses (unexpired rr_ValidUntil now)) d1 (fun _ => True) I I) as [_ S2].
  destruct (deleteRows dbNow _ _ d1) as [r d2]. cbn [snd] in S2. destruct r; cbn; lia.
Qed.

Lemma DeleteExpired_holds serverName response until d :
  (forall i, (i < statements (DeleteExpiredKeys dbNow d).2)%nat -> dbNow i <= until) ->
  holds_response serverName response until (tbl d) -> holds_response serverName response until (tbl (DeleteExpiredKeys dbNow d).2).
Proof.
  intros Hnow Hh. unfold DeleteExpiredKeys, dbind in *.
  pose proof (deleteRows_spec (fun now t => expired kr_ValidUntil now (server_keys t)) (fun now => on_keys (unexpired kr_ValidUntil now)) d
                (holds_response serverName response until) Hh Hh) as [H1 S1].
  destruct (deleteRows dbNow _ _ d) as [r d1]. cbn [snd] in H1, S1. destruct r as [n|e]; [|done].
  set (count := fun now t => expired rr_ValidUntil now (server_key_responses t)) in *.
  set (effect := fun now => on_responses (unexpired rr_ValidUntil now)) in *.
  pose proof (deleteRows_spec count effect d1 (fun _ => True) I I) as [_ S2].
  assert (holds_response serverName response until (effect (dbNow (statements d1)) (tbl d1))) as H2.
  { destruct H1 as (row & text & Hl & Hm & Hr1 & Hr2 & Hu). exists row, text. split; [|done]. cbn.
    apply unexpired_lookup; [done|]. rewrite Hu. apply Hnow.
    destruct (deleteRows dbNow count effect d1) as [[] d2]; cbn [snd] in S2; cbn; lia. }
  pose proof (deleteRows_spec count effect d1 (holds_response serverName response until) H2 H1) as [H3 _].
  by destruct (deleteRows dbNow count effect d1) as [[] d2].
Qed.

Lemma run_op_count op d : (statements d <= statements (run_op op d))%nat.
Proof.
  destruct op as [s k p v|s r v|s k|s k|s|]; cbn [run_op]; try (cbn; lia); [| |apply DeleteExpired_count].
  - apply (execWrite_other _ d (fun _ => True)); [|done|done]. intros n1 n2 t. unfold on_keys. cbn. by rewrite insert_insert_eq.
  - unfold StoreServerResponse. destruct (marshalResponse r) as [text|]; [|done]. unfold dbind.
    match goal with |- context [execWrite dbNow ?e d] => pose proof (execWrite_other e d (fun _ => True)) as H;
      destruct (execWrite dbNow e d) as [o d1] end. apply H; [|done|done].
    intros n1 n2 t. unfold on_responses. cbn. by rewrite insert_insert_eq.
Qed.

(** Any operation but a store for the same server keeps the row, as long as the
    database's clock has not passed its expiry. *)
Lemma run_op_holds serverName response until op d :
  ~ stores_for serverName op -> (forall i, (i < statements (run_op op d))%nat -> dbNow i <= until) ->
  holds_response serverName response until (tbl d) ->
  holds_response serverName response until (tbl (run_op op d)).
Proof.
  intros Hop Hnow Hh. destruct op as [s k p v|s r v|s k|s k|s|]; cbn [run_op] in *.
  - unfold StoreKey. apply (execWrite_other _ d (holds_response serverName response until)); [|done|done]. intros n1 n2 t. unfold on_keys. cbn. by rewrite insert_insert_eq.
  - unfold StoreServerResponse in *. destruct (marshalResponse r) as [text|]; [|done]. unfold dbind in *.
    match goal with |- context [execWrite dbNow ?e d] => pose proof (execWrite_other e d (holds_response serverName response until)) as H;
      destruct (execWrite dbNow e d) as [o d1] end. apply H; [| |done].
    + intros n1 n2 t. unfold on_responses. cbn. by rewrite insert_insert_eq.
    + intros n t (row & txt & Hl & Hrest). exists row, txt. split; [|done]. cbn. by rewrite lookup_insert_ne.
  - done.
  - done.
  - done.
  - by apply DeleteExpired_holds.
Qed.

Lemma run_ops_holds serverName response until ops d :
  Forall (fun op => ~ stores_for serverName op) ops ->
  (forall i, (i < statements (run_ops ops d))%nat -> dbNow i <= until) ->
  holds_response serverName response until (tbl d) ->
  holds_response serverName response until (tbl (run_ops ops d)).
Proof.
  intros Hops. revert d. induction Hops as [|op ops Hop _ IH]; intros d Hnow Hh; [done|].
  change (run_ops (op :: ops) d) with (run_ops ops (run_op op d)) in *.
  assert (statements (run_op op d) <= statements (run_ops ops (run_op op d)))%nat as Hle.
  { clear. generalize (run_op op d). induction ops as [|o ops IH]; intros d'; [done|].
    change (run_ops (o :: ops) d') with (run_ops ops (run_op o d')). etrans; [|apply IH]. apply run_op_count. }
  apply IH; [done|]. apply run_op_holds; [done| |done]. intros i Hi. apply Hnow. lia.
Qed.

End Responses.
End Storage.

(** C27. A response that was stored is what the store returns until it expires,
    with the origin's bytes unchanged: whichever attempts of the write failed or
    were carried out without an acknowledgement, whatever else is stored, read or
    deleted as expired meanwhile, and however those statements end. It is assumed
    that the database's clock does not go back and that the JSON column gives back
    a document with the same fields. *)
Theorem stored_response_read dbNow dbTime marshalResponse unmarshalResponse jsonb serverName response validUntil d d1 ops :
  (forall i j, (i <= j)%nat -> dbNow i <= dbNow j) ->
  (forall text, marshalResponse response = Some text -> unmarshalResponse (jsonb text) = Some (set_raw [] response)) ->
  StoreServerResponse dbNow dbTime marshalResponse jsonb serverName response validUntil d = (None, d1) ->
  Forall (fun op => ~ stores_for serverName op) ops ->
  let d2 := run_ops dbNow dbTime marshalResponse unmarshalResponse jsonb ops d1 in
  nextOutcome d2 = ExecOk -> dbNow (statements d2) < dbTime validUntil ->
  (GetServerResponse dbNow unmarshalResponse serverName d2).1 = Ok (Some response).
Proof.
  intros Hmono Hjson Hstore Hops d2 Hok Hnow. apply StoreServerResponse_holds in Hstore.
  destruct (run_ops_holds dbNow dbTime marshalResponse unmarshalResponse jsonb serverName response (dbTime validUntil) ops d1 Hops)
    as (row & text & Hl & Hm & Hr & Hraw & Hu); [|done|].
  { intros i Hi. fold d2 in Hi. specialize (Hmono i (statements d2)). lia. }
  fold d2 in Hl. unfold GetServerResponse, dbind, queryRow, dret. rewrite Hok. cbn [fst]. rewrite Hl. cbn [mbind option_bind].
  rewrite decide_True by lia. rewrite Hr, (Hjson text Hm), Hraw. unfold rawColumn. destruct response as [nm vk ok v sg raw]. cbn.
  destruct raw; done.
Qed.

(** ** Instances *)

Definition demo_lost : db_error := mkDbError true false None false None None.

Definition demo_db_start : database := mkDatabase (mkTables ∅ ∅ ∅) [ExecErr demo_lost true; ExecErr demo_lost false] 0 [].

Definition demo_stored : ServerKeysResponse := mkResponse (bs "a.org") ∅ ∅ 1700000000000 ∅ (bs "{}").

Lemma stored_response_read_witness :
  let s := StoreServerResponse Z.of_nat id (fun _ => Some []) id (bs "a.org") demo_stored 1000 demo_db_start in
  s.1 = None /\ statements s.2 = 3%nat /\ slept s.2 = [100000000; 200000000]
  /\ (GetServerResponse Z.of_nat (fun _ => Some (set_raw [] demo_stored)) (bs "a.org")
        (run_ops Z.of_nat id (fun _ => Some []) (fun _ => Some (set_raw [] demo_stored)) id
           [OpDeleteExpired; OpStoreKey (bs "a.org") (bs "k") [] 0] s.2)).1 = Ok (Some demo_stored).
Proof.
  intros s. split; [vm_compute; reflexivity|]. split; [vm_compute; reflexivity|]. split; [vm_compute; reflexivity|].
  apply (stored_response_read Z.of_nat id (fun _ => Some []) (fun _ => Some (set_raw [] demo_stored)) id
           (bs "a.org") demo_stored 1000 demo_db_start s.2 [OpDeleteExpired; OpStoreKey (bs "a.org") (bs "k") [] 0]).
  - intros i j. lia.
  - intros text _. reflexivity.
  - vm_compute. reflexivity.
  - repeat constructor; intros [].
  - vm_compute. reflexivity.
  - vm_compute. reflexivity.
Defined.
