(* ===== verification/Migrations.v ===== *)
(** * Schema migrations (internal/storage/migrations/migrations.go)

    The embedded SQL files, their order, and their application to a database, each
    in a transaction that also records its version. The effect of a body on the
    schema is a parameter, [execBody]: PostgreSQL runs it, or refuses it. A script
    says how each statement ends: well, not carried out, or carried out without
    that being reported. A transaction that is not committed leaves nothing. *)
From S2P Require Import Prelude Decimal GoStrings ConfigMap.
From Stdlib Require Import ZArith Lia.
From stdpp Require Import base gmap list strings fin_maps sorting.
#[local] Open Scope Z_scope.

Record migration : Type := mkMigration {
  version : Z;
  name : bytes;
  body : bytes;
}.

(** ** The embedded files *)

(** An entry of the directory; [None] is a file that cannot be read. *)
Record dir_entry : Type := mkDirEntry {
  e_Name : bytes;
  e_IsDir : bool;
  e_Content : option bytes;
}.

Inductive migration_err : Type :=
  | MigFilename | MigVersion | MigDuplicate | MigRead
  | MigBookkeeping | MigReadApplied
  | MigBegin | MigBody | MigRecord | MigCommit.

Definition parseName (filename : bytes) : result migration_err migration :=
  let stem := TrimSuffix filename (bs ".sql") in
  match Cut stem Byte.x5f with
  | None => Err MigFilename
  | Some (number, rest) =>
      match Atoi number with
      | Some v => if decide (v <= 0) then Err MigVersion else Ok (mkMigration v rest [])
      | None => Err MigVersion
      end
  end.

(** The loop of [load]; [seen] are the versions met. *)
Fixpoint loadEntries (entries : list dir_entry) (seen : list Z) : result migration_err (list migration) :=
  match entries with
  | [] => Ok []
  | e :: entries =>
      if e_IsDir e || negb (HasSuffix (e_Name e) (bs ".sql")) then loadEntries entries seen
      else
        match parseName (e_Name e) with
        | Err err => Err err
        | Ok m =>
            if decide (version m ∈ seen) then Err MigDuplicate
            else
              match e_Content e with
              | None => Err MigRead
              | Some content =>
                  match loadEntries entries (version m :: seen) with
                  | Err err => Err err
                  | Ok out => Ok (mkMigration (version m) (name m) content :: out)
                  end
              end
        end
  end.

Definition versionLe (a b : migration) : Prop := version a <= version b.
#[export] Instance versionLe_dec a b : Decision (versionLe a b).
Proof. unfold versionLe. apply _. Defined.

(** The versions differ, so every sort gives this list. *)
Definition load (entries : list dir_entry) : result migration_err (list migration) :=
  match loadEntries entries [] with
  | Err err => Err err
  | Ok out => Ok (merge_sort versionLe out)
  end.

(** ** The database *)

Inductive st_outcome : Type := StOk | StFail | StLost.

Section Apply.
Variable schema_t : Type.
Variable execBody : bytes -> schema_t -> option schema_t.

(** [bookkeeping] is the table [schema_migrations], [None] before it exists. *)
Record mdb : Type := mkMdb {
  bookkeeping : option (gmap Z bytes);
  schema : schema_t;
  script : list st_outcome;
}.

Definition set_state (bk : option (gmap Z bytes)) (s : schema_t) (db : mdb) : mdb := mkMdb bk s (script db).

(** The outcome of the next statement, and the database after it is known. *)
Definition next (db : mdb) : st_outcome * mdb :=
  match script db with
  | [] => (StOk, db)
  | o :: rest => (o, mkMdb (bookkeeping db) (schema db) rest)
  end.

Definition ensureBookkeeping (db : mdb) : option migration_err * mdb :=
  let '(o, db) := next db in
  let created := set_state (Some (default ∅ (bookkeeping db))) (schema db) db in
  match o with
  | StOk => (None, created)
  | StFail => (Some MigBookkeeping, db)
  | StLost => (Some MigBookkeeping, created)
  end.

Definition loadApplied (db : mdb) : result migration_err (gset Z) * mdb :=
  let '(o, db) := next db in
  match o, bookkeeping db with
  | StOk, Some bk => (Ok (dom bk), db)
  | _, _ => (Err MigReadApplied, db)
  end.

(** [apply]: the transaction works on [s] and [bk] until it commits. *)
Definition apply_one (m : migration) (db : mdb) : option migration_err * mdb :=
  let '(o, db) := next db in
  match o with
  | StOk =>
      let '(o, db) := next db in
      match o, execBody (body m) (schema db) with
      | StOk, Some s =>
          let '(o, db) := next db in
          match o, bookkeeping db with
          | StOk, Some bk =>
              if decide (is_Some (bk !! version m)) then (Some MigRecord, db)
              else
                let bk := <[version m := name m]> bk in
                let '(o, db) := next db in
                match o with
                | StOk => (None, set_state (Some bk) s db)
                | StFail => (Some MigCommit, db)
                | StLost => (Some MigCommit, set_state (Some bk) s db)
                end
          | _, _ => (Some MigRecord, db)
          end
      | _, _ => (Some MigBody, db)
      end
  | _ => (Some MigBegin, db)
  end.

(** The loop of [Apply]: how many were applied, and the error. *)
Fixpoint applyLoop (applied : gset Z) (migrations : list migration) (count : Z) (db : mdb) : Z * option migration_err * mdb :=
  match migrations with
  | [] => (count, None, db)
  | m :: migrations =>
      if decide (version m ∈ applied) then applyLoop applied migrations count db
      else
        match apply_one m db with
        | (Some e, db) => (count, Some e, db)
        | (None, db) => applyLoop applied migrations (count + 1) db
        end
  end.

Definition Apply (entries : list dir_entry) (db : mdb) : Z * option migration_err * mdb :=
  match ensureBookkeeping db with
  | (Some e, db) => (0, Some e, db)
  | (None, db) =>
      match load entries with
      | Err e => (0, Some e, db)
      | Ok migrations =>
          match loadApplied db with
          | (Err e, db) => (0, Some e, db)
          | (Ok applied, db) => applyLoop applied migrations 0 db
          end
      end
  end.

End Apply.

Arguments mkMdb {schema_t} _ _ _.
Arguments bookkeeping {schema_t} _.
Arguments schema {schema_t} _.
Arguments script {schema_t} _.
Arguments set_state {schema_t} _ _ _.
Arguments next {schema_t} _.
Arguments ensureBookkeeping {schema_t} _.
Arguments loadApplied {schema_t} _.
Arguments apply_one {schema_t} _ _ _.
Arguments applyLoop {schema_t} _ _ _ _ _.
Arguments Apply {schema_t} _ _ _.

Definition demo_files : list dir_entry :=
  [mkDirEntry (bs "0010_b.sql") false (Some (bs "B")); mkDirEntry (bs "0002_a_x.sql") false (Some (bs "A"));
   mkDirEntry (bs "README") false None].

Example load_vectors :
  load demo_files = Ok [mkMigration 2 (bs "a_x") (bs "A"); mkMigration 10 (bs "b") (bs "B")]
  /\ load [mkDirEntry (bs "1_a.sql") false (Some []); mkDirEntry (bs "01_b.sql") false (Some [])] = Err MigDuplicate
  /\ parseName (bs "initial.sql") = Err MigFilename /\ parseName (bs "-1_a.sql") = Err MigVersion.
Proof. vm_compute. split_and!; reflexivity. Qed.

(** ** Migrations run once, in order

    Whatever fails and however often the program is restarted, the schema is that
    of an initial part of the migrations, and the table of versions says which. *)

(** ** Loading *)

Lemma loadEntries_versions entries seen out :
  loadEntries entries seen = Ok out ->
  NoDup (map version out) /\ Forall (fun m => 0 < version m /\ version m ∉ seen) out.
Proof.
  revert seen out. induction entries as [|e entries IH]; intros seen out; cbn [loadEntries].
  { intros [= <-]. split; constructor. }
  destruct (_ || _); [apply IH|]. destruct (parseName (e_Name e)) as [m|] eqn:Hp; [|done].
  case_decide as Hin; [done|]. destruct (e_Content e) as [content|]; [|done].
  destruct (loadEntries entries (version m :: seen)) as [out'|] eqn:Hl; [|done]. intros [= <-].
  apply IH in Hl as [H1 H2].
  assert (0 < version m) as Hpos.
  { unfold parseName in Hp. destruct (Cut _ _) as [[number rest]|]; [|done]. destruct (Decimal.Atoi number) as [v|]; [|done].
    case_decide; [done|]. injection Hp as <-. cbn. lia. }
  split.
  - cbn [map version]. constructor; [|done]. intros Hc. apply list_elem_of_In, in_map_iff in Hc as (m' & Hv & Hm').
    apply list_elem_of_In in Hm'. rewrite Forall_forall in H2. destruct (H2 m' Hm') as [_ Hn]. apply Hn. rewrite Hv. constructor.
  - constructor; [done|]. eapply Forall_impl; [exact H2|]. intros m' [Hm' Hn]. split; [done|]. intros Hc. apply Hn. by constructor.
Qed.

#[export] Instance versionLe_trans : Transitive versionLe.
Proof. intros a b c. unfold versionLe. lia. Qed.
#[export] Instance versionLe_total : Total versionLe.
Proof. intros a b. unfold versionLe. lia. Qed.

(** The migrations have positive, increasing versions. *)
Lemma load_ordered entries ms :
  load entries = Ok ms -> NoDup (map version ms) /\ StronglySorted versionLe ms /\ Forall (fun m => 0 < version m) ms.
Proof.
  unfold load. destruct (loadEntries entries []) as [out|] eqn:Hl; [|done]. intros [= <-].
  apply loadEntries_versions in Hl as [H1 H2]. pose proof (merge_sort_Permutation versionLe out) as Hp. split_and!.
  - by rewrite Hp.
  - apply StronglySorted_merge_sort; apply _.
  - rewrite Hp. eapply Forall_impl; [exact H2|]. by intros m [].
Qed.

Section Apply.
Context {schema_t : Type}.
Variable execBody : bytes -> schema_t -> option schema_t.

(** The bodies of [ms], one after the other. *)
Fixpoint execAll (ms : list migration) (s : schema_t) : option schema_t :=
  match ms with
  | [] => Some s
  | m :: ms => s ← execBody (body m) s; execAll ms s
  end.

Lemma execAll_app a b s : execAll (a ++ b) s = (s' ← execAll a s; execAll b s').
Proof. revert s. induction a as [|m a IH]; intros s; cbn; [done|]. destruct (execBody (body m) s); cbn; [apply IH|done]. Qed.

Definition recorded (ms : list migration) : gmap Z bytes := list_to_map (map (fun m => (version m, name m)) ms).

(** The database is where the migrations [done] lead from [s0]. *)
Definition reached (s0 : schema_t) (done : list migration) (db : mdb schema_t) : Prop :=
  default ∅ (bookkeeping db) = recorded done /\ execAll done s0 = Some (schema db).

Lemma recorded_snoc ms m : version m ∉ map version ms -> recorded (ms ++ [m]) = <[version m := name m]> (recorded ms).
Proof.
  intros Hn. unfold recorded. rewrite map_app, list_to_map_app. cbn [map list_to_map foldr].
  apply map_eq. intros v. destruct (decide (v = version m)) as [->|Hv].
  - rewrite lookup_insert_eq, lookup_union_r; [by rewrite lookup_insert_eq|].
    apply not_elem_of_list_to_map_1. rewrite <- list_fmap_compose. exact Hn.
  - rewrite lookup_insert_ne by done. rewrite lookup_union. rewrite lookup_insert_ne, lookup_empty by done.
    by destruct (_ !! v).
Qed.

Lemma dom_recorded ms : dom (recorded ms) = list_to_set (map version ms).
Proof. unfold recorded. rewrite dom_list_to_map_L. f_equal. by rewrite <- list_fmap_compose. Qed.

Lemma next_keeps db o db' : next db = (o, db') -> bookkeeping (schema_t := schema_t) db' = bookkeeping db /\ schema db' = schema db.
Proof. unfold next. destruct (script db); by intros [= <- <-]. Qed.

Lemma reached_next s0 done db o db' : next db = (o, db') -> reached s0 done db -> reached s0 done db'.
Proof. intros H. apply next_keeps in H as [H1 H2]. unfold reached. by rewrite H1, H2. Qed.

(** One migration: all of it or nothing; reported success means all of it. *)
Lemma apply_one_reached s0 done m db :
  version m ∉ map version done -> reached s0 done db ->
  let '(r, db') := apply_one execBody m db in
  reached s0 (done ++ [m]) db' \/ (reached s0 done db' /\ r <> None).
Proof.
  intros Hn Hr. unfold apply_one.
  destruct (next db) as [o1 db1] eqn:E1. pose proof (reached_next _ _ _ _ _ E1 Hr) as R1. destruct o1; [|by right..].
  destruct (next db1) as [o2 db2] eqn:E2. pose proof (reached_next _ _ _ _ _ E2 R1) as R2. destruct o2; [|by right..].
  destruct (execBody (body m) (schema db2)) as [s|] eqn:Hb; [|by right].
  destruct (next db2) as [o3 db3] eqn:E3. pose proof (reached_next _ _ _ _ _ E3 R2) as R3. destruct o3; [|by right..].
  destruct (bookkeeping db3) as [bk|] eqn:Hbk; [|by right]. case_decide as Hdup; [by right|].
  destruct (next db3) as [o4 db4] eqn:E4. pose proof (reached_next _ _ _ _ _ E4 R3) as R4.
  assert (reached s0 (done ++ [m]) (set_state (Some (<[version m := name m]> bk)) s db4)) as Hdone.
  { destruct R3 as [B3 _]. rewrite Hbk in B3. cbn in B3. destruct R2 as [_ S2]. split; cbn.
    - by rewrite recorded_snoc, B3.
    - rewrite execAll_app, S2. cbn. by rewrite Hb. }
  destruct o4; [by left|by right|by left].
Qed.

Lemma applyLoop_skip applied a rest count db :
  Forall (fun m => version m ∈ applied) a -> applyLoop execBody applied (a ++ rest) count db = applyLoop execBody applied rest count db.
Proof. intros Ha. induction Ha as [|m a Hm _ IH]; [done|]. cbn [app applyLoop]. by rewrite decide_True. Qed.

Lemma drop_cons_S {A} i (l rest : list A) x : drop i l = x :: rest -> take (S i) l = take i l ++ [x] /\ drop (S i) l = rest.
Proof.
  intros H. assert (l !! i = Some x) as Hl by (rewrite <- (Nat.add_0_r i), <- lookup_drop, H; done). split; [by apply take_S_r|].
  replace (S i) with (i + 1)%nat by lia. rewrite <- drop_drop, H. done.
Qed.

(** From the first pending migration on. *)
Lemma applyLoop_reached s0 ms i rest tail applied count db :
  NoDup (map version ms) -> reached s0 (take i ms) db -> drop i ms = rest ++ tail -> Forall (fun m => version m ∉ applied) rest ->
  let '(c, e, db') := applyLoop execBody applied rest count db in
  exists k, (i <= k <= i + length rest)%nat /\ reached s0 (take k ms) db'
    /\ (e = None -> k = (i + length rest)%nat /\ c = count + Z.of_nat (length rest)).
Proof.
  intros Hnd. revert i count db. induction rest as [|m rest IH]; intros i count db Hr Hd Hf.
  { cbn. exists i. split; [lia|]. split; [done|]. lia. }
  inversion Hf as [|? ? Hm Hf']; subst. cbn [applyLoop app] in *. rewrite decide_False by done.
  destruct (drop_cons_S _ _ _ _ Hd) as [Ht Hd'].
  assert (version m ∉ map version (take i ms)) as Hn.
  { rewrite <- (take_drop (S i) ms), Ht, !map_app in Hnd. apply NoDup_app in Hnd as (Hnd & _ & _).
    apply NoDup_app in Hnd as (_ & Hx & _). intros Hc. apply (Hx _ Hc). constructor. }
  pose proof (apply_one_reached s0 (take i ms) m db Hn Hr) as H. rewrite <- Ht in H.
  destruct (apply_one execBody m db) as [[e|] db'].
  - destruct H as [H|[H _]]; [exists (S i)|exists i]; cbn [length]; (split; [lia|]; split; [done|]; done).
  - destruct H as [H|[_ H]]; [|done]. specialize (IH (S i) (count + 1) db' H Hd' Hf').
    destruct (applyLoop execBody applied rest (count + 1) db') as [[c e] db2]. destruct IH as (k & Hk & Hr' & He).
    exists k. cbn [length]. split; [lia|]. split; [done|]. intros E. destruct (He E). lia.
Qed.

Lemma Forall_recorded k ms : Forall (fun m => version m ∈ dom (recorded (take k ms))) (take k ms).
Proof.
  apply Forall_forall. intros m Hm. rewrite dom_recorded. apply elem_of_list_to_set. apply list_elem_of_In, in_map, list_elem_of_In. done.
Qed.

(** One run of [Apply] with the first [j] migrations. *)
Lemma Apply_reached s0 ms j k entries db :
  NoDup (map version ms) -> load entries = Ok (take j ms) -> (j <= length ms)%nat -> (k <= length ms)%nat ->
  reached s0 (take k ms) db ->
  let '(c, e, db') := Apply execBody entries db in
  exists k', (k <= k' <= length ms)%nat /\ reached s0 (take k' ms) db'
    /\ (e = None -> k' = Nat.max k j /\ c = Z.of_nat (k' - k)).
Proof.
  intros Hnd Hload Hj Hk Hr. unfold Apply, ensureBookkeeping.
  assert (Hstay : forall db' c (e : migration_err), reached s0 (take k ms) db' ->
    exists k', (k <= k' <= length ms)%nat /\ reached s0 (take k' ms) db' /\ (Some e = None -> k' = Nat.max k j /\ c = Z.of_nat (k' - k))).
  { intros db' c e Hr'. exists k. split; [lia|]. split; [done|]. discriminate. }
  destruct (next db) as [o1 db1] eqn:E1. pose proof (reached_next _ _ _ _ _ E1 Hr) as R1.
  assert (reached s0 (take k ms) (set_state (Some (default ∅ (bookkeeping db1))) (schema db1) db1)) as R1' by done.
  destruct o1; [|apply (Hstay _ 0 MigBookkeeping); done..]. rewrite Hload. unfold loadApplied.
  destruct (next (set_state (Some (default ∅ (bookkeeping db1))) (schema db1) db1)) as [o2 db2] eqn:E2.
  pose proof (reached_next _ _ _ _ _ E2 R1') as R2. apply next_keeps in E2 as [B2 _]. cbn in B2.
  destruct o2; [|apply (Hstay _ 0 MigReadApplied); done..]. rewrite B2.
  assert (default ∅ (bookkeeping db1) = recorded (take k ms)) as -> by apply R1.
  destruct (decide (j <= k)%nat) as [Hjk|Hjk].
  - assert (take j ms = take j (take k ms)) as Htk by (rewrite take_take; f_equal; lia).
    rewrite <- (app_nil_r (take j ms)), applyLoop_skip.
    + cbn. exists k. split; [lia|]. split; [done|]. lia.
    + rewrite Htk. apply Forall_take, Forall_recorded.
  - assert (take j ms = take k ms ++ drop k (take j ms)) as Hsplit.
    { rewrite <- (take_drop k (take j ms)) at 1. by rewrite take_take, Nat.min_l by lia. }
    rewrite Hsplit, applyLoop_skip by apply Forall_recorded.
    pose proof (applyLoop_reached s0 ms k (drop k (take j ms)) (drop j ms) (dom (recorded (take k ms))) 0 db2 Hnd R2) as H.
    destruct (applyLoop execBody _ (drop k (take j ms)) 0 db2) as [[c e] db3].
    assert (length (drop k (take j ms)) = (j - k)%nat) as Hlen by (rewrite length_drop, length_take; lia). rewrite Hlen in H.
    destruct H as (k' & Hk' & Hr' & He).
    + rewrite <- drop_app_le by (rewrite length_take; lia). by rewrite take_drop.
    + apply Forall_forall. intros m Hm. rewrite dom_recorded. intros Hc. apply elem_of_list_to_set in Hc.
      rewrite <- (take_drop j ms), Hsplit, !map_app in Hnd. apply NoDup_app in Hnd as (Hnd & _ & _).
      apply NoDup_app in Hnd as (_ & Hx & _). apply (Hx _ Hc). apply list_elem_of_In, in_map, list_elem_of_In. done.
    + exists k'. split; [lia|]. split; [done|]. intros E. destruct (He E). split; lia.
Qed.

(** The table is there after a run that succeeds. *)
Lemma apply_one_table m db : is_Some (bookkeeping db) -> is_Some (bookkeeping (apply_one execBody m db).2).
Proof.
  intros Hb. unfold apply_one. destruct (next db) as [o1 db1] eqn:E1. apply next_keeps in E1 as [B1 _]. rewrite <- B1 in Hb.
  destruct o1; [|done..]. destruct (next db1) as [o2 db2] eqn:E2. apply next_keeps in E2 as [B2 _]. rewrite <- B2 in Hb.
  destruct o2; [|done..]. destruct (execBody (body m) (schema db2)); [|done].
  destruct (next db2) as [o3 db3] eqn:E3. apply next_keeps in E3 as [B3 _]. rewrite <- B3 in Hb.
  destruct o3; [|done..]. destruct (bookkeeping db3) as [bk|] eqn:Hbk; [|done]. case_decide; [cbn; by rewrite Hbk|].
  destruct (next db3) as [o4 db4] eqn:E4. apply next_keeps in E4 as [B4 _]. rewrite Hbk in B4.
  destruct o4; cbn; [done|by rewrite B4|done].
Qed.

Lemma applyLoop_table applied ms count db :
  is_Some (bookkeeping db) -> is_Some (bookkeeping (applyLoop execBody applied ms count db).2).
Proof.
  revert count db. induction ms as [|m ms IH]; intros count db Hb; cbn [applyLoop]; [done|]. case_decide; [by apply IH|].
  pose proof (apply_one_table m db Hb) as Ht. destruct (apply_one execBody m db) as [[e|] db']; [done|by apply IH].
Qed.

Lemma Apply_creates entries db c db' : Apply execBody entries db = (c, None, db') -> is_Some (bookkeeping db').
Proof.
  unfold Apply. destruct (ensureBookkeeping db) as [[e|] db1]; [done|]. destruct (load entries) as [ms|]; [|done].
  unfold loadApplied. destruct (next db1) as [o db2]. destruct o; [|done..]. destruct (bookkeeping db2) as [bk|] eqn:Hbk; [|done].
  intros H. pose proof (applyLoop_table (dom bk) ms 0 db2) as Ht. rewrite H in Ht. apply Ht. by rewrite Hbk.
Qed.

End Apply.

(** The runs of the program: what each finds embedded, and how its statements end. *)
Definition restart {schema_t} (execBody : bytes -> schema_t -> option schema_t) (db : mdb schema_t)
    (r : list dir_entry * list st_outcome) : mdb schema_t :=
  (Apply execBody r.1 (mkMdb (bookkeeping db) (schema db) r.2)).2.

Lemma restarts_reached {schema_t} (execBody : bytes -> schema_t -> option schema_t) s0 ms runs k db :
  NoDup (map version ms) -> Forall (fun r => exists j, (j <= length ms)%nat /\ load r.1 = Ok (take j ms)) runs ->
  (k <= length ms)%nat -> reached execBody s0 (take k ms) db ->
  exists k', (k <= k' <= length ms)%nat /\ reached execBody s0 (take k' ms) (fold_left (restart execBody) runs db).
Proof.
  intros Hnd Hruns. revert k db. induction Hruns as [|r runs (j & Hj & Hl) _ IH]; intros k db Hk Hr; [exists k; split; [lia|done]|].
  cbn [fold_left]. pose proof (Apply_reached execBody s0 ms j k r.1 (mkMdb (bookkeeping db) (schema db) r.2) Hnd Hl Hj Hk Hr) as H.
  unfold restart at 2. destruct (Apply execBody r.1 _) as [[c e] db']. destruct H as (k1 & Hk1 & Hr1 & _). cbn [snd].
  destruct (IH k1 db') as (k' & Hk' & Hr'); [lia|done|]. exists k'. split; [lia|done].
Qed.

(** C37. Every migration takes effect once and in the order of the versions: after
    any runs of the program, each with an initial part of the migrations
    embedded and with any statement failing, or committing without an
    acknowledgement, the schema is what an initial part of the migrations makes of
    the empty one, and exactly that part is recorded. A run that succeeds leaves
    all of them applied, and a further one then applies none. *)
Theorem migrations_exactly_once {schema_t} (execBody : bytes -> schema_t -> option schema_t) s0 entries ms runs outcomes :
  load entries = Ok ms ->
  Forall (fun r => exists j, (j <= length ms)%nat /\ load r.1 = Ok (take j ms)) runs ->
  let db := fold_left (restart execBody) runs (mkMdb None s0 []) in
  (exists applied, applied `prefix_of` ms /\ default ∅ (bookkeeping db) = recorded applied
      /\ execAll execBody applied s0 = Some (schema db))
  /\ forall c db', Apply execBody entries (mkMdb (bookkeeping db) (schema db) outcomes) = (c, None, db') ->
       bookkeeping db' = Some (recorded ms) /\ execAll execBody ms s0 = Some (schema db')
       /\ Apply execBody entries (mkMdb (bookkeeping db') (schema db') []) = (0, None, mkMdb (bookkeeping db') (schema db') []).
Proof.
  intros Hload Hruns db. destruct (load_ordered _ _ Hload) as (Hnd & _).
  destruct (restarts_reached execBody s0 ms runs 0 (mkMdb None s0 []) Hnd Hruns ltac:(lia)) as (k & Hk & Hr); [done|].
  fold db in Hr. split.
  { exists (take k ms). split; [apply prefix_take|done]. }
  intros c db' Happly. assert (load entries = Ok (take (length ms) ms)) as Hall by (by rewrite take_ge).
  pose proof (Apply_reached execBody s0 ms (length ms) k entries (mkMdb (bookkeeping db) (schema db) outcomes) Hnd Hall ltac:(lia) ltac:(lia) Hr) as H.
  rewrite Happly in H. destruct H as (k' & Hk' & [Hb Hs] & He). destruct (He eq_refl) as [-> _].
  rewrite take_ge in Hb, Hs by lia.
  assert (is_Some (bookkeeping db')) as [bk Hbk] by (eapply Apply_creates; exact Happly). rewrite Hbk in Hb |- *. cbn in Hb. subst bk.
  split; [done|]. split; [done|]. unfold Apply. rewrite Hload. cbn.
  rewrite <- (app_nil_r ms) at 2. rewrite applyLoop_skip; [done|].
  pose proof (Forall_recorded (length ms) ms) as Hf. by rewrite take_ge in Hf.
Qed.

(** ** Instances *)

Definition demo_exec (b : bytes) (s : bytes) : option bytes := Some (s ++ b).

(** The first run stops after the first migration committed unnoticed. *)
Lemma migrations_exactly_once_witness :
  let db := fold_left (restart demo_exec) [(demo_files, [StOk; StOk; StOk; StOk; StOk; StLost])] (mkMdb None [] []) in
  schema db = bs "A"
  /\ exists c db', Apply demo_exec demo_files (mkMdb (bookkeeping db) (schema db) []) = (c, None, db')
     /\ c = 1 /\ execAll demo_exec [mkMigration 2 (bs "a_x") (bs "A"); mkMigration 10 (bs "b") (bs "B")] [] = Some (schema db').
Proof.
  intros db. split; [vm_compute; reflexivity|].
  destruct (migrations_exactly_once demo_exec [] demo_files [mkMigration 2 (bs "a_x") (bs "A"); mkMigration 10 (bs "b") (bs "B")]
              [(demo_files, [StOk; StOk; StOk; StOk; StOk; StLost])] [] eq_refl) as [_ H].
  { constructor; [|constructor]. exists 2%nat. split; [cbn; lia|reflexivity]. }
  fold db in H. destruct (Apply demo_exec demo_files (mkMdb (bookkeeping db) (schema db) [])) as [[c e] db'] eqn:Ha.
  assert (c = 1 /\ e = None) as [-> ->].
  { assert ((Apply demo_exec demo_files (mkMdb (bookkeeping db) (schema db) [])).1 = (1, None)) as Hv by (vm_compute; reflexivity).
    rewrite Ha in Hv. by injection Hv as -> ->. }
  exists 1, db'. split; [done|]. split; [done|]. by destruct (H 1 db' eq_refl) as (_ & Hs & _).
Defined.
