(* ===== verification/Replication.v ===== *)
(** * Storing and replicating what was fetched
    (keys/notary_fetch_store.go, notary_replication.go, response_clone.go, the cleanup of
    notary_cleanup.go, and the callbacks that server.New installs)

    A notary that fetched a response stores it, caches it and hands its bytes to
    the cluster; a notary that receives such bytes from the cluster checks them as
    if they came from the origin, then stores and caches them. The state is the
    notary's ([NotaryQuery]) with its database ([Storage]).

    The loops over the keys of a response go through them in [keyOrder]. Log lines
    are left out; a failed store is only logged where the code only logs it. *)
From S2P Require Import Prelude Base64 GoTime GoStrings Canonical NetIP TrustPolicy NotarySignature.
From S2P Require Import Resolver CircuitBreaker Fetcher NotaryQuery Storage ClusterState.
From Stdlib Require Import ZArith Lia.
From stdpp Require Import base gmap list strings fin_maps.
#[local] Open Scope Z_scope.

Record snode : Type := mkSNode {
  sn_notary : nstate;
  sn_db : database;
}.

Definition SN (A : Type) : Type := snode -> A * snode.
Definition sret {A} (a : A) : SN A := fun s => (a, s).
Definition sbind {A B} (m : SN A) (k : A -> SN B) : SN B := fun s => let '(a, s) := m s in k a s.
Definition inNotary {A} (m : NQ A) : SN A := fun s => let '(a, n) := m (sn_notary s) in (a, mkSNode n (sn_db s)).
Definition inDb {A} (m : DB A) : SN A := fun s => let '(a, d) := m (sn_db s) in (a, mkSNode (sn_notary s) d).

Declare Scope snode_scope.
Notation "x <-- m ;; k" := (sbind m (fun x => k)) (at level 20, m at level 99, k at level 200, only parsing) : snode_scope.
Notation "m ;; k" := (sbind m (fun _ => k)) (at level 100, k at level 200, only parsing) : snode_scope.
#[local] Open Scope snode_scope.

Definition ClusterReplicatedResponseKeyID : bytes := bs "_server_response".

(** The arguments of the broadcast hook. *)
Record broadcast : Type := mkBroadcast {
  bc_serverName : bytes;
  bc_keyID : bytes;
  bc_keyData : bytes;
  bc_validUntilTS : Z;
}.

(** The copy shares nothing with the original; as a value it is the original. *)
Definition cloneServerKeysResponse (src : ServerKeysResponse) : ServerKeysResponse :=
  mkResponse (skr_ServerName src) (VerifyKeys src) (OldVerifyKeys src) (ValidUntilTS src) (Signatures src) (Raw src).

Definition decodeBase64 (v : bytes) : option bytes :=
  match DecodeRaw v with Some b => Some b | None => DecodeStd v end.

Inductive rep_err : Type :=
  | RepEmpty | RepDecode | RepNameMissing | RepNameMismatch | RepValidMissing | RepValidMismatch | RepNoFetcher
  | RepUnverified (e : self_err)
  | RepStore (e : store_err).

Section Node.
Context {E : Ed25519}.
Variable net : network.
Variable cacheTTLHours : Z.
Variable dbNow : nat -> Z.
Variable dbTime : Z -> Z.
Variable marshalResponse : ServerKeysResponse -> option bytes.
Variable jsonb : bytes -> bytes.
Variable decodeResponse : bytes -> option ServerKeysResponse.
Variable decodeObject : bytes -> option (list (bytes * gvalue)).
Variable encodeObject : list (bytes * gvalue) -> option bytes.
Variable decodeValue : bytes -> option gvalue.
Variable keyOrder : gmap bytes VerifyKeyResponse -> list (bytes * VerifyKeyResponse).

(** The keys one by one; [decode] is how their text is read. *)
Fixpoint storeKeys (decode : bytes -> option bytes) (serverName : bytes) (validUntil : Z) (ks : list (bytes * VerifyKeyResponse))
  : DB unit :=
  match ks with
  | [] => dret tt
  | (keyID, verifyKey) :: ks =>
      match decode (vk_Key verifyKey) with
      | None => storeKeys decode serverName validUntil ks
      | Some pubKeyBytes =>
          dbind (StoreKey dbNow dbTime serverName keyID pubKeyBytes validUntil)
            (fun _ => storeKeys decode serverName validUntil ks)
      end
  end.

(** ** After a fetch *)

(** What is handed to the broadcast hook, if one is set. *)
Definition broadcastOf (serverName : bytes) (keys : ServerKeysResponse) : option broadcast :=
  let payload := if decide (Raw keys <> []) then Raw keys else default [] (marshalResponse keys) in
  if decide (payload <> []) then Some (mkBroadcast serverName ClusterReplicatedResponseKeyID payload (ValidUntilTS keys)) else None.

Definition fetchAndStoreWithSource (hook : bool) (fetchKeys : context -> bytes -> F (result fetch_err ServerKeysResponse))
    (ctx : context) (serverName : bytes) : SN (result fetch_err ServerKeysResponse * option broadcast) :=
  r <-- inNotary (nlift (fetchKeys ctx serverName));;
  match r with
  | Err e => sret (Err e, None)
  | Ok keys =>
      let validUntil := ofMilli (ValidUntilTS keys) in
      inDb (StoreServerResponse dbNow dbTime marshalResponse jsonb serverName keys validUntil);;
      inDb (storeKeys DecodeRaw serverName validUntil (keyOrder (VerifyKeys keys)));;
      inNotary (storeInMemoryCache cacheTTLHours net serverName keys);;
      sret (Ok keys, if hook then broadcastOf serverName keys else None)
  end.

(** ** What the cluster delivers *)

Definition validateReplicatedServerResponse (fetcher : option Fetcher) (serverName rawResponse : bytes) (validUntilTS : Z)
  : NQ (result rep_err ServerKeysResponse) :=
  if decide (TrimSpace rawResponse = []) then nret (Err RepEmpty)
  else
    match decodeResponse rawResponse with
    | None => nret (Err RepDecode)
    | Some response =>
        if decide (skr_ServerName response = []) then nret (Err RepNameMissing)
        else if decide (skr_ServerName response <> serverName) then nret (Err RepNameMismatch)
        else if decide (ValidUntilTS response <= 0) then nret (Err RepValidMissing)
        else if decide (ValidUntilTS response <> validUntilTS) then nret (Err RepValidMismatch)
        else
          match fetcher with
          | None => nret (Err RepNoFetcher)
          | Some f =>
              nbind (nnow net) (fun t =>
                match verifySelfSignature decodeObject encodeObject decodeValue f (toMilli t) response rawResponse with
                | Some e => nret (Err (RepUnverified e))
                | None => nret (Ok (set_raw rawResponse response))
                end)
          end
    end.

Definition ApplyReplicatedServerResponse (fetcher : option Fetcher) (serverName rawResponse : bytes) (validUntilTS : Z)
  : SN (option rep_err) :=
  r <-- inNotary (validateReplicatedServerResponse fetcher serverName rawResponse validUntilTS);;
  match r with
  | Err e => sret (Some e)
  | Ok response =>
      let validUntil := ofMilli (ValidUntilTS response) in
      stored <-- inDb (StoreServerResponse dbNow dbTime marshalResponse jsonb serverName response validUntil);;
      match stored with
      | Some e => sret (Some (RepStore e))
      | None =>
          inDb (storeKeys decodeBase64 serverName validUntil (keyOrder (VerifyKeys response)));;
          inNotary (storeInMemoryCache cacheTTLHours net serverName (cloneServerKeysResponse response));;
          sret None
      end
  end.

(** The callback of [SetOnKeyReceived]; the entry as it is decoded. *)
Definition onKeyReceived (fetcher : option Fetcher) (serverName : bytes) (entry : option KeyEntry) : SN unit :=
  match entry with
  | None => sret tt
  | Some entry =>
      if decide (ke_KeyID entry <> ClusterReplicatedResponseKeyID) then sret tt
      else
        ApplyReplicatedServerResponse fetcher serverName (ke_KeyData entry) (ke_ValidUntilTS entry);; sret tt
  end.

(** [cleanup]: the memory cache, then the database, whose error is logged. *)
Definition cleanup : SN unit :=
  inNotary (cleanup_ net);;
  inDb (DeleteExpiredKeys dbNow);;
  sret tt.

End Node.
