(* ===== verification/ReplicationProofs.v ===== *)
(** * Replicated responses

    What a notary takes over from the cluster is what an origin signed, and what
    one notary fetched the others serve. *)
From S2P Require Import Prelude Base64 GoTime GoStrings Canonical NetIP TrustPolicy NotarySignature.
From S2P Require Import Resolver CircuitBreaker Fetcher FetcherProofs NotaryQuery Storage ClusterState.
From S2P Require Import Replication.
From Stdlib Require Import ZArith Lia.
From stdpp Require Import base gmap list strings fin_maps.
#[local] Open Scope Z_scope.

(** What the n-th reading of the clock gives, and how many there were. *)
Definition reads (s : nstate) : nat := clockReads (fs_resolver (ns_fetch s)).

Section Cache.
Variable net : network.
Variable cacheTTLHours : Z.

(** One reading, and the cache as it was. *)
Lemma nnow_spec s :
  exists s', nnow net s = (net_clock net (reads s), s') /\ reads s' = S (reads s) /\ ns_cache s' = ns_cache s.
Proof. by eexists. Qed.

Lemma storeInMemoryCache_spec serverName response s :
  exists s', storeInMemoryCache cacheTTLHours net serverName response s = (tt, s') /\ reads s' = S (reads s)
    /\ let t := net_clock net (reads s) in let x := cacheExpiresAt cacheTTLHours response t in
       ns_cache s' = if decide (t < x) then <[serverName := mkCached response x]> (ns_cache s) else delete serverName (ns_cache s).
Proof.
  unfold storeInMemoryCache, nbind. destruct (nnow_spec s) as (s1 & -> & Hr & Hc). cbv zeta.
  case_decide as Hx; case_decide as Hy; try lia; eexists; (split; [reflexivity|]); cbn; by rewrite Hc.
Qed.

End Cache.

Section Node.
Context {E : Ed25519}.
Variable net : network.
Variable cacheTTLHours : Z.
Variable dbNow : nat -> Z.
Variable dbTime : Z -> Z.
Variable marshalResponse : ServerKeysResponse -> option bytes.
Variable jsonb : bytes -> bytes.
Variable decodeResponse : bytes -> option ServerKeysResponse.
Variable decodeObject : bytes -> option (list (bytes * gvalue)).
Variable encodeObject : list (bytes * gvalue) -> option bytes.
Variable decodeValue : bytes -> option gvalue.
Variable keyOrder : gmap bytes VerifyKeyResponse -> list (bytes * VerifyKeyResponse).

Abbreviation validate := (validateReplicatedServerResponse net decodeResponse decodeObject encodeObject decodeValue).
Abbreviation applyReplicated := (ApplyReplicatedServerResponse net cacheTTLHours dbNow dbTime marshalResponse jsonb
  decodeResponse decodeObject encodeObject decodeValue keyOrder).
Abbreviation receive := (onKeyReceived net cacheTTLHours dbNow dbTime marshalResponse jsonb
  decodeResponse decodeObject encodeObject decodeValue keyOrder).
Abbreviation verifySelf := (verifySelfSignature decodeObject encodeObject decodeValue).

(** ** The database *)

Lemma storeKeys_responses decode serverName v ks d :
  server_key_responses (tbl (storeKeys dbNow dbTime decode serverName v ks d).2) = server_key_responses (tbl d).
Proof.
  revert d. induction ks as [|[keyID k] ks IH]; intros d; [done|]. cbn [storeKeys]. destruct (decode (vk_Key k)) as [pub|]; [|apply IH].
  unfold dbind. pose proof (execWrite_other dbNow (fun now => on_keys (insert (serverName, keyID) (mkKeyRow pub (dbTime v) now))) d
    (fun t => server_key_responses t = server_key_responses (tbl d))) as H. unfold StoreKey.
  destruct (execWrite dbNow _ d) as [r d1]. rewrite IH. apply H; [|done|done].
  intros n1 n2 t. unfold on_keys. cbn. by rewrite insert_insert_eq.
Qed.

Lemma StoreServerResponse_other serverName response v d other :
  other <> serverName ->
  server_key_responses (tbl (StoreServerResponse dbNow dbTime marshalResponse jsonb serverName response v d).2) !! other
  = server_key_responses (tbl d) !! other.
Proof.
  intros Ho. unfold StoreServerResponse. destruct (marshalResponse response) as [text|]; [|done]. unfold dbind.
  match goal with |- context [execWrite dbNow ?e d] =>
    pose proof (execWrite_other dbNow e d (fun t => server_key_responses t !! other = server_key_responses (tbl d) !! other)) as H;
    destruct (execWrite dbNow e d) as [r d1] end. apply H; [| |done].
  - intros n1 n2 t. unfold on_responses. cbn. by rewrite insert_insert_eq.
  - intros n t Ht. cbn. by rewrite lookup_insert_ne.
Qed.

(** ** The check *)

(** What the check of a replicated document requires; [t] is the clock. *)
Definition acceptable (f : Fetcher) (t : Z) (serverName raw : bytes) (v : Z) (response : ServerKeysResponse) : Prop :=
  decodeResponse raw = Some response /\ skr_ServerName response = serverName /\ serverName <> []
  /\ 0 < v /\ ValidUntilTS response = v /\ verifySelf f (toMilli t) response raw = None.

Lemma validate_replicated_spec fetcher serverName raw v s :
  let '(r, s') := validate fetcher serverName raw v s in
  ns_cache s' = ns_cache s /\ (reads s <= reads s' <= S (reads s))%nat
  /\ forall keys, r = Ok keys ->
       exists f response, fetcher = Some f /\ acceptable f (net_clock net (reads s)) serverName raw v response /\ keys = set_raw raw response
         /\ reads s' = S (reads s).
Proof.
  unfold validateReplicatedServerResponse.
  assert (Hstay : forall e, ns_cache s = ns_cache s /\ (reads s <= reads s <= S (reads s))%nat
    /\ forall keys, @Err rep_err _ e = Ok keys -> exists f response, fetcher = Some f
         /\ acceptable f (net_clock net (reads s)) serverName raw v response /\ keys = set_raw raw response /\ reads s = S (reads s)).
  { intros e. split; [done|]. split; [lia|]. discriminate. }
  case_decide; [apply Hstay|]. destruct (decodeResponse raw) as [response|] eqn:Hd; [|apply Hstay].
  case_decide as Hn; [apply Hstay|]. case_decide as Hm; [apply Hstay|]. case_decide as Hv; [apply Hstay|].
  case_decide as Hw; [apply Hstay|]. destruct fetcher as [f|]; [|apply Hstay]. unfold nbind.
  destruct (nnow_spec net s) as (s1 & -> & Hr & Hc).
  destruct (decide (skr_ServerName response = serverName)) as [Heq|]; [|tauto].
  destruct (decide (ValidUntilTS response = v)) as [Hveq|]; [|tauto].
  destruct (verifySelf f (toMilli (net_clock net (reads s))) response raw) as [e|] eqn:Ev; unfold nret.
  - split; [done|]. split; [lia|]. discriminate.
  - split; [done|]. split; [lia|]. intros keys [= <-]. exists f, response. split; [done|]. split; [|done].
    unfold acceptable. subst. split_and!; try done. lia.
Qed.

(** ** What is taken over *)

Lemma apply_spec fetcher serverName raw v s :
  let '(e, s') := applyReplicated fetcher serverName raw v s in
  (forall other, other <> serverName ->
     ns_cache (sn_notary s') !! other = ns_cache (sn_notary s) !! other
     /\ server_key_responses (tbl (sn_db s')) !! other = server_key_responses (tbl (sn_db s)) !! other)
  /\ match e with
     | Some _ => ns_cache (sn_notary s') = ns_cache (sn_notary s)
     | None =>
         exists f response, fetcher = Some f
           /\ acceptable f (net_clock net (reads (sn_notary s))) serverName raw v response
           /\ let t := net_clock net (S (reads (sn_notary s))) in
              let x := cacheExpiresAt cacheTTLHours (set_raw raw response) t in
              reads (sn_notary s') = S (S (reads (sn_notary s)))
              /\ ns_cache (sn_notary s') !! serverName = if decide (t < x) then Some (mkCached (set_raw raw response) x) else None
     end.
Proof.
  unfold ApplyReplicatedServerResponse, sbind, inNotary at 1. pose proof (validate_replicated_spec fetcher serverName raw v (sn_notary s)) as Hval.
  destruct (validate fetcher serverName raw v (sn_notary s)) as [[keys|e] n1]; destruct Hval as (Hc & _ & Hk); cbn [sn_notary sn_db];
    [|unfold sret; cbn; rewrite Hc; done].
  destruct (Hk keys eq_refl) as (f & response & Hf & Hacc & Hkeys & Hr). unfold inDb at 1. cbn [sn_notary sn_db].
  pose proof (StoreServerResponse_other serverName keys (ofMilli (ValidUntilTS keys)) (sn_db s)) as Hother.
  destruct (StoreServerResponse dbNow dbTime marshalResponse jsonb serverName keys (ofMilli (ValidUntilTS keys)) (sn_db s)) as [[e|] d1];
    cbn [snd] in Hother; [unfold sret; cbn; rewrite Hc; split; [|done]; intros other Ho; split; [done|by apply Hother]|].
  unfold inDb at 1. cbn [sn_notary sn_db].
  pose proof (storeKeys_responses decodeBase64 serverName (ofMilli (ValidUntilTS keys)) (keyOrder (VerifyKeys keys)) d1) as Hks.
  destruct (storeKeys dbNow dbTime decodeBase64 serverName (ofMilli (ValidUntilTS keys)) (keyOrder (VerifyKeys keys)) d1) as [u d2].
  cbn [snd] in Hks. unfold inNotary. cbn [sn_notary sn_db].
  destruct (storeInMemoryCache_spec net cacheTTLHours serverName (cloneServerKeysResponse keys) n1) as (n2 & -> & Hr2 & Hc2).
  cbv zeta in Hc2. unfold sret. cbn [sn_notary sn_db]. rewrite Hr in Hr2, Hc2.
  assert (cloneServerKeysResponse keys = keys) as Hclone by (by destruct keys). rewrite Hclone in Hc2. split.
  - intros other Ho. rewrite Hks, Hc2, Hc. split; [|by apply Hother]. case_decide; [by rewrite lookup_insert_ne|by rewrite lookup_delete_ne].
  - exists f, response. split; [done|]. split; [done|]. split; [done|]. rewrite Hc2, <- Hkeys.
    case_decide; [by rewrite lookup_insert_eq|by rewrite lookup_delete_eq].
Qed.

End Node.

(** C25. Whatever bytes a cluster peer sends for a server, they change the notary's
    cache and stored response of that server only, and the cache only when the
    bytes decode to a response of that server with the announced expiry, not yet
    expired, that one of the keys it lists signed. What is cached is then that
    response with exactly those bytes, and not beyond its expiry. *)
Theorem replicated_authentic {E : Ed25519} net cacheTTLHours dbNow dbTime marshalResponse jsonb decodeResponse decodeObject
    encodeObject decodeValue keyOrder fetcher serverName raw v s e s' :
  ApplyReplicatedServerResponse net cacheTTLHours dbNow dbTime marshalResponse jsonb decodeResponse decodeObject encodeObject
    decodeValue keyOrder fetcher serverName raw v s = (e, s') ->
  (forall other, other <> serverName ->
     ns_cache (sn_notary s') !! other = ns_cache (sn_notary s) !! other
     /\ server_key_responses (tbl (sn_db s')) !! other = server_key_responses (tbl (sn_db s)) !! other)
  /\ (e <> None -> ns_cache (sn_notary s') = ns_cache (sn_notary s))
  /\ (e = None -> exists response, decodeResponse raw = Some response /\ skr_ServerName response = serverName
        /\ ValidUntilTS response = v /\ toMilli (net_clock net (reads (sn_notary s))) < v
        /\ selfSigned decodeObject encodeObject decodeValue (set_raw raw response)
        /\ forall c, ns_cache (sn_notary s') !! serverName = Some c ->
             cr_response c = set_raw raw response /\ cr_validUntil c <= ofMilli v).
Proof.
  intros H. pose proof (apply_spec net cacheTTLHours dbNow dbTime marshalResponse jsonb decodeResponse decodeObject encodeObject decodeValue
    keyOrder fetcher serverName raw v s) as Hs. rewrite H in Hs. destruct Hs as [Hother He]. split; [exact Hother|].
  destruct e as [e|]; [split; [done|discriminate]|]. split; [done|]. intros _.
  destruct He as (f & response & _ & (Hd & Hn & _ & Hv & Hvv & Hself) & _ & Hc).
  apply verifySelfSignature_ok in Hself as (Hsig & Hlt & _). exists response. rewrite Hvv in Hlt. split_and!; try done.
  intros c. rewrite Hc. case_decide; [|discriminate]. intros [= <-]. split; [done|]. cbn [cr_validUntil].
  unfold cacheExpiresAt. cbn [set_raw ValidUntilTS]. rewrite Hvv. rewrite decide_False by lia. case_decide; lia.
Qed.

(** ** From one notary to another *)

(** The check depends on the fetcher only through the number of signatures it
    looks at, and on the clock only through the expiry. *)
Lemma verifySelfSignature_later {E : Ed25519} decodeObject encodeObject decodeValue f f' t t' resp raw :
  verifySelfSignature decodeObject encodeObject decodeValue f t resp raw = None ->
  maxSignatures f <= maxSignatures f' -> t' < ValidUntilTS resp ->
  verifySelfSignature decodeObject encodeObject decodeValue f' t' resp raw = None.
Proof.
  intros H Hf Ht. unfold verifySelfSignature in *. do 2 (case_decide; [done|]). case_decide; [done|]. rewrite decide_False by lia.
  destruct (Signatures resp !! skr_ServerName resp) as [sigs|]; [|done]. case_decide; [done|]. by rewrite decide_False by lia.
Qed.

(** What a direct fetch returns. *)
Lemma fetchDirect_exact {E : Ed25519} net exchange decodeResponse decodeObject encodeObject decodeValue f serverName s keys s' :
  fetchDirect net exchange decodeResponse decodeObject encodeObject decodeValue f serverName s = (Ok keys, s') ->
  exists body resp t, decodeResponse body = Some resp /\ skr_ServerName resp = serverName
    /\ verifySelfSignature decodeObject encodeObject decodeValue f t resp body = None /\ keys = set_raw body resp.
Proof.
  unfold fetchDirect, fbind. destruct (flift _ s) as [[hosts|] s1]; [|done].
  destruct (fetchBody exchange DirectKeys hosts serverName s1) as [[body|e] s2]; [|done].
  destruct (decodeResponse body) as [resp|] eqn:Hd; [|done]. case_decide as Hn; [done|].
  destruct (fnow net s2) as [t s3]. destruct (verifySelfSignature _ _ _ f (t / 1000000) resp body) eqn:Ev; [done|].
  intros [= <- <-]. exists body, resp, (t / 1000000). destruct (decide (skr_ServerName resp = serverName)); [done|tauto].
Qed.

(** What is handed to the cluster after a direct fetch. *)
Lemma fetch_broadcasts {E : Ed25519} net exchange decodeResponse decodeObject encodeObject decodeValue ttl dbNow dbTime marshalResponse
    jsonb keyOrder f ctx serverName s keys b s' :
  fetchAndStoreWithSource net ttl dbNow dbTime marshalResponse jsonb keyOrder true
    (fun _ => fetchDirect net exchange decodeResponse decodeObject encodeObject decodeValue f) ctx serverName s
    = ((Ok keys, Some b), s') ->
  Raw keys <> [] ->
  exists resp t, decodeResponse (Raw keys) = Some resp /\ skr_ServerName resp = serverName
    /\ verifySelfSignature decodeObject encodeObject decodeValue f t resp (Raw keys) = None /\ keys = set_raw (Raw keys) resp
    /\ b = mkBroadcast serverName ClusterReplicatedResponseKeyID (Raw keys) (ValidUntilTS keys).
Proof.
  intros Hfetch Hraw. unfold fetchAndStoreWithSource, sbind, nlift in Hfetch.
  match type of Hfetch with context [inNotary ?m s] => unfold inNotary in Hfetch end.
  destruct (fetchDirect net exchange decodeResponse decodeObject encodeObject decodeValue f serverName (ns_fetch (sn_notary s)))
    as [[keys'|e] fs] eqn:Hd; [|discriminate].
  destruct (fetchDirect_exact _ _ _ _ _ _ _ _ _ _ _ Hd) as (body & resp & t & Hdec & Hn & Hver & Hkeys).
  do 2 match type of Hfetch with context [inDb ?m ?x] => destruct (inDb m x) as [? ?] end.
  destruct (storeInMemoryCache _ _ _ _ _) as [? ?]. injection Hfetch as -> Hb _.
  unfold broadcastOf in Hb. rewrite (decide_True (P := Raw keys <> [])) in Hb by done. rewrite decide_True in Hb by done. injection Hb as <-.
  assert (Raw keys = body) as Hrk by (by subst keys). rewrite Hrk. by exists resp, t.
Qed.

(** A document that is in order is taken over. *)
Lemma apply_accepts {E : Ed25519} net ttl dbNow dbTime marshalResponse jsonb decodeResponse decodeObject encodeObject decodeValue keyOrder
    f serverName raw resp s :
  TrimSpace raw <> [] -> acceptable decodeResponse decodeObject encodeObject decodeValue f (net_clock net (reads (sn_notary s)))
    serverName raw (ValidUntilTS resp) resp ->
  (StoreServerResponse dbNow dbTime marshalResponse jsonb serverName (set_raw raw resp) (ofMilli (ValidUntilTS resp)) (sn_db s)).1 = None ->
  (ApplyReplicatedServerResponse net ttl dbNow dbTime marshalResponse jsonb decodeResponse decodeObject encodeObject decodeValue
     keyOrder (Some f) serverName raw (ValidUntilTS resp) s).1 = None.
Proof.
  intros Hblank (Hdec & Hn & Hne & Hpos & _ & Hver) Hstore.
  assert (Hacc : (validateReplicatedServerResponse net decodeResponse decodeObject encodeObject decodeValue (Some f) serverName raw
            (ValidUntilTS resp) (sn_notary s)).1 = Ok (set_raw raw resp)).
  { unfold validateReplicatedServerResponse. rewrite decide_False by done. rewrite Hdec.
    rewrite decide_False by congruence. rewrite decide_False by (intros Hx; by apply Hx). rewrite decide_False by lia.
    rewrite decide_False by (intros Hx; by apply Hx). unfold nbind.
    destruct (nnow_spec net (sn_notary s)) as (n1 & -> & _). by rewrite Hver. }
  unfold ApplyReplicatedServerResponse, sbind.
  destruct (validateReplicatedServerResponse _ _ _ _ _ (Some f) serverName raw _ (sn_notary s)) as [r n1] eqn:Hv. cbn [fst] in Hacc. subst r.
  unfold inNotary at 1. rewrite Hv. unfold inDb at 1. cbn [sn_db set_raw ValidUntilTS].
  destruct (StoreServerResponse _ _ _ _ serverName _ _ (sn_db s)) as [r d1] eqn:Hst. cbn [fst] in Hstore. subst r.
  match goal with |- context [inDb ?m ?x] => destruct (inDb m x) as [? ?] end.
  match goal with |- context [inNotary ?m ?x] => by destruct (inNotary m x) as [? ?] end.
Qed.

(** An entry that is valid is returned without a fetch. *)
Lemma cached_served ttl net stored fetchKeys ctx serverName s keys x :
  ctx_Err ctx = false -> ns_cache s !! serverName = Some (mkCached keys x) ->
  net_clock net (reads s) < x -> toMilli (net_clock net (reads s)) < ValidUntilTS keys ->
  (GetServerKeys ttl net stored fetchKeys ctx serverName s).1 = Ok keys.
Proof.
  intros Hctx Hc Hx Hv. unfold GetServerKeys. rewrite Hctx. unfold nbind. destruct (nnow_spec net s) as (n2 & -> & _ & Hc2).
  unfold cacheGet. rewrite Hc2, Hc. unfold cacheEntryValid. cbn [cr_validUntil cr_response]. rewrite decide_False by lia.
  by rewrite bool_decide_eq_true_2.
Qed.

(** C26. What one notary fetches directly from an origin and hands to the cluster,
    another can serve without asking. The other notary receives the payload before
    the response expires, its limit on signatures is not stricter, the text of the
    response is not empty, and its database stores the response without an error
    (otherwise the response is dropped). Then its next lookup, with a context that is
    not cancelled, before the response expires and within the life of the cache entry,
    returns the response, bytes included. *)
Theorem fetched_here_served_there {E : Ed25519} netA netB exchange decodeResponse decodeObject encodeObject decodeValue
    ttlA ttlB dbNow dbTime marshalResponse jsonb keyOrder fA fB ctx ctx' stored fetchKeys serverName sA keys b sA' sB ts node hash :
  (forall raw, TrimSpace raw = [] -> decodeResponse raw = None) -> serverName <> [] ->
  fetchAndStoreWithSource netA ttlA dbNow dbTime marshalResponse jsonb keyOrder true
    (fun _ => fetchDirect netA exchange decodeResponse decodeObject encodeObject decodeValue fA) ctx serverName sA
    = ((Ok keys, Some b), sA') ->
  Raw keys <> [] -> maxSignatures fA <= maxSignatures fB ->
  let clock i := net_clock netB (reads (sn_notary sB) + i)%nat in
  0 < ValidUntilTS keys -> toMilli (clock 0%nat) < ValidUntilTS keys ->
  clock 1%nat <= clock 2%nat -> clock 2%nat < clock 1%nat + wrap_int (ttlB * Hour) -> toMilli (clock 2%nat) < ValidUntilTS keys ->
  (StoreServerResponse dbNow dbTime marshalResponse jsonb serverName keys (ofMilli (ValidUntilTS keys)) (sn_db sB)).1 = None ->
  ctx_Err ctx' = false ->
  let entry := mkKeyEntry (bc_serverName b) (bc_keyID b) (bc_keyData b) (bc_validUntilTS b) ts node hash in
  let sB' := (onKeyReceived netB ttlB dbNow dbTime marshalResponse jsonb decodeResponse decodeObject encodeObject decodeValue
                keyOrder (Some fB) (ke_ServerName entry) (Some entry) sB).2 in
  (GetServerKeys ttlB netB stored fetchKeys ctx' serverName (sn_notary sB')).1 = Ok keys.
Proof.
  intros Hblank Hname Hfetch Hraw Hmax clock Hpos H0 H12 H2 H2v Hstore Hctx entry sB'.
  destruct (fetch_broadcasts _ _ _ _ _ _ _ _ _ _ _ _ _ _ _ _ _ _ _ Hfetch Hraw) as (resp & t & Hdec & Hn & Hver & Hkeys & ->).
  remember (Raw keys) as raw eqn:Hrk. pose proof (f_equal ValidUntilTS Hkeys) as Hvk. cbn [set_raw ValidUntilTS] in Hvk.
  subst entry sB'. cbn [ke_ServerName bc_serverName bc_keyID bc_keyData bc_validUntilTS]. unfold onKeyReceived, sbind.
  cbn [ke_KeyID ke_KeyData ke_ValidUntilTS]. rewrite decide_False by (intros Hx; by apply Hx).
  rewrite Hvk in *. rewrite Hkeys in Hstore.
  replace (clock 0%nat) with (net_clock netB (reads (sn_notary sB))) in H0 by (unfold clock; f_equal; lia).
  assert (Hnone := apply_accepts netB ttlB dbNow dbTime marshalResponse jsonb decodeResponse decodeObject encodeObject decodeValue keyOrder
            fB serverName raw resp sB).
  pose proof (apply_spec netB ttlB dbNow dbTime marshalResponse jsonb decodeResponse decodeObject encodeObject decodeValue keyOrder
    (Some fB) serverName raw (ValidUntilTS resp) sB) as Hs.
  destruct (ApplyReplicatedServerResponse _ _ _ _ _ _ _ _ _ _ _ (Some fB) serverName raw (ValidUntilTS resp) sB) as [e s'].
  cbn [fst] in Hnone. rewrite Hnone in Hs; [|by intros Hx; apply Hblank in Hx; congruence| |done].
  2: { unfold acceptable. split_and!; try done. by apply (verifySelfSignature_later _ _ _ fA fB t). }
  destruct Hs as (_ & f & response & _ & (Hd' & _) & Hreads & Hcache).
  rewrite Hdec in Hd'. injection Hd' as <-. rewrite <- Hkeys in Hcache. unfold sret. cbn [snd].
  replace (net_clock netB (S (reads (sn_notary sB)))) with (clock 1%nat) in Hcache by (unfold clock; f_equal; lia).
  assert (Hx : clock 2%nat < cacheExpiresAt ttlB keys (clock 1%nat)).
  { clear Hcache. unfold cacheExpiresAt. rewrite decide_False by lia. case_decide; [|done]. unfold ofMilli, toMilli in *.
    pose proof (Z.mul_succ_div_gt (clock 2%nat) 1000000). lia. }
  rewrite decide_True in Hcache by lia.
  assert (net_clock netB (reads (sn_notary s')) = clock 2%nat) as Hc2 by (rewrite Hreads; unfold clock; f_equal; lia).
  eapply cached_served; [done|exact Hcache|by rewrite Hc2|rewrite Hc2; lia].
Qed.

(** ** Instances *)

#[local] Existing Instance demo_scheme.

Definition demo_decode (raw : bytes) : option ServerKeysResponse := if decide (raw = bs "{}") then Some demo_keys else None.

Definition demo_node : snode := mkSNode (mkNState demo_start ∅) (mkDatabase (mkTables ∅ ∅ ∅) [] 0 []).

Definition demo_order (m : gmap bytes VerifyKeyResponse) : list (bytes * VerifyKeyResponse) := map_to_list m.

Definition demo_apply : SN (option rep_err) :=
  ApplyReplicatedServerResponse quietNet 1 Z.of_nat id (fun _ => Some (bs "{}")) id demo_decode (fun _ => Some []) (fun _ => Some (bs "{}"))
    (fun _ => Some (VObject [])) demo_order (Some demo_fetcher) (bs "origin.org") (bs "{}") 1700000000000.

Lemma replicated_authentic_witness :
  exists s', demo_apply demo_node = (None, s') /\ exists c, ns_cache (sn_notary s') !! bs "origin.org" = Some c /\ cr_response c = set_raw (bs "{}") demo_keys.
Proof.
  destruct (demo_apply demo_node) as [e s'] eqn:Ha.
  assert (e = None) as -> by (transitivity (demo_apply demo_node).1; [by rewrite Ha|vm_compute; reflexivity]).
  exists s'. split; [reflexivity|].
  assert (is_Some (ns_cache (sn_notary s') !! bs "origin.org")) as [c Hc].
  { replace s' with (demo_apply demo_node).2 by (by rewrite Ha). refine (bool_decide_eq_true_1 _ _). vm_compute. reflexivity. }
  exists c. split; [exact Hc|].
  destruct (replicated_authentic _ _ _ _ _ _ _ _ _ _ _ _ _ _ _ _ _ _ Ha) as (_ & _ & H).
  destruct (H eq_refl) as (response & Hd & _ & _ & _ & _ & Hcache). unfold demo_decode in Hd. rewrite decide_True in Hd by reflexivity.
  assert (demo_keys = response) as <- by (apply (f_equal (default demo_keys)) in Hd; exact Hd). exact (proj1 (Hcache c Hc)).
Defined.

Definition demo_fetched : SN (result fetch_err ServerKeysResponse * option broadcast) :=
  fetchAndStoreWithSource quietNet 1 Z.of_nat id (fun _ => Some (bs "{}")) id demo_order true
    (fun _ => fetchDirect quietNet (fun _ _ _ => HttpResponse 200 (mkStream (bs "{}") None)) demo_decode (fun _ => Some [])
       (fun _ => Some (bs "{}")) (fun _ => Some (VObject [])) demo_fetcher) demo_ctx (bs "origin.org").

Lemma demo_blank raw : TrimSpace raw = [] -> demo_decode raw = None.
Proof. unfold demo_decode. case_decide as H; [|done]. subst raw. vm_compute. discriminate. Qed.

Lemma fetched_here_served_there_witness :
  exists keys b s', demo_fetched demo_node = ((Ok keys, Some b), s')
    /\ (GetServerKeys 1 quietNet (fun _ _ => None) (fun _ _ => fret (Err FetchAllFailed)) demo_ctx (bs "origin.org")
          (sn_notary (onKeyReceived quietNet 1 Z.of_nat id (fun _ => Some (bs "{}")) id demo_decode (fun _ => Some [])
             (fun _ => Some (bs "{}")) (fun _ => Some (VObject [])) demo_order (Some demo_fetcher) (bc_serverName b)
             (Some (mkKeyEntry (bc_serverName b) (bc_keyID b) (bc_keyData b) (bc_validUntilTS b) 0 [] [])) demo_node).2)).1 = Ok keys.
Proof.
  destruct (demo_fetched demo_node) as [[r ob] s'] eqn:Hf.
  assert (r = Ok (set_raw (bs "{}") demo_keys)
    /\ ob = Some (mkBroadcast (bs "origin.org") ClusterReplicatedResponseKeyID (bs "{}") 1700000000000)) as [-> ->].
  { assert ((demo_fetched demo_node).1 = (Ok (set_raw (bs "{}") demo_keys),
      Some (mkBroadcast (bs "origin.org") ClusterReplicatedResponseKeyID (bs "{}") 1700000000000))) as Hv by (vm_compute; reflexivity).
    rewrite Hf in Hv. split; [exact (f_equal fst Hv)|exact (f_equal snd Hv)]. }
  eexists _, _, s'. split; [reflexivity|].
  apply (fetched_here_served_there quietNet quietNet (fun _ _ _ => HttpResponse 200 (mkStream (bs "{}") None)) demo_decode (fun _ => Some [])
    (fun _ => Some (bs "{}")) (fun _ => Some (VObject [])) 1 1 Z.of_nat id (fun _ => Some (bs "{}")) id demo_order demo_fetcher demo_fetcher
    demo_ctx demo_ctx (fun _ _ => None) (fun _ _ => fret (Err FetchAllFailed)) (bs "origin.org") demo_node _ _ s' demo_node 0 [] []
    demo_blank ltac:(discriminate) Hf ltac:(discriminate) ltac:(reflexivity)); vm_compute; reflexivity || discriminate.
Defined.
