(* ===== verification/Float64.v ===== *)
(** * The float64 operations the program uses

    IEEE 754 binary64 as in the Standard Library's [SpecFloat]: conversion from and
    to integers, the arithmetic, the comparison, and the text of the verb %g. *)
From S2P Require Import Prelude Decimal GoTime.
From Stdlib Require Import ZArith Lia SpecFloat.
From stdpp Require Import base list strings.
#[local] Open Scope Z_scope.

Definition float64 : Type := spec_float.

Definition fadd : float64 -> float64 -> float64 := SFadd 53 1024.
Definition fmul : float64 -> float64 -> float64 := SFmul 53 1024.
Definition fdiv : float64 -> float64 -> float64 := SFdiv 53 1024.

(** [x <= y]; false when one is not a number. *)
Definition fle (x y : float64) : bool := SFleb x y.

(** [float64(n)] of an integer. *)
Definition ofInt (n : Z) : float64 := binary_normalize 53 1024 n 0 false.

(** A decimal constant [n / d]. *)
Definition constant (n d : Z) : float64 := fdiv (ofInt n) (ofInt d).

Section Conversion.
(** The language leaves the conversion of a value out of range to the
    implementation. *)
Variable outOfRange : float64 -> Z.

(** The integer part, towards zero. *)
Definition truncate (f : float64) : option Z :=
  match f with
  | S754_zero _ => Some 0
  | S754_finite s m e =>
      let n := if decide (0 <= e) then Z.pos m * 2 ^ e else Z.pos m / 2 ^ (- e) in Some (if s then - n else n)
  | _ => None
  end.

(** [int64(f)]. *)
Definition toInt64 (f : float64) : Z :=
  match truncate f with
  | Some n => if decide (int_ok n) then n else outOfRange f
  | None => outOfRange f
  end.

End Conversion.

(** ** The verb %g *)

(** [lo <= x <= hi], without the bounds unless [incl]. *)
Definition between (incl : bool) (lo x hi : Z) : bool :=
  if incl then bool_decide (lo <= x <= hi) else bool_decide (lo < x < hi).

(** The multiple of [10 ^ j] that stands for [d], if one lies in the interval:
    the nearer one if both neighbours do, the even one in the middle. *)
Definition shortened (incl : bool) (lo d hi j : Z) : option Z :=
  let q := d / 10 ^ j in
  let down := between incl lo (q * 10 ^ j) hi in
  let up := between incl lo ((q + 1) * 10 ^ j) hi in
  let r := d mod 10 ^ j in
  let nearer := if decide (2 * r < 10 ^ j) then q else if decide (10 ^ j < 2 * r) then q + 1 else if Z.even q then q else q + 1 in
  if down && up then Some nearer else if down then Some q else if up then Some (q + 1) else None.

Fixpoint shortestFrom (j : nat) (incl : bool) (lo d hi : Z) : Z * nat :=
  match shortened incl lo d hi (Z.of_nat j) with
  | Some q => (q, j)
  | None => match j with O => (d, 0%nat) | S j => shortestFrom j incl lo d hi end
  end.

(** The digits of the shortest decimal that is read back as [m * 2 ^ e], without
    trailing zeros, and the position of the point. *)
Definition shortestDigits (m : positive) (e : Z) : bytes * Z :=
  let lo := if decide (Z.pos m = 2 ^ 52 /\ - 1074 < e) then 4 * Z.pos m - 1 else 4 * Z.pos m - 2 in
  let scale := if decide (0 <= e - 2) then 2 ^ (e - 2) else 5 ^ (2 - e) in
  let q := Z.max 0 (2 - e) in
  let d := 4 * Z.pos m * scale in
  let '(n, j) := shortestFrom (length (FormatUint d)) (Z.even (Z.pos m)) (lo * scale) d ((4 * Z.pos m + 2) * scale) in
  (trimZeros (FormatUint n), len (FormatUint n) + Z.of_nat j - q).

Definition formatE (ds : bytes) (dp : Z) : bytes :=
  let exp := dp - 1 in
  take 1 ds ++ (if decide (drop 1 ds = []) then [] else Byte.x2e :: drop 1 ds)
  ++ Byte.x65 :: (if decide (exp < 0) then Byte.x2d else Byte.x2b) :: padded 2 (Z.abs exp).

Definition zeros (n : Z) : bytes := replicate (Z.to_nat n) Byte.x30.

Definition formatF (ds : bytes) (dp : Z) : bytes :=
  let whole := if decide (0 < dp) then take (Z.to_nat dp) (ds ++ zeros (dp - len ds)) else bs "0" in
  let fraction := zeros (- dp) ++ drop (Z.to_nat dp) ds in
  whole ++ (if decide (fraction = []) then [] else Byte.x2e :: fraction).

Definition FormatG (f : float64) : bytes :=
  match f with
  | S754_nan => bs "NaN"
  | S754_infinity s => if s then bs "-Inf" else bs "+Inf"
  | S754_zero s => if s then bs "-0" else bs "0"
  | S754_finite s m e =>
      let '(ds, dp) := shortestDigits m e in
      let text := if decide (dp - 1 < - 4 \/ 6 <= dp - 1) then formatE ds dp else formatF ds dp in
      if s then Byte.x2d :: text else text
  end.

Example format_float_vectors :
  FormatG (constant 5 1000) = bs "0.005" /\ FormatG (constant 25 10) = bs "2.5" /\ FormatG (ofInt 10) = bs "10"
  /\ FormatG (constant 1 3) = bs "0.3333333333333333" /\ FormatG (ofInt 1000000) = bs "1e+06" /\ FormatG (ofInt 999999) = bs "999999"
  /\ FormatG (constant 1 100000) = bs "1e-05" /\ FormatG (ofInt 123456789) = bs "1.23456789e+08"
  /\ FormatG (ofInt (- 2 ^ 63)) = bs "-9.223372036854776e+18" /\ FormatG (fadd (constant 1 10) (constant 2 10)) = bs "0.30000000000000004".
Proof. vm_compute. split_and!; reflexivity. Qed.

Example convert_vectors :
  toInt64 (fun _ => 0) (constant 5 2) = 2 /\ toInt64 (fun _ => 0) (constant (-5) 2) = -2
  /\ toInt64 (fun _ => 7) (ofInt (2 ^ 63)) = 7 /\ ofInt (2 ^ 53 + 1) = ofInt (2 ^ 53).
Proof. vm_compute. split_and!; reflexivity. Qed.

(** ** The order *)

(** Magnitudes are compared by exponent, then by mantissa. *)
Definition smaller (m1 : positive) (e1 : Z) (m2 : positive) (e2 : Z) : Prop := e1 < e2 \/ (e1 = e2 /\ (m1 <= m2)%positive).

Lemma fle_finite s m1 e1 m2 e2 :
  fle (S754_finite s m1 e1) (S754_finite s m2 e2) = true <-> if s then smaller m2 e2 m1 e1 else smaller m1 e1 m2 e2.
Proof.
  unfold fle, SFleb, SFcompare, smaller. change (Pos.compare_cont Eq m1 m2) with (m1 ?= m2)%positive.
  destruct s, (Z.compare_spec e1 e2), (Pos.compare_spec m1 m2); cbn; split; try done; lia.
Qed.

Lemma fle_trans x y z : fle x y = true -> fle y z = true -> fle x z = true.
Proof.
  destruct x as [[]|[]| |[] mx ex], y as [[]|[]| |[] my ey], z as [[]|[]| |[] mz ez]; try done; rewrite ?fle_finite; unfold smaller; lia.
Qed.
