(* ===== verification/Metrics.v ===== *)
(** * The metrics registry (internal/zero/metrics)

    Counters, gauges and histograms with labels, the registry that names them, and
    the Prometheus text they are written as. The objects live in a heap, because
    the registry and the variables of the program point to the same ones: a handle
    is a position in it. A value of a vector belongs to a label key, the label
    values joined by NUL.

    Parameters: the order in which [sync.Map.Range] goes through the values, the
    printable runes beyond ASCII, the conversion of floats out of range, and a
    writer, whose writes may fail. Operations on one value are atomic, so a
    sequence of them stands for any interleaving. *)
From S2P Require Import Prelude Decimal GoStrings Canonical Crypto Float64.
From Stdlib Require Import ZArith Lia.
From stdpp Require Import base gmap list strings fin_maps.
#[local] Open Scope Z_scope.

(** ** helpers.go *)

Definition underscore : bytes := [Byte.x5f].

Definition buildName (namespace subsystem name : bytes) : bytes :=
  if decide (namespace <> [] /\ subsystem <> []) then namespace ++ underscore ++ subsystem ++ underscore ++ name
  else if decide (namespace <> []) then namespace ++ underscore ++ name
  else if decide (subsystem <> []) then subsystem ++ underscore ++ name
  else name.

Definition NUL : byte := Byte.x00.

Definition labelKey (lvs : list bytes) : bytes := if decide (len lvs = 0) then [] else Join_ lvs NUL.

Section Quote.
(** [unicode.IsPrint] beyond ASCII. *)
Variable isPrint : Z -> bool.

Definition hexByte (n : Z) : bytes := Hex.EncodeToString [byte_of_Z n].

(** A rune as [strconv.Quote] writes it; [raw] are its bytes. *)
Definition quoteRune (r : Z) (raw : bytes) : bytes :=
  if decide (r = RuneError /\ length raw = 1%nat) then bs "\x" ++ Hex.EncodeToString raw
  else if decide (r = 34 \/ r = 92) then [Byte.x5c; byte_of_Z r]
  else if decide (32 <= r <= 126) then raw
  else if decide (128 <= r /\ isPrint r = true) then raw
  else if decide (r = 7) then bs "\a"
  else if decide (r = 8) then bs "\b"
  else if decide (r = 12) then bs "\f"
  else if decide (r = 10) then bs "\n"
  else if decide (r = 13) then bs "\r"
  else if decide (r = 9) then bs "\t"
  else if decide (r = 11) then bs "\v"
  else if decide (r < 32 \/ r = 127) then bs "\x" ++ hexByte r
  else if decide (r < 65536) then bs "\u" ++ hexByte (r / 256) ++ hexByte (r mod 256)
  else bs "\U" ++ hexByte (r / 2 ^ 24) ++ hexByte (r / 65536 mod 256) ++ hexByte (r / 256 mod 256) ++ hexByte (r mod 256).

Fixpoint quoteFrom (fuel : nat) (s : bytes) : bytes :=
  match fuel, s with
  | S fuel, _ :: _ => let '(r, n) := DecodeRune s in quoteRune r (take n s) ++ quoteFrom fuel (drop n s)
  | _, _ => []
  end.

(** The verb %q. *)
Definition Quote (s : bytes) : bytes := Byte.x22 :: quoteFrom (length s) s ++ [Byte.x22].

Definition formatLabels (names : list bytes) (key : bytes) : bytes :=
  if decide (key = [] \/ len names = 0) then []
  else
    let values := Split key NUL in
    if decide (len values <> len names) then key
    else Join_ (zip_with (fun name v => name ++ Byte.x3d :: Quote v) names values) Byte.x2c.

End Quote.

(** ** The objects *)

Record opts : Type := mkOpts {
  o_Namespace : bytes;
  o_Subsystem : bytes;
  o_Name : bytes;
  o_Help : bytes;
}.

Record metric (V : Type) : Type := mkMetric {
  m_name : bytes;
  m_help : bytes;
  m_labels : list bytes;
  m_values : gmap bytes V;
}.
Arguments mkMetric {V} _ _ _ _.
Arguments m_name {V} _.
Arguments m_help {V} _.
Arguments m_labels {V} _.
Arguments m_values {V} _.

(** A [uint64] each, an [int64] each in units of [1e-9]. *)
Definition Counter : Type := metric Z.
Definition Gauge : Type := metric Z.

Record histogramData : Type := mkHistogramData {
  hd_buckets : list Z;
  hd_sum : float64;
  hd_count : Z;
}.

Record Histogram : Type := mkHistogram {
  h_metric : metric histogramData;
  h_buckets : list float64;
}.

Definition on_values {V} (f : gmap bytes V -> gmap bytes V) (m : metric V) : metric V :=
  mkMetric (m_name m) (m_help m) (m_labels m) (f (m_values m)).

Record Registry : Type := mkRegistry {
  counters : gmap bytes nat;
  gauges : gmap bytes nat;
  histos : gmap bytes nat;
  counterHeap : list Counter;
  gaugeHeap : list Gauge;
  histoHeap : list Histogram;
}.

Definition NewRegistry : Registry := mkRegistry ∅ ∅ ∅ [] [] [].

(** ** Registration: the handle of the new object, which takes over the name *)

Definition NewCounterVec (o : opts) (labels : list bytes) (r : Registry) : nat * Registry :=
  let name := buildName (o_Namespace o) (o_Subsystem o) (o_Name o) in
  let c := mkMetric name (o_Help o) labels ∅ in
  (length (counterHeap r),
   mkRegistry (<[name := length (counterHeap r)]> (counters r)) (gauges r) (histos r)
     (counterHeap r ++ [c]) (gaugeHeap r) (histoHeap r)).

Definition NewCounter (o : opts) : Registry -> nat * Registry := NewCounterVec o [].

Definition NewGaugeVec (o : opts) (labels : list bytes) (r : Registry) : nat * Registry :=
  let name := buildName (o_Namespace o) (o_Subsystem o) (o_Name o) in
  let g := mkMetric name (o_Help o) labels ∅ in
  (length (gaugeHeap r),
   mkRegistry (counters r) (<[name := length (gaugeHeap r)]> (gauges r)) (histos r)
     (counterHeap r) (gaugeHeap r ++ [g]) (histoHeap r)).

Definition NewGauge (o : opts) : Registry -> nat * Registry := NewGaugeVec o [].

Definition DefaultBuckets : list float64 := Eval vm_compute in
  [constant 5 1000; constant 1 100; constant 25 1000; constant 5 100; constant 1 10; constant 25 100; constant 5 10;
   ofInt 1; constant 25 10; ofInt 5; ofInt 10].

(** The bounds are taken as they come, neither sorted nor checked. *)
Definition NewHistogramVec (o : opts) (buckets : list float64) (labels : list bytes) (r : Registry) : nat * Registry :=
  let name := buildName (o_Namespace o) (o_Subsystem o) (o_Name o) in
  let buckets := if decide (len buckets = 0) then DefaultBuckets else buckets in
  let h := mkHistogram (mkMetric name (o_Help o) labels ∅) buckets in
  (length (histoHeap r),
   mkRegistry (counters r) (gauges r) (<[name := length (histoHeap r)]> (histos r))
     (counterHeap r) (gaugeHeap r) (histoHeap r ++ [h])).

Definition NewHistogram (o : opts) (buckets : list float64) : Registry -> nat * Registry := NewHistogramVec o buckets [].

(** ** Counters *)

Definition on_counter (c : nat) (f : Counter -> Counter) (r : Registry) : Registry :=
  mkRegistry (counters r) (gauges r) (histos r) (alter f c (counterHeap r)) (gaugeHeap r) (histoHeap r).

(** [LoadOrStore] of a zero, then an atomic update. *)
Definition update_value (key : bytes) (f : Z -> Z) (m : metric Z) : metric Z :=
  on_values (fun vs => <[key := f (default 0 (vs !! key))]> vs) m.

Definition Counter_Add (c : nat) (v : Z) : Registry -> Registry := on_counter c (update_value [] (fun x => wrap64 (x + v))).
Definition Counter_Inc (c : nat) : Registry -> Registry := Counter_Add c 1.

(** A value bound to labels: the object and the key; creating it stores a zero. *)
Definition Counter_WithLabelValues (c : nat) (lvs : list bytes) (r : Registry) : (nat * bytes) * Registry :=
  ((c, labelKey lvs), on_counter c (update_value (labelKey lvs) id) r).
Definition CounterValue_Add (cv : nat * bytes) (v : Z) : Registry -> Registry :=
  on_counter cv.1 (update_value cv.2 (fun x => wrap64 (x + v))).
Definition CounterValue_Inc (cv : nat * bytes) : Registry -> Registry := CounterValue_Add cv 1.

(** ** Gauges *)

Section Gauges.
Variable outOfRange : float64 -> Z.

Definition on_gauge (g : nat) (f : Gauge -> Gauge) (r : Registry) : Registry :=
  mkRegistry (counters r) (gauges r) (histos r) (counterHeap r) (alter f g (gaugeHeap r)) (histoHeap r).

(** [int64(v*1e9)]. *)
Definition fixedPoint (v : float64) : Z := toInt64 outOfRange (fmul v (ofInt 1000000000)).

Definition Gauge_Set (g : nat) (v : float64) : Registry -> Registry := on_gauge g (update_value [] (fun _ => fixedPoint v)).
Definition Gauge_Add (g : nat) (v : float64) : Registry -> Registry :=
  on_gauge g (update_value [] (fun x => wrap_int (x + fixedPoint v))).
Definition Gauge_Inc (g : nat) : Registry -> Registry := Gauge_Add g (ofInt 1).
Definition Gauge_Dec (g : nat) : Registry -> Registry := Gauge_Add g (ofInt (-1)).

Definition Gauge_WithLabelValues (g : nat) (lvs : list bytes) (r : Registry) : (nat * bytes) * Registry :=
  ((g, labelKey lvs), on_gauge g (update_value (labelKey lvs) id) r).
Definition GaugeValue_Set (gv : nat * bytes) (v : float64) : Registry -> Registry :=
  on_gauge gv.1 (update_value gv.2 (fun _ => fixedPoint v)).
Definition GaugeValue_Add (gv : nat * bytes) (v : float64) : Registry -> Registry :=
  on_gauge gv.1 (update_value gv.2 (fun x => wrap_int (x + fixedPoint v))).
Definition GaugeValue_Inc (gv : nat * bytes) : Registry -> Registry :=
  on_gauge gv.1 (update_value gv.2 (fun x => wrap_int (x + 1000000000))).
Definition GaugeValue_Dec (gv : nat * bytes) : Registry -> Registry :=
  on_gauge gv.1 (update_value gv.2 (fun x => wrap_int (x - 1000000000))).

End Gauges.

(** ** Histograms *)

Definition on_histogram (h : nat) (f : Histogram -> Histogram) (r : Registry) : Registry :=
  mkRegistry (counters r) (gauges r) (histos r) (counterHeap r) (gaugeHeap r) (alter f h (histoHeap r)).

(** The first bucket whose bound is not below [v] counts one more. *)
Fixpoint bump (bounds : list float64) (buckets : list Z) (v : float64) : list Z :=
  match bounds, buckets with
  | bound :: bounds, n :: buckets => if fle v bound then wrap64 (n + 1) :: buckets else n :: bump bounds buckets v
  | _, _ => buckets
  end.

Definition emptyData (bounds : list float64) : histogramData := mkHistogramData (replicate (length bounds) 0) (ofInt 0) 0.

Definition observeData (bounds : list float64) (v : float64) (d : histogramData) : histogramData :=
  mkHistogramData (bump bounds (hd_buckets d) v) (fadd (hd_sum d) v) (wrap64 (hd_count d + 1)).

Definition observe (key : bytes) (v : float64) (h : Histogram) : Histogram :=
  mkHistogram
    (on_values (fun vs => <[key := observeData (h_buckets h) v (default (emptyData (h_buckets h)) (vs !! key))]> vs) (h_metric h))
    (h_buckets h).

Definition Histogram_Observe (h : nat) (v : float64) : Registry -> Registry := on_histogram h (observe [] v).
Definition Histogram_WithLabelValues (h : nat) (lvs : list bytes) : nat * bytes := (h, labelKey lvs).
Definition HistogramValue_Observe (hv : nat * bytes) (v : float64) : Registry -> Registry := on_histogram hv.1 (observe hv.2 v).

(** ** The text *)

(** Each write takes all of its bytes, or only so many with an error. *)
Record writer : Type := mkWriter {
  w_out : bytes;
  w_script : list (option nat);
}.

Definition put (line : bytes) (w : writer) : Z * bool * writer :=
  match w_script w with
  | Some k :: rest => (len (take k line), false, mkWriter (w_out w ++ take k line) rest)
  | _ => (len line, true, mkWriter (w_out w ++ line) (tail (w_script w)))
  end.

(** Lines one after the other, up to the first error; the bytes that were taken. *)
Fixpoint putAll (lines : list bytes) (total : Z) (w : writer) : Z * bool * writer :=
  match lines with
  | [] => (total, true, w)
  | line :: lines =>
      match put line w with
      | (n, true, w) => putAll lines (total + n) w
      | (n, false, w) => (total + n, false, w)
      end
  end.

Section Write.
Variable isPrint : Z -> bool.
Variable rangeOf : forall A : Type, gmap bytes A -> list (bytes * A).

Definition header {V} (m : metric V) (kind : bytes) : bytes :=
  bs "# HELP " ++ m_name m ++ Byte.x20 :: m_help m ++ Byte.x0a :: bs "# TYPE " ++ m_name m ++ Byte.x20 :: kind ++ [Byte.x0a].

(** [name{labels} value] *)
Definition sample (name labels value : bytes) : bytes :=
  name ++ (if decide (labels = []) then [] else Byte.x7b :: labels ++ [Byte.x7d]) ++ Byte.x20 :: value ++ [Byte.x0a].

Definition counterLines (c : Counter) : list bytes :=
  header c (bs "counter")
  :: map (fun kv => sample (m_name c) (formatLabels isPrint (m_labels c) kv.1) (FormatUint kv.2)) (rangeOf _ (m_values c)).

Definition gaugeLines (g : Gauge) : list bytes :=
  header g (bs "gauge")
  :: map (fun kv => sample (m_name g) (formatLabels isPrint (m_labels g) kv.1) (FormatG (fdiv (ofInt kv.2) (ofInt 1000000000))))
       (rangeOf _ (m_values g)).

(** Running sums in 64 bits. *)
Fixpoint cumulative (acc : Z) (buckets : list Z) : list Z :=
  match buckets with
  | [] => []
  | n :: buckets => let acc := wrap64 (acc + n) in acc :: cumulative acc buckets
  end.

Definition bucketLine (name labels le : bytes) (n : Z) : bytes :=
  sample (name ++ bs "_bucket")
    ((if decide (labels = []) then [] else labels ++ [Byte.x2c]) ++ bs "le=" ++ Byte.x22 :: le ++ [Byte.x22]) (FormatUint n).

(** The last write has two lines. *)
Definition dataLines (h : Histogram) (key : bytes) (d : histogramData) : list bytes :=
  let name := m_name (h_metric h) in
  let labels := formatLabels isPrint (m_labels (h_metric h)) key in
  zip_with (fun bound n => bucketLine name labels (FormatG bound) n) (h_buckets h) (cumulative 0 (hd_buckets d))
  ++ [bucketLine name labels (bs "+Inf") (hd_count d);
      sample (name ++ bs "_sum") labels (FormatG (hd_sum d)) ++ sample (name ++ bs "_count") labels (FormatUint (hd_count d))].

Definition histogramLines (h : Histogram) : list bytes :=
  header (h_metric h) (bs "histogram") :: concat (map (fun kv => dataLines h kv.1 kv.2) (rangeOf _ (m_values (h_metric h)))).

(** The objects that have a name, in the order of the names. *)
Definition inOrder {A : Type} (names : gmap bytes nat) (heap : list A) : list A :=
  omap (fun kv => heap !! kv.2) (sortKeys (map_to_list names)).

Definition exposition (r : Registry) : list bytes :=
  concat (map counterLines (inOrder (counters r) (counterHeap r)))
  ++ concat (map gaugeLines (inOrder (gauges r) (gaugeHeap r)))
  ++ concat (map histogramLines (inOrder (histos r) (histoHeap r))).

(** The number of bytes, whether there was no error, and the writer. *)
Definition WriteTo (r : Registry) (w : writer) : Z * bool * writer := putAll (exposition r) 0 w.

End Write.
