(* ===== verification/AppMetrics.v ===== *)
(** * The metrics the program keeps
    (keys/metrics.go, server/metrics.go, internal/zero/metrics/metrics_runtime.go, and the
    counting in server/middleware_logging.go)

    The variables of the packages, in the order in which they are initialised, the
    registry they make, and the functions that count. A variable stands for the
    object it points to. *)
From S2P Require Import Prelude Decimal GoStrings Canonical Float64 Metrics.
From Stdlib Require Import ZArith Lia.
From stdpp Require Import base gmap list strings fin_maps.
#[local] Open Scope Z_scope.

Inductive decl : Type :=
  | DCounter (o : opts) (labels : list bytes)
  | DGauge (o : opts) (labels : list bytes)
  | DHistogram (o : opts) (buckets : list float64) (labels : list bytes).

Definition register (d : decl) (r : Registry) : nat * Registry :=
  match d with
  | DCounter o labels => NewCounterVec o labels r
  | DGauge o labels => NewGaugeVec o labels r
  | DHistogram o buckets labels => NewHistogramVec o buckets labels r
  end.

Definition declOpts (d : decl) : opts := match d with DCounter o _ | DGauge o _ | DHistogram o _ _ => o end.
Definition declName (d : decl) : bytes := let o := declOpts d in buildName (o_Namespace o) (o_Subsystem o) (o_Name o).

(** ** metrics_runtime.go *)

Definition goroutines : decl := DGauge (mkOpts (bs "go") [] (bs "goroutines") (bs "Number of goroutines that currently exist")) [].
Definition threads : decl := DGauge (mkOpts (bs "go") [] (bs "threads") (bs "Number of OS threads created")) [].
Definition heapAlloc : decl :=
  DGauge (mkOpts (bs "go") (bs "memstats") (bs "heap_alloc_bytes") (bs "Number of heap bytes allocated and still in use")) [].
Definition heapSys : decl :=
  DGauge (mkOpts (bs "go") (bs "memstats") (bs "heap_sys_bytes") (bs "Number of heap bytes obtained from system")) [].
Definition heapInuse : decl :=
  DGauge (mkOpts (bs "go") (bs "memstats") (bs "heap_inuse_bytes") (bs "Number of heap bytes in use")) [].

Definition runtimeDecls : list decl := [goroutines; threads; heapAlloc; heapSys; heapInuse].

(** ** keys/metrics.go *)

Definition keyCacheHits : decl := DCounter (mkOpts (bs "mxkeys") (bs "keys") (bs "cache_hits_total") (bs "Total cache hits by type"))
  [bs "cache_type"].

Definition keyCacheMisses : decl := DCounter (mkOpts (bs "mxkeys") (bs "keys") (bs "cache_misses_total") (bs "Total cache misses by type"))
  [bs "cache_type"].

Definition keyFetchAttempts : decl := DCounter (mkOpts (bs "mxkeys") (bs "keys") (bs "fetch_attempts_total") (bs "Total key fetch attempts"))
  [bs "status"; bs "source"].

Definition keyFetchDuration : decl := DHistogram (mkOpts (bs "mxkeys") (bs "keys") (bs "fetch_duration_seconds") (bs "Key fetch duration in seconds"))
  [constant 1 100; constant 1 20; constant 1 10; constant 1 4; constant 1 2; ofInt 1; constant 5 2; ofInt 5; ofInt 10; ofInt 30] [bs "status"; bs "source"].

Definition memoryCacheSize : decl := DGauge (mkOpts (bs "mxkeys") (bs "keys") (bs "memory_cache_size") (bs "Number of entries in positive memory cache"))
  [].

Definition negativeCacheSize : decl := DGauge (mkOpts (bs "mxkeys") (bs "resolver") (bs "negative_cache_size") (bs "Number of entries in negative cache"))
  [bs "type"].

Definition keys_refetchesTotal : decl := DCounter (mkOpts (bs "mxkeys") (bs "keys") (bs "refetches_total") (bs "Total refetch operations by reason"))
  [bs "reason"].

Definition upstreamFailures : decl := DCounter (mkOpts (bs "mxkeys") (bs "keys") (bs "upstream_failures_total") (bs "Upstream failures by reason"))
  [bs "reason"].

Definition resolverCacheHits : decl := DCounter (mkOpts (bs "mxkeys") (bs "resolver") (bs "cache_hits_total") (bs "Resolver cache hits"))
  [bs "type"].

Definition resolverCacheMisses : decl := DCounter (mkOpts (bs "mxkeys") (bs "resolver") (bs "cache_misses_total") (bs "Resolver cache misses"))
  [bs "type"].

Definition negativeCacheHits : decl := DCounter (mkOpts (bs "mxkeys") (bs "resolver") (bs "negative_cache_hits_total") (bs "Negative cache hits by type"))
  [bs "type"].

Definition negativeCacheWrites : decl := DCounter (mkOpts (bs "mxkeys") (bs "resolver") (bs "negative_cache_writes_total") (bs "Negative cache writes by type"))
  [bs "type"].

Definition keysDecls : list decl :=
  [keyCacheHits; keyCacheMisses; keyFetchAttempts; keyFetchDuration; memoryCacheSize; negativeCacheSize; keys_refetchesTotal; upstreamFailures; resolverCacheHits; resolverCacheMisses; negativeCacheHits; negativeCacheWrites].

(** ** server/metrics.go *)

Definition httpRequestsTotal : decl := DCounter (mkOpts (bs "mxkeys") (bs "") (bs "http_requests_total") (bs "Total number of HTTP requests"))
  [bs "method"; bs "route"; bs "status"].

Definition httpRequestDurationSeconds : decl := DHistogram (mkOpts (bs "mxkeys") (bs "") (bs "http_request_duration_seconds") (bs "HTTP request duration in seconds"))
  [constant 1 1000; constant 1 200; constant 1 100; constant 1 40; constant 1 20; constant 1 10; constant 1 4; constant 1 2; ofInt 1; constant 5 2; ofInt 5; ofInt 10] [bs "method"; bs "route"].

Definition inFlightRequests : decl := DGauge (mkOpts (bs "mxkeys") (bs "") (bs "in_flight_requests") (bs "Current number of in-flight HTTP requests"))
  [].

Definition keyQueriesTotal : decl := DCounter (mkOpts (bs "mxkeys") (bs "") (bs "key_queries_total") (bs "Total number of key queries"))
  [bs "status"].

Definition keyQueryServersRequested : decl := DHistogram (mkOpts (bs "mxkeys") (bs "") (bs "key_query_servers_requested") (bs "Number of servers requested per query"))
  [ofInt 1; ofInt 2; ofInt 5; ofInt 10; ofInt 20; ofInt 50; ofInt 100] [].

Definition cacheHitsTotal : decl := DCounter (mkOpts (bs "mxkeys") (bs "") (bs "cache_hits_total") (bs "Total cache hits"))
  [bs "cache_type"].

Definition cacheMissesTotal : decl := DCounter (mkOpts (bs "mxkeys") (bs "") (bs "cache_misses_total") (bs "Total cache misses"))
  [bs "cache_type"].

Definition keyFetchesTotal : decl := DCounter (mkOpts (bs "mxkeys") (bs "") (bs "key_fetches_total") (bs "Total key fetch attempts"))
  [bs "status"; bs "source"].

Definition keyFetchDurationSeconds : decl := DHistogram (mkOpts (bs "mxkeys") (bs "") (bs "key_fetch_duration_seconds") (bs "Key fetch duration in seconds"))
  [constant 1 100; constant 1 20; constant 1 10; constant 1 4; constant 1 2; ofInt 1; constant 5 2; ofInt 5; ofInt 10; ofInt 30] [bs "status"; bs "source"].

Definition rateLimitedRequestsTotal : decl := DCounter (mkOpts (bs "mxkeys") (bs "") (bs "rate_limited_requests_total") (bs "Total number of rate limited requests"))
  [bs "limiter"].

Definition cachedKeys : decl := DGauge (mkOpts (bs "mxkeys") (bs "") (bs "cached_keys") (bs "Number of cached keys"))
  [bs "cache_type"].

Definition requestRejectionsTotal : decl := DCounter (mkOpts (bs "mxkeys") (bs "") (bs "request_rejections_total") (bs "Total rejected requests by reason"))
  [bs "reason"].

Definition upstreamFailuresTotal : decl := DCounter (mkOpts (bs "mxkeys") (bs "") (bs "upstream_failures_total") (bs "Total upstream failures by reason"))
  [bs "reason"].

Definition refetchesTotal : decl := DCounter (mkOpts (bs "mxkeys") (bs "") (bs "refetches_total") (bs "Total refetch operations by reason"))
  [bs "reason"].

Definition negativeCacheHitsTotal : decl := DCounter (mkOpts (bs "mxkeys") (bs "") (bs "negative_cache_hits_total") (bs "Total negative cache hits"))
  [].

Definition negativeCacheWritesTotal : decl := DCounter (mkOpts (bs "mxkeys") (bs "") (bs "negative_cache_writes_total") (bs "Total negative cache writes"))
  [].

Definition serverDecls : list decl :=
  [httpRequestsTotal; httpRequestDurationSeconds; inFlightRequests; keyQueriesTotal; keyQueryServersRequested; cacheHitsTotal; cacheMissesTotal; keyFetchesTotal; keyFetchDurationSeconds; rateLimitedRequestsTotal; cachedKeys; requestRejectionsTotal; upstreamFailuresTotal; refetchesTotal; negativeCacheHitsTotal; negativeCacheWritesTotal].

(** ** circuitbreaker.go, and the objects that [server.New] creates *)

Definition circuitStateGauge : decl :=
  DGauge (mkOpts (bs "mxkeys") (bs "circuit_breaker") (bs "servers") (bs "Number of tracked upstream servers by circuit state")) [bs "state"].
Definition circuitTripsTotal : decl :=
  DCounter (mkOpts (bs "mxkeys") (bs "circuit_breaker") (bs "trips_total") (bs "Total number of circuit breaker trips (closed -> open)")) [].
Definition circuitRecoveriesTotal : decl :=
  DCounter (mkOpts (bs "mxkeys") (bs "circuit_breaker") (bs "recoveries_total")
    (bs "Total number of circuit breaker recoveries (half-open -> closed)")) [].

Definition circuitDecls : list decl := [circuitStateGauge; circuitTripsTotal; circuitRecoveriesTotal].

Definition transparencyDecls : list decl :=
  [DCounter (mkOpts (bs "mxkeys") (bs "transparency") (bs "entries_total") (bs "Total transparency log entries")) [];
   DCounter (mkOpts (bs "mxkeys") (bs "transparency") (bs "anomalies_total") (bs "Total anomalies detected")) []].

Definition serversObserved : decl :=
  DGauge (mkOpts (bs "mxkeys") (bs "analytics") (bs "servers_observed") (bs "Total unique servers observed")) [].
Definition keyRotationsTotal : decl :=
  DCounter (mkOpts (bs "mxkeys") (bs "analytics") (bs "key_rotations_total") (bs "Total key rotations observed")) [].
Definition anomaliesDetected : decl :=
  DCounter (mkOpts (bs "mxkeys") (bs "analytics") (bs "anomalies_detected_total") (bs "Total anomalies detected")) [].
Definition avgKeyValidityDays : decl :=
  DGauge (mkOpts (bs "mxkeys") (bs "analytics") (bs "avg_key_validity_days") (bs "Average key validity in days")) [].

Definition analyticsDecls : list decl := [serversObserved; keyRotationsTotal; anomaliesDetected; avgKeyValidityDays].

Definition clusterDecls : list decl :=
  [DGauge (mkOpts (bs "mxkeys") (bs "cluster") (bs "nodes_total") (bs "Total nodes in cluster")) [];
   DCounter (mkOpts (bs "mxkeys") (bs "cluster") (bs "sync_total") (bs "Total sync operations")) [];
   DCounter (mkOpts (bs "mxkeys") (bs "cluster") (bs "messages_total") (bs "Total cluster messages")) []].

(** ** The registry after initialisation *)

Definition programDecls : list decl :=
  runtimeDecls ++ circuitDecls ++ keysDecls ++ serverDecls ++ transparencyDecls ++ analyticsDecls ++ clusterDecls.

Definition DefaultRegistry : Registry := fold_left (fun r d => (register d r).2) programDecls NewRegistry.

(** No name is taken twice, so each variable's object is the one its name stands
    for, and all of them are exposed. *)
Example names_unique :
  bool_decide (NoDup (map declName programDecls)) = true
  /\ (size (counters DefaultRegistry) + size (gauges DefaultRegistry) + size (histos DefaultRegistry))%nat = length programDecls.
Proof. vm_compute. split; reflexivity. Qed.

(** The object of a variable. *)
Definition counter (d : decl) : nat := default 0%nat (counters DefaultRegistry !! declName d).
Definition gauge (d : decl) : nat := default 0%nat (gauges DefaultRegistry !! declName d).
Definition histogram (d : decl) : nat := default 0%nat (histos DefaultRegistry !! declName d).

(** [d.WithLabelValues(lvs...).Inc()], [.Observe(v)]. *)
Definition incLabelled (d : decl) (lvs : list bytes) (r : Registry) : Registry :=
  let '(cv, r) := Counter_WithLabelValues (counter d) lvs r in CounterValue_Inc cv r.
Definition observeLabelled (d : decl) (lvs : list bytes) (v : float64) : Registry -> Registry :=
  HistogramValue_Observe (Histogram_WithLabelValues (histogram d) lvs) v.

Section Recording.
Variable outOfRange : float64 -> Z.

(** ** server/metrics.go *)

Definition RecordHTTPRequest (method route status : bytes) (durationSeconds : float64) (r : Registry) : Registry :=
  let r := incLabelled httpRequestsTotal [method; route; status] r in
  observeLabelled httpRequestDurationSeconds [method; route] durationSeconds r.

Definition IncInFlightRequests : Registry -> Registry := Gauge_Inc outOfRange (gauge inFlightRequests).
Definition DecInFlightRequests : Registry -> Registry := Gauge_Dec outOfRange (gauge inFlightRequests).

Definition RecordKeyQuery (status : bytes) (serversRequested : Z) (r : Registry) : Registry :=
  let r := incLabelled keyQueriesTotal [status] r in
  Histogram_Observe (histogram keyQueryServersRequested) (ofInt serversRequested) r.

Definition RecordCacheHit (cacheType : bytes) : Registry -> Registry := incLabelled cacheHitsTotal [cacheType].
Definition RecordCacheMiss (cacheType : bytes) : Registry -> Registry := incLabelled cacheMissesTotal [cacheType].

Definition RecordKeyFetch (status source : bytes) (durationSeconds : float64) (r : Registry) : Registry :=
  let r := incLabelled keyFetchesTotal [status; source] r in
  observeLabelled keyFetchDurationSeconds [status; source] durationSeconds r.

Definition RecordRateLimited (limiter : bytes) : Registry -> Registry := incLabelled rateLimitedRequestsTotal [limiter].

Definition SetCachedKeys (cacheType : bytes) (count : Z) (r : Registry) : Registry :=
  let '(gv, r) := Gauge_WithLabelValues (gauge cachedKeys) [cacheType] r in GaugeValue_Set outOfRange gv (ofInt count) r.

Definition RecordRequestRejection (reason : bytes) : Registry -> Registry := incLabelled requestRejectionsTotal [reason].
Definition RecordUpstreamFailure (reason : bytes) : Registry -> Registry := incLabelled upstreamFailuresTotal [reason].
Definition RecordRefetch (reason : bytes) : Registry -> Registry := incLabelled refetchesTotal [reason].
Definition RecordNegativeCacheHit : Registry -> Registry := Counter_Inc (counter negativeCacheHitsTotal).
Definition RecordNegativeCacheWrite : Registry -> Registry := Counter_Inc (counter negativeCacheWritesTotal).

(** ** keys/metrics.go *)

Definition recordMemoryCacheHit : Registry -> Registry := incLabelled keyCacheHits [bs "memory"].
Definition recordMemoryCacheMiss : Registry -> Registry := incLabelled keyCacheMisses [bs "memory"].
Definition recordDBCacheHit : Registry -> Registry := incLabelled keyCacheHits [bs "database"].
Definition recordDBCacheMiss : Registry -> Registry := incLabelled keyCacheMisses [bs "database"].

Definition recordFetchSuccess (source : bytes) (durationSeconds : float64) (r : Registry) : Registry :=
  let r := incLabelled keyFetchAttempts [bs "success"; source] r in
  observeLabelled keyFetchDuration [bs "success"; source] durationSeconds r.

Definition recordFetchFailure (source : bytes) (durationSeconds : float64) (r : Registry) : Registry :=
  let r := incLabelled keyFetchAttempts [bs "failure"; source] r in
  observeLabelled keyFetchDuration [bs "failure"; source] durationSeconds r.

Definition updateMemoryCacheSize (size : Z) : Registry -> Registry := Gauge_Set outOfRange (gauge memoryCacheSize) (ofInt size).
Definition recordRefetch (reason : bytes) : Registry -> Registry := incLabelled keys_refetchesTotal [reason].
Definition recordUpstreamFailure (reason : bytes) : Registry -> Registry := incLabelled upstreamFailures [reason].
Definition recordWellKnownCacheHit : Registry -> Registry := incLabelled resolverCacheHits [bs "wellknown"].
Definition recordWellKnownCacheMiss : Registry -> Registry := incLabelled resolverCacheMisses [bs "wellknown"].
Definition recordSRVCacheHit : Registry -> Registry := incLabelled resolverCacheHits [bs "srv"].
Definition recordSRVCacheMiss : Registry -> Registry := incLabelled resolverCacheMisses [bs "srv"].
Definition recordNegativeCacheHit (cacheType : bytes) : Registry -> Registry := incLabelled negativeCacheHits [cacheType].
Definition recordNegativeCacheWrite (cacheType : bytes) : Registry -> Registry := incLabelled negativeCacheWrites [cacheType].

Definition updateNegativeCacheSize (cacheType : bytes) (size : Z) (r : Registry) : Registry :=
  let '(gv, r) := Gauge_WithLabelValues (gauge negativeCacheSize) [cacheType] r in GaugeValue_Set outOfRange gv (ofInt size) r.

(** ** metrics_runtime.go: what the runtime reports *)

Record runtimeStats : Type := mkRuntimeStats {
  rt_NumGoroutine : Z;
  rt_HeapAlloc : Z;
  rt_HeapSys : Z;
  rt_HeapInuse : Z;
  rt_Threads : Z;
}.

Definition collectRuntimeMetrics (m : runtimeStats) (r : Registry) : Registry :=
  let r := Gauge_Set outOfRange (gauge goroutines) (ofInt (rt_NumGoroutine m)) r in
  let r := Gauge_Set outOfRange (gauge heapAlloc) (ofInt (rt_HeapAlloc m)) r in
  let r := Gauge_Set outOfRange (gauge heapSys) (ofInt (rt_HeapSys m)) r in
  let r := Gauge_Set outOfRange (gauge heapInuse) (ofInt (rt_HeapInuse m)) r in
  Gauge_Set outOfRange (gauge threads) (ofInt (rt_Threads m)) r.

(** handler.go: the registry after collecting, and the body. *)
Definition ServeMetrics (isPrint : Z -> bool) (rangeOf : forall A : Type, gmap bytes A -> list (bytes * A))
    (m : runtimeStats) (r : Registry) (w : writer) : Registry * writer :=
  let r := collectRuntimeMetrics m r in (r, (WriteTo isPrint rangeOf r w).2).

(** ** NormalizeRoute *)

Definition NormalizeRoute (path : bytes) : bytes :=
  if decide (path = bs "/_matrix/key/v2/query") then bs "/_matrix/key/v2/query"
  else if HasPrefix path (bs "/_matrix/key/v2/server") then bs "/_matrix/key/v2/server"
  else if decide (path = bs "/_matrix/federation/v1/version") then bs "/_matrix/federation/v1/version"
  else if decide (path = bs "/_mxkeys/health") then bs "/_mxkeys/health"
  else if decide (path = bs "/_mxkeys/live") then bs "/_mxkeys/live"
  else if decide (path = bs "/_mxkeys/ready") then bs "/_mxkeys/ready"
  else if decide (path = bs "/_mxkeys/metrics") then bs "/_mxkeys/metrics"
  else if HasPrefix path (bs "/_mxkeys/") then bs "/_mxkeys/operational"
  else bs "/other".

(** middleware_logging.go: a request that [next] answers with a status. *)
Definition loggingMiddleware {A : Type} (method path : bytes) (durationSeconds : float64) (statusCode : A -> Z)
    (next : Registry -> A * Registry) (r : Registry) : A * Registry :=
  let r := IncInFlightRequests r in
  let '(answer, r) := next r in
  let route := NormalizeRoute path in
  let r := RecordHTTPRequest method route (FormatInt (statusCode answer)) durationSeconds r in
  (answer, DecInFlightRequests r).

End Recording.
