(* ===== verification/MetricsProofs.v ===== *)
(** * What the metrics say

    A histogram's lines count the observations up to each bound; every byte that
    is written is counted; the routes are few, the methods are not. *)
From S2P Require Import Prelude Decimal GoStrings Float64 Metrics AppMetrics.
From Stdlib Require Import ZArith Lia.
From stdpp Require Import base gmap list strings fin_maps sorting.
#[local] Open Scope Z_scope.

(** ** Histograms *)

(** How many of the observations are at most [bound]. *)
Definition atMost (bound : float64) (vs : list float64) : Z := len (List.filter (fun v => fle v bound) vs).

Definition ascending (bounds : list float64) : Prop := StronglySorted (fun x y => fle x y = true) bounds.

(** The value in one bucket: above [prev], at most [bound]. *)
Definition inBucket (prev : option float64) (bound v : float64) : bool :=
  fle v bound && match prev with Some p => negb (fle v p) | None => true end.

Fixpoint bucketCounts (prev : option float64) (bounds : list float64) (vs : list float64) : list Z :=
  match bounds with
  | [] => []
  | b :: bounds => wrap64 (len (List.filter (inBucket prev b) vs)) :: bucketCounts (Some b) bounds vs
  end.

Definition observeAll (bounds : list float64) (vs : list float64) : histogramData :=
  fold_left (fun d v => observeData bounds v d) vs (emptyData bounds).

Lemma wrap64_add a b : wrap64 (wrap64 a + b) = wrap64 (a + b).
Proof. unfold wrap64. by rewrite Z.add_mod_idemp_l by lia. Qed.

Lemma filter_snoc {A} (f : A -> bool) l x : List.filter f (l ++ [x]) = List.filter f l ++ (if f x then [x] else []).
Proof. induction l as [|y l IH]; cbn; [done|]. destruct (f y); [by rewrite IH|done]. Qed.

Lemma filter_len_snoc {A} (f : A -> bool) l x : len (List.filter f (l ++ [x])) = len (List.filter f l) + (if f x then 1 else 0).
Proof. rewrite filter_snoc, len_app. by destruct (f x). Qed.

(** A value that was counted is counted in no later bucket. *)
Lemma counts_below prev bounds vs v :
  Forall (fun b => fle prev b = true) bounds -> fle v prev = true -> ascending bounds ->
  bucketCounts (Some prev) bounds (vs ++ [v]) = bucketCounts (Some prev) bounds vs.
Proof.
  intros Hb Hv Ha. revert prev Hb Hv. induction Ha as [|b bounds Ha IH Hf]; intros prev Hb Hv; cbn [bucketCounts]; [done|].
  inversion Hb; subst. f_equal.
  - rewrite filter_len_snoc. unfold inBucket at 2. rewrite Hv, andb_false_r. f_equal. lia.
  - apply IH; [done|]. by apply fle_trans with prev.
Qed.

Lemma bump_counts prev bounds vs v :
  ascending bounds -> (match prev with Some p => fle v p = false /\ Forall (fun b => fle p b = true) bounds | None => True end) ->
  bump bounds (bucketCounts prev bounds vs) v = bucketCounts prev bounds (vs ++ [v]).
Proof.
  intros Ha. revert prev. induction Ha as [|b bounds Ha IH Hf]; intros prev Hp; cbn [bucketCounts bump]; [done|].
  assert (match prev with Some p => negb (fle v p) | None => true end = true) as Hnot by (destruct prev; [by destruct Hp as [-> _]|done]).
  destruct (fle v b) eqn:Hv.
  - f_equal; [|symmetry; by apply counts_below]. rewrite filter_len_snoc. unfold inBucket at 3. rewrite Hv, Hnot. cbn [andb].
    by rewrite wrap64_add.
  - f_equal; [|by apply IH]. rewrite filter_len_snoc. unfold inBucket at 3. rewrite Hv. cbn [andb]. f_equal. lia.
Qed.

Lemma bucketCounts_nil prev bounds : bucketCounts prev bounds [] = replicate (length bounds) 0.
Proof. revert prev. induction bounds as [|b bounds IH]; intros prev; cbn; [done|]. by rewrite IH. Qed.

Lemma observeAll_spec bounds vs :
  ascending bounds -> hd_buckets (observeAll bounds vs) = bucketCounts None bounds vs /\ hd_count (observeAll bounds vs) = wrap64 (len vs).
Proof.
  intros Ha. unfold observeAll. induction vs as [|v vs IH] using rev_ind.
  { split; [|done]. cbn. by rewrite bucketCounts_nil. }
  rewrite fold_left_app. cbn [fold_left]. destruct IH as [IH1 IH2]. cbn [observeData hd_buckets hd_count]. rewrite IH1, IH2. split.
  - by apply bump_counts.
  - rewrite wrap64_add, len_app. done.
Qed.

(** The running sums of the buckets are the counts up to the bounds. *)
Lemma cumulative_counts prev bounds vs acc :
  ascending bounds -> (match prev with Some p => Forall (fun b => fle p b = true) bounds /\ acc = wrap64 (atMost p vs) | None => acc = 0 end) ->
  cumulative acc (bucketCounts prev bounds vs) = map (fun b => wrap64 (atMost b vs)) bounds.
Proof.
  intros Ha. revert prev acc. induction Ha as [|b bounds Ha IH Hf]; intros prev acc Hp; cbn [bucketCounts cumulative map]; [done|].
  assert (wrap64 (acc + wrap64 (len (List.filter (inBucket prev b) vs))) = wrap64 (atMost b vs)) as Hacc.
  { assert (wrap64 (acc + wrap64 (len (List.filter (inBucket prev b) vs))) = wrap64 (acc + len (List.filter (inBucket prev b) vs))) as ->.
    { rewrite !(Z.add_comm acc). by rewrite wrap64_add. }
    destruct prev as [p|].
    - destruct Hp as [Hp ->]. inversion Hp; subst. rewrite wrap64_add. f_equal. unfold atMost.
      clear -H1. induction vs as [|v vs IHv]; [done|]. cbn [List.filter]. unfold inBucket at 1.
      destruct (fle v p) eqn:E1; destruct (fle v b) eqn:E2; cbn [negb andb]; rewrite ?len_cons; try lia.
      rewrite (fle_trans _ _ _ E1 H1) in E2. done.
    - rewrite Hp, Z.add_0_l. unfold atMost. do 2 f_equal. apply filter_ext. intros v. unfold inBucket. by rewrite andb_true_r. }
  rewrite Hacc. f_equal. apply IH. by split.
Qed.

(** The observations made under a key. *)
Definition underKey (key : bytes) (obs : list (bytes * float64)) : list float64 :=
  omap (fun kv => if decide (kv.1 = key) then Some kv.2 else None) obs.

Definition observations (obs : list (bytes * float64)) (h : Histogram) : Histogram := fold_left (fun h kv => observe kv.1 kv.2 h) obs h.

Lemma observations_buckets obs h : h_buckets (observations obs h) = h_buckets h.
Proof. unfold observations. revert h. induction obs as [|kv obs IH]; intros h; [done|]. cbn. by rewrite IH. Qed.

Lemma observations_lookup obs h key :
  m_values (h_metric h) = ∅ ->
  m_values (h_metric (observations obs h)) !! key
  = (if decide (underKey key obs = []) then None else Some (observeAll (h_buckets h) (underKey key obs))).
Proof.
  intros Hh. induction obs as [|[k v] obs IH] using rev_ind; [cbn; by rewrite Hh|].
  unfold observations in *. rewrite fold_left_app. cbn [fold_left fst snd]. unfold observe at 1. cbn [h_metric on_values m_values].
  pose proof (observations_buckets obs h) as Hb. unfold observations in Hb. rewrite Hb.
  unfold underKey in *. rewrite omap_app. cbn [omap list_omap fst snd].
  destruct (decide (k = key)) as [->|Hne].
  - rewrite lookup_insert_eq, IH. set (vs := omap _ obs).
    destruct (decide (vs ++ [v] = [])) as [Hx|_]; [by apply app_nil in Hx as [_ ?]|]. f_equal.
    unfold observeAll at 2. rewrite fold_left_app. cbn [fold_left]. f_equal. destruct (decide (vs = [])) as [Hn|]; [by rewrite Hn|done].
  - rewrite lookup_insert_ne by done. by rewrite app_nil_r.
Qed.

(** C40. A histogram with ascending bounds says how its observations are
    distributed: for the label values that were observed, and for no others, the
    cumulative count at each bound is the number of observations up to it, and the
    total is the number of all observations, NaN included (in 64 bits). *)
Theorem histogram_counts obs h key :
  m_values (h_metric h) = ∅ -> ascending (h_buckets h) ->
  match m_values (h_metric (observations obs h)) !! key with
  | None => underKey key obs = []
  | Some d => underKey key obs <> []
      /\ cumulative 0 (hd_buckets d) = map (fun b => wrap64 (atMost b (underKey key obs))) (h_buckets h)
      /\ hd_count d = wrap64 (len (underKey key obs))
  end.
Proof.
  intros Hh Ha. rewrite observations_lookup by done. case_decide as Hn; [done|]. split; [done|].
  destruct (observeAll_spec (h_buckets h) (underKey key obs) Ha) as [-> ->]. split; [|done]. by apply (cumulative_counts None).
Qed.

Lemma default_ascending : ascending DefaultBuckets.
Proof. unfold ascending, DefaultBuckets. repeat constructor. Qed.

Lemma histogram_counts_witness :
  let h := mkHistogram (mkMetric (bs "d") [] [] ∅) DefaultBuckets in
  match m_values (h_metric (observations [([], ofInt 1); (bs "x", ofInt 2); ([], ofInt 70)] h)) !! [] with
  | Some d => hd_count d = 2 /\ last (cumulative 0 (hd_buckets d)) = Some 1
  | None => False
  end.
Proof.
  intros h. pose proof (histogram_counts [([], ofInt 1); (bs "x", ofInt 2); ([], ofInt 70)] h [] eq_refl default_ascending) as H.
  destruct (m_values (h_metric (observations [([], ofInt 1); (bs "x", ofInt 2); ([], ofInt 70)] h)) !! []) as [d|]; [|discriminate H].
  destruct H as (_ & Hc & ->). split; [reflexivity|]. rewrite Hc. reflexivity.
Defined.

(** ** Writing *)

(** The number returned is the number of bytes that the writer took, also when a
    write fails. *)
Lemma putAll_counts lines total w :
  let '(n, ok, w') := putAll lines total w in
  exists taken, w_out w' = w_out w ++ taken /\ n = total + len taken /\ (ok = true -> taken = concat lines).
Proof.
  revert total w. induction lines as [|line lines IH]; intros total w; cbn [putAll].
  { exists []. rewrite app_nil_r. split; [done|]. split; [rewrite len_nil; lia|done]. }
  unfold put. destruct (w_script w) as [|[k|] rest]; cbn.
  - specialize (IH (total + len line) (mkWriter (w_out w ++ line) [])). destruct (putAll lines _ _) as [[n ok] w'].
    destruct IH as (taken & Ho & Hn & Hok). exists (line ++ taken). cbn in Ho. rewrite Ho, <- app_assoc, len_app. split; [done|].
    split; [lia|]. intros E. by rewrite Hok.
  - exists (take k line). by split.
  - specialize (IH (total + len line) (mkWriter (w_out w ++ line) rest)). destruct (putAll lines _ _) as [[n ok] w'].
    destruct IH as (taken & Ho & Hn & Hok). exists (line ++ taken). cbn in Ho. rewrite Ho, <- app_assoc, len_app. split; [done|].
    split; [lia|]. intros E. by rewrite Hok.
Qed.

Theorem WriteTo_counts isPrint rangeOf r w :
  let '(n, ok, w') := WriteTo isPrint rangeOf r w in
  exists taken, w_out w' = w_out w ++ taken /\ n = len taken /\ (ok = true -> taken = concat (exposition isPrint rangeOf r)).
Proof.
  pose proof (putAll_counts (exposition isPrint rangeOf r) 0 w) as H. unfold WriteTo.
  destruct (putAll (exposition isPrint rangeOf r) 0 w) as [[n ok] w']. destruct H as (taken & H1 & H2 & H3). exists taken.
  split; [done|]. split; [lia|done].
Qed.

(** ** Labels *)

(** The routes that label the metrics. *)
Definition routes : list bytes :=
  map bs ["/_matrix/key/v2/query"; "/_matrix/key/v2/server"; "/_matrix/federation/v1/version"; "/_mxkeys/health"; "/_mxkeys/live";
          "/_mxkeys/ready"; "/_mxkeys/metrics"; "/_mxkeys/operational"; "/other"]%string.

Theorem route_bounded path : NormalizeRoute path ∈ routes.
Proof. unfold NormalizeRoute. repeat (case_decide || case_match); refine (bool_decide_eq_true_1 _ _); reflexivity. Qed.

Lemma labelKey_method m m' route status :
  NUL ∉ m -> NUL ∉ m' -> labelKey [m; route; status] = labelKey [m'; route; status] -> m = m'.
Proof.
  intros Hm Hm'.
  assert (Hkey : forall x, labelKey [x; route; status] = x ++ NUL :: route ++ NUL :: status) by reflexivity. rewrite !Hkey. intros H.
  apply (f_equal (fun s => Split s NUL)) in H. rewrite (Split_app m), (Split_app m') in H by done.
  exact (f_equal (fun l => default [] (head l)) H).
Qed.

(** The keys of the request counter. *)
Definition requestKeys (r : Registry) : gset bytes :=
  match counterHeap r !! counter httpRequestsTotal with Some c => dom (m_values c) | None => ∅ end.

Lemma RecordHTTPRequest_keys method route status d r :
  is_Some (counterHeap r !! counter httpRequestsTotal) ->
  is_Some (counterHeap (RecordHTTPRequest method route status d r) !! counter httpRequestsTotal)
  /\ requestKeys (RecordHTTPRequest method route status d r) = {[labelKey [method; route; status]]} ∪ requestKeys r.
Proof.
  intros [c Hc]. unfold RecordHTTPRequest, incLabelled, Counter_WithLabelValues, observeLabelled, HistogramValue_Observe, requestKeys.
  generalize (labelKey [method; route; status]). intros k.
  unfold CounterValue_Inc, CounterValue_Add, on_counter, on_histogram. cbn [counterHeap fst snd].
  generalize dependent (counter httpRequestsTotal). intros h Hc. unfold Counter in *. rewrite !list_lookup_alter_eq, Hc.
  cbn [fmap option_fmap option_map]. split; [by eexists|]. unfold update_value, on_values. cbn [m_values]. rewrite !dom_insert_L.
  by rewrite (assoc_L (∪)), union_idemp_L.
Qed.

(** The method of a request is a label as the client sent it: requests with
    different methods, which need no valid route, token or rate, leave as many
    values in memory. *)
Theorem methods_accumulate ms route status d :
  NoDup ms -> Forall (fun m => NUL ∉ m) ms ->
  size (requestKeys (fold_left (fun r m => RecordHTTPRequest m route status d r) ms DefaultRegistry)) = length ms.
Proof.
  intros Hnd Hnul.
  assert (Hgen : forall r, is_Some (counterHeap r !! counter httpRequestsTotal) ->
    requestKeys (fold_left (fun r m => RecordHTTPRequest m route status d r) ms r)
    = list_to_set (map (fun m => labelKey [m; route; status]) ms) ∪ requestKeys r).
  { clear. induction ms as [|m ms IH]; intros r Hr; cbn [fold_left map list_to_set]; [by rewrite union_empty_l_L|].
    destruct (RecordHTTPRequest_keys m route status d r Hr) as [H1 H2]. rewrite IH by done. rewrite H2, !(assoc_L (∪)).
    by rewrite (comm_L (∪) (list_to_set _) {[_]}). }
  rewrite Hgen by (refine (bool_decide_eq_true_1 _ _); vm_compute; reflexivity).
  assert (requestKeys DefaultRegistry = ∅) as -> by (vm_compute; reflexivity). rewrite union_empty_r_L, size_list_to_set.
  { by rewrite length_map. }
  clear Hgen. induction Hnd as [|m ms Hm _ IH]; [constructor|]. inversion Hnul; subst. cbn [map]. constructor; [|by apply IH].
  intros Hin. apply list_elem_of_In, in_map_iff in Hin as (m' & Hk & Hin). apply list_elem_of_In in Hin.
  assert (NUL ∉ m') by (by apply (proj1 (Forall_forall _ _) H2)). apply labelKey_method in Hk; [|done..]. by subst.
Qed.

(** ** Gauges *)

(** A gauge holds billionths in 64 bits: ten gibibytes of heap do not fit, and a
    conversion that yields the least integer, as on amd64, shows a negative size. *)
Example large_gauge_overflows :
  fixedPoint (fun _ => - 2 ^ 63) (ofInt (10 * 2 ^ 30)) = - 2 ^ 63
  /\ FormatG (fdiv (ofInt (- 2 ^ 63)) (ofInt 1000000000)) = bs "-9.223372036854776e+09"
  /\ FormatG (fdiv (ofInt (fixedPoint (fun _ => - 2 ^ 63) (ofInt (8 * 2 ^ 30)))) (ofInt 1000000000)) = bs "8.589934592e+09".
Proof. vm_compute. split_and!; reflexivity. Qed.
