(* ===== verification/Analytics.v ===== *)
(** * Key analytics (keys/analytics.go, analytics_runtime.go, server/handlers_analytics.go)

    Statistics of the keys that were observed, per server and in total, and the
    anomalies found. The map of the statistics holds pointers: a server's record is
    shared with whoever was handed one, so a pointer is the server's name and is
    followed in the state at the time it is used. Locks make each operation one
    step. [now] is the one reading of the clock of an operation; durations are
    64-bit. The database of [ComputeAggregates] is an argument, its answer. *)
From S2P Require Import Prelude Decimal GoTime GoStrings Canonical NetIP TrustPolicy NotaryQuery Float64.
From S2P Require Import Metrics AppMetrics Transparency.
From Stdlib Require Import ZArith Lia.
From stdpp Require Import base gmap list strings fin_maps sorting.
#[local] Open Scope Z_scope.

Record ServerAnalytics : Type := mkServerAnalytics {
  sa_ServerName : bytes;
  sa_FirstSeen : Z;
  sa_LastSeen : Z;
  sa_KeyCount : Z;
  sa_RotationCount : Z;
  sa_AvgKeyValidity : Z;
  sa_CurrentKeyID : bytes;
  sa_CurrentKeyAge : Z;
  sa_AnomalyCount : Z;
  sa_FetchSuccessRate : float64;
  sa_LastFetchStatus : bytes;
}.

Record AnalyticsStats : Type := mkStats {
  as_TotalServersObserved : Z;
  as_TotalKeysObserved : Z;
  as_TotalKeyRotations : Z;
  as_TotalAnomalies : Z;
  as_AvgKeyValidityHours : float64;
  as_ShortestKeyValidity : Z;
  as_LongestKeyValidity : Z;
  as_MostActiveServer : bytes;
  as_MostActiveRotations : Z;
  as_LastUpdated : Z;
  as_ServerStats : gmap bytes ServerAnalytics;
}.

Inductive AnomalyType : Type :=
  | AnomalyRapidRotation | AnomalyShortValidity | AnomalyLongValidity | AnomalyMultipleKeys | AnomalyBackdatedKey
  | AnomalySignatureMissing | AnomalyUnexpectedChange.

Record Anomaly : Type := mkAnomaly {
  an_Type : AnomalyType;
  an_ServerName : bytes;
  an_KeyID : bytes;
  an_Severity : bytes;
  an_Details : bytes;
  an_DetectedAt : Z;
}.

(** The registry holds its four metrics. *)
Record Analytics : Type := mkAnalytics {
  a_hasDb : bool;
  a_enabled : bool;
  a_stats : AnalyticsStats;
  a_registry : Registry;
}.

Definition emptyStats : AnalyticsStats := mkStats 0 0 0 0 (ofInt 0) 0 0 [] 0 zeroTime ∅.

Definition NewAnalytics (hasDb enabled : bool) (r : Registry) : Analytics :=
  mkAnalytics hasDb enabled emptyStats (fold_left (fun r d => (register d r).2) analyticsDecls r).

(** ** Observing a response *)

Definition newServer (serverName : bytes) (now : Z) : ServerAnalytics :=
  mkServerAnalytics serverName now zeroTime 0 0 0 [] 0 0 (ofInt 0) [].

(** The statistics, the server's record, the metrics and the anomalies so far. *)
Record observing : Type := mkObserving {
  ob_stats : AnalyticsStats;
  ob_server : ServerAnalytics;
  ob_registry : Registry;
  ob_anomalies : list Anomaly;
}.

Definition inc (z : Z) : Z := wrap_int (z + 1).

Definition count_anomaly (s : ServerAnalytics) : ServerAnalytics :=
  mkServerAnalytics (sa_ServerName s) (sa_FirstSeen s) (sa_LastSeen s) (sa_KeyCount s) (sa_RotationCount s) (sa_AvgKeyValidity s)
    (sa_CurrentKeyID s) (sa_CurrentKeyAge s) (inc (sa_AnomalyCount s)) (sa_FetchSuccessRate s) (sa_LastFetchStatus s).
Definition total_anomaly (t : AnalyticsStats) : AnalyticsStats :=
  mkStats (as_TotalServersObserved t) (as_TotalKeysObserved t) (as_TotalKeyRotations t) (inc (as_TotalAnomalies t))
    (as_AvgKeyValidityHours t) (as_ShortestKeyValidity t) (as_LongestKeyValidity t) (as_MostActiveServer t) (as_MostActiveRotations t)
    (as_LastUpdated t) (as_ServerStats t).

(** Appending an anomaly; [metric] is whether the counter is incremented too. *)
Definition raise (metric : bool) (an : Anomaly) (o : observing) : observing :=
  mkObserving (total_anomaly (ob_stats o)) (count_anomaly (ob_server o))
    (if metric then Counter_Inc (counter anomaliesDetected) (ob_registry o) else ob_registry o) (ob_anomalies o ++ [an]).

Definition count_rotation (s : ServerAnalytics) : ServerAnalytics :=
  mkServerAnalytics (sa_ServerName s) (sa_FirstSeen s) (sa_LastSeen s) (sa_KeyCount s) (inc (sa_RotationCount s)) (sa_AvgKeyValidity s)
    (sa_CurrentKeyID s) (sa_CurrentKeyAge s) (sa_AnomalyCount s) (sa_FetchSuccessRate s) (sa_LastFetchStatus s).
Definition total_rotation (t : AnalyticsStats) : AnalyticsStats :=
  mkStats (as_TotalServersObserved t) (as_TotalKeysObserved t) (inc (as_TotalKeyRotations t)) (as_TotalAnomalies t)
    (as_AvgKeyValidityHours t) (as_ShortestKeyValidity t) (as_LongestKeyValidity t) (as_MostActiveServer t) (as_MostActiveRotations t)
    (as_LastUpdated t) (as_ServerStats t).

Definition recordRotation (o : observing) : observing :=
  mkObserving (total_rotation (ob_stats o)) (count_rotation (ob_server o)) (Counter_Inc (counter keyRotationsTotal) (ob_registry o))
    (ob_anomalies o).

Definition count_key (keyID : bytes) (o : observing) : observing :=
  let s := ob_server o in
  let t := ob_stats o in
  mkObserving
    (mkStats (as_TotalServersObserved t) (inc (as_TotalKeysObserved t)) (as_TotalKeyRotations t) (as_TotalAnomalies t)
       (as_AvgKeyValidityHours t) (as_ShortestKeyValidity t) (as_LongestKeyValidity t) (as_MostActiveServer t)
       (as_MostActiveRotations t) (as_LastUpdated t) (as_ServerStats t))
    (mkServerAnalytics (sa_ServerName s) (sa_FirstSeen s) (sa_LastSeen s) (inc (sa_KeyCount s)) (sa_RotationCount s)
       (sa_AvgKeyValidity s) keyID (sa_CurrentKeyAge s) (sa_AnomalyCount s) (sa_FetchSuccessRate s) (sa_LastFetchStatus s))
    (ob_registry o) (ob_anomalies o).

(** The body of the loop over the key IDs. *)
Definition observeKey (serverName : bytes) (now elapsed : Z) (o : observing) (keyID : bytes) : observing :=
  let current := sa_CurrentKeyID (ob_server o) in
  let o :=
    if decide (current <> [] /\ current <> keyID) then
      let o := recordRotation o in
      if decide (elapsed < 24 * Hour) then
        raise true (mkAnomaly AnomalyRapidRotation serverName keyID (bs "medium")
          (bs "Key rotated after only " ++ DurationString elapsed) now) o
      else o
    else o in
  count_key keyID o.

Definition set_validity (validity elapsed : Z) (o : observing) : observing :=
  let s := ob_server o in
  let t := ob_stats o in
  let shortest := if decide (as_ShortestKeyValidity t = 0 \/ validity < as_ShortestKeyValidity t) then validity
                  else as_ShortestKeyValidity t in
  let longest := if decide (as_LongestKeyValidity t < validity) then validity else as_LongestKeyValidity t in
  mkObserving
    (mkStats (as_TotalServersObserved t) (as_TotalKeysObserved t) (as_TotalKeyRotations t) (as_TotalAnomalies t)
       (as_AvgKeyValidityHours t) shortest longest (as_MostActiveServer t) (as_MostActiveRotations t) (as_LastUpdated t) (as_ServerStats t))
    (mkServerAnalytics (sa_ServerName s) (sa_FirstSeen s) (sa_LastSeen s) (sa_KeyCount s) (sa_RotationCount s)
       validity (sa_CurrentKeyID s) elapsed (sa_AnomalyCount s) (sa_FetchSuccessRate s) (sa_LastFetchStatus s))
    (ob_registry o) (ob_anomalies o).

(** [LastSeen], [LastFetchStatus] of the record that is found or made. *)
Definition set_seen (now : Z) (status : bytes) (s : ServerAnalytics) : ServerAnalytics :=
  mkServerAnalytics (sa_ServerName s) (sa_FirstSeen s) now (sa_KeyCount s) (sa_RotationCount s) (sa_AvgKeyValidity s)
    (sa_CurrentKeyID s) (sa_CurrentKeyAge s) (sa_AnomalyCount s) (sa_FetchSuccessRate s) status.

Definition sortedKeyIDs (resp : ServerKeysResponse) : list bytes := map fst (sortKeys (map_to_list (VerifyKeys resp))).

(** The checks after the keys. *)
Definition checkResponse (serverName : bytes) (now : Z) (resp : ServerKeysResponse) (validity : Z) (o : observing) : observing :=
  let o := if decide (validity < Hour) then
             raise true (mkAnomaly AnomalyShortValidity serverName [] (bs "high")
               (bs "Key validity only " ++ DurationString validity) now) o else o in
  let o := if decide (365 * 24 * Hour < validity) then
             raise false (mkAnomaly AnomalyLongValidity serverName [] (bs "low")
               (bs "Key validity " ++ DurationString validity ++ bs " (over 1 year)") now) o else o in
  let o := if decide (1 < Z.of_nat (size (VerifyKeys resp))) then
             raise false (mkAnomaly AnomalyMultipleKeys serverName [] (bs "low")
               (bs "Server has " ++ FormatInt (Z.of_nat (size (VerifyKeys resp))) ++ bs " active keys") now) o else o in
  if decide (size (default ∅ (Signatures resp !! serverName)) = 0%nat) then
    raise true (mkAnomaly AnomalySignatureMissing serverName [] (bs "critical") (bs "Response missing self-signature") now) o
  else o.

Section Record.
Variable outOfRange : float64 -> Z.

(** The statistics with the server counted and the gauge set, for a new server. *)
Definition firstSighting (a : Analytics) : AnalyticsStats * Registry :=
  let t := a_stats a in
  let total := inc (as_TotalServersObserved t) in
  (mkStats total (as_TotalKeysObserved t) (as_TotalKeyRotations t) (as_TotalAnomalies t) (as_AvgKeyValidityHours t)
     (as_ShortestKeyValidity t) (as_LongestKeyValidity t) (as_MostActiveServer t) (as_MostActiveRotations t) (as_LastUpdated t)
     (as_ServerStats t),
   Gauge_Set outOfRange (gauge serversObserved) (ofInt total) (a_registry a)).

(** The end of the operation: the most active server, and the record in its place. *)
Definition finishObservation (serverName : bytes) (now : Z) (o : observing) : AnalyticsStats :=
  let t := ob_stats o in
  let s := ob_server o in
  let more := bool_decide (as_MostActiveRotations t < sa_RotationCount s) in
  mkStats (as_TotalServersObserved t) (as_TotalKeysObserved t) (as_TotalKeyRotations t) (as_TotalAnomalies t)
    (as_AvgKeyValidityHours t) (as_ShortestKeyValidity t) (as_LongestKeyValidity t)
    (if more then serverName else as_MostActiveServer t) (if more then sa_RotationCount s else as_MostActiveRotations t)
    now (<[serverName := s]> (as_ServerStats t)).

Definition RecordKeyObservation (now : Z) (serverName : bytes) (resp : ServerKeysResponse) (a : Analytics) : list Anomaly * Analytics :=
  if negb (a_enabled a) then ([], a)
  else
    let '(s, (t, r)) := match as_ServerStats (a_stats a) !! serverName with
                        | Some s => (s, (a_stats a, a_registry a))
                        | None => (newServer serverName now, firstSighting a)
                        end in
    let previousSeen := sa_LastSeen s in
    let elapsed := if decide (previousSeen <> zeroTime) then timeSub now previousSeen else 0 in
    let o := mkObserving t (set_seen now (bs "success") s) r [] in
    let o := fold_left (observeKey serverName now elapsed) (sortedKeyIDs resp) o in
    let validity := timeSub (ofMilli (ValidUntilTS resp)) now in
    let o := set_validity validity elapsed o in
    let o := checkResponse serverName now resp validity o in
    (ob_anomalies o, mkAnalytics (a_hasDb a) (a_enabled a) (finishObservation serverName now o) (ob_registry o)).

(** Two readings of the clock for a server that is new. *)
Definition RecordFetchFailure (first now : Z) (serverName : bytes) (a : Analytics) : Analytics :=
  if negb (a_enabled a) then a
  else
    let t := a_stats a in
    let s := default (newServer serverName first) (as_ServerStats t !! serverName) in
    mkAnalytics (a_hasDb a) (a_enabled a)
      (mkStats (as_TotalServersObserved t) (as_TotalKeysObserved t) (as_TotalKeyRotations t) (as_TotalAnomalies t)
         (as_AvgKeyValidityHours t) (as_ShortestKeyValidity t) (as_LongestKeyValidity t) (as_MostActiveServer t)
         (as_MostActiveRotations t) (as_LastUpdated t) (<[serverName := set_seen now (bs "failed") s]> (as_ServerStats t)))
      (a_registry a).

(** The row of the aggregate query; [None] is an error of it. The result is
    whether there was no error. *)
Definition ComputeAggregates (row : option (Z * Z * float64)) (a : Analytics) : bool * Analytics :=
  if negb (a_enabled a) || negb (a_hasDb a) then (true, a)
  else
    match row with
    | None => (false, a)
    | Some (totalServers, totalKeys, avgValidityMs) =>
        let t := a_stats a in
        let hours := fdiv avgValidityMs (ofInt (1000 * 60 * 60)) in
        let r := Gauge_Set outOfRange (gauge serversObserved) (ofInt totalServers) (a_registry a) in
        let r := Gauge_Set outOfRange (gauge avgKeyValidityDays) (fdiv hours (ofInt 24)) r in
        (true, mkAnalytics (a_hasDb a) (a_enabled a)
           (mkStats totalServers totalKeys (as_TotalKeyRotations t) (as_TotalAnomalies t) hours (as_ShortestKeyValidity t)
              (as_LongestKeyValidity t) (as_MostActiveServer t) (as_MostActiveRotations t) (as_LastUpdated t) (as_ServerStats t)) r)
    end.

End Record.

(** ** Reading *)

(** A pointer is followed when it is used. *)
Definition deref (a : Analytics) (p : bytes) : option ServerAnalytics := as_ServerStats (a_stats a) !! p.

(** The copy of the totals, and the pointers of the copied map. *)
Record statsCopy : Type := mkStatsCopy {
  sc_totals : AnalyticsStats;
  sc_servers : list bytes;
}.

Definition GetStats (a : Analytics) : statsCopy :=
  mkStatsCopy (a_stats a) (map fst (map_to_list (as_ServerStats (a_stats a)))).

Definition GetServerStats (serverName : bytes) (a : Analytics) : option bytes :=
  if decide (is_Some (deref a serverName)) then Some serverName else None.

(** More rotations first; [order] is the order of the map. *)
Definition moreRotations (a : Analytics) (p q : bytes) : Prop :=
  default 0 (sa_RotationCount <$> deref a q) <= default 0 (sa_RotationCount <$> deref a p).
#[export] Instance moreRotations_dec a p q : Decision (moreRotations a p q).
Proof. unfold moreRotations. apply _. Defined.

Definition GetTopRotators (limit : Z) (order : list bytes) (a : Analytics) : list bytes :=
  if decide (limit <= 0) then [] else take (Z.to_nat (Z.min limit (len order))) (merge_sort (moreRotations a) order).

Definition GetAnomalousServers (order : list bytes) (a : Analytics) : list bytes :=
  filter (fun p => 0 < default 0 (sa_AnomalyCount <$> deref a p)) order.

(** ** handlers_analytics.go *)

(** The parameter [limit] of a request, or its default. *)
Definition limitParam (limitStr : bytes) (dflt max : Z) : Z :=
  if decide (limitStr <> []) then
    match Atoi limitStr with
    | Some limit => if decide (limit <= 0 \/ max < limit) then dflt else limit
    | None => dflt
    end
  else dflt.

Definition laterSeen (a : Analytics) (p q : bytes) : Prop :=
  default 0 (sa_LastSeen <$> deref a q) <= default 0 (sa_LastSeen <$> deref a p).
#[export] Instance laterSeen_dec a p q : Decision (laterSeen a p q).
Proof. unfold laterSeen. apply _. Defined.

(** An answer, or that analytics are not enabled. *)
Definition ifEnabled {A : Type} (a : option Analytics) (page : Analytics -> A) : option A := page <$> a.

(** The servers, their number, and how many there are in all. *)
Definition handleAnalyticsServers (limitStr : bytes) (order : list bytes) (a : option Analytics) : option (list bytes * Z * Z) :=
  ifEnabled a (fun a =>
    let limit := limitParam limitStr 50 500 in
    let ordered := merge_sort (laterSeen a) order in
    let servers := if decide (limit < len ordered) then take (Z.to_nat limit) ordered else ordered in
    (servers, len servers, len order)).

Definition handleAnalyticsTopRotators (limitStr : bytes) (order : list bytes) (a : option Analytics) : option (list bytes * Z) :=
  ifEnabled a (fun a => let rotators := GetTopRotators (limitParam limitStr 10 100) order a in (rotators, len rotators)).

Definition handleAnalyticsAnomalies (order : list bytes) (a : option Analytics) : option (list bytes * Z) :=
  ifEnabled a (fun a => let anomalous := GetAnomalousServers order a in (anomalous, len anomalous)).

Record summary : Type := mkSummary {
  sm_enabled : bool;
  sm_totalServersObserved : Z;
  sm_totalKeysObserved : Z;
  sm_totalKeyRotations : Z;
  sm_totalAnomalies : Z;
  sm_avgKeyValidityHours : float64;
  sm_shortestValidity : bytes;
  sm_longestValidity : bytes;
  sm_mostActiveServer : bytes;
  sm_mostActiveRotations : Z;
  sm_trackedServers : Z;
  sm_lastUpdated : Z;
}.

Definition Summary (a : Analytics) : summary :=
  let t := a_stats a in
  mkSummary (a_enabled a) (as_TotalServersObserved t) (as_TotalKeysObserved t) (as_TotalKeyRotations t) (as_TotalAnomalies t)
    (as_AvgKeyValidityHours t) (DurationString (as_ShortestKeyValidity t)) (DurationString (as_LongestKeyValidity t))
    (as_MostActiveServer t) (as_MostActiveRotations t) (Z.of_nat (size (as_ServerStats t))) (as_LastUpdated t).

Definition handleAnalyticsSummary (a : option Analytics) : option summary := ifEnabled a Summary.

(** ** What the analytics count

    The totals are the sums of the servers' counts, and the most active server is
    the one with the most rotations; what a rotation is taken for. *)

(** ** Sums over the servers *)

Definition sumOver (f : ServerAnalytics -> Z) (m : gmap bytes ServerAnalytics) : Z :=
  foldr (fun kv acc => f kv.2 + acc) 0 (map_to_list m).

Lemma sum_perm f (l l' : list (bytes * ServerAnalytics)) :
  l ≡ₚ l' -> foldr (fun kv acc => f kv.2 + acc) 0 l = foldr (fun kv acc => f kv.2 + acc) 0 l'.
Proof. induction 1; cbn; lia. Qed.

Lemma sum_insert_new f m k s : m !! k = None -> sumOver f (<[k := s]> m) = f s + sumOver f m.
Proof. intros Hk. unfold sumOver. rewrite (sum_perm f _ _ (map_to_list_insert m k s Hk)). done. Qed.

Lemma sum_insert f m k s : sumOver f (<[k := s]> m) = sumOver f m - default 0 (f <$> m !! k) + f s.
Proof.
  destruct (m !! k) as [s0|] eqn:Hk; cbn.
  - rewrite <- (insert_delete_eq m k s), sum_insert_new by apply lookup_delete_eq.
    rewrite <- (insert_delete_id m k s0 Hk) at 2. rewrite sum_insert_new by apply lookup_delete_eq. lia.
  - rewrite sum_insert_new by done. lia.
Qed.

Lemma sum_nonneg f m : (forall k s, m !! k = Some s -> 0 <= f s) -> 0 <= sumOver f m.
Proof.
  intros Hf. unfold sumOver. assert (Hl : Forall (fun kv => 0 <= f kv.2) (map_to_list m)).
  { apply Forall_forall. intros [k s] Hin. apply elem_of_map_to_list in Hin. eauto. }
  induction Hl; cbn; lia.
Qed.

Lemma sum_member f m k s : (forall k s, m !! k = Some s -> 0 <= f s) -> m !! k = Some s -> 0 <= f s <= sumOver f m.
Proof.
  intros Hf Hk. split; [eauto|]. rewrite <- (insert_delete_id m k s Hk), sum_insert_new by apply lookup_delete_eq.
  assert (0 <= sumOver f (delete k m)); [|lia]. apply sum_nonneg. intros k' s' [_ Hin]%lookup_delete_Some. eauto.
Qed.

(** ** One observation *)

Abbreviation RC o := (sa_RotationCount (ob_server o)).
Abbreviation AC o := (sa_AnomalyCount (ob_server o)).
Abbreviation TR o := (as_TotalKeyRotations (ob_stats o)).
Abbreviation TA o := (as_TotalAnomalies (ob_stats o)).

(** [o'] counts [dr] rotations and [da] anomalies more than [o]. *)
Record counted (o o' : observing) (dr da : Z) : Prop := {
  ct_rc : RC o' = RC o + dr;
  ct_tr : TR o' = TR o + dr;
  ct_ac : AC o' = AC o + da;
  ct_ta : TA o' = TA o + da;
  ct_list : len (ob_anomalies o') = len (ob_anomalies o) + da;
  ct_map : as_ServerStats (ob_stats o') = as_ServerStats (ob_stats o);
  ct_most : as_MostActiveServer (ob_stats o') = as_MostActiveServer (ob_stats o)
            /\ as_MostActiveRotations (ob_stats o') = as_MostActiveRotations (ob_stats o);
  ct_pos : 0 <= dr /\ 0 <= da;
}.

(** There is room for [nr] rotations and [na] anomalies. *)
Definition room (o : observing) (nr na : Z) : Prop :=
  0 <= RC o <= TR o /\ 0 <= AC o <= TA o /\ TR o + nr < 2 ^ 63 /\ TA o + na < 2 ^ 63.

Lemma counted_refl o : counted o o 0 0.
Proof. split; try lia; done. Qed.

Lemma counted_trans o1 o2 o3 dr da dr' da' :
  counted o1 o2 dr da -> counted o2 o3 dr' da' -> counted o1 o3 (dr + dr') (da + da').
Proof. intros [? ? ? ? ? ? [? ?] ?] [? ? ? ? ? ? [? ?] ?]. split; try lia; try congruence. split; congruence. Qed.

Lemma room_after o o' dr da nr na : counted o o' dr da -> room o nr na -> room o' (nr - dr) (na - da).
Proof. intros [? ? ? ? ? ? ? ?] (? & ? & ? & ?). unfold room. lia. Qed.

Lemma inc_small z : 0 <= z -> z + 1 < 2 ^ 63 -> inc z = z + 1.
Proof. intros H1 H2. apply wrap_int_small. unfold int_ok. lia. Qed.

Lemma raise_counted metric an o nr na : 1 <= na -> room o nr na -> counted o (raise metric an o) 0 1.
Proof.
  intros Hn (? & ? & ? & ?). split; cbn; rewrite ?inc_small by lia; try lia; try done. rewrite len_app. done.
Qed.

Lemma recordRotation_counted o nr na : 1 <= nr -> room o nr na -> counted o (recordRotation o) 1 0.
Proof. intros Hn (? & ? & ? & ?). split; cbn; rewrite ?inc_small by lia; try lia; done. Qed.

Lemma count_key_counted keyID o : counted o (count_key keyID o) 0 0.
Proof. split; cbn; try lia; done. Qed.

Lemma set_validity_counted v e o : counted o (set_validity v e o) 0 0.
Proof. split; cbn; try lia; done. Qed.

Lemma observeKey_counted serverName now elapsed o keyID nr na :
  1 <= nr -> 1 <= na -> room o nr na ->
  exists dr da, counted o (observeKey serverName now elapsed o keyID) dr da /\ dr <= 1 /\ da <= 1.
Proof.
  intros Hn Ha Hr. unfold observeKey. case_decide; [|exists 0, 0; split; [apply count_key_counted|lia]].
  pose proof (recordRotation_counted o nr na Hn Hr) as H1. pose proof (room_after _ _ _ _ _ _ H1 Hr) as R1. case_decide.
  - match goal with |- context [raise ?m ?an ?x] => pose proof (raise_counted m an x (nr - 1) (na - 0) ltac:(lia) R1) as H2 end.
    pose proof (counted_trans _ _ _ _ _ _ _ H1 H2) as H3.
    pose proof (counted_trans _ _ _ _ _ _ _ H3 (count_key_counted keyID _)) as H4. eexists _, _. split; [exact H4|lia].
  - pose proof (counted_trans _ _ _ _ _ _ _ H1 (count_key_counted keyID _)) as H4. eexists _, _. split; [exact H4|lia].
Qed.

Lemma observeKeys_counted serverName now elapsed ks o nr na :
  len ks <= nr -> len ks <= na -> room o nr na ->
  exists dr da, counted o (fold_left (observeKey serverName now elapsed) ks o) dr da /\ dr <= len ks /\ da <= len ks.
Proof.
  revert o nr na. induction ks as [|k ks IH]; intros o nr na Hnr Hna Hr; cbn [fold_left].
  { exists 0, 0. split; [apply counted_refl|]. split; exact (Z.le_refl 0). }
  rewrite len_cons in Hnr, Hna |- *. pose proof (len_nonneg ks) as Hks.
  destruct (observeKey_counted serverName now elapsed o k nr na ltac:(lia) ltac:(lia) Hr) as (dr & da & H1 & Hdr & Hda).
  pose proof (room_after _ _ _ _ _ _ H1 Hr) as R1.
  destruct (IH (observeKey serverName now elapsed o k) (nr - dr) (na - da) ltac:(lia) ltac:(lia) R1) as (dr' & da' & H2 & Hdr' & Hda').
  exists (dr + dr'), (da + da'). split; [by eapply counted_trans|lia].
Qed.

(** An alternative that raises or does nothing. *)
Lemma maybe_counted (P : Prop) `{!Decision P} metric an o nr na :
  1 <= na -> room o nr na -> exists da, counted o (if decide P then raise metric an o else o) 0 da /\ da <= 1.
Proof.
  intros Ha Hr. case_decide; [exists 1; split; [by eapply raise_counted|lia]|exists 0; split; [apply counted_refl|lia]].
Qed.

Lemma checkResponse_counted serverName now resp validity o nr na :
  4 <= na -> room o nr na -> exists da, counted o (checkResponse serverName now resp validity o) 0 da /\ da <= 4.
Proof.
  intros Ha Hr. unfold checkResponse.
  match goal with |- context [if decide ?P then raise ?m ?an o else o] => destruct (maybe_counted P m an o nr na ltac:(lia) Hr) as (a1 & H1 & L1);
    set (o1 := if decide P then raise m an o else o) in * end.
  pose proof (room_after _ _ _ _ _ _ H1 Hr) as R1.
  match goal with |- context [if decide ?P then raise ?m ?an o1 else o1] =>
    destruct (maybe_counted P m an o1 (nr - 0) (na - a1) ltac:(lia) R1) as (a2 & H2 & L2); set (o2 := if decide P then raise m an o1 else o1) in * end.
  pose proof (room_after _ _ _ _ _ _ H2 R1) as R2.
  match goal with |- context [if decide ?P then raise ?m ?an o2 else o2] =>
    destruct (maybe_counted P m an o2 (nr - 0 - 0) (na - a1 - a2) ltac:(lia) R2) as (a3 & H3 & L3); set (o3 := if decide P then raise m an o2 else o2) in * end.
  pose proof (room_after _ _ _ _ _ _ H3 R2) as R3.
  match goal with |- context [if decide ?P then raise ?m ?an o3 else o3] =>
    destruct (maybe_counted P m an o3 (nr - 0 - 0 - 0) (na - a1 - a2 - a3) ltac:(lia) R3) as (a4 & H4 & L4) end.
  exists (a1 + a2 + a3 + a4). split; [|lia].
  exact (counted_trans _ _ _ _ _ _ _ (counted_trans _ _ _ _ _ _ _ (counted_trans _ _ _ _ _ _ _ H1 H2) H3) H4).
Qed.

(** ** The statistics *)

(** The totals are the sums of the servers' counts; the most active server is one
    with the most rotations. *)
Record tallied (t : AnalyticsStats) : Prop := {
  tl_pos : forall k s, as_ServerStats t !! k = Some s -> 0 <= sa_RotationCount s /\ 0 <= sa_AnomalyCount s;
  tl_rotations : as_TotalKeyRotations t = sumOver sa_RotationCount (as_ServerStats t);
  tl_anomalies : as_TotalAnomalies t = sumOver sa_AnomalyCount (as_ServerStats t);
  tl_max : forall k s, as_ServerStats t !! k = Some s -> sa_RotationCount s <= as_MostActiveRotations t;
  tl_attained : 0 < as_MostActiveRotations t ->
                sa_RotationCount <$> as_ServerStats t !! as_MostActiveServer t = Some (as_MostActiveRotations t);
  tl_most : 0 <= as_MostActiveRotations t;
}.

Lemma tallied_empty : tallied emptyStats.
Proof. split; cbn; try done; lia. Qed.

(** The record of [serverName] with the counts of a new one when there is none. *)
Definition countsOf (f : ServerAnalytics -> Z) (m : gmap bytes ServerAnalytics) (serverName : bytes) : Z :=
  default 0 (f <$> m !! serverName).

Lemma tallied_update t t' serverName s dr da :
  tallied t -> 0 <= dr -> 0 <= da ->
  sa_RotationCount s = countsOf sa_RotationCount (as_ServerStats t) serverName + dr ->
  sa_AnomalyCount s = countsOf sa_AnomalyCount (as_ServerStats t) serverName + da ->
  as_ServerStats t' = <[serverName := s]> (as_ServerStats t) ->
  as_TotalKeyRotations t' = as_TotalKeyRotations t + dr ->
  as_TotalAnomalies t' = as_TotalAnomalies t + da ->
  (as_MostActiveRotations t < sa_RotationCount s /\ as_MostActiveServer t' = serverName /\ as_MostActiveRotations t' = sa_RotationCount s
   \/ sa_RotationCount s <= as_MostActiveRotations t /\ as_MostActiveServer t' = as_MostActiveServer t
       /\ as_MostActiveRotations t' = as_MostActiveRotations t) ->
  tallied t'.
Proof.
  intros [Hp HR HA Hm Ht H0] Hdr Hda Hs1 Hs2 Em ER EA Hmost.
  assert (Hc : 0 <= countsOf sa_RotationCount (as_ServerStats t) serverName /\ 0 <= countsOf sa_AnomalyCount (as_ServerStats t) serverName).
  { unfold countsOf. destruct (as_ServerStats t !! serverName) as [s0|] eqn:E; cbn; [by eapply Hp|lia]. }
  split.
  - rewrite Em. intros k s'. destruct (decide (k = serverName)) as [->|Hk];
      [rewrite lookup_insert_eq; intros [= <-]; lia|rewrite lookup_insert_ne by done; apply Hp].
  - rewrite Em, sum_insert, ER, HR. unfold countsOf in *. lia.
  - rewrite Em, sum_insert, EA, HA. unfold countsOf in *. lia.
  - rewrite Em. intros k s'. destruct (decide (k = serverName)) as [->|Hk];
      [rewrite lookup_insert_eq; intros [= <-]; lia|rewrite lookup_insert_ne by done; intros Hs'; specialize (Hm _ _ Hs'); lia].
  - rewrite Em. intros Hgt. destruct Hmost as [(Hlt & -> & ->)|(Hle & -> & E3)]; [by rewrite lookup_insert_eq|].
    rewrite E3 in *. specialize (Ht Hgt). destruct (decide (as_MostActiveServer t = serverName)) as [E|E].
    + rewrite E in *. rewrite lookup_insert_eq. cbn. f_equal. unfold countsOf in *. rewrite Ht in *. cbn in *. lia.
    + by rewrite lookup_insert_ne.
  - lia.
Qed.

Definition cost (resp : ServerKeysResponse) : Z := len (sortedKeyIDs resp) + 4.

Section Tally.
Variable outOfRange : float64 -> Z.

Lemma observation_tallied now serverName resp a :
  tallied (a_stats a) -> as_TotalKeyRotations (a_stats a) + cost resp < 2 ^ 63 -> as_TotalAnomalies (a_stats a) + cost resp < 2 ^ 63 ->
  let '(found, a') := RecordKeyObservation outOfRange now serverName resp a in
  tallied (a_stats a')
  /\ as_TotalAnomalies (a_stats a') = as_TotalAnomalies (a_stats a) + len found
  /\ len found <= cost resp
  /\ as_TotalKeyRotations (a_stats a) <= as_TotalKeyRotations (a_stats a') <= as_TotalKeyRotations (a_stats a) + cost resp.
Proof.
  intros HT HR HA. unfold RecordKeyObservation. pose proof (len_nonneg (sortedKeyIDs resp)) as Hn. unfold cost in *.
  destruct (a_enabled a); cbn [negb]; [|rewrite len_nil; split_and!; try done; lia].
  match goal with |- context [match ?m !! ?k with Some s => @?f s | None => ?g end] =>
    set (start := match m !! k with Some s => f s | None => g end) end.
  assert (Hst : as_ServerStats start.2.1 = as_ServerStats (a_stats a)
    /\ as_TotalKeyRotations start.2.1 = as_TotalKeyRotations (a_stats a) /\ as_TotalAnomalies start.2.1 = as_TotalAnomalies (a_stats a)
    /\ as_MostActiveServer start.2.1 = as_MostActiveServer (a_stats a)
    /\ as_MostActiveRotations start.2.1 = as_MostActiveRotations (a_stats a)
    /\ sa_RotationCount start.1 = countsOf sa_RotationCount (as_ServerStats (a_stats a)) serverName
    /\ sa_AnomalyCount start.1 = countsOf sa_AnomalyCount (as_ServerStats (a_stats a)) serverName).
  { subst start. unfold countsOf. destruct (as_ServerStats (a_stats a) !! serverName) as [s0|]; cbn; auto 10. }
  clearbody start. destruct start as [s [t r]]. cbn [fst snd] in Hst. destruct Hst as (E1 & E2 & E3 & E4 & E5 & E6 & E7).
  set (elapsed := if decide _ then _ else _). set (o0 := mkObserving _ _ _ _). set (validity := timeSub _ _).
  assert (R0 : room o0 (len (sortedKeyIDs resp)) (len (sortedKeyIDs resp) + 4)).
  { subst o0. unfold room. cbn. rewrite E2, E3, E6, E7, (tl_rotations _ HT), (tl_anomalies _ HT). unfold countsOf.
    pose proof (tl_rotations _ HT). pose proof (tl_anomalies _ HT).
    destruct (as_ServerStats (a_stats a) !! serverName) as [s0|] eqn:E; cbn.
    - pose proof (sum_member sa_RotationCount _ _ _ (fun k s H => proj1 (tl_pos _ HT k s H)) E).
      pose proof (sum_member sa_AnomalyCount _ _ _ (fun k s H => proj2 (tl_pos _ HT k s H)) E). lia.
    - pose proof (sum_nonneg sa_RotationCount _ (fun k s H => proj1 (tl_pos _ HT k s H))).
      pose proof (sum_nonneg sa_AnomalyCount _ (fun k s H => proj2 (tl_pos _ HT k s H))). lia. }
  destruct (observeKeys_counted serverName now elapsed (sortedKeyIDs resp) o0 (len (sortedKeyIDs resp)) (len (sortedKeyIDs resp) + 4)
    ltac:(lia) ltac:(lia) R0) as (dr & da & C1 & Ldr & Lda).
  pose proof (counted_trans _ _ _ _ _ _ _ C1 (set_validity_counted validity elapsed _)) as C2.
  pose proof (room_after _ _ _ _ _ _ C2 R0) as R2.
  destruct (checkResponse_counted serverName now resp validity _ (len (sortedKeyIDs resp) - (dr + 0)) (len (sortedKeyIDs resp) + 4 - (da + 0))
    ltac:(lia) R2) as (da' & C3 & Lda').
  pose proof (counted_trans _ _ _ _ _ _ _ C2 C3) as C4.
  set (o4 := checkResponse _ _ _ _ _) in *. clearbody o4. clear C1 C2 C3 R2. destruct C4 as [X1 X2 X3 X4 X5 X6 [X7 X8] [X9 X10]].
  subst o0. cbn in X1, X2, X3, X4, X5, X6, X7, X8. rewrite len_nil in X5. cbn. split_and!; try lia.
  apply (tallied_update (a_stats a) _ serverName (ob_server o4) (dr + 0 + 0) (da + 0 + da') HT); cbn; try lia; try congruence.
  rewrite X7, X8, E4, E5. destruct (bool_decide_reflect (as_MostActiveRotations (a_stats a) < RC o4)); [left|right]; split_and!; lia || done.
Qed.

Inductive analytics_op : Type :=
  | OpObserve (now : Z) (serverName : bytes) (resp : ServerKeysResponse)
  | OpFailure (first now : Z) (serverName : bytes)
  | OpAggregates (row : option (Z * Z * float64)).

Definition analytics_step (op : analytics_op) (a : Analytics) : list Anomaly * Analytics :=
  match op with
  | OpObserve now serverName resp => RecordKeyObservation outOfRange now serverName resp a
  | OpFailure first now serverName => ([], RecordFetchFailure first now serverName a)
  | OpAggregates row => ([], (ComputeAggregates outOfRange row a).2)
  end.

(** A sequence of operations: all the anomalies, and the state. *)
Fixpoint analytics_run (ops : list analytics_op) (a : Analytics) : list Anomaly * Analytics :=
  match ops with
  | [] => ([], a)
  | op :: ops =>
      let '(found, a) := analytics_step op a in
      let '(later, a) := analytics_run ops a in
      (found ++ later, a)
  end.

Definition op_cost (op : analytics_op) : Z := match op with OpObserve _ _ resp => cost resp | _ => 0 end.
Definition ops_cost (ops : list analytics_op) : Z := foldr (fun op acc => op_cost op + acc) 0 ops.

Lemma op_cost_nonneg op : 0 <= op_cost op.
Proof. destruct op; cbn; try lia. unfold cost. pose proof (len_nonneg (sortedKeyIDs resp)). lia. Qed.

Lemma ops_cost_nonneg ops : 0 <= ops_cost ops.
Proof. induction ops as [|op ops IH]; cbn; [lia|]. fold (ops_cost ops). pose proof (op_cost_nonneg op). lia. Qed.

Lemma failure_tallied first now serverName a :
  tallied (a_stats a) -> tallied (a_stats (RecordFetchFailure first now serverName a)).
Proof.
  intros HT. unfold RecordFetchFailure. destruct (a_enabled a); [|done]. cbn [negb a_stats].
  apply (tallied_update (a_stats a) _ serverName
           (set_seen now (bs "failed") (default (newServer serverName first) (as_ServerStats (a_stats a) !! serverName))) 0 0 HT);
    cbn [as_TotalKeyRotations as_TotalAnomalies as_ServerStats as_MostActiveServer as_MostActiveRotations]; try lia; try done.
  1,2: unfold countsOf; destruct (as_ServerStats (a_stats a) !! serverName); cbn; rewrite ?Z.add_0_r; done.
  right. split; [|done]. pose proof (tl_most _ HT).
  destruct (as_ServerStats (a_stats a) !! serverName) as [s|] eqn:E; cbn; [exact (tl_max _ HT _ _ E)|lia].
Qed.

Lemma aggregates_tallied row a : tallied (a_stats a) -> tallied (a_stats (ComputeAggregates outOfRange row a).2).
Proof.
  intros HT. unfold ComputeAggregates. destruct (_ || _); [done|]. destruct row as [[[? ?] ?]|]; [|done]. destruct HT. by split.
Qed.

Lemma step_tallied op a :
  tallied (a_stats a) -> as_TotalKeyRotations (a_stats a) + op_cost op < 2 ^ 63 -> as_TotalAnomalies (a_stats a) + op_cost op < 2 ^ 63 ->
  let '(found, a') := analytics_step op a in
  tallied (a_stats a')
  /\ as_TotalAnomalies (a_stats a') = as_TotalAnomalies (a_stats a) + len found
  /\ len found <= op_cost op
  /\ as_TotalKeyRotations (a_stats a) <= as_TotalKeyRotations (a_stats a') <= as_TotalKeyRotations (a_stats a) + op_cost op.
Proof.
  destruct op as [now serverName resp|first now serverName|row]; intros HT HR HA; cbn [analytics_step op_cost] in *.
  - by apply observation_tallied.
  - rewrite len_nil. split; [by apply failure_tallied|]. unfold RecordFetchFailure. destruct (a_enabled a); cbn; lia.
  - rewrite len_nil. split; [by apply aggregates_tallied|]. unfold ComputeAggregates. destruct (_ || _); [cbn; lia|].
    destruct row as [[[? ?] ?]|]; cbn; lia.
Qed.

Lemma run_tallied ops a :
  tallied (a_stats a) -> as_TotalKeyRotations (a_stats a) + ops_cost ops < 2 ^ 63 -> as_TotalAnomalies (a_stats a) + ops_cost ops < 2 ^ 63 ->
  let '(found, a') := analytics_run ops a in
  tallied (a_stats a') /\ as_TotalAnomalies (a_stats a') = as_TotalAnomalies (a_stats a) + len found.
Proof.
  revert a. induction ops as [|op ops IH]; intros a HT HR HA; cbn [analytics_run].
  { rewrite len_nil. split; [done|lia]. }
  cbn [ops_cost foldr] in HR, HA. fold (ops_cost ops) in HR, HA. pose proof (ops_cost_nonneg ops).
  pose proof (step_tallied op a HT ltac:(lia) ltac:(lia)) as Hs. destruct (analytics_step op a) as [found a1].
  destruct Hs as (HT1 & E1 & L1 & L2). specialize (IH a1 HT1 ltac:(lia) ltac:(lia)).
  destruct (analytics_run ops a1) as [later a2]. destruct IH as [HT2 E2]. rewrite len_app. split; [done|lia].
Qed.

(** C38. After any sequence of observations, failures and aggregations that cannot
    overflow a 64-bit count, the totals of rotations and of anomalies are the sums of
    the servers' own counts, the anomalies counted are the anomalies that were
    returned, and the most active server is one with the most rotations. *)
Theorem analytics_totals hasDb enabled r ops found a :
  ops_cost ops < 2 ^ 63 -> analytics_run ops (NewAnalytics hasDb enabled r) = (found, a) ->
  let t := a_stats a in
  as_TotalKeyRotations t = sumOver sa_RotationCount (as_ServerStats t)
  /\ as_TotalAnomalies t = sumOver sa_AnomalyCount (as_ServerStats t)
  /\ as_TotalAnomalies t = len found
  /\ (forall serverName s, as_ServerStats t !! serverName = Some s -> 0 <= sa_RotationCount s <= as_MostActiveRotations t)
  /\ (0 < as_MostActiveRotations t ->
      sa_RotationCount <$> as_ServerStats t !! as_MostActiveServer t = Some (as_MostActiveRotations t)).
Proof.
  intros Hc E. pose proof (run_tallied ops (NewAnalytics hasDb enabled r) tallied_empty) as Hr. rewrite E in Hr.
  destruct Hr as [HT HA]; [cbn; lia|cbn; lia|]. cbn zeta. cbn in HA. split_and!; try apply HT; try lia.
  intros k s Hk. split; [by apply (tl_pos _ HT k)|by apply (tl_max _ HT k)].
Qed.

End Tally.

(** ** Witnesses *)

Definition demo_response (validUntil : Z) (keyIDs : list bytes) : ServerKeysResponse :=
  mkResponse (bs "a.org") (list_to_map (map (fun k => (k, mkVerifyKey [])) keyIDs)) ∅ validUntil
    {[bs "a.org" := {[bs "ed25519:1" := []]}]} [].

Definition demo_stable : ServerKeysResponse := demo_response 1500000000000 [bs "ed25519:1"; bs "ed25519:2"].
Definition demo_day (n : Z) : Z := ofMilli 1499000000000 + n * 24 * Hour.

Definition demo_ops : list analytics_op :=
  [OpObserve (demo_day 0) (bs "a.org") demo_stable; OpFailure (demo_day 1) (demo_day 1) (bs "b.org");
   OpObserve (demo_day 2) (bs "a.org") demo_stable].
Definition demo_run : list Anomaly * Analytics := analytics_run (fun _ => 0) demo_ops (NewAnalytics false true DefaultRegistry).

Lemma analytics_totals_witness :
  ops_cost demo_ops < 2 ^ 63
  /\ as_TotalAnomalies (a_stats demo_run.2) = len demo_run.1
  /\ sa_RotationCount <$> as_ServerStats (a_stats demo_run.2) !! as_MostActiveServer (a_stats demo_run.2)
     = Some (as_MostActiveRotations (a_stats demo_run.2)).
Proof.
  assert (Hc : ops_cost demo_ops < 2 ^ 63) by (vm_compute; reflexivity). split; [exact Hc|].
  pose proof (analytics_totals (fun _ => 0) false true DefaultRegistry demo_ops demo_run.1 demo_run.2 Hc (surjective_pairing demo_run))
    as (_ & _ & H1 & _ & H2).
  split; [exact H1|]. apply H2. vm_compute. reflexivity.
Defined.

(** ** What is counted as a rotation *)

(** Two observations, two days apart, of a server that has the same two keys both
    times: three rotations are counted, the first within one observation, where the
    key "rotated after only 0s". *)
Example stable_keys_rotate :
  (fun t => (as_TotalKeyRotations t, as_MostActiveServer t)) (a_stats demo_run.2) = (3, bs "a.org")
  /\ map (fun an => (an_Type an, an_KeyID an)) demo_run.1
     = [(AnomalyRapidRotation, bs "ed25519:2"); (AnomalyMultipleKeys, []); (AnomalyMultipleKeys, [])]
  /\ head (map an_Details demo_run.1) = Some (bs "Key rotated after only 0s").
Proof. vm_compute. auto. Qed.

(** A server seen first in a failure is never counted, however often it is observed
    later. *)
Example failed_server_not_counted :
  let a := (analytics_run (fun _ => 0) [OpFailure (demo_day 0) (demo_day 0) (bs "a.org"); OpObserve (demo_day 1) (bs "a.org") demo_stable]
              (NewAnalytics false true DefaultRegistry)).2 in
  (as_TotalServersObserved (a_stats a), size (as_ServerStats (a_stats a)), as_TotalAnomalies (a_stats a)) = (0, 1%nat, 1).
Proof. vm_compute. reflexivity. Qed.
