(* ===== verification/GoTimeParse.v ===== *)
(** * Parsing times ([time.Parse])

    The elements of the layouts that the program parses with, and the parser over
    them. A layout is the list of its elements as [nextStdChunk] finds them. The
    result is the fields as they were written; [instantOf] is the moment they
    denote, without a zone in UTC. *)
From S2P Require Import Prelude Decimal GoTime GoStrings.
From Stdlib Require Import ZArith Lia.
From stdpp Require Import base list strings.
#[local] Open Scope Z_scope.

(** ** Layouts *)

(** What [nextStdChunk] finds in the layouts, in order. *)
Inductive chunk : Type :=
  | Lit (b : byte)
  | LongYear | ShortMonth | ZeroMonth | ZeroDay | Hour24 | ZeroMinute | ZeroSecond | Frac3 | ZoneColon.

Definition isStd (c : chunk) : bool := match c with Lit _ => false | _ => true end.

(** [getnum]: one digit or two, or exactly two. *)
Definition getnum (s : bytes) (fixed : bool) : option (Z * bytes) :=
  match s with
  | a :: rest =>
      if is_digit a then
        match rest with
        | b :: rest' => if is_digit b then Some (digits_value [a; b], rest')
                        else if fixed then None else Some (digits_value [a], rest)
        | [] => if fixed then None else Some (digits_value [a], rest)
        end
      else None
  | [] => None
  end.

Definition ranged (lo hi : Z) (r : option (Z * bytes)) : option (Z * bytes) :=
  '(n, s) ← r; if decide (lo <= n <= hi) then Some (n, s) else None.

Definition shortMonthNames : list bytes :=
  map bs ["Jan"; "Feb"; "Mar"; "Apr"; "May"; "Jun"; "Jul"; "Aug"; "Sep"; "Oct"; "Nov"; "Dec"]%string.

(** The number of the month that [s] starts with, letters of either case. *)
Fixpoint lookupMonth (names : list bytes) (n : Z) (s : bytes) : option (Z * bytes) :=
  match names with
  | [] => None
  | name :: names =>
      if decide (length name <= length s /\ ToLower (take (length name) s) = ToLower name)%nat then Some (n, drop (length name) s)
      else lookupMonth names (n + 1) s
  end.

Fixpoint cutspace (s : bytes) : bytes :=
  match s with
  | b :: s' => if decide (b = Byte.x20) then cutspace s' else s
  | [] => []
  end.

Definition commaOrPeriod (b : byte) : bool := bool_decide (b = Byte.x2e \/ b = Byte.x2c).

(** The nanoseconds of the digits of a fraction, of which nine count. *)
Definition nanoseconds (ds : bytes) : Z :=
  let ds := take 9 ds in digits_value ds * 10 ^ (9 - len ds).

(** A fraction after the seconds that the layout does not have. *)
Definition skipFraction (rest : list chunk) (s : bytes) : option (Z * bytes) :=
  match s with
  | p :: d :: s' =>
      if commaOrPeriod p && is_digit d then
        match List.find isStd rest with
        | Some Frac3 => None
        | _ => let '(ds, s) := span_digits (d :: s') in Some (nanoseconds ds, s)
        end
      else None
  | _ => None
  end.

(** The zone in seconds: Z, or a sign, two digits, a colon and two digits. *)
Definition parseZone (s : bytes) : option (Z * bytes) :=
  if decide (head s = Some Byte.x5a) then Some (0, drop 1 s)
  else match s with
  | sign :: h1 :: h2 :: c :: m1 :: m2 :: s =>
      if decide ((sign = Byte.x2b \/ sign = Byte.x2d) /\ c = Byte.x3a) then
        '(hr, _) ← getnum [h1; h2] true; '(mm, _) ← getnum [m1; m2] true;
        if decide (hr <= 24 /\ mm <= 60) then Some ((if decide (sign = Byte.x2d) then -1 else 1) * (hr * 60 + mm) * 60, s) else None
      else None
  | _ => None
  end.

Definition parseFrac3 (s : bytes) : option (Z * bytes) :=
  match s with
  | p :: a :: b :: c :: s =>
      if commaOrPeriod p then ns ← Atoi [a; b; c]; if decide (0 <= ns) then Some (ns * 1000000, s) else None else None
  | _ => None
  end.

Record date : Type := mkDate {
  d_year : Z;
  d_month : Z;
  d_day : Z;
  d_sod : Z;
  d_nsec : Z;
  d_offset : Z;
}.

Definition set_date (y m d : Z) (t : date) : date := mkDate y m d (d_sod t) (d_nsec t) (d_offset t).
(** [n] units of [unit] seconds into the day. *)
Definition add_clock (n unit : Z) (t : date) : date :=
  mkDate (d_year t) (d_month t) (d_day t) (d_sod t + n * unit) (d_nsec t) (d_offset t).
Definition set_nsec (n : Z) (t : date) : date := mkDate (d_year t) (d_month t) (d_day t) (d_sod t) n (d_offset t).
Definition set_offset (o : Z) (t : date) : date := mkDate (d_year t) (d_month t) (d_day t) (d_sod t) (d_nsec t) o.

Fixpoint parseChunks (layout : list chunk) (s : bytes) (t : date) : option date :=
  match layout with
  | [] => if decide (s = []) then Some t else None
  | c :: rest =>
      match c with
      | Lit b =>
          if decide (b = Byte.x20) then
            match s with
            | x :: _ => if decide (x = Byte.x20) then parseChunks rest (cutspace s) t else None
            | [] => parseChunks rest [] t
            end
          else match s with x :: s' => if decide (x = b) then parseChunks rest s' t else None | [] => None end
      | LongYear =>
          if decide (4 <= length s /\ Forall (fun b => is_digit b = true) (take 4 s))%nat
          then parseChunks rest (drop 4 s) (set_date (digits_value (take 4 s)) (d_month t) (d_day t) t) else None
      | ShortMonth => '(m, s) ← lookupMonth shortMonthNames 1 s; parseChunks rest s (set_date (d_year t) m (d_day t) t)
      | ZeroMonth => '(m, s) ← ranged 1 12 (getnum s true); parseChunks rest s (set_date (d_year t) m (d_day t) t)
      | ZeroDay => '(d, s) ← getnum s true; parseChunks rest s (set_date (d_year t) (d_month t) d t)
      | Hour24 => '(n, s) ← ranged 0 23 (getnum s false); parseChunks rest s (add_clock n 3600 t)
      | ZeroMinute => '(n, s) ← ranged 0 59 (getnum s true); parseChunks rest s (add_clock n 60 t)
      | ZeroSecond =>
          '(n, s) ← ranged 0 59 (getnum s true);
          match skipFraction rest s with
          | Some (ns, s) => parseChunks rest s (set_nsec ns (add_clock n 1 t))
          | None => parseChunks rest s (add_clock n 1 t)
          end
      | Frac3 => '(ns, s) ← parseFrac3 s; parseChunks rest s (set_nsec ns t)
      | ZoneColon => '(o, s) ← parseZone s; parseChunks rest s (set_offset o t)
      end
  end.

Definition isLeap (y : Z) : bool := bool_decide (y mod 4 = 0 /\ (y mod 100 <> 0 \/ y mod 400 = 0)).

Definition daysIn (m y : Z) : Z :=
  if decide (m = 2) then (if isLeap y then 29 else 28)
  else if decide (m = 4 \/ m = 6 \/ m = 9 \/ m = 11) then 30 else 31.

(** [time.Parse]; [None] is the error. *)
Definition parseTime (layout : list chunk) (s : bytes) : option date :=
  t ← parseChunks layout s (mkDate 0 1 1 0 0 0);
  if decide (1 <= d_day t <= daysIn (d_month t) (d_year t)) then Some t else None.

Definition formatDate (t : date) : bytes :=
  padded 4 (d_year t) ++ Byte.x2d :: padded 2 (d_month t) ++ Byte.x2d :: padded 2 (d_day t).

Definition dashDate : list chunk := [LongYear; Lit Byte.x2d; ZeroMonth; Lit Byte.x2d; ZeroDay].
Definition clock : list chunk := [Hour24; Lit Byte.x3a; ZeroMinute; Lit Byte.x3a; ZeroSecond].
Definition rfc3339 : list chunk := dashDate ++ [Lit Byte.x54] ++ clock ++ [ZoneColon].

(** The instant, in nanoseconds from the epoch. *)
Definition instantOf (t : date) : Z :=
  (dayOf (d_year t) (d_month t) (d_day t) * 86400 + d_sod t - d_offset t) * Second + d_nsec t.

Example parse_time_vectors :
  (instantOf <$> parseTime rfc3339 (bs "1970-01-01T01:00:00.25+01:00")) = Some 250000000
  /\ (instantOf <$> parseTime rfc3339 (bs "2001-09-09T01:46:40Z")) = Some (1000000000 * Second)
  /\ (instantOf <$> parseTime dashDate (bs "1969-12-31")) = Some (- 86400 * Second)
  /\ parseTime rfc3339 (bs "2023-02-29T00:00:00Z") = None /\ parseTime rfc3339 (bs "2024-02-29T24:00:00Z") = None
  /\ parseTime dashDate (bs "2024-2-29") = None.
Proof. vm_compute. auto 10. Qed.
