(* ===== verification/Whois.v ===== *)
(** * WHOIS records (server/serverinfo_whois.go)

    The few fields that are taken from a WHOIS record, and the normal form of its
    dates: formatting a parsed time prints the date as it was written, whatever its
    zone. Lower case is that of ASCII letters. The lookup itself, a
    third-party client on port 43, is an argument: how it ends. *)
From S2P Require Import Prelude Decimal GoTime GoStrings GoTimeParse.
From Stdlib Require Import ZArith Lia.
From stdpp Require Import base gmap list strings.
#[local] Open Scope Z_scope.

(** ** Dates *)

Definition whoisLayouts : list (list chunk) :=
  [rfc3339;
   dashDate ++ [Lit Byte.x54] ++ clock ++ [Lit Byte.x5a];
   dashDate ++ [Lit Byte.x54] ++ clock ++ [Frac3; Lit Byte.x5a];
   dashDate ++ [Lit Byte.x20] ++ clock;
   dashDate;
   [LongYear; Lit Byte.x2e; ZeroMonth; Lit Byte.x2e; ZeroDay];
   [ZeroDay; Lit Byte.x2d; ShortMonth; Lit Byte.x2d; LongYear]].

Fixpoint firstLayout (layouts : list (list chunk)) (raw : bytes) : option bytes :=
  match layouts with
  | [] => None
  | layout :: layouts => match parseTime layout raw with Some t => Some (formatDate t) | None => firstLayout layouts raw end
  end.

Definition normaliseWhoisDate (raw : bytes) : bytes :=
  let raw := TrimSpace raw in
  if decide (raw = []) then []
  else match firstLayout whoisLayouts raw with
       | Some s => s
       | None => if decide (10 <= length raw)%nat then take 10 raw else raw
       end.

(** ** The record *)

Record ServerInfoWhois : Type := mkWhois {
  w_Registrar : bytes;
  w_Registered : bytes;
  w_Expires : bytes;
  w_Updated : bytes;
  w_Nameservers : list bytes;
}.

#[export] Instance ServerInfoWhois_eq_dec : EqDecision ServerInfoWhois.
Proof. solve_decision. Defined.

Definition serverInfoWhoisMaxLines : nat := 2000.
Definition serverInfoWhoisMaxNS : nat := 8.

Definition whoisAllowed (host : bytes) : bool :=
  if decide (host = []) then false
  else if HasPrefix host (bs "[") then false
  else Contains host (bs ".").

Definition splitWhoisLine (line : bytes) : bytes * bytes :=
  match Index_ line (bs ":") with
  | None => ([], [])
  | Some idx => (TrimSpace (ToLower (take idx line)), TrimSpace (drop (idx + 1) line))
  end.

Definition registrarKeys : list bytes := [bs "registrar"].
Definition registeredKeys : list bytes :=
  map bs ["creation date"; "created"; "registration date"; "registered"; "domain registration date"; "registered on"]%string.
Definition updatedKeys : list bytes := map bs ["updated date"; "last updated"; "last modified"; "changed"]%string.
Definition expiresKeys : list bytes :=
  map bs ["registry expiry date"; "expiry date"; "paid-till"; "registrar registration expiration date"; "expiration date";
          "expires on"; "expire"]%string.
Definition nameserverKeys : list bytes := map bs ["name server"; "nserver"; "nameservers"]%string.

Definition nameserverOf (value : bytes) : bytes := ToLower (TrimSuffix (TrimSpace value) (bs ".")).

(** The key and value of a line that is not passed over. *)
Definition whoisField (line : bytes) : option (bytes * bytes) :=
  let line := TrimSpace line in
  if decide (line = [] \/ HasPrefix line (bs "%") = true \/ HasPrefix line (bs "#") = true) then None
  else
    let '(key, value) := splitWhoisLine line in
    if decide (key = [] \/ value = []) then None else Some (key, value).

(** First wins. *)
Definition keep (old new : bytes) : bytes := if decide (old = []) then new else old.

(** The switch: the record and the name servers seen. *)
Definition whoisSwitch (key value : bytes) (out : ServerInfoWhois) (seenNS : gset bytes) : ServerInfoWhois * gset bytes :=
  let '(mkWhois registrar registered expires updated nameservers) := out in
  if decide (key ∈ registrarKeys) then (mkWhois (keep registrar value) registered expires updated nameservers, seenNS)
  else if decide (key ∈ registeredKeys) then
    (mkWhois registrar (keep registered (normaliseWhoisDate value)) expires updated nameservers, seenNS)
  else if decide (key ∈ updatedKeys) then
    (mkWhois registrar registered expires (keep updated (normaliseWhoisDate value)) nameservers, seenNS)
  else if decide (key ∈ expiresKeys) then
    (mkWhois registrar registered (keep expires (normaliseWhoisDate value)) updated nameservers, seenNS)
  else if decide (key ∈ nameserverKeys) then
    let ns := nameserverOf value in
    if decide (ns = []) then (out, seenNS)
    else if decide (ns ∈ seenNS) then (out, seenNS)
    else if decide (serverInfoWhoisMaxNS <= length nameservers)%nat then (out, seenNS)
    else (mkWhois registrar registered expires updated (nameservers ++ [ns]), {[ns]} ∪ seenNS)
  else (out, seenNS).

Definition whoisLine (st : ServerInfoWhois * gset bytes) (line : bytes) : ServerInfoWhois * gset bytes :=
  match whoisField line with
  | None => st
  | Some (key, value) => whoisSwitch key value st.1 st.2
  end.

Definition whoisLines (raw : bytes) : list bytes := take serverInfoWhoisMaxLines (Split raw Byte.x0a).

Definition emptyWhois : ServerInfoWhois := mkWhois [] [] [] [] [].

Definition parseWhois (raw : bytes) : option ServerInfoWhois :=
  let out := (fold_left whoisLine (whoisLines raw) (emptyWhois, ∅)).1 in
  if decide (w_Registrar out = [] /\ w_Registered out = [] /\ w_Updated out = [] /\ w_Expires out = [] /\ w_Nameservers out = [])
  then None else Some out.

(** ** The lookup *)

Inductive whois_reply : Type := WhoisTimeout | WhoisError | WhoisRaw (raw : bytes).

(** Whether the server is asked, and the record. *)
Definition runWhois (client : bytes -> whois_reply) (host : bytes) : bool * option ServerInfoWhois :=
  if negb (whoisAllowed host) then (false, None)
  else
    (true, match client host with
           | WhoisTimeout => None
           | WhoisError => None
           | WhoisRaw raw => if decide (TrimSpace raw = []) then None else parseWhois raw
           end).

Example date_vectors :
  normaliseWhoisDate (bs "14-Aug-2024") = bs "2024-08-14" /\ normaliseWhoisDate [] = [] /\
  normaliseWhoisDate (bs "2024-05-01T12:34:56Z") = bs "2024-05-01"
  /\ normaliseWhoisDate (bs "2024-05-01T12:34:56.123+02:00") = bs "2024-05-01"
  /\ normaliseWhoisDate (bs "2024-05-01 1:34:56") = bs "2024-05-01"
  /\ normaliseWhoisDate (bs "2024.05.01") = bs "2024-05-01"
  /\ normaliseWhoisDate (bs "01-MAY-2024") = bs "2024-05-01"
  /\ normaliseWhoisDate (bs "29-feb-2023") = bs "29-feb-202"
  /\ normaliseWhoisDate (bs "unknown") = bs "unknown".
Proof. vm_compute. auto 10. Qed.

Definition newline : bytes := [Byte.x0a].

Definition sampleRecord : bytes :=
  bs "Domain Name: EXAMPLE.ORG" ++ newline ++ bs "Registrar WHOIS Server: whois.iana.org" ++ newline
  ++ bs "Updated Date: 2024-08-14T07:01:31Z" ++ newline ++ bs "Creation Date: 1995-08-14T04:00:00Z" ++ newline
  ++ bs "Registry Expiry Date: 2025-08-13T04:00:00Z" ++ newline ++ bs "% Registrar: a comment" ++ newline
  ++ bs "Registrar: Internet Assigned Numbers Authority" ++ newline ++ bs "Registrar: a second one" ++ newline
  ++ bs "Name Server: A.IANA-SERVERS.NET" ++ newline ++ bs "Name Server: B.IANA-SERVERS.NET." ++ newline
  ++ bs "nserver: a.iana-servers.net" ++ newline ++ bs "DNSSEC: signedDelegation".

(** The record of serverinfo_whois_test.go, with a comment and repeated fields. *)
Example whois_vectors :
  parseWhois sampleRecord
  = Some (mkWhois (bs "Internet Assigned Numbers Authority") (bs "1995-08-14") (bs "2025-08-13") (bs "2024-08-14")
            [bs "a.iana-servers.net"; bs "b.iana-servers.net"])
  /\ parseWhois [] = None /\ parseWhois (bs "% no match found" ++ newline ++ bs "% more comments") = None
  /\ map whoisAllowed [[]; bs "[::1]"; bs "localhost"; bs "matrix.org"; bs "example.co.uk"] = [false; false; false; true; true].
Proof. vm_compute. auto. Qed.
