(* ===== verification/ServerInfo.v ===== *)
(** * Server information (server/serverinfo_types.go, serverinfo_reachability.go,
      serverinfo_cache.go, serverinfo_service.go, handlers_serverinfo.go)

    What the notary tells a visitor about a server: the delegation, the addresses,
    whether the federation port answers, the WHOIS record, from a cache in the
    database or found anew. The network is a parameter that answers the n-th
    exchange, as are what [net/http] makes of a URL, the JSON codecs, and the
    database of Storage.v; every exchange is recorded. The probe and the WHOIS
    lookup run side by side and share nothing: the model runs one after the other.
    The timeouts are among the ways an exchange can end. *)
From S2P Require Import Prelude Decimal GoTime GoStrings NetIP ServerNames TrustPolicy Resolver.
From S2P Require Import Fetcher ConfigMap Config HttpApi Float64 Storage Whois.
From Stdlib Require Import ZArith Lia.
From stdpp Require Import base gmap list strings fin_maps.
#[local] Open Scope Z_scope.

(** ** Types *)

Record ServerInfoSRVTarget : Type := mkSRVTarget {
  st_Target : bytes;
  st_Port : Z;
  st_Priority : Z;
  st_Weight : Z;
}.

Record ServerInfoDNS : Type := mkDNS {
  dns_WellKnownServer : bytes;
  dns_SRV : list ServerInfoSRVTarget;
  dns_ResolvedHost : bytes;
  dns_ResolvedPort : Z;
  dns_A : list bytes;
  dns_AAAA : list bytes;
}.

Record ServerInfoReachability : Type := mkReachability {
  sr_FederationPort : Z;
  sr_Reachable : bool;
  sr_TLSVersion : bytes;
  sr_TLSSNIMatch : bool;
  sr_RTTMS : Z;
  sr_Error : bytes;
}.

Record ServerInfoResponse : Type := mkInfo {
  sir_ServerName : bytes;
  sir_FetchedAt : Z;
  sir_DNS : option ServerInfoDNS;
  sir_Reachability : option ServerInfoReachability;
  sir_Whois : option ServerInfoWhois;
  sir_Errors : gmap bytes bytes;
}.

(** ** The network *)

Inductive probe_event : Type :=
  | PrNow
  | PrResolve (host : bytes)
  | PrSRV (service host : bytes)
  | PrHTTPS (url : bytes)
  | PrDial (address : bytes)
  | PrHandshake (sni : bytes)
  | PrWhois (host : bytes).

(** An error: whether it is a [net.Error] that timed out, and its message. *)
Record probe_error : Type := mkProbeError {
  pe_timeout : bool;
  pe_msg : bytes;
}.

(** [in_address] is the address that the transport dials for a URL, [None] when
    no request can be made of it; [in_exchange] is what follows the dialling: no
    response, or a status and a body. *)
Record internet : Type := mkInternet {
  in_clock : nat -> Z;
  in_resolve : nat -> bytes -> option (list IP);
  in_SRV : nat -> bytes -> bytes -> option (list ServerInfoSRVTarget);
  in_address : bytes -> option bytes;
  in_exchange : nat -> bytes -> option (Z * stream);
  in_dial : nat -> bytes -> option probe_error;
  in_handshake : nat -> bytes -> result probe_error (Z * bytes);
  in_whois : bytes -> whois_reply;
}.

(** The exchanges so far. *)
Definition Pr (A : Type) : Type := list probe_event -> A * list probe_event.
Definition pret {A} (a : A) : Pr A := fun tr => (a, tr).
Definition pbind {A B} (m : Pr A) (k : A -> Pr B) : Pr B := fun tr => let '(a, tr) := m tr in k a tr.

Declare Scope probe_scope.
Notation "x <-- m ;; k" := (pbind m (fun x => k)) (at level 20, m at level 99, k at level 200, only parsing) : probe_scope.
Notation "m ;; k" := (pbind m (fun _ => k)) (at level 100, k at level 200, only parsing) : probe_scope.
#[local] Open Scope probe_scope.

Definition exchange {A} (e : probe_event) (answer : nat -> A) : Pr A := fun tr => (answer (length tr), tr ++ [e]).

(** ** serverinfo_reachability.go *)

Definition serverInfoWellKnownMaxBytes : nat := 64 * 1024.

Definition splitHostPort (serverName : bytes) : bytes * Z :=
  if HasPrefix serverName (bs "[") then
    match Index_ serverName (bs "]") with
    | None => (serverName, 0)
    | Some e =>
        let host := drop 1 (take e serverName) in
        let rest := drop (e + 1) serverName in
        if HasPrefix rest (bs ":") then
          match portNumber (drop 1 rest) with Some p => (host, p) | None => (host, 0) end
        else (host, 0)
    end
  else
    match LastIndexByte serverName colon with
    | None => (serverName, 0)
    | Some idx => match portNumber (drop (idx + 1) serverName) with
                  | Some p => (take idx serverName, p)
                  | None => (serverName, 0)
                  end
    end.

(** [net.SplitHostPort]. *)
Definition netSplitHostPort (hostport : bytes) : option (bytes * bytes) :=
  match LastIndexByte hostport colon with
  | None => None
  | Some i =>
      if decide (head hostport = Some Byte.x5b) then
        match Index_ hostport (bs "]") with
        | None => None
        | Some e =>
            if decide (e + 1 <> i)%nat then None
            else if decide (Byte.x5b ∈ drop 1 hostport \/ Byte.x5d ∈ drop (e + 1) hostport) then None
            else Some (drop 1 (take e hostport), drop (i + 1) hostport)
        end
      else if decide (colon ∈ take i hostport \/ Byte.x5b ∈ hostport \/ Byte.x5d ∈ hostport) then None
      else Some (take i hostport, drop (i + 1) hostport)
  end.

(** [net.JoinHostPort]. *)
Definition JoinHostPort (host port : bytes) : bytes :=
  if decide (colon ∈ host) then bs "[" ++ host ++ bs "]:" ++ port else host ++ bs ":" ++ port.

Definition IsUnspecified (ip : IP) : bool := bool_decide (ip = 0 \/ ip = mapped 0).
Definition IsMulticast (ip : IP) : bool :=
  match To4 ip with
  | Some a => bool_decide (a / 2 ^ 28 = 14)
  | None => bool_decide (ip / 2 ^ 120 = 255)
  end.

Definition isPublicIP (ip : IP) : bool :=
  negb (IsUnspecified ip) && negb (IsLoopback ip) && negb (IsPrivate ip) && negb (IsLinkLocalUnicast ip)
  && negb (IsLinkLocalMulticast ip) && negb (IsMulticast ip).

Section Probe.
Variable net : internet.
Variable decodeWellKnown : bytes -> option bytes.

Definition LookupIPAddr (host : bytes) : Pr (option (list IP)) :=
  exchange (PrResolve host) (fun n => in_resolve net n host).

Definition dial (address : bytes) : Pr (option probe_error) := exchange (PrDial address) (fun n => in_dial net n address).

Definition firstPublicIP (host : bytes) : Pr (option IP) :=
  match ParseIP host with
  | Some ip => pret (if isPublicIP ip then Some ip else None)
  | None =>
      addrs <-- LookupIPAddr host;;
      pret (addrs ← addrs; List.find isPublicIP addrs)
  end.

(** Whether there is a connection. *)
Definition dialPublicOnly (address : bytes) : Pr bool :=
  match netSplitHostPort address with
  | None => pret false
  | Some (host, port) =>
      ip <-- firstPublicIP host;;
      match ip with
      | None => pret false
      | Some ip => err <-- dial (JoinHostPort (IP_String ip) port);; pret (bool_decide (err = None))
      end
  end.

(** [client.Do]: the transport dials, once, through [dialPublicOnly]; redirects
    are not followed. *)
Definition guardedDo (url : bytes) : Pr (option (Z * stream)) :=
  match in_address net url with
  | None => pret None
  | Some address =>
      connected <-- dialPublicOnly address;;
      if (connected : bool) then exchange (PrHTTPS url) (fun n => in_exchange net n url) else pret None
  end.

(** [io.ReadAll(io.LimitReader(body, n))]. *)
Definition readUpTo (limit : nat) (body : stream) : option bytes :=
  if decide (limit <= length (stream_data body))%nat then Some (take limit (stream_data body))
  else match stream_err body with None => Some (stream_data body) | Some _ => None end.

Definition fetchWellKnown (host : bytes) : Pr (option bytes) :=
  resp <-- guardedDo (bs "https://" ++ host ++ bs "/.well-known/matrix/server");;
  pret ('(status, body) ← resp;
        if decide (status <> 200) then None
        else
          body ← readUpTo serverInfoWellKnownMaxBytes body;
          server ← decodeWellKnown body;
          let server := TrimSpace server in
          if decide (server = []) then None else Some server).

Definition srvLookup (service host : bytes) : Pr (list ServerInfoSRVTarget) :=
  srvs <-- exchange (PrSRV service host) (fun n => in_SRV net n service host);;
  pret (match srvs with
        | None => []
        | Some srvs => map (fun s => mkSRVTarget (TrimSuffix (st_Target s) (bs ".")) (st_Port s) (st_Priority s) (st_Weight s)) srvs
        end).

Definition lookupSRV (host : bytes) : Pr (list ServerInfoSRVTarget) :=
  v <-- srvLookup (bs "matrix-fed") host;;
  if decide (v <> []) then pret v else srvLookup (bs "matrix") host.

Definition resolveFederationTarget (host : bytes) (explicitPort : Z) (dns : ServerInfoDNS) : bytes * Z :=
  if decide (explicitPort <> 0) then (host, explicitPort)
  else if decide (dns_WellKnownServer dns <> []) then
    let '(h, p) := splitHostPort (dns_WellKnownServer dns) in (h, if decide (p = 0) then 8448 else p)
  else match dns_SRV dns with
       | t :: _ => (st_Target t, st_Port t)
       | [] => (host, 8448)
       end.

Definition lookupHostAddresses (host : bytes) : Pr (list bytes * list bytes) :=
  addrs <-- LookupIPAddr host;;
  pret (match addrs with
        | None => ([], [])
        | Some addrs =>
            (map IP_String (filter (fun ip => is_Some (To4 ip)) addrs), map IP_String (filter (fun ip => ~ is_Some (To4 ip)) addrs))
        end).

Definition tlsVersionName (v : Z) : bytes :=
  if decide (v = 769) then bs "TLS 1.0"
  else if decide (v = 770) then bs "TLS 1.1"
  else if decide (v = 771) then bs "TLS 1.2"
  else if decide (v = 772) then bs "TLS 1.3"
  else bs "0x" ++ map (fun k => hexd (v / 16 ^ k mod 16)) [3; 2; 1; 0].

Definition classifyReachabilityError (err : probe_error) : bytes :=
  let msg := pe_msg err in
  if pe_timeout err then bs "timeout"
  else if Contains msg (bs "connection refused") then bs "connection refused"
  else if Contains msg (bs "no such host") || Contains msg (bs "NXDOMAIN") then bs "DNS lookup failed"
  else if Contains msg (bs "unreachable") then bs "network unreachable"
  else if Contains msg (bs "handshake") || Contains msg (bs "tls:") || Contains msg (bs "x509") then bs "TLS handshake failed"
  else bs "unreachable".

Definition clockNow : Pr Z := exchange PrNow (in_clock net).

Definition probeTLS (host : bytes) (port : Z) (sni : bytes) : Pr ServerInfoReachability :=
  start <-- clockNow;;
  err <-- dial (JoinHostPort host (FormatInt port));;
  match err with
  | Some err => pret (mkReachability port false [] false 0 (classifyReachabilityError err))
  | None =>
      state <-- exchange (PrHandshake sni) (fun n => in_handshake net n sni);;
      match state with
      | Err err => pret (mkReachability port false [] false 0 (classifyReachabilityError err))
      | Ok (version, serverName) =>
          finished <-- clockNow;;
          pret (mkReachability port true (tlsVersionName version) (bool_decide (serverName = sni))
                  (Z.quot (timeSub finished start) 1000000) [])
      end
  end.

Definition probeReachability (serverName : bytes) : Pr (ServerInfoDNS * ServerInfoReachability) :=
  let '(host, explicitPort) := splitHostPort serverName in
  found <-- (if decide (explicitPort = 0) then
               wk <-- fetchWellKnown host;;
               srv <-- lookupSRV host;;
               pret (default [] wk, srv)
             else pret ([], []));;
  let '(wellKnown, srv) := (found : bytes * list ServerInfoSRVTarget) in
  let '(resolvedHost, resolvedPort) := resolveFederationTarget host explicitPort (mkDNS wellKnown srv [] 0 [] []) in
  addrs <-- lookupHostAddresses resolvedHost;;
  reach <-- probeTLS resolvedHost resolvedPort host;;
  pret (mkDNS wellKnown srv resolvedHost resolvedPort addrs.1 addrs.2, reach).

End Probe.

(** ** serverinfo_cache.go *)

Inductive info_err : Type :=
  | InfoDb (e : db_error)
  | InfoDecode
  | InfoEncode
  | InfoTTL.

Section Service.
Variable net : internet.
Variable decodeWellKnown : bytes -> option bytes.
Variable dbNow : nat -> Z.
Variable jsonb : bytes -> bytes.
Variable marshalInfo : ServerInfoResponse -> option bytes.
Variable unmarshalInfo : bytes -> option ServerInfoResponse.
Variable outOfRange : float64 -> Z.

(** [Ok None] is a miss. *)
Definition cacheGet (serverName : bytes) (d : database) : result info_err (option ServerInfoResponse) * database :=
  let '(r, d) := queryRow dbNow (fun now t =>
      r ← server_info_cache t !! serverName; if decide (now < ir_ExpiresAt r) then Some (ir_info r) else None) d in
  (match r with
   | Err e => Err (InfoDb e)
   | Ok None => Ok None
   | Ok (Some payload) => match unmarshalInfo payload with Some out => Ok (Some out) | None => Err InfoDecode end
   end, d).

(** [int64(ttl.Seconds())]. *)
Definition ttlSeconds (ttl : Z) : Z :=
  toInt64 outOfRange (fadd (ofInt (Z.quot ttl Second)) (fdiv (ofInt (Z.rem ttl Second)) (ofInt 1000000000))).

Definition cachePut (serverName : bytes) (resp : ServerInfoResponse) (ttl : Z) (d : database) : option info_err * database :=
  if decide (ttl <= 0) then (Some InfoTTL, d)
  else match marshalInfo resp with
       | None => (Some InfoEncode, d)
       | Some payload =>
           let '(r, d) := exec dbNow (fun now => on_info (insert serverName
                            (mkInfoRow (jsonb payload) now (now + ttlSeconds ttl * Second)))) d in
           (InfoDb <$> r, d)
       end.

Definition cacheDeleteExpired : database -> result db_error Z * database :=
  deleteRows dbNow (fun now t => expired ir_ExpiresAt now (server_info_cache t)) (fun now => on_info (unexpired ir_ExpiresAt now)).

(** ** serverinfo_service.go *)

Record ServerInfoService : Type := mkService {
  svc_whoisEnabled : bool;
  svc_cacheTTL : Z;
  svc_reqTimeout : Z;
}.

Definition NewServerInfoService (cfg : ServerInfoConfig) : ServerInfoService :=
  mkService (si_WhoisEnabled cfg) (if decide (si_CacheTTL cfg <= 0) then 6 * Hour else si_CacheTTL cfg)
    (if decide (si_RequestTimeout cfg <= 0) then 5 * Second else si_RequestTimeout cfg).

Record world : Type := mkWorld {
  w_db : database;
  w_trace : list probe_event;
}.

Definition whoisStage (svc : ServerInfoService) (serverName : bytes) : Pr (option ServerInfoWhois) := fun tr =>
  if svc_whoisEnabled svc then
    let host := (splitHostPort serverName).1 in
    let '(sent, whois) := runWhois (in_whois net) host in
    (whois, if (sent : bool) then tr ++ [PrWhois host] else tr)
  else (None, tr).

Definition setErr (stage msg : bytes) (errs : gmap bytes bytes) : gmap bytes bytes :=
  if decide (msg = []) then errs else <[stage := msg]> errs.

(** The answer from what the stages found. *)
Definition assemble (svc : ServerInfoService) (serverName : bytes) (fetchedAt : Z) (dns : ServerInfoDNS) (reach : ServerInfoReachability)
  (whois : option ServerInfoWhois) : ServerInfoResponse :=
  let errs := if decide (sr_Error reach <> []) then if negb (sr_Reachable reach) then setErr (bs "reachability") (sr_Error reach) ∅ else ∅ else ∅ in
  let errs := match whois with
              | None => if svc_whoisEnabled svc then setErr (bs "whois") (bs "no record returned") errs else errs
              | Some _ => errs
              end in
  mkInfo serverName fetchedAt
    (if decide (dns_A dns <> [] \/ dns_AAAA dns <> [] \/ dns_WellKnownServer dns <> [] \/ dns_SRV dns <> []) then Some dns
     else if decide (dns_ResolvedHost dns <> []) then Some dns else None)
    (Some reach) whois errs.

(** The fan-out of a miss. *)
Definition compute (svc : ServerInfoService) (serverName : bytes) : Pr ServerInfoResponse :=
  fetchedAt <-- clockNow net;;
  probed <-- probeReachability net decodeWellKnown serverName;;
  whois <-- whoisStage svc serverName;;
  pret (assemble svc serverName fetchedAt probed.1 probed.2 whois).

(** [None] is a service that is not configured. *)
Definition Enrich (svc : option ServerInfoService) (serverName : bytes) (w : world) : option ServerInfoResponse * world :=
  match svc with
  | None => (None, w)
  | Some svc =>
      match cacheGet serverName (w_db w) with
      | (Ok (Some cached), d) => (Some cached, mkWorld d (w_trace w))
      | (_, d) =>
          let '(resp, tr) := compute svc serverName (w_trace w) in
          let '(_, d) := cachePut serverName resp (svc_cacheTTL svc) d in
          (Some resp, mkWorld d tr)
      end
  end.

(** ** handlers_serverinfo.go *)

(** [name] is the query parameter. *)
Definition handleServerInfo (svc : option ServerInfoService) (sec : SecurityConfig) (name : bytes) (w : world)
  : http_response ServerInfoResponse * world :=
  match svc with
  | None => (HttpApi.HttpError 503 (bs "M_NOT_FOUND"), w)
  | Some _ =>
      let raw := TrimSpace name in
      if decide (raw = []) then (HttpApi.HttpError 400 (bs "M_MISSING_PARAM"), w)
      else
        let maxNameLen := if decide (sec_MaxServerNameLength sec <= 0) then 255 else sec_MaxServerNameLength sec in
        match ValidateServerName raw maxNameLen with
        | Some _ => (HttpApi.HttpError 400 (bs "M_INVALID_PARAM"), w)
        | None =>
            let '(resp, w) := Enrich svc raw w in
            (match resp with Some resp => HttpValue resp | None => HttpApi.HttpError 500 (bs "M_UNKNOWN") end, w)
        end
  end.

End Service.
