(* ===== verification/ServerInfoProofs.v ===== *)
(** * What the server information service does

    The well-known request only goes to public addresses; an answer that was stored
    is the answer while it lasts, without another exchange; the WHOIS fields are the
    first of their kind. The probe of the federation port has no such guard. *)
From S2P Require Import Prelude Decimal GoTime GoStrings NetIP NetIPProofs ServerNames Fetcher.
From S2P Require Import TrustPolicy ConfigMap Config HttpApi Float64 Storage Whois.
From S2P Require Import ServerInfo.
From Stdlib Require Import ZArith Lia.
From stdpp Require Import base gmap list strings fin_maps.
#[local] Open Scope Z_scope.

(** ** Addresses *)

Abbreviation lbracket := Byte.x5b.
Abbreviation rbracket := Byte.x5d.

Definition portOk (port : bytes) : Prop := (colon ∉ port) /\ (lbracket ∉ port) /\ (rbracket ∉ port).

Lemma elem_of_drop_in {A} n (l : list A) x : x ∈ drop n l -> x ∈ l.
Proof. intros H. rewrite <- (take_drop n l). apply elem_of_app. auto. Qed.

Lemma drop_drop_in {A} n m (l : list A) x : (n <= m)%nat -> x ∈ drop m l -> x ∈ drop n l.
Proof. intros Hn H. replace m with (n + (m - n))%nat in H by lia. rewrite <- drop_drop in H. by apply elem_of_drop_in in H. Qed.

Lemma netSplit_port hostport h port : netSplitHostPort hostport = Some (h, port) -> portOk port.
Proof.
  unfold netSplitHostPort, portOk. destruct (LastIndexByte hostport colon) as [i|] eqn:Ei; [|done].
  apply LastIndexByte_Some in Ei as [_ Hc]. rewrite <- Nat.add_1_r in Hc. case_decide.
  - destruct (Index_ hostport (bs "]")) as [e|]; [|done]. case_decide; [done|]. case_decide as Hb; [done|].
    intros [= _ <-]. split_and!; [done| |]; intros Hin; apply Hb; [left|right]; eapply drop_drop_in, Hin; lia.
  - case_decide as Hb; [done|]. intros [= _ <-]. split_and!; [done| |]; intros Hin; apply Hb; apply elem_of_drop_in in Hin; auto.
Qed.

Lemma join_split host port :
  lbracket ∉ host -> rbracket ∉ host -> portOk port -> netSplitHostPort (JoinHostPort host port) = Some (host, port).
Proof.
  intros Hl Hr (Hc & Hpl & Hpr). unfold JoinHostPort, netSplitHostPort. case_decide as Hd.
  - change (bs "[" ++ host ++ bs "]:" ++ port) with (lbracket :: host ++ [rbracket] ++ colon :: port).
    replace (lbracket :: host ++ [rbracket] ++ colon :: port) with ((lbracket :: host ++ [rbracket]) ++ colon :: port)
      by (cbn; by rewrite <- app_assoc).
    rewrite LastIndexByte_app by done. cbn [head app]. rewrite decide_True by done.
    assert (Ei : Index_ (lbracket :: (host ++ [rbracket]) ++ colon :: port) (bs "]") = Some (S (length host))).
    { rewrite <- app_assoc. exact (Index_byte (lbracket :: host) rbracket (colon :: port) ltac:(by intros [|]%elem_of_cons)). }
    rewrite Ei. cbn [length]. rewrite length_app. cbn [length].
    rewrite decide_False by lia.
    assert (Ed : drop (S (length host) + 1) (lbracket :: (host ++ [rbracket]) ++ colon :: port) = colon :: port).
    { replace (S (length host) + 1)%nat with (S (length (host ++ [rbracket]))) by (rewrite length_app; cbn; lia).
      cbn [drop]. apply drop_app_length. }
    rewrite Ed, decide_False.
    + f_equal. f_equal.
      * cbn [take drop]. rewrite <- app_assoc. apply take_app_length.
      * replace (S (length host + 1) + 1)%nat with (S (length host) + 1 + 1)%nat by lia. rewrite <- drop_drop, Ed. done.
    + cbn [drop]. intros [H|H]; [|apply elem_of_cons in H as [H|H]; done].
      apply elem_of_app in H as [H|H]; [apply elem_of_app in H as [H|H]; [done|]|]; apply elem_of_cons in H as [H|H]; try done.
      by apply not_elem_of_nil in H.
  - change (host ++ bs ":" ++ port) with (host ++ colon :: port). rewrite LastIndexByte_app by done.
    rewrite decide_False by (destruct host; cbn; [done|intros [= ->]; apply Hl; left]).
    rewrite take_app_length, decide_False.
    + f_equal. f_equal. rewrite Nat.add_1_r. replace (S (length host)) with (length (host ++ [colon])) by (rewrite length_app; cbn; lia).
      replace (host ++ colon :: port) with ((host ++ [colon]) ++ port) by (by rewrite <- app_assoc). apply drop_app_length.
    + intros [H|[H|H]]; [done| |]; apply elem_of_app in H as [H|H]; try done; apply elem_of_cons in H as [H|H]; done.
Qed.

Lemma IP_String_brackets ip : ip_ok ip -> (lbracket ∉ IP_String ip) /\ (rbracket ∉ IP_String ip).
Proof.
  intros Hip. apply ParseIP_String, ParseIP_bytes in Hip. rewrite Forall_forall in Hip.
  split; intros H; apply Hip in H as [[? H]|[H|H]]; done.
Qed.

(** ** The well-known request *)

(** What [m] adds to the exchanges satisfies [P]. *)
Definition emits {A} (m : Pr A) (P : probe_event -> Prop) : Prop := forall tr, exists evs, (m tr).2 = tr ++ evs /\ Forall P evs.

Lemma emits_ret {A} (a : A) P : emits (pret a) P.
Proof. intros tr. exists []. by rewrite app_nil_r. Qed.

Lemma emits_exchange {A} e (f : nat -> A) (P : probe_event -> Prop) : P e -> emits (exchange e f) P.
Proof. intros He tr. exists [e]. split; [done|]. by apply Forall_singleton. Qed.

(** [a] is any answer the first part can give. *)
Lemma emits_bind {A B} (m : Pr A) (k : A -> Pr B) P : emits m P -> (forall tr, emits (k (m tr).1) P) -> emits (pbind m k) P.
Proof.
  intros Hm Hk tr. unfold pbind. destruct (Hm tr) as (evs & E & HP). specialize (Hk tr). destruct (m tr) as [a tr']. cbn in E, Hk. subst tr'.
  destruct (Hk (tr ++ evs)) as (evs' & E' & HP'). exists (evs ++ evs'). rewrite E', app_assoc. split; [done|]. by apply Forall_app.
Qed.

(** A dial goes to the literal of a public address. *)
Definition publicDial (e : probe_event) : Prop :=
  match e with
  | PrDial address => exists host port ip, netSplitHostPort address = Some (host, port) /\ ParseIP host = Some ip /\ isPublicIP ip = true
  | _ => True
  end.

Section Guard.
Variable net : internet.
Hypothesis Hnet : forall n h ips, in_resolve net n h = Some ips -> Forall ip_ok ips.

Lemma firstPublicIP_ok host tr ip : (firstPublicIP net host tr).1 = Some ip -> ip_ok ip \/ ParseIP host = Some ip.
Proof.
  unfold firstPublicIP. destruct (ParseIP host) as [a|]; cbn; [destruct (isPublicIP a); [|done]; intros [= ->]; auto|].
  destruct (in_resolve net (length tr) host) as [ips|] eqn:E; [|done]. cbn. intros [Hin _]%find_some. left.
  apply Hnet in E. rewrite Forall_forall in E. apply E. by apply list_elem_of_In.
Qed.

Lemma firstPublicIP_public host tr ip : (firstPublicIP net host tr).1 = Some ip -> isPublicIP ip = true.
Proof.
  unfold firstPublicIP. destruct (ParseIP host) as [a|]; cbn; [destruct (isPublicIP a) eqn:E; [|done]; by intros [= <-]|].
  destruct (in_resolve net (length tr) host) as [ips|]; [|done]. cbn. by intros [_ ?]%find_some.
Qed.

Lemma dialPublicOnly_emits address : emits (dialPublicOnly net address) publicDial.
Proof.
  unfold dialPublicOnly. destruct (netSplitHostPort address) as [[host port]|] eqn:Es; [|apply emits_ret].
  apply netSplit_port in Es. apply emits_bind.
  { unfold firstPublicIP. destruct (ParseIP host); [apply emits_ret|]. apply emits_bind; [by apply emits_exchange|intros; apply emits_ret]. }
  intros tr. destruct (firstPublicIP net host tr).1 as [ip|] eqn:Ei; [|apply emits_ret].
  apply emits_bind; [|intros; apply emits_ret]. apply emits_exchange. cbn.
  assert (Hok : ip_ok ip) by (destruct (firstPublicIP_ok _ _ _ Ei) as [?|Hp]; [done|by eapply ParseIP_ok]).
  destruct (IP_String_brackets ip Hok). exists (IP_String ip), port, ip. split_and!; [by apply join_split|by apply ParseIP_String|].
  by eapply firstPublicIP_public.
Qed.

Lemma fetchWellKnown_emits decodeWellKnown host : emits (fetchWellKnown net decodeWellKnown host) publicDial.
Proof.
  unfold fetchWellKnown, guardedDo. apply emits_bind; [|intros; apply emits_ret].
  destruct (in_address net _) as [address|]; [|apply emits_ret]. apply emits_bind; [apply dialPublicOnly_emits|].
  intros tr. destruct (dialPublicOnly net address tr).1; [by apply emits_exchange|apply emits_ret].
Qed.

End Guard.

(** C20. Whatever a name resolves to and whatever address the client takes from the
    URL, the well-known request of the server information service connects to the
    literal of a public address only, read as the dialer reads it, or to nothing. *)
Theorem wellknown_dials_public net decodeWellKnown host tr address :
  (forall n h ips, in_resolve net n h = Some ips -> Forall ip_ok ips) ->
  PrDial address ∉ tr -> PrDial address ∈ (fetchWellKnown net decodeWellKnown host tr).2 ->
  exists h port ip, netSplitHostPort address = Some (h, port) /\ ParseIP h = Some ip /\ isPublicIP ip = true.
Proof.
  intros Hnet Hold Hin. destruct (fetchWellKnown_emits net Hnet decodeWellKnown host tr) as (evs & E & HP). rewrite E in Hin.
  apply elem_of_app in Hin as [Hin|Hin]; [done|]. rewrite Forall_forall in HP. exact (HP _ Hin).
Qed.

(** ** The cache *)

Section Cache.
Variable net : internet.
Variable decodeWellKnown : bytes -> option bytes.
Variable dbNow : nat -> Z.
Variable jsonb : bytes -> bytes.
Variable marshalInfo : ServerInfoResponse -> option bytes.
Variable unmarshalInfo : bytes -> option ServerInfoResponse.
Variable outOfRange : float64 -> Z.
Hypothesis dbNow_mono : forall m n, (m <= n)%nat -> dbNow m <= dbNow n.

Abbreviation enrich := (Enrich net decodeWellKnown dbNow jsonb marshalInfo unmarshalInfo outOfRange).

(** What else happens to the table: other names are asked for, rows expire. *)
Inductive info_op : Type :=
  | IoEnrich (name : bytes)
  | IoDeleteExpired.

Definition run_info_op (svc : ServerInfoService) (w : world) (op : info_op) : world :=
  match op with
  | IoEnrich name => (enrich (Some svc) name w).2
  | IoDeleteExpired => mkWorld (cacheDeleteExpired dbNow (w_db w)).2 (w_trace w)
  end.

(** The row of [name] holds [info] until [until]. *)
Definition row_holds (name info : bytes) (until : Z) (d : database) : Prop :=
  exists at_, server_info_cache (tbl d) !! name = Some (mkInfoRow info at_ until).

Lemma cacheGet_db name d : (cacheGet dbNow unmarshalInfo name d).2 = advance (tbl d) d.
Proof. unfold cacheGet, queryRow. by destruct (nextOutcome d). Qed.

Lemma exec_tbl effect d (P : tables -> Prop) :
  P (tbl d) -> P (effect (dbNow (statements d)) (tbl d)) -> P (tbl (exec dbNow effect d).2).
Proof. intros H1 H2. unfold exec. destruct (nextOutcome d) as [|? []|]; done. Qed.

Lemma exec_count effect d : statements (exec dbNow effect d).2 = S (statements d).
Proof. unfold exec. by destruct (nextOutcome d). Qed.

Lemma cachePut_count name resp ttl d :
  (statements d <= statements (cachePut dbNow jsonb marshalInfo outOfRange name resp ttl d).2)%nat.
Proof.
  unfold cachePut. case_decide; [done|]. destruct (marshalInfo resp); [|done].
  match goal with |- context [exec dbNow ?f d] => pose proof (exec_count f d); destruct (exec dbNow f d) end. cbn in *. lia.
Qed.

Lemma cachePut_other name name' info until resp ttl d :
  name' <> name -> row_holds name info until d -> row_holds name info until (cachePut dbNow jsonb marshalInfo outOfRange name' resp ttl d).2.
Proof.
  intros Hne Hr. unfold cachePut. case_decide; [done|]. destruct (marshalInfo resp) as [p|]; [|done].
  match goal with |- context [exec dbNow ?f d] =>
    pose proof (exec_tbl f d (fun t => exists a, server_info_cache t !! name = Some (mkInfoRow info a until)) Hr) as HP;
    destruct (exec dbNow f d) as [r d'] end.
  apply HP. destruct Hr as [a Hr]. exists a. cbn. by rewrite lookup_insert_ne.
Qed.

Lemma run_info_op_count svc w op : (statements (w_db w) <= statements (w_db (run_info_op svc w op)))%nat.
Proof.
  destruct op as [name|]; cbn [run_info_op].
  - unfold Enrich. pose proof (cacheGet_db name (w_db w)) as Hd. destruct (cacheGet _ _ name (w_db w)) as [r d]. cbn in Hd.
    assert (Hle : (statements (w_db w) <= statements d)%nat) by (rewrite Hd; cbn; lia).
    destruct r as [[c|]|]; cbn [snd w_db]; [done| |]; destruct (compute _ _ _ _ _) as [resp tr];
      pose proof (cachePut_count name resp (svc_cacheTTL svc) d); destruct (cachePut _ _ _ _ _ _ _ _); cbn in *; lia.
  - unfold cacheDeleteExpired, deleteRows.
    match goal with |- context [exec dbNow ?f ?d] => pose proof (exec_count f d); destruct (exec dbNow f d) end. cbn in *. lia.
Qed.

Lemma run_info_op_holds svc name info until w op :
  match op with IoEnrich name' => name' <> name | IoDeleteExpired => True end ->
  dbNow (statements (w_db (run_info_op svc w op))) < until ->
  row_holds name info until (w_db w) -> row_holds name info until (w_db (run_info_op svc w op)).
Proof.
  intros Hop Hlt Hr. pose proof (run_info_op_count svc w op) as Hc. apply dbNow_mono in Hc.
  assert (Hnow : dbNow (statements (w_db w)) < until) by lia. clear Hc Hlt. destruct op as [name'|]; cbn [run_info_op].
  - unfold Enrich. pose proof (cacheGet_db name' (w_db w)) as Hd. destruct (cacheGet _ _ name' (w_db w)) as [r d]. cbn in Hd.
    assert (Hr' : row_holds name info until d) by (by rewrite Hd).
    destruct r as [[c|]|]; cbn [snd w_db]; [done| |]; destruct (compute _ _ _ _ _) as [resp tr];
      pose proof (cachePut_other name name' info until resp (svc_cacheTTL svc) d Hop Hr'); by destruct (cachePut _ _ _ _ _ _ _ _).
  - unfold cacheDeleteExpired, deleteRows.
    match goal with |- context [exec dbNow ?f ?d] =>
      pose proof (exec_tbl f d (fun t => exists a, server_info_cache t !! name = Some (mkInfoRow info a until)) Hr) as HP end.
    destruct (exec _ _ (w_db w)) as [r d']. cbn in *. apply HP. destruct Hr as [a Hr]. exists a. cbn.
    apply unexpired_lookup; [done|]. cbn. lia.
Qed.

Lemma run_info_ops_count svc ops w : (statements (w_db w) <= statements (w_db (fold_left (run_info_op svc) ops w)))%nat.
Proof.
  revert w. induction ops as [|op ops IH]; intros w; cbn [fold_left]; [done|].
  pose proof (run_info_op_count svc w op). specialize (IH (run_info_op svc w op)). lia.
Qed.

Lemma run_info_ops_holds svc name info until ops w :
  (forall name', IoEnrich name' ∈ ops -> name' <> name) ->
  dbNow (statements (w_db (fold_left (run_info_op svc) ops w))) < until ->
  row_holds name info until (w_db w) -> row_holds name info until (w_db (fold_left (run_info_op svc) ops w)).
Proof.
  revert w. induction ops as [|op ops IH]; intros w Hops Hlt Hr; cbn [fold_left] in *; [done|].
  apply IH; [intros name' Hin; apply Hops; by right|done|]. apply run_info_op_holds; [|  |done].
  - destruct op; [apply Hops; by left|done].
  - pose proof (dbNow_mono _ _ (run_info_ops_count svc ops (run_info_op svc w op))). lia.
Qed.

Lemma enrich_miss svc name w resp w1 payload :
  0 < svc_cacheTTL svc -> (cacheGet dbNow unmarshalInfo name (w_db w)).1 = Ok None -> nextOutcome (advance (tbl (w_db w)) (w_db w)) = ExecOk ->
  enrich (Some svc) name w = (Some resp, w1) -> marshalInfo resp = Some payload ->
  row_holds name (jsonb payload) (dbNow (S (statements (w_db w))) + ttlSeconds outOfRange (svc_cacheTTL svc) * Second) (w_db w1).
Proof.
  intros Httl Hmiss Hok. unfold Enrich. pose proof (cacheGet_db name (w_db w)) as Hd.
  destruct (cacheGet dbNow unmarshalInfo name (w_db w)) as [r d]. cbn in Hmiss, Hd. subst r d.
  destruct (compute _ _ _ _ _) as [resp' tr]. unfold cachePut. rewrite decide_False by lia. intros E Hm.
  destruct (marshalInfo resp') as [p|] eqn:Ep; [|injection E; intros; subst; congruence].
  unfold exec in E. rewrite Hok in E. injection E as <- <-. rewrite Hm in Ep. injection Ep as <-. eexists. cbn. by rewrite lookup_insert_eq.
Qed.

Lemma enrich_hit svc name w resp info until :
  row_holds name info until (w_db w) -> nextOutcome (w_db w) = ExecOk -> dbNow (statements (w_db w)) < until ->
  unmarshalInfo info = Some resp ->
  enrich (Some svc) name w = (Some resp, mkWorld (advance (tbl (w_db w)) (w_db w)) (w_trace w)).
Proof.
  intros [a Hr] Hok Hlt Hu. unfold Enrich, cacheGet, queryRow. rewrite Hok, Hr. cbn. by rewrite decide_True, Hu.
Qed.

End Cache.

(** An answer that was computed and stored is what the same name is answered
    until it expires, whatever other names are asked for and however often expired
    rows are deleted in between; the second answer makes no exchange. *)
Theorem server_info_read_through net decodeWellKnown dbNow jsonb marshalInfo unmarshalInfo outOfRange svc name w resp w1 payload ops :
  let enrich := Enrich net decodeWellKnown dbNow jsonb marshalInfo unmarshalInfo outOfRange (Some svc) name in
  let w2 := fold_left (run_info_op net decodeWellKnown dbNow jsonb marshalInfo unmarshalInfo outOfRange svc) ops w1 in
  (forall m n, (m <= n)%nat -> dbNow m <= dbNow n) ->
  0 < svc_cacheTTL svc -> (cacheGet dbNow unmarshalInfo name (w_db w)).1 = Ok None ->
  nextOutcome (advance (tbl (w_db w)) (w_db w)) = ExecOk -> enrich w = (Some resp, w1) ->
  marshalInfo resp = Some payload -> unmarshalInfo (jsonb payload) = Some resp ->
  (forall name', IoEnrich name' ∈ ops -> name' <> name) -> nextOutcome (w_db w2) = ExecOk ->
  dbNow (statements (w_db w2)) < dbNow (S (statements (w_db w))) + ttlSeconds outOfRange (svc_cacheTTL svc) * Second ->
  (enrich w2).1 = Some resp /\ w_trace (enrich w2).2 = w_trace w2.
Proof.
  intros enrich w2 Hmono Httl Hmiss Hok E Hm Hu Hops Hok2 Hlt.
  pose proof (enrich_miss net decodeWellKnown dbNow jsonb marshalInfo unmarshalInfo outOfRange svc name w resp w1 payload Httl Hmiss Hok E Hm) as Hr.
  apply (run_info_ops_holds net decodeWellKnown dbNow jsonb marshalInfo unmarshalInfo outOfRange Hmono svc name _ _ ops w1 Hops Hlt) in Hr.
  fold w2 in Hr. unfold enrich.
  rewrite (enrich_hit net decodeWellKnown dbNow jsonb marshalInfo unmarshalInfo outOfRange svc name w2 resp _ _ Hr Hok2 Hlt Hu).
  done.
Qed.

(** ** WHOIS *)

(** The fields of a record in order, and the values of those with one of the keys. *)
Definition whoisFields (raw : bytes) : list (bytes * bytes) := omap whoisField (whoisLines raw).
Definition valuesOf (keys : list bytes) (fields : list (bytes * bytes)) : list bytes :=
  map snd (filter (fun kv => kv.1 ∈ keys) fields).

(** The first that is not empty. *)
Definition firstOf (l : list bytes) : bytes := default [] (List.find nonempty l).

(** Each element where it first occurs. *)
Definition firsts (l : list bytes) : list bytes := fold_left (fun acc x => if decide (x ∈ acc) then acc else acc ++ [x]) l [].

Definition fieldsRecord (fields : list (bytes * bytes)) : ServerInfoWhois :=
  mkWhois (firstOf (valuesOf registrarKeys fields))
    (firstOf (map normaliseWhoisDate (valuesOf registeredKeys fields)))
    (firstOf (map normaliseWhoisDate (valuesOf expiresKeys fields)))
    (firstOf (map normaliseWhoisDate (valuesOf updatedKeys fields)))
    (take 8 (firsts (filter (fun ns => ns <> []) (map nameserverOf (valuesOf nameserverKeys fields))))).

Lemma valuesOf_snoc keys fields k v :
  valuesOf keys (fields ++ [(k, v)]) = valuesOf keys fields ++ (if decide (k ∈ keys) then [v] else []).
Proof. unfold valuesOf. rewrite filter_app, map_app. f_equal. cbn. by case_decide. Qed.

Lemma firstOf_snoc l x : firstOf (l ++ [x]) = keep (firstOf l) x.
Proof.
  unfold firstOf, keep. induction l as [|y l IH]; cbn; [by destruct x|]. destruct (nonempty y) eqn:E; cbn; [|done].
  by destruct y.
Qed.

Lemma firsts_snoc l x : firsts (l ++ [x]) = if decide (x ∈ firsts l) then firsts l else firsts l ++ [x].
Proof. unfold firsts. by rewrite fold_left_app. Qed.

(** No key is in two lists. *)
Definition allKeys : list bytes := registrarKeys ++ registeredKeys ++ updatedKeys ++ expiresKeys ++ nameserverKeys.
Lemma keys_distinct : NoDup allKeys.
Proof. apply (bool_decide_unpack _). vm_compute. reflexivity. Qed.

Lemma nameservers_snoc l ns :
  let old := take 8 (firsts (filter (fun ns => ns <> []) l)) in
  take 8 (firsts (filter (fun ns => ns <> []) (l ++ [ns])))
  = if decide (ns = []) then old else if decide (ns ∈ old) then old else if decide (8 <= length old)%nat then old else old ++ [ns].
Proof.
  cbn zeta. rewrite filter_app, filter_cons, filter_nil. destruct (decide (ns = [])) as [->|Hne].
  { by rewrite decide_False, app_nil_r by (by intros []). }
  rewrite decide_True by done. rewrite firsts_snoc. set (f := firsts _). destruct (decide (ns ∈ take 8 f)) as [Hin|Hin].
  { rewrite decide_True; [done|]. rewrite <- (take_drop 8 f). apply elem_of_app. by left. }
  rewrite length_take. destruct (decide (8 <= Nat.min 8 (length f))%nat) as [Hl|Hl].
  - case_decide; [done|]. rewrite take_app_le by lia. done.
  - rewrite (take_ge f) in * by lia. rewrite decide_False by done. rewrite take_ge by (rewrite length_app; cbn; lia). done.
Qed.

Definition seenOf (out : ServerInfoWhois) : gset bytes := list_to_set (w_Nameservers out).

Lemma switch_record fields k v :
  whoisSwitch k v (fieldsRecord fields) (seenOf (fieldsRecord fields))
  = (fieldsRecord (fields ++ [(k, v)]), seenOf (fieldsRecord (fields ++ [(k, v)]))).
Proof.
  pose proof keys_distinct as Hd. unfold allKeys in Hd.
  apply NoDup_app in Hd as (_ & D1 & Hd). apply NoDup_app in Hd as (_ & D2 & Hd). apply NoDup_app in Hd as (_ & D3 & Hd).
  apply NoDup_app in Hd as (_ & D4 & _). specialize (D1 k). specialize (D2 k). specialize (D3 k). specialize (D4 k).
  rewrite !elem_of_app in D1. rewrite !elem_of_app in D2. rewrite elem_of_app in D3. unfold fieldsRecord, seenOf, whoisSwitch. rewrite !valuesOf_snoc. cbn [w_Nameservers].
  destruct (decide (k ∈ registrarKeys)), (decide (k ∈ registeredKeys)), (decide (k ∈ updatedKeys)), (decide (k ∈ expiresKeys)),
    (decide (k ∈ nameserverKeys)); try (exfalso; tauto);
    rewrite ?app_nil_r, ?map_app; cbn [map]; rewrite ?firstOf_snoc; try done.
  rewrite nameservers_snoc. cbn zeta. set (old := take 8 _). set (ns := nameserverOf v).
  destruct (decide (ns = [])); [done|]. destruct (decide (ns ∈ list_to_set old)) as [Hin|Hin]; rewrite elem_of_list_to_set in Hin.
  - by rewrite decide_True.
  - rewrite (decide_False (P := ns ∈ old)) by done. unfold serverInfoWhoisMaxNS.
    destruct (decide (8 <= length old)%nat); [done|]. f_equal. apply set_eq. intros x.
    rewrite elem_of_union, !elem_of_list_to_set, elem_of_app, elem_of_singleton, list_elem_of_singleton. tauto.
Qed.

Lemma lines_record lines :
  fold_left whoisLine lines (emptyWhois, ∅)
  = (fieldsRecord (omap whoisField lines), seenOf (fieldsRecord (omap whoisField lines))).
Proof.
  induction lines as [|line lines IH] using rev_ind; [done|]. rewrite fold_left_app, IH, omap_app. cbn [fold_left omap list_omap].
  unfold whoisLine. destruct (whoisField line) as [[k v]|]; cbn [fst snd]; [apply switch_record|by rewrite app_nil_r].
Qed.

(** The loop over the lines of a WHOIS record computes, of the first 2000
    lines, the first value of the registrar and the first non-empty normal form of
    each date, and the first eight distinct name servers in order, in lower case and
    without the final dot; nothing else of the record is kept, and there is no
    result exactly when all of this is empty. *)
Theorem whois_reference raw :
  parseWhois raw
  = (let out := fieldsRecord (whoisFields raw) in if decide (out = emptyWhois) then None else Some out).
Proof.
  unfold parseWhois, whoisFields. rewrite lines_record. cbn [fst]. generalize (omap whoisField (whoisLines raw)). intros fields. cbv zeta.
  destruct (fieldsRecord fields) as [r1 r2 r3 r4 ns]. unfold emptyWhois. cbn [w_Registrar w_Registered w_Updated w_Expires w_Nameservers].
  case_decide as H1; case_decide as H2; try done; exfalso.
  - apply H2. destruct H1 as (-> & -> & -> & -> & ->). done.
  - apply H1. by injection H2 as -> -> -> -> ->.
Qed.

(** ** The probe is not guarded *)

(** A name with a port has that port dialled at that host, whatever the host is. *)
Theorem probe_dials_named net decodeWellKnown serverName host port tr :
  splitHostPort serverName = (host, port) -> port <> 0 ->
  PrDial (JoinHostPort host (FormatInt port)) ∈ (probeReachability net decodeWellKnown serverName tr).2.
Proof.
  intros E Hp. unfold probeReachability. rewrite E, decide_False by done. unfold resolveFederationTarget.
  unfold pbind at 1. cbn [pret]. rewrite decide_True by done. unfold lookupHostAddresses, LookupIPAddr, probeTLS, clockNow, dial, exchange, pbind, pret.
  destruct (in_dial _ _ _); [|destruct (in_handshake _ _ _) as [[? ?]|]]; cbn [snd]; rewrite ?elem_of_app, ?list_elem_of_singleton; auto.
Qed.

(** ** Witnesses *)

Definition demo_net : internet :=
  mkInternet (fun n => Z.of_nat n * Second) (fun _ _ => Some [mapped (10 * 2 ^ 24 + 1); mapped (93 * 2 ^ 24 + 34)]) (fun _ _ _ => None)
    (fun _ => Some (bs "a.org:443")) (fun _ _ => Some (200, mkStream (bs "{}") None)) (fun _ _ => None) (fun _ sni => Ok (772, sni))
    (fun _ => WhoisTimeout).

Definition demo_decode (body : bytes) : option bytes := Some (bs "matrix.a.org:443").

Lemma demo_net_ok n h ips : in_resolve demo_net n h = Some ips -> Forall ip_ok ips.
Proof. intros [= <-]. repeat constructor; vm_compute; congruence. Qed.

Lemma wellknown_dials_public_witness :
  exists h port ip, netSplitHostPort (bs "93.0.0.34:443") = Some (h, port) /\ ParseIP h = Some ip /\ isPublicIP ip = true.
Proof.
  apply (wellknown_dials_public demo_net demo_decode (bs "a.org") [] (bs "93.0.0.34:443") demo_net_ok); [apply not_elem_of_nil|].
  vm_compute. right. left.
Defined.

Definition demo_svc : ServerInfoService := NewServerInfoService (mkServerInfoConfig true 0 0 true).
Definition demo_clock (n : nat) : Z := Z.of_nat n * Minute.
Definition demo_world : world := mkWorld (mkDatabase (mkTables ∅ ∅ ∅) [] 0 []) [].
Definition demo_info : ServerInfoResponse := (compute demo_net demo_decode demo_svc (bs "a.org") []).1.
Definition demo_enrich : bytes -> world -> option ServerInfoResponse * world :=
  Enrich demo_net demo_decode demo_clock id (fun r => Some (sir_ServerName r)) (fun _ => Some demo_info) (fun _ => 0) (Some demo_svc).
Definition demo_first : world := (demo_enrich (bs "a.org") demo_world).2.
Definition demo_between : list info_op := [IoDeleteExpired; IoEnrich (bs "b.org")].
Definition demo_later : world :=
  fold_left (run_info_op demo_net demo_decode demo_clock id (fun r => Some (sir_ServerName r)) (fun _ => Some demo_info) (fun _ => 0) demo_svc)
    demo_between demo_first.

Lemma server_info_read_through_witness :
  (demo_enrich (bs "a.org") demo_later).1 = Some demo_info /\ w_trace (demo_enrich (bs "a.org") demo_later).2 = w_trace demo_later.
Proof.
  apply (server_info_read_through demo_net demo_decode demo_clock id (fun r => Some (sir_ServerName r)) (fun _ => Some demo_info) (fun _ => 0)
           demo_svc (bs "a.org") demo_world demo_info demo_first (bs "a.org") demo_between); try (vm_compute; reflexivity).
  - intros m n H. unfold demo_clock, Minute, Second. lia.
  - intros name' [E|[E|H]%elem_of_cons]%elem_of_cons; [done|by injection E as ->|by apply not_elem_of_nil in H].
Defined.

(** The handler dials a port of the notary's own host; the address range of carrier
    networks, which the fetcher refuses, is public here. *)
Example handler_dials_loopback :
  (handleServerInfo demo_net demo_decode demo_clock id (fun r => Some (sir_ServerName r)) (fun _ => None) (fun _ => 0) (Some demo_svc)
     (c_Security defaults) (bs "127.0.0.1:5432") demo_world).2.(w_trace)
  = [PrNow; PrResolve (bs "127.0.0.1"); PrNow; PrDial (bs "127.0.0.1:5432"); PrHandshake (bs "127.0.0.1"); PrNow; PrWhois (bs "127.0.0.1")]
  /\ (isPublicIP <$> ParseIP (bs "100.64.0.1")) = Some true /\ (isPrivateIP <$> ParseIP (bs "100.64.0.1")) = Some true.
Proof. vm_compute. auto. Qed.
