(* ===== verification/OpsPages.v ===== *)
(** * Operations pages (server/handlers_transparency_core.go, handlers_cluster_policy.go)

    The pages over the transparency log, the trust policy and the circuit breaker:
    which parameters they accept, what they ask of the component, how its errors are
    answered. [None] as a component is one that is not configured; a page that is
    disabled answers that it is. *)
From S2P Require Import Prelude Decimal GoTime GoStrings GoTimeParse ServerNames TrustPolicy Crypto.
From S2P Require Import Merkle Config NotarySignature HttpApi Transparency CircuitBreaker VerifyTool.
From Stdlib Require Import ZArith Lia.
From stdpp Require Import base gmap list strings fin_maps.
#[local] Open Scope Z_scope.

Definition maxTransparencyVerifyLimit : Z := 10000.

(** handlers_helpers.go. *)
Definition serverNameValidationLimit (sec : SecurityConfig) : Z :=
  if decide (sec_MaxServerNameLength sec <= 0) then maxServerNameLength else sec_MaxServerNameLength sec.

Definition invalidParam {A} : http_response A := HttpApi.HttpError 400 (bs "M_INVALID_PARAM").
Definition logNotEnabled {A} : http_response A := HttpApi.HttpError 404 (bs "M_NOT_FOUND").

(** A parameter [limit] between 1 and [max], [max] or another value by default. *)
Definition strictLimit (limitStr : bytes) (dflt max : Z) : option Z :=
  if decide (limitStr <> []) then
    limit ← Atoi limitStr; if decide (limit <= 0 \/ max < limit) then None else Some limit
  else Some dflt.

(** The parameter [since]: a date or a time; seven days back by default. *)
Definition sinceParam (sinceStr : bytes) (now : Z) : option Z :=
  if decide (sinceStr <> []) then
    match parseTime dashDate sinceStr with
    | Some t => Some (instantOf t)
    | None => instantOf <$> parseTime rfc3339 sinceStr
    end
  else Some (now - 7 * 24 * Hour).

Record logPage : Type := mkLogPage {
  lp_entries : list TransparencyLogEntry;
  lp_count : Z;
  lp_server : bytes;
  lp_since : Z;
  lp_limit : Z;
}.

(** A page over the log, which may be absent. *)
Definition onLog {A : Type} (t : option TransparencyLog) (absent : A) (page : TL A) : A * option TransparencyLog :=
  match t with
  | None => (absent, None)
  | Some t => let '(a, t) := page t in (a, Some t)
  end.

Section Pages.
Variable clock : nat -> gotime.

Definition handleTransparencyLog (sec : SecurityConfig) (serverName sinceStr limitStr : bytes) (t : option TransparencyLog)
  : http_response logPage * option TransparencyLog :=
  onLog t logNotEnabled (fun t =>
    if decide (serverName <> [] /\ ValidateServerName serverName (serverNameValidationLimit sec) <> None) then (invalidParam, t)
    else
      let '(now, t) := if decide (sinceStr = []) then timeNow clock t else (mkTime 0 0, t) in
      match sinceParam sinceStr (instant now) with
      | None => (invalidParam, t)
      | Some since =>
          match strictLimit limitStr 100 1000 with
          | None => (invalidParam, t)
          | Some limit =>
              match Query serverName since (Z.to_nat limit) t with
              | (Err _, t) => (HttpApi.HttpError 500 (bs "M_UNKNOWN"), t)
              | (Ok entries, t) => (HttpValue (mkLogPage entries (len entries) serverName since limit), t)
              end
          end
      end).

(** Whether the chain is valid, the entries checked, and when. *)
Definition handleTransparencyVerify (limitStr : bytes) (t : option TransparencyLog)
  : http_response (bool * Z * gotime) * option TransparencyLog :=
  onLog t logNotEnabled (fun t =>
    match strictLimit limitStr maxTransparencyVerifyLimit maxTransparencyVerifyLimit with
    | None => (invalidParam, t)
    | Some limit =>
        match VerifyChain (Z.to_nat limit) t with
        | (Err _, t) => (HttpApi.HttpError 500 (bs "M_UNKNOWN"), t)
        | (Ok (valid, checked), t) => let '(now, t) := timeNow clock t in (HttpValue (valid, checked, now), t)
        end
    end).

(** transparency_query.go: [Stats]. *)
Record logStats : Type := mkLogStats {
  ls_totalEntries : Z;
  ls_uniqueServers : Z;
  ls_oldestEntry : Z;
  ls_newestEntry : Z;
  ls_lastHash : bytes;
  ls_trackedServers : Z;
  ls_merkleRoot : bytes;
  ls_merkleSize : Z;
}.

Definition extreme (better : Z -> Z -> Z) (rs : list TransparencyLogEntry) : option Z :=
  match map (fun e => instant (te_Timestamp e)) rs with
  | [] => None
  | t :: ts => Some (fold_left better ts t)
  end.

(** [Ok None] is a log that is not enabled. *)
Definition LogStats : TL (result tl_err (option logStats)) := fun t =>
  if negb (tc_Enabled (tl_config t)) then (Ok None, t)
  else
    match statement t with
    | (DbOk, t) =>
        (Ok (Some (mkLogStats (len (rows t)) (len (remove_dups (map te_ServerName (rows t))))
                     (default zeroTime (extreme Z.min (rows t))) (default zeroTime (extreme Z.max (rows t)))
                     (hashPreview (lastHash t)) (Z.of_nat (size (keyHistory t))) (RootHex (merkleTree t)) (TreeLeafCount (merkleTree t)))), t)
    | (_, t) => (Err TlDatabase, t)
    end.

(** [HttpValue None] says that the log is not enabled. *)
Definition handleTransparencyStats (t : option TransparencyLog) : http_response (option logStats) * option TransparencyLog :=
  onLog t (HttpValue None) (fun t =>
    match LogStats t with
    | (Err _, t) => (HttpApi.HttpError 500 (bs "M_UNKNOWN"), t)
    | (Ok stats, t) => (HttpValue stats, t)
    end).

Definition handleTransparencyProof (indexStr : bytes) (t : option TransparencyLog) : http_response Proof_ :=
  match t with
  | None => logNotEnabled
  | Some t =>
      if decide (indexStr = []) then invalidParam
      else match Atoi indexStr with
           | None => invalidParam
           | Some index =>
               if decide (index < 0) then invalidParam
               else match LogGetProof index t with
                    | Some (Ok proof) => HttpValue proof
                    | _ => HttpApi.HttpError 404 (bs "M_NOT_FOUND")
                    end
           end
  end.

Section Signed.
Context {E : Ed25519}.

(** The log is the one the notary holds; [now] is an instant. *)
Definition handleSignedTreeHead (n : Notary) (t : option TransparencyLog) (now : Z) : http_response signedTreeHead :=
  match SignedTreeHead n t now with
  | Some sth => HttpValue sth
  | None => HttpApi.HttpError 404 (bs "M_NOT_FOUND")
  end.

Definition handleNotaryPublicKey (n : Notary) : notaryKey := GetPublicKeyInfo n.

End Signed.
End Pages.

(** ** handlers_cluster_policy.go *)

Record policyStats : Type := mkPolicyStats {
  ps_enabled : bool;
  ps_denyListCount : Z;
  ps_allowListCount : Z;
  ps_requireNotarySignatures : Z;
  ps_maxKeyAgeHours : Z;
  ps_requireWellKnown : bool;
  ps_requireValidTLS : bool;
  ps_blockPrivateIPs : bool;
}.

Definition policyStatsOf (tp : TrustPolicy) : policyStats :=
  mkPolicyStats (enabled tp) (len (denyList tp)) (len (allowList tp)) (requireNotarySignatures tp) (maxKeyAgeHours tp)
    (requireWellKnown tp) (requireValidTLS tp) (blockPrivateIPs tp).

Definition handleTrustPolicyStatus (tp : option TrustPolicy) : option policyStats := policyStatsOf <$> tp.

Inductive policyAnswer : Type :=
  | PolicyDisabled
  | PolicyAllowed (server : bytes)
  | PolicyRefused (server : bytes) (violation : PolicyViolation).

(** [None] is the panic of the policy. *)
Definition handleTrustPolicyCheck (sec : SecurityConfig) (tp : option TrustPolicy) (serverName : bytes)
  : option (http_response policyAnswer) :=
  match tp with
  | None => Some (HttpValue PolicyDisabled)
  | Some tp =>
      if decide (serverName = []) then Some invalidParam
      else if decide (ValidateServerName serverName (serverNameValidationLimit sec) <> None) then Some invalidParam
      else
        violation ← CheckServer tp serverName;
        Some (HttpValue match violation with
                        | Some v => PolicyRefused serverName v
                        | None => PolicyAllowed serverName
                        end)
  end.

Definition handleCircuitBreakerStats (now : Z) (cb : CircuitBreaker) : (Z * Z * Z) * CircuitBreaker := Stats now cb.
