(* ===== verification/Routes.v ===== *)
(** * Routes and the middleware chain (server/server_http.go, routes_admin.go,
      middleware.go, admin_access.go)

    A request passes the request identifier, the security headers, the log and its
    metrics, the rate limiter, the demand for an identifier, and then the routes.
    The table is the one that [setupRoutes] registers; the matching is that of
    [http.ServeMux]: the path is cleaned, its segments are unescaped and compared
    with those of the pattern, a pattern for GET serves HEAD too. What a page does is
    an argument: it changes the rest of the program and gives a status. The pages
    themselves are in HttpApi.v, ServerInfo.v, OpsPages.v and Analytics.v. *)
From S2P Require Import Prelude GoStrings NetIP ClientIP HttpApi RateLimit Float64 Metrics.
From S2P Require Import AppMetrics.
From Stdlib Require Import ZArith Lia.
From stdpp Require Import base gmap list strings fin_maps.
#[local] Open Scope Z_scope.

Inductive page : Type :=
  | handleHealth | handleLiveness | handleReadinessPage | handleStatus | metricsHandler
  | handleServerKeysPage | handleKeyQueryPage | handleServerInfoPage | handleVersion
  | handleSignedTreeHeadPage | handleNotaryPublicKeyPage
  | handleTransparencyLogPage | handleTransparencyVerifyPage | handleTransparencyStatsPage | handleTransparencyProofPage
  | handleAnalyticsSummaryPage | handleAnalyticsServersPage | handleAnalyticsAnomaliesPage | handleAnalyticsTopRotatorsPage
  | handleCircuitBreakerStatsPage
  | handleClusterStatusPage | handleClusterNodesPage
  | handleTrustPolicyStatusPage | handleTrustPolicyCheckPage.
#[export] Instance page_eq_dec : EqDecision page.
Proof. solve_decision. Defined.

Inductive wrapper : Type := Plain | Operational | QueryLimited | Admin.
#[export] Instance wrapper_eq_dec : EqDecision wrapper.
Proof. solve_decision. Defined.

(** ** Patterns *)

Inductive segment : Type := Literal (s : bytes) | Wildcard.

Record pattern : Type := mkPattern {
  p_method : bytes;
  p_segments : list segment;
}.

Definition slash : byte := Byte.x2f.

Definition parseSegment (s : bytes) : segment := if HasPrefix s (bs "{") then Wildcard else Literal s.

(** A method, a space and a rooted path. *)
Definition parsePattern (text : bytes) : pattern :=
  match Split text Byte.x20 with
  | method :: path :: _ => mkPattern method (map parseSegment (Split (drop 1 path) slash))
  | _ => mkPattern [] []
  end.

(** [url.PathUnescape]; a bad escape leaves the segment as it is. *)
Fixpoint unescapeBytes (s : bytes) : option bytes :=
  match s with
  | [] => Some []
  | c :: t =>
      if decide (c = Byte.x25) then
        match t with
        | a :: b :: u => x ← hexDigitValue a; y ← hexDigitValue b; rest ← unescapeBytes u; Some (byte_of_Z (16 * x + y) :: rest)
        | _ => None
        end
      else rest ← unescapeBytes t; Some (c :: rest)
  end.
Definition pathUnescape (s : bytes) : bytes := default s (unescapeBytes s).

(** [path.Clean] of a rooted path, as its segments. *)
Fixpoint cleanSegments (segs done : list bytes) : list bytes :=
  match segs with
  | [] => rev done
  | s :: segs =>
      if decide (s = [] \/ s = bs ".") then cleanSegments segs done
      else if decide (s = bs "..") then cleanSegments segs (drop 1 done)
      else cleanSegments segs (s :: done)
  end.

Definition cleanPath (p : bytes) : bytes :=
  if decide (p = []) then bs "/"
  else
    let p := if decide (head p = Some slash) then p else slash :: p in
    let np := slash :: Join_ (cleanSegments (Split (drop 1 p) slash) []) slash in
    if decide (last p = Some slash /\ np <> bs "/") then np ++ bs "/" else np.

(** The segments of a clean path; a slash at the end is a segment of its own. *)
Definition pathSegments (path : bytes) : list bytes :=
  let segs := map pathUnescape (Split (drop 1 path) slash) in
  match last segs with
  | Some [] => take (length segs - 1) segs ++ [[slash]]
  | _ => segs
  end.

(** The value of the wildcard, empty without one. *)
Fixpoint matchSegments (pat : list segment) (segs : list bytes) : option bytes :=
  match pat, segs with
  | [], [] => Some []
  | Literal l :: pat, s :: segs => if decide (l = s) then matchSegments pat segs else None
  | Wildcard :: pat, s :: segs => if decide (s = [slash]) then None else (_ ← matchSegments pat segs; Some s)
  | _, _ => None
  end.

Definition methodServed (pattern_ method : bytes) : bool :=
  bool_decide (pattern_ = method) || bool_decide (pattern_ = bs "GET" /\ method = bs "HEAD").

(** ** The table *)

Record route : Type := mkRoute {
  rt_pattern : pattern;
  rt_wrapper : wrapper;
  rt_page : page;
}.

(** What the server is configured with, as far as the routes go. *)
Record routeConfig : Type := mkRouteConfig {
  sv_adminAccessToken : bytes;
  sv_requireRequestID : bool;
  sv_hasTransparency : bool;
  sv_hasCluster : bool;
  sv_hasTrustPolicy : bool;
  sv_clientIP : ClientIPPolicy;
}.

Definition handle (text : bytes) (w : wrapper) (p : page) : route := mkRoute (parsePattern text) w p.

Definition registerAdminRoutes (srv : routeConfig) : list route :=
  if decide (sv_adminAccessToken srv = []) then []
  else
    let register text p := handle text Admin p in
    (if sv_hasTransparency srv then
       [register (bs "GET /_mxkeys/transparency/log") handleTransparencyLogPage;
        register (bs "GET /_mxkeys/transparency/verify") handleTransparencyVerifyPage;
        register (bs "GET /_mxkeys/transparency/stats") handleTransparencyStatsPage;
        register (bs "GET /_mxkeys/transparency/proof") handleTransparencyProofPage]
     else [])
    ++ [register (bs "GET /_mxkeys/analytics/summary") handleAnalyticsSummaryPage;
        register (bs "GET /_mxkeys/analytics/servers") handleAnalyticsServersPage;
        register (bs "GET /_mxkeys/analytics/anomalies") handleAnalyticsAnomaliesPage;
        register (bs "GET /_mxkeys/analytics/rotators") handleAnalyticsTopRotatorsPage;
        register (bs "GET /_mxkeys/circuits") handleCircuitBreakerStatsPage]
    ++ (if sv_hasCluster srv then
          [register (bs "GET /_mxkeys/cluster/status") handleClusterStatusPage;
           register (bs "GET /_mxkeys/cluster/nodes") handleClusterNodesPage]
        else [])
    ++ (if sv_hasTrustPolicy srv then
          [register (bs "GET /_mxkeys/policy/status") handleTrustPolicyStatusPage;
           register (bs "GET /_mxkeys/policy/check") handleTrustPolicyCheckPage]
        else []).

Definition setupRoutes (srv : routeConfig) : list route :=
  [handle (bs "GET /_mxkeys/health") Plain handleHealth;
   handle (bs "GET /_mxkeys/live") Plain handleLiveness;
   handle (bs "GET /_mxkeys/ready") Plain handleReadinessPage;
   handle (bs "GET /_mxkeys/status") Operational handleStatus;
   handle (bs "GET /_mxkeys/metrics") Operational metricsHandler;
   handle (bs "GET /_matrix/key/v2/server") Plain handleServerKeysPage;
   handle (bs "GET /_matrix/key/v2/server/{keyID}") Plain handleServerKeysPage;
   handle (bs "POST /_matrix/key/v2/query") QueryLimited handleKeyQueryPage;
   handle (bs "GET /_mxkeys/server-info") QueryLimited handleServerInfoPage;
   handle (bs "GET /_matrix/federation/v1/version") Plain handleVersion;
   handle (bs "GET /_mxkeys/transparency/signed-head") Plain handleSignedTreeHeadPage;
   handle (bs "GET /_mxkeys/notary/key") Plain handleNotaryPublicKeyPage]
  ++ registerAdminRoutes srv.

(** ** Dispatch *)

Inductive dispatched : Type :=
  | BadRequest
  | RedirectTo (path : bytes)
  | NotFound
  | MethodNotAllowed
  | Routed (r : route) (keyID : bytes).

Definition matching (routes : list route) (segs : list bytes) : list (route * bytes) :=
  omap (fun r => keyID ← matchSegments (p_segments (rt_pattern r)) segs; Some (r, keyID)) routes.

(** [ServeMux]: no two patterns of the table match the same path and method. *)
Definition dispatch (routes : list route) (method path : bytes) : dispatched :=
  if decide (path = bs "*") then BadRequest
  else
    let clean := if decide (method = bs "CONNECT") then path else cleanPath path in
    if decide (clean <> path) then RedirectTo clean
    else
      let found := matching routes (pathSegments path) in
      match List.find (fun rk => methodServed (p_method (rt_pattern rk.1)) method) found with
      | Some (r, keyID) => Routed r keyID
      | None => if decide (found = []) then NotFound else MethodNotAllowed
      end.

(** ** The chain *)

Record httpRequest : Type := mkHttpRequest {
  rq_Method : bytes;
  rq_Path : bytes;
  rq_EscapedPath : bytes;
  rq_Headers : RequestHeaders;
  rq_Client : Request;
}.

Inductive answer : Type :=
  | Refused (status : Z) (errcode : bytes)
  | Unrouted (d : dispatched)
  | Served (p : page) (keyID : bytes) (status : Z).

(** The redirect has one of the statuses 301 and 307. *)
Definition statusOf (redirect : Z) (a : answer) : Z :=
  match a with
  | Refused status _ => status
  | Unrouted BadRequest => 400
  | Unrouted (RedirectTo _) => redirect
  | Unrouted NotFound => 404
  | Unrouted MethodNotAllowed => 405
  | Unrouted (Routed _ _) => 200
  | Served _ _ status => status
  end.

Section Chain.
Context {Rate Limiter W : Type}.
Variable NewLimiter : Rate -> Z -> Limiter.
Variable LAllow : Z -> Limiter -> bool * Limiter.
Variable outOfRange : float64 -> Z.
(** A page: its status and what it does to the rest of the program. *)
Variable serve : page -> bytes -> httpRequest -> W -> Registry -> Z * W * Registry.

Abbreviation Limiters := (@RateLimiter Rate Limiter).

(** The limiter, the rest and the metrics. *)
Record state : Type := mkState {
  st_limiter : Limiters;
  st_rest : W;
  st_registry : Registry;
}.

Definition with_registry (f : Registry -> Registry) (s : state) : state := mkState (st_limiter s) (st_rest s) (f (st_registry s)).

(** Two readings of the clock for each limiter. *)
Record clocks : Type := mkClocks { ck_global : Z * Z; ck_query : Z * Z }.

Definition extractIP (srv : routeConfig) (rq : httpRequest) : bytes := clientIPFromRequest (sv_clientIP srv) (rq_Client rq).

(** Sent 429 without the token of the limiter. *)
Definition limited (kind : bytes) (s : state) : answer * state :=
  (Refused 429 (bs "M_LIMIT_EXCEEDED"), with_registry (RecordRateLimited kind) s).

Definition servePage (p : page) (keyID : bytes) (rq : httpRequest) (s : state) : answer * state :=
  let '(status, w, r) := serve p keyID rq (st_rest s) (st_registry s) in (Served p keyID status, mkState (st_limiter s) w r).

Definition withQueryRateLimit (srv : routeConfig) (ck : clocks) (rq : httpRequest) (next : state -> answer * state) (s : state)
  : answer * state :=
  let '(ok, rl) := QueryMiddleware NewLimiter LAllow (ck_query ck).1 (ck_query ck).2 (extractIP srv rq) (st_limiter s) in
  let s := mkState rl (st_rest s) (st_registry s) in
  if (ok : bool) then next s else limited (bs "query") s.

(** Whether the token of the request is the one configured. *)
Definition tokenMatches (srv : routeConfig) (rq : httpRequest) : bool :=
  secureTokenCompare (adminTokenFromRequest (rq_Headers rq)) (sv_adminAccessToken srv).

Definition operationalAccess (srv : routeConfig) (rq : httpRequest) (next : state -> answer * state) (s : state) : answer * state :=
  if decide (sv_adminAccessToken srv <> []) then
    if negb (tokenMatches srv rq) then (Refused 401 (bs "M_UNAUTHORIZED"), s) else next s
  else next s.

(** admin_access.go. *)
Definition adminAccess (srv : routeConfig) (rq : httpRequest) (next : state -> answer * state) (s : state) : answer * state :=
  if decide (sv_adminAccessToken srv = []) then (Refused 404 (bs "M_NOT_FOUND"), s)
  else if negb (tokenMatches srv rq) then (Refused 401 (bs "M_UNAUTHORIZED"), s)
  else next s.

Definition wrapped (srv : routeConfig) (ck : clocks) (w : wrapper) (rq : httpRequest) (next : state -> answer * state) (s : state)
  : answer * state :=
  match w with
  | Plain => next s
  | Operational => operationalAccess srv rq next s
  | QueryLimited => withQueryRateLimit srv ck rq next s
  | Admin => adminAccess srv rq next s
  end.

Definition mux (srv : routeConfig) (ck : clocks) (rq : httpRequest) (s : state) : answer * state :=
  match dispatch (setupRoutes srv) (rq_Method rq) (rq_EscapedPath rq) with
  | Routed r keyID => wrapped srv ck (rt_wrapper r) rq (servePage (rt_page r) keyID rq) s
  | d => (Unrouted d, s)
  end.

Definition requireRequestID (srv : routeConfig) (ck : clocks) (rq : httpRequest) (s : state) : answer * state :=
  if negb (sv_requireRequestID srv) then mux srv ck rq s
  else match normalizeRequestID (h_RequestID (rq_Headers rq)) with
       | Some _ => mux srv ck rq s
       | None =>
           let reason := if decide (TrimSpace (h_RequestID (rq_Headers rq)) = []) then bs "missing_request_id" else bs "invalid_request_id" in
           (Refused 400 (bs "M_INVALID_PARAM"), with_registry (RecordRequestRejection reason) s)
       end.

Definition rateLimited (srv : routeConfig) (ck : clocks) (rq : httpRequest) (s : state) : answer * state :=
  let '(ok, rl) := Middleware NewLimiter LAllow (ck_global ck).1 (ck_global ck).2 (extractIP srv rq) (st_limiter s) in
  let s := mkState rl (st_rest s) (st_registry s) in
  if (ok : bool) then requireRequestID srv ck rq s else limited (bs "global") s.

Definition SecurityHeadersMiddleware (path : bytes) (headers : gmap bytes bytes) : gmap bytes bytes :=
  let headers := <[bs "X-Content-Type-Options" := bs "nosniff"]> headers in
  let headers := <[bs "X-Frame-Options" := bs "DENY"]> headers in
  let headers := <[bs "X-XSS-Protection" := bs "1; mode=block"]> headers in
  let headers := <[bs "Referrer-Policy" := bs "strict-origin-when-cross-origin"]> headers in
  if isAPIPath path then
    <[bs "Pragma" := bs "no-cache"]> (<[bs "Cache-Control" := bs "no-store, no-cache, must-revalidate"]> headers)
  else headers.

(** The headers set before the handler runs, the answer, and the state. *)
Definition Handler (srv : routeConfig) (ck : clocks) (random : option bytes) (seconds : float64) (redirect : Z) (rq : httpRequest) (s : state)
  : gmap bytes bytes * answer * state :=
  let headers := {[bs "X-Request-ID" := RequestIDMiddleware random (rq_Headers rq)]} in
  let headers := SecurityHeadersMiddleware (rq_Path rq) headers in
  let '((a, rl, w), r) :=
    loggingMiddleware outOfRange (rq_Method rq) (rq_Path rq) seconds (fun x => statusOf redirect x.1.1)
      (fun r => let '(a, s) := rateLimited srv ck rq (mkState (st_limiter s) (st_rest s) r) in
                ((a, st_limiter s, st_rest s), st_registry s)) (st_registry s) in
  (headers, a, mkState rl w r).

End Chain.
