(* ===== verification/RoutesProofs.v ===== *)
(** * What the routes and the chain guarantee

    A request that matches a pattern of the table gets that page; a page runs only
    behind the limiters and the token its route demands, and nothing but the
    limiter and the metrics changes when it does not run. *)
From S2P Require Import Prelude GoStrings NetIP ClientIP HttpApi RateLimit Float64 Metrics.
From S2P Require Import AppMetrics Routes.
From Stdlib Require Import ZArith Lia.
From stdpp Require Import base gmap list strings fin_maps.
#[local] Open Scope Z_scope.

(** ** The table has no conflicts *)

(** Some path may match both. *)
Fixpoint compatible (p q : list segment) : bool :=
  match p, q with
  | [], [] => true
  | Literal a :: p, Literal b :: q => bool_decide (a = b) && compatible p q
  | _ :: p, _ :: q => compatible p q
  | _, _ => false
  end.

Lemma matched_compatible p q segs k k' :
  matchSegments p segs = Some k -> matchSegments q segs = Some k' -> compatible p q = true.
Proof.
  revert q segs k k'. induction p as [|[a|] p IH]; intros [|[b|] q] [|s segs] k k' Hp Hq; cbn in *; try done.
  - case_decide; [|done]. case_decide; [|done]. subst. rewrite bool_decide_eq_true_2 by done. cbn. eauto.
  - destruct (decide (a = s)); [|done]. destruct (decide (s = [slash])); [done|]. apply bind_Some in Hq as (? & Hq & _). eauto.
  - destruct (decide (s = [slash])); [done|]. destruct (decide (b = s)); [|done]. apply bind_Some in Hp as (? & Hp & _). eauto.
  - destruct (decide (s = [slash])); [done|]. apply bind_Some in Hp as (? & Hp & _). apply bind_Some in Hq as (? & Hq & _). eauto.
Qed.

(** Two routes that could serve the same request. *)
Definition conflict (r r' : route) : bool :=
  compatible (p_segments (rt_pattern r)) (p_segments (rt_pattern r')) &&
  bool_decide (p_method (rt_pattern r) = p_method (rt_pattern r')).

Fixpoint conflictFree (routes : list route) : bool :=
  match routes with
  | [] => true
  | r :: routes => forallb (fun r' => negb (conflict r r')) routes && conflictFree routes
  end.

Lemma table_conflict_free srv : conflictFree (setupRoutes srv) = true.
Proof.
  unfold setupRoutes, registerAdminRoutes. destruct (decide (sv_adminAccessToken srv = [])); [vm_compute; reflexivity|].
  destruct (sv_hasTransparency srv), (sv_hasCluster srv), (sv_hasTrustPolicy srv); vm_compute; reflexivity.
Qed.

(** Every method of the table is GET or POST. *)
Lemma table_methods srv : Forall (fun r => p_method (rt_pattern r) = bs "GET" \/ p_method (rt_pattern r) = bs "POST") (setupRoutes srv).
Proof.
  unfold setupRoutes, registerAdminRoutes. destruct (decide (sv_adminAccessToken srv = []));
    [|destruct (sv_hasTransparency srv), (sv_hasCluster srv), (sv_hasTrustPolicy srv)];
    cbn [app]; repeat (constructor; [vm_compute; auto|]); constructor.
Qed.

Lemma served_same m m' method :
  (m = bs "GET" \/ m = bs "POST") -> (m' = bs "GET" \/ m' = bs "POST") -> methodServed m method = true -> methodServed m' method = true -> m = m'.
Proof.
  unfold methodServed. rewrite !orb_true_iff, !bool_decide_eq_true.
  intros [->| ->] [->| ->] [<-|[? ->]] [E|[? ?]]; try done.
Qed.

Lemma find_unique {A} (f : A -> bool) l x :
  x ∈ l -> f x = true -> (forall y, y ∈ l -> f y = true -> y = x) -> List.find f l = Some x.
Proof.
  intros Hin Hx Hu. destruct (List.find f l) as [y|] eqn:E.
  - apply find_some in E as [Hy Hfy]. f_equal. apply Hu; [by apply list_elem_of_In|done].
  - exfalso. apply list_elem_of_In in Hin. by rewrite (find_none _ _ E _ Hin) in Hx.
Qed.

Lemma conflictFree_pairs routes r r' :
  conflictFree routes = true -> r ∈ routes -> r' ∈ routes -> r = r' \/ conflict r r' = false \/ conflict r' r = false.
Proof.
  induction routes as [|x routes IH]; cbn; [by intros _ ?%not_elem_of_nil|]. intros [Hx Hc]%andb_true_iff Hr Hr'.
  rewrite forallb_forall in Hx. assert (Hn : forall y, y ∈ routes -> conflict x y = false).
  { intros y Hy. apply list_elem_of_In in Hy. by apply negb_true_iff, Hx. }
  apply elem_of_cons in Hr as [->|Hr]; apply elem_of_cons in Hr' as [->|Hr']; auto.
Qed.

Lemma matching_spec routes segs r k :
  (r, k) ∈ matching routes segs <-> r ∈ routes /\ matchSegments (p_segments (rt_pattern r)) segs = Some k.
Proof.
  unfold matching. rewrite list_elem_of_omap. split.
  - intros (r' & Hr & E). destruct (matchSegments _ _) eqn:Em; [|done]. injection E as <- <-. auto.
  - intros [Hr Em]. exists r. split; [done|]. by rewrite Em.
Qed.

Lemma connect_unserved srv r : r ∈ setupRoutes srv -> methodServed (p_method (rt_pattern r)) (bs "CONNECT") = false.
Proof.
  intros Hr. pose proof (table_methods srv) as Hms. rewrite Forall_forall in Hms. destruct (Hms _ Hr) as [->| ->]; reflexivity.
Qed.

Lemma connect_unrouted srv path r keyID : dispatch (setupRoutes srv) (bs "CONNECT") path <> Routed r keyID.
Proof.
  unfold dispatch. cbv zeta. rewrite (decide_True (P := bs "CONNECT" = bs "CONNECT")) by done. destruct (decide (path = bs "*")); [done|].
  rewrite decide_False by (by intros []). destruct (List.find _ _) as [[r' k']|] eqn:E; [|by destruct (decide (matching _ _ = []))].
  apply find_some in E as [Hin Hs]. apply list_elem_of_In, matching_spec in Hin as [Hr _]. cbn [fst] in Hs.
  by rewrite (connect_unserved srv r' Hr) in Hs.
Qed.

(** A request is routed to a page exactly when its escaped path is clean and
    matches the pattern of that page's route with the value it is given, under a
    method the pattern serves; so the order of registration does not matter. *)
Theorem dispatch_exact srv method path r keyID :
  dispatch (setupRoutes srv) method path = Routed r keyID <->
  path <> bs "*" /\ cleanPath path = path /\ r ∈ setupRoutes srv
  /\ matchSegments (p_segments (rt_pattern r)) (pathSegments path) = Some keyID /\ methodServed (p_method (rt_pattern r)) method = true.
Proof.
  destruct (decide (method = bs "CONNECT")) as [->|Hm].
  { split; [intros E; exfalso; by apply connect_unrouted in E|]. intros (_ & _ & Hr & _ & Hs). exfalso.
    by rewrite (connect_unserved srv r Hr) in Hs. }
  unfold dispatch. rewrite (decide_False (P := method = bs "CONNECT")) by done. cbv zeta.
  destruct (decide (path = bs "*")) as [|Hs]; [split; [done|by intros (? & _)]|].
  destruct (decide (cleanPath path <> path)) as [Hc|Hc]; [split; [done|by intros (_ & ? & _)]|]. apply dec_stable in Hc.
  split.
  - destruct (List.find _ _) as [[r' k']|] eqn:E; [|by case_decide]. intros [= -> ->].
    apply find_some in E as [Hin Hserved]. apply list_elem_of_In, matching_spec in Hin as [? ?]. auto.
  - intros (_ & _ & Hr & Em & Hserved). rewrite (find_unique _ _ (r, keyID)); [done| |done|].
    + by apply matching_spec.
    + intros [r' k'] Hin Hserved'. apply matching_spec in Hin as [Hr' Em']. cbn in Hserved'.
      pose proof (table_methods srv) as Hms. rewrite Forall_forall in Hms.
      pose proof (served_same _ _ method (Hms _ Hr) (Hms _ Hr') Hserved Hserved') as Emeth.
      pose proof (matched_compatible _ _ _ _ _ Em Em') as C1. pose proof (matched_compatible _ _ _ _ _ Em' Em) as C2.
      destruct (conflictFree_pairs _ r r' (table_conflict_free srv) Hr Hr') as [->|[Hf|Hf]].
      * rewrite Em in Em'. by injection Em' as ->.
      * unfold conflict in Hf. by rewrite C1, bool_decide_eq_true_2 in Hf.
      * unfold conflict in Hf. by rewrite C2, bool_decide_eq_true_2 in Hf.
Qed.

(** ** The chain *)

(** What the route of a page demands. *)
Definition demand (p : page) : wrapper :=
  match p with
  | handleHealth | handleLiveness | handleReadinessPage | handleServerKeysPage | handleVersion | handleSignedTreeHeadPage
  | handleNotaryPublicKeyPage => Plain
  | handleStatus | metricsHandler => Operational
  | handleKeyQueryPage | handleServerInfoPage => QueryLimited
  | _ => Admin
  end.

Lemma table_wrappers srv : Forall (fun r => rt_wrapper r = demand (rt_page r)) (setupRoutes srv).
Proof.
  unfold setupRoutes, registerAdminRoutes. destruct (decide (sv_adminAccessToken srv = []));
    [|destruct (sv_hasTransparency srv), (sv_hasCluster srv), (sv_hasTrustPolicy srv)];
    cbn [app]; repeat (constructor; [reflexivity|]); constructor.
Qed.

Lemma dispatch_member routes method path r keyID : dispatch routes method path = Routed r keyID -> r ∈ routes.
Proof.
  unfold dispatch. cbv zeta. destruct (decide (path = bs "*")); [done|].
  match goal with |- context [decide (?c <> path)] => destruct (decide (c <> path)); [done|] end.
  destruct (List.find _ _) as [[r' k']|] eqn:E; [|by destruct (decide (matching _ _ = []))]. intros [= -> ->].
  apply find_some in E as [Hin _]. by apply list_elem_of_In, matching_spec in Hin as [? _].
Qed.

Section Gate.
Context {Rate Limiter W : Type}.
Variable NewLimiter : Rate -> Z -> Limiter.
Variable LAllow : Z -> Limiter -> bool * Limiter.
Variable outOfRange : float64 -> Z.
Variable serve : page -> bytes -> httpRequest -> W -> Registry -> Z * W * Registry.
Variable srv : routeConfig.
Variable ck : clocks.

Abbreviation State := (@state Rate Limiter W).
Abbreviation global rq rl := (Middleware NewLimiter LAllow (ck_global ck).1 (ck_global ck).2 (extractIP srv rq) rl).
Abbreviation queries rq rl := (QueryMiddleware NewLimiter LAllow (ck_query ck).1 (ck_query ck).2 (extractIP srv rq) rl).

(** The demand of a wrapper on a request that reaches it with the limiters [rl]. *)
Definition meets (w : wrapper) (rq : httpRequest) (rl : @RateLimiter Rate Limiter) : Prop :=
  match w with
  | Plain => True
  | Operational => sv_adminAccessToken srv = [] \/ tokenMatches srv rq = true
  | QueryLimited => (queries rq rl).1 = true
  | Admin => sv_adminAccessToken srv <> [] /\ tokenMatches srv rq = true
  end.

(** Either a page ran that [ok] allows, or the rest is as it was. *)
Definition gated (ok : page -> Prop) (s : State) (out : answer * State) : Prop :=
  match out.1 with
  | Served p _ _ => ok p
  | _ => st_rest out.2 = st_rest s
  end.

Lemma wrapped_gated w p keyID rq s :
  gated (fun p' => p' = p /\ meets w rq (st_limiter s)) s (wrapped NewLimiter LAllow srv ck w rq (servePage serve p keyID rq) s).
Proof.
  assert (Hserve : forall rl, meets w rq (st_limiter s) ->
    gated (fun p' => p' = p /\ meets w rq (st_limiter s)) s (servePage serve p keyID rq (mkState rl (st_rest s) (st_registry s)))).
  { intros rl Hw. unfold servePage. destruct (serve _ _ _ _ _) as [[st w'] r']. done. }
  specialize (Hserve (st_limiter s)) as Hplain. replace (mkState (st_limiter s) (st_rest s) (st_registry s)) with s in Hplain by (by destruct s).
  unfold wrapped, operationalAccess, adminAccess. destruct w.
  - by apply Hplain.
  - destruct (decide (sv_adminAccessToken srv <> [])) as [Hne|Hne]; [|apply Hplain; left; by apply dec_stable in Hne]. destruct (tokenMatches srv rq) eqn:E; [|done]. apply Hplain. by right.
  - unfold withQueryRateLimit. pose proof (Hserve (queries rq (st_limiter s)).2) as Hq. unfold meets in Hq at 1.
    destruct (queries rq (st_limiter s)) as [[] rl]; [by apply Hq|done].
  - case_decide; [done|]. destruct (tokenMatches srv rq) eqn:E; [|done]. apply Hplain. by split.
Qed.

Lemma mux_gated rq s : gated (fun p => meets (demand p) rq (st_limiter s)) s (mux NewLimiter LAllow serve srv ck rq s).
Proof.
  unfold mux. destruct (dispatch _ _ _) as [| | | |r keyID] eqn:E; try done. apply dispatch_member in E.
  pose proof (table_wrappers srv) as Hw. rewrite Forall_forall in Hw. specialize (Hw _ E).
  pose proof (wrapped_gated (rt_wrapper r) (rt_page r) keyID rq s) as Hg. unfold gated in *.
  destruct (wrapped _ _ _ _ _ _ _ _) as [[] s']; cbn in *; try done. destruct Hg as [-> Hm]. by rewrite <- Hw.
Qed.

Lemma requireRequestID_gated rq s :
  gated (fun p => (sv_requireRequestID srv = true -> is_Some (normalizeRequestID (h_RequestID (rq_Headers rq)))) /\ meets (demand p) rq (st_limiter s))
    s (requireRequestID NewLimiter LAllow serve srv ck rq s).
Proof.
  pose proof (mux_gated rq s) as Hg. unfold requireRequestID, gated in *. destruct (sv_requireRequestID srv); cbn [negb].
  - destruct (normalizeRequestID _) as [id|] eqn:E; [|done].
    destruct (mux _ _ _ _ _ _ _) as [[] s']; cbn in *; done || (split; done).
  - destruct (mux _ _ _ _ _ _ _) as [[] s']; cbn in *; try done.
Qed.

Lemma rateLimited_gated rq s :
  gated (fun p => (global rq (st_limiter s)).1 = true
                  /\ (sv_requireRequestID srv = true -> is_Some (normalizeRequestID (h_RequestID (rq_Headers rq))))
                  /\ meets (demand p) rq (global rq (st_limiter s)).2)
    s (rateLimited NewLimiter LAllow serve srv ck rq s).
Proof.
  unfold rateLimited. destruct (global rq (st_limiter s)) as [[] rl]; [|done]. cbn [fst snd].
  pose proof (requireRequestID_gated rq (mkState rl (st_rest s) (st_registry s))) as Hg. unfold gated in *.
  destruct (requireRequestID _ _ _ _ _ _ _) as [[] s']; cbn in *; done.
Qed.

End Gate.

(** The headers of an answer, as a table. *)
Definition promisedHeaders (path : bytes) : list (bytes * bytes) :=
  [(bs "X-Content-Type-Options", bs "nosniff"); (bs "X-Frame-Options", bs "DENY"); (bs "X-XSS-Protection", bs "1; mode=block");
   (bs "Referrer-Policy", bs "strict-origin-when-cross-origin")]
  ++ (if isAPIPath path then [(bs "Cache-Control", bs "no-store, no-cache, must-revalidate"); (bs "Pragma", bs "no-cache")] else []).

Lemma headers_promised (path : bytes) (headers : gmap bytes bytes) :
  Forall (fun kv => SecurityHeadersMiddleware path headers !! kv.1 = Some kv.2) (promisedHeaders path)
  /\ SecurityHeadersMiddleware path headers !! bs "X-Request-ID" = headers !! bs "X-Request-ID".
Proof.
  unfold promisedHeaders, SecurityHeadersMiddleware. destruct (isAPIPath path); split.
  all: repeat (apply Forall_cons; split); try (by apply Forall_nil); cbn [fst snd];
    repeat (rewrite lookup_insert_ne by (vm_compute; congruence)); done || apply lookup_insert_eq.
Qed.


(** ** Examples *)

Definition demo_server : routeConfig := mkRouteConfig (bs "secret") false true true true (mkClientIPPolicy false []).

(** The page that a request is routed to. *)
Definition pageAt (srv : routeConfig) (method path : bytes) : option (page * bytes) :=
  match dispatch (setupRoutes srv) method path with Routed r keyID => Some (rt_page r, keyID) | _ => None end.

Example route_vectors :
  pageAt demo_server (bs "GET") (bs "/_matrix/key/v2/server/ed25519%3Aauto") = Some (handleServerKeysPage, bs "ed25519:auto")
  /\ pageAt demo_server (bs "HEAD") (bs "/_mxkeys/%61nalytics/summary") = Some (handleAnalyticsSummaryPage, [])
  /\ dispatch (setupRoutes demo_server) (bs "PUT") (bs "/_matrix/key/v2/query") = MethodNotAllowed
  /\ dispatch (setupRoutes demo_server) (bs "GET") (bs "/_mxkeys/health/") = NotFound
  /\ dispatch (setupRoutes demo_server) (bs "GET") (bs "/a/../_mxkeys//health") = RedirectTo (bs "/_mxkeys/health").
Proof. vm_compute. auto 10. Qed.

(** The probes that the comments and the runbooks name are not routed. *)
Example readyz_not_routed :
  map (fun path => dispatch (setupRoutes demo_server) (bs "GET") path) [bs "/_mxkeys/readyz"; bs "/_mxkeys/livez"] = [NotFound; NotFound]
  /\ pageAt demo_server (bs "GET") (bs "/_mxkeys/ready") = Some (handleReadinessPage, []).
Proof. vm_compute. auto. Qed.
