(* ===== verification/NetTLS.v ===== *)
(** * The transport of the cluster (zero/nettls/nettls.go)

    The TLS policy of listeners and dialers. Files, sockets and the TLS library are
    arguments: whether a file is there, whether a pair of certificate and key loads,
    what a bundle holds, how a connection attempt and a handshake end. Sockets are
    counted: [opened] and [closed] are what was done in order. *)
From S2P Require Import Prelude GoStrings NetIP ServerNames ConfigMap Config ServerInfo.
From Stdlib Require Import ZArith Lia.
From stdpp Require Import base gmap list strings fin_maps.
#[local] Open Scope Z_scope.

Inductive tls_err : Type :=
  | TlsCertMissing | TlsKeyMissing | TlsCAMissing
  | TlsStat (path : bytes)
  | TlsKeyPair | TlsReadCA | TlsNoCertificates
  | TlsListen | TlsDial | TlsHandshake.

Inductive ClientAuthType : Type := NoClientCert | VerifyClientCertIfGiven | RequireAndVerifyClientCert.

Definition tlsMinVersion : Z := 772.

(** The fields of [tls.Config] that are set. *)
Record tlsConfig : Type := mkTlsConfig {
  tc_Certificates : list bytes;
  tc_MinVersion : Z;
  tc_ClientCAs : option bytes;
  tc_RootCAs : option bytes;
  tc_ClientAuth : ClientAuthType;
  tc_ServerName : bytes;
}.

(** [h_pair] loads a certificate with its key; [h_pool] what certificates a bundle
    holds, [None] when it cannot be read, the empty text when it holds none. *)
Record host : Type := mkHost {
  h_stat : bytes -> bool;
  h_pair : bytes -> bytes -> option bytes;
  h_pool : bytes -> option bytes;
}.

Section TLS.
Variable h : host.

Definition Validate (c : ClusterTLSConfig) : option tls_err :=
  if negb (tls_Enabled c) then None
  else if decide (tls_CertFile c = []) then Some TlsCertMissing
  else if decide (tls_KeyFile c = []) then Some TlsKeyMissing
  else if decide (tls_CAFile c = []) then Some TlsCAMissing
  else if negb (h_stat h (tls_CertFile c)) then Some (TlsStat (tls_CertFile c))
  else if negb (h_stat h (tls_KeyFile c)) then Some (TlsStat (tls_KeyFile c))
  else if negb (h_stat h (tls_CAFile c)) then Some (TlsStat (tls_CAFile c))
  else None.

Definition loadCAPool (path : bytes) : result tls_err bytes :=
  match h_pool h path with
  | None => Err TlsReadCA
  | Some pool => if decide (pool = []) then Err TlsNoCertificates else Ok pool
  end.

(** [Ok None] is plain TCP. *)
Definition ServerConfig_ (c : ClusterTLSConfig) : result tls_err (option tlsConfig) :=
  if negb (tls_Enabled c) then Ok None
  else match Validate c with
       | Some e => Err e
       | None =>
           match h_pair h (tls_CertFile c) (tls_KeyFile c) with
           | None => Err TlsKeyPair
           | Some cert =>
               match loadCAPool (tls_CAFile c) with
               | Err e => Err e
               | Ok pool =>
                   Ok (Some (mkTlsConfig [cert] tlsMinVersion (Some pool) None
                         (if tls_RequireClientCert c then RequireAndVerifyClientCert else VerifyClientCertIfGiven) []))
               end
           end
       end.

Definition ClientConfig (c : ClusterTLSConfig) : result tls_err (option tlsConfig) :=
  if negb (tls_Enabled c) then Ok None
  else match Validate c with
       | Some e => Err e
       | None =>
           match loadCAPool (tls_CAFile c) with
           | Err e => Err e
           | Ok pool =>
               match (if tls_RequireClientCert c then
                        match h_pair h (tls_CertFile c) (tls_KeyFile c) with Some cert => Ok [cert] | None => Err TlsKeyPair end
                      else Ok []) with
               | Err e => Err e
               | Ok certs => Ok (Some (mkTlsConfig certs tlsMinVersion None (Some pool) NoClientCert (tls_ServerName c)))
               end
           end
       end.

(** A socket under the TLS layer, if there is one. *)
Record secured : Type := mkSecured { sc_tls : option tlsConfig }.

Inductive socket_op : Type := OpenListener | CloseListener | OpenConn | CloseConn.

Definition Listen (listenOk : bool) (c : ClusterTLSConfig) : result tls_err secured * list socket_op :=
  if negb listenOk then (Err TlsListen, [])
  else match ServerConfig_ c with
       | Err e => (Err e, [OpenListener; CloseListener])
       | Ok scfg => (Ok (mkSecured scfg), [OpenListener])
       end.

Definition set_ServerName (name : bytes) (c : tlsConfig) : tlsConfig :=
  mkTlsConfig (tc_Certificates c) (tc_MinVersion c) (tc_ClientCAs c) (tc_RootCAs c) (tc_ClientAuth c) name.

(** [net.SplitHostPort] is that of ServerInfo.v. *)
Definition sniFor (address : bytes) (c : tlsConfig) : tlsConfig :=
  if decide (tc_ServerName c = []) then
    match netSplitHostPort address with
    | Some (name, _) => if decide (name <> []) then set_ServerName name c else c
    | None => c
    end
  else c.

(** [handshake] is given the configuration of the client. *)
Definition DialContext (dialOk : bool) (handshake : tlsConfig -> bool) (address : bytes) (c : ClusterTLSConfig)
  : result tls_err secured * list socket_op :=
  if negb (tls_Enabled c) then if dialOk then (Ok (mkSecured None), [OpenConn]) else (Err TlsDial, [])
  else match ClientConfig c with
       | Err e => (Err e, [])
       | Ok None => (Err TlsDial, [])
       | Ok (Some ccfg) =>
           let ccfg := sniFor address ccfg in
           if negb dialOk then (Err TlsDial, [])
           else if handshake ccfg then (Ok (mkSecured (Some ccfg)), [OpenConn])
           else (Err TlsHandshake, [OpenConn; CloseConn])
       end.

(** ** What a connection of the cluster is worth *)

(** As many sockets stay open as there are results. *)
Definition balance (ops : list socket_op) : Z :=
  fold_left (fun n op => match op with OpenListener | OpenConn => n + 1 | CloseListener | CloseConn => n - 1 end) ops 0.

Definition held {A} (r : result tls_err A) : Z := match r with Ok _ => 1 | Err _ => 0 end.

Lemma ServerConfig_spec c r :
  ServerConfig_ c = Ok r ->
  if tls_Enabled c then
    exists t pool, r = Some t /\ tc_MinVersion t = 772 /\ tc_ClientCAs t = Some pool /\ loadCAPool (tls_CAFile c) = Ok pool
      /\ tc_ClientAuth t = (if tls_RequireClientCert c then RequireAndVerifyClientCert else VerifyClientCertIfGiven)
  else r = None.
Proof.
  unfold ServerConfig_. destruct (tls_Enabled c); cbn [negb]; [|by intros [= <-]]. destruct (Validate c); [done|].
  destruct (h_pair h _ _) as [cert|]; [|done]. destruct (loadCAPool _) as [pool|] eqn:E; [|done]. intros [= <-].
  eexists _, pool. by split_and!.
Qed.

Lemma ClientConfig_spec c r :
  tls_Enabled c = true -> ClientConfig c = Ok r ->
  exists t pool, r = Some t /\ tc_MinVersion t = 772 /\ tc_RootCAs t = Some pool /\ loadCAPool (tls_CAFile c) = Ok pool
    /\ (tls_RequireClientCert c = true -> exists cert, tc_Certificates t = [cert] /\ h_pair h (tls_CertFile c) (tls_KeyFile c) = Some cert)
    /\ tc_ServerName t = tls_ServerName c.
Proof.
  intros He. unfold ClientConfig. rewrite He. cbn [negb]. destruct (Validate c); [done|].
  destruct (loadCAPool _) as [pool|] eqn:E; [|done]. destruct (tls_RequireClientCert c).
  - destruct (h_pair h _ _) as [cert|] eqn:Ep; [|done]. intros [= <-]. eexists _, pool. split_and!; try done. intros _. by exists cert.
  - intros [= <-]. eexists _, pool. by split_and!.
Qed.

Lemma sniFor_name address t :
  tc_ServerName (sniFor address t)
  = (if decide (tc_ServerName t = []) then default [] (fst <$> netSplitHostPort address) else tc_ServerName t).
Proof.
  unfold sniFor. case_decide as H; [|done]. destruct (netSplitHostPort address) as [[name port]|]; cbn; [|done].
  destruct name as [|b name]; cbn; [by rewrite decide_False by (by intros [])|by rewrite decide_True by done].
Qed.

Lemma sniFor_rest address t :
  let t' := sniFor address t in
  tc_MinVersion t' = tc_MinVersion t /\ tc_RootCAs t' = tc_RootCAs t /\ tc_Certificates t' = tc_Certificates t.
Proof. unfold sniFor. case_decide; [|done]. destruct (netSplitHostPort address) as [[name port]|]; [|done]. by case_decide. Qed.

Lemma Listen_spec listenOk c :
  let '(l, ops) := Listen listenOk c in balance ops = held l /\ (forall s, l = Ok s -> ServerConfig_ c = Ok (sc_tls s)).
Proof.
  unfold Listen. destruct listenOk; [|done]. cbn [negb]. destruct (ServerConfig_ c) as [scfg|e] eqn:E; [|done].
  split; [done|]. by intros s [= <-].
Qed.

Lemma Dial_spec dialOk handshake address c :
  let '(d, ops) := DialContext dialOk handshake address c in
  balance ops = held d
  /\ (forall s, d = Ok s ->
        if tls_Enabled c then exists t, ClientConfig c = Ok (Some t) /\ sc_tls s = Some (sniFor address t) /\ handshake (sniFor address t) = true
        else sc_tls s = None).
Proof.
  unfold DialContext. destruct (tls_Enabled c); cbn [negb]; [|destruct dialOk; split; try done; by intros s [= <-]].
  destruct (ClientConfig c) as [[t|]|e]; try done. destruct dialOk; [|done]. cbn [negb].
  destruct (handshake (sniFor address t)) eqn:E; [|done]. split; [done|]. intros s [= <-]. eauto.
Qed.

(** With TLS enabled a listener and a connection are never in the clear: they
    speak TLS 1.3 at least, check the peer against the certificates of the
    configured bundle, and with client certificates required the listener accepts no
    client without one and the dialer presents its own; the dialer expects the
    configured name, or the host of the address. Disabled, both are plain TCP. In
    every case a socket stays open exactly when it is returned. *)
Theorem transport_policy c listenOk dialOk handshake address :
  let '(l, lops) := Listen listenOk c in
  let '(d, dops) := DialContext dialOk handshake address c in
  balance lops = held l /\ balance dops = held d
  /\ (forall s, l = Ok s ->
        if tls_Enabled c then
          exists t pool, sc_tls s = Some t /\ tc_MinVersion t = 772 /\ tc_ClientCAs t = Some pool /\ loadCAPool (tls_CAFile c) = Ok pool
            /\ tc_ClientAuth t = (if tls_RequireClientCert c then RequireAndVerifyClientCert else VerifyClientCertIfGiven)
        else sc_tls s = None)
  /\ (forall s, d = Ok s ->
        if tls_Enabled c then
          exists t pool, sc_tls s = Some t /\ tc_MinVersion t = 772 /\ tc_RootCAs t = Some pool /\ loadCAPool (tls_CAFile c) = Ok pool
            /\ handshake t = true
            /\ (tls_RequireClientCert c = true -> exists cert, tc_Certificates t = [cert] /\ h_pair h (tls_CertFile c) (tls_KeyFile c) = Some cert)
            /\ tc_ServerName t = (if decide (tls_ServerName c = []) then default [] (fst <$> netSplitHostPort address) else tls_ServerName c)
        else sc_tls s = None).
Proof.
  pose proof (Listen_spec listenOk c) as HL. pose proof (Dial_spec dialOk handshake address c) as HD.
  destruct (Listen listenOk c) as [l lops], (DialContext dialOk handshake address c) as [d dops].
  destruct HL as [HL1 HL2], HD as [HD1 HD2]. split_and!; try done.
  - intros s Hs. apply HL2, ServerConfig_spec in Hs. exact Hs.
  - intros s Hs. apply HD2 in Hs. destruct (tls_Enabled c) eqn:He; [|done]. destruct Hs as (t & Hc & Hs & Hh).
    destruct (ClientConfig_spec c (Some t) He Hc) as (t' & pool & [= <-] & H1 & H2 & H3 & H4 & H5).
    destruct (sniFor_rest address t) as (E1 & E2 & E3). exists (sniFor address t), pool.
    rewrite sniFor_name, E1, E2, E3, H5. by split_and!.
Qed.

End TLS.
