(* ===== verification/RaftTransport.v ===== *)
(** * Remote calls of Raft (internal/zero/raft: network.go, rpc_handlers.go,
      propose.go, lifecycle.go)

    One connection carries one request and one answer: the caller dials, signs and
    writes, the node at the other end reads, verifies, handles, signs and answers.
    The handlers are those of RaftElection.v, RaftAppend.v and RaftSnapshot.v over the
    node, its log file and the state machine; payloads go through the JSON codecs of
    their types. [clock i] is the [i]-th reading of the clock in a call. Nothing of a
    write that fails is delivered. *)
From S2P Require Import Prelude GoTime GoStrings Canonical Auth Wire ConfigMap Config.
From S2P Require Import NetTLS FileIO RaftTypes Wal WalProofs WalStore RaftNode.
From S2P Require Import RaftElection RaftAppend RaftReplication RaftSnapshot.
From Stdlib Require Import ZArith Lia.
From stdpp Require Import base gmap list strings fin_maps.
#[local] Open Scope Z_scope.

Definition MsgPreVote : bytes := bs "pre_vote".
Definition MsgPreVoteRes : bytes := bs "pre_vote_response".
Definition MsgRequestVote : bytes := bs "request_vote".
Definition MsgRequestVoteRes : bytes := bs "request_vote_response".
Definition MsgAppendEntries : bytes := bs "append_entries".
Definition MsgAppendRes : bytes := bs "append_entries_response".
Definition MsgInstallSnapshot : bytes := bs "install_snapshot".
Definition MsgInstallSnapshotRes : bytes := bs "install_snapshot_response".
Definition MsgForwardProposal : bytes := bs "forward_proposal".
Definition MsgForwardProposalRes : bytes := bs "forward_proposal_response".

Record ForwardProposalRequest : Type := mkForwardReq { fq_Command : bytes }.
Record ForwardProposalResponse : Type := mkForwardRes { fp_Error : bytes }.

(** A node with its log file, the state machine and the state directory. *)
Record peerState {A : Type} : Type := mkPeer {
  ps_node : RaftNode.Node;
  ps_wal : WAL;
  ps_app : A;
  ps_world : world;
}.
Arguments peerState : clear implicits.
Arguments mkPeer {A} _ _ _ _.

Definition set_node {A : Type} (n : RaftNode.Node) (s : peerState A) : peerState A := mkPeer n (ps_wal s) (ps_app s) (ps_world s).
Definition remember {A : Type} (seen : gmap bytes Z) (s : peerState A) : peerState A := set_node (set_seenRPCs seen (ps_node s)) s.

Definition wrapResponse {T : Type} `{JsonCodec T} (msgType : bytes) (payload : T) (n : RaftNode.Node) : option RPCMessage :=
  data ← toJSON payload; Some (mkRPC msgType (NodeID (config n)) zeroTime data []).

Section Transport.
Context {A : Type}.
Context (installer : bytes -> Z -> Z -> Z -> A -> (bool * Z) * A).
Context `{EntryCodec}.
Context `{!JsonCodec RPCMessage}.
Context `{!JsonCodec PreVoteRequest, !JsonCodec PreVoteResponse}.
Context `{!JsonCodec RequestVoteRequest, !JsonCodec RequestVoteResponse}.
Context `{!JsonCodec AppendEntriesRequest, !JsonCodec AppendEntriesResponse}.
Context `{!JsonCodec InstallSnapshotRequest, !JsonCodec InstallSnapshotResponse}.
Context `{!JsonCodec ForwardProposalRequest, !JsonCodec ForwardProposalResponse}.
(** The texts of errors of other packages. *)
Context (decodeText contextText : bytes) (walText : wal_err -> bytes).

(** ** Handling *)

Definition preVoteRPC (now : Z) (msg : RPCMessage) (s : peerState A) : option RPCMessage * peerState A :=
  (wrapResponse MsgPreVoteRes (handlePreVote now (fromJSON (Payload msg)) (ps_node s)) (ps_node s), s).

Definition requestVoteRPC (now : Z) (msg : RPCMessage) (s : peerState A) : option RPCMessage * peerState A :=
  let '(resp, n) := handleRequestVote now (fromJSON (Payload msg)) (ps_node s) in
  (wrapResponse MsgRequestVoteRes resp n, set_node n s).

Definition appendEntriesRPC (now : Z) (msg : RPCMessage) (s : peerState A) : option RPCMessage * peerState A :=
  let '(resp, n, (wal, wd)) := handleAppendEntries now (fromJSON (Payload msg)) (ps_node s) (ps_wal s, ps_world s) in
  (wrapResponse MsgAppendRes resp n, mkPeer n wal (ps_app s) wd).

Definition installSnapshotRPC (now : Z) (msg : RPCMessage) (s : peerState A) : option RPCMessage * peerState A :=
  let '((resp, n, wal, a), wd) := handleInstallSnapshot installer now (fromJSON (Payload msg)) (ps_node s) (ps_wal s) (ps_app s) (ps_world s) in
  (wrapResponse MsgInstallSnapshotRes resp n, mkPeer n wal a wd).

Definition submitErrText (e : submit_err) : bytes :=
  match e with
  | ErrNotLeader => bs "not the leader"
  | ErrTimeout => bs "operation timeout"
  | ErrShutdown => bs "node is shutting down"
  | ErrContext => contextText
  | ErrPersist e => bs "raft: persist: " ++ walText e
  end.

(** [waits] is what the wait for the commitment sees; it ends with its context. *)
Definition forwardProposalRPC (waits : list wait_event) (msg : RPCMessage) (s : peerState A) : option RPCMessage * peerState A :=
  let answer text n := wrapResponse MsgForwardProposalRes (mkForwardRes text) n in
  match handleForwardProposal (fq_Command <$> fromJSON (Payload msg)) (ps_node s) with
  | ForwardDecodeError => (answer (bs "decode: " ++ decodeText) (ps_node s), s)
  | ForwardEmpty => (answer (bs "empty command") (ps_node s), s)
  | ForwardNotLeader => (answer (submitErrText ErrNotLeader) (ps_node s), s)
  | ForwardSubmit command _ =>
      let '(r, n, (wal, wd)) := Submit command (ps_node s) (ps_wal s, ps_world s) in
      let s := mkPeer n wal (ps_app s) wd in
      match r with
      | Err e => (answer (submitErrText e) n, s)
      | Ok entry =>
          match default (Err ErrContext) (replicateWait entry waits) with
          | Err e => (answer (submitErrText e) n, s)
          | Ok _ => (answer [] n, s)
          end
      end
  end.

Definition handleRPC (now : Z) (waits : list wait_event) (msg : RPCMessage) (s : peerState A) : option RPCMessage * peerState A :=
  if decide (Type_ msg = MsgPreVote) then preVoteRPC now msg s
  else if decide (Type_ msg = MsgRequestVote) then requestVoteRPC now msg s
  else if decide (Type_ msg = MsgAppendEntries) then appendEntriesRPC now msg s
  else if decide (Type_ msg = MsgInstallSnapshot) then installSnapshotRPC now msg s
  else if decide (Type_ msg = MsgForwardProposal) then forwardProposalRPC waits msg s
  else (None, s).

(** The bytes written, if any. *)
Definition handleConnection (clock : nat -> Z) (waits : list wait_event) (conn : Conn) (s : peerState A) : option bytes * peerState A :=
  match readRPC conn with
  | Err _ => (None, s)
  | Ok msg =>
      let secret := SharedSecret (config (ps_node s)) in
      let '(e, seen) := verifyRPC secret (clock 0%nat) (clock 1%nat) msg (seenRPCs (ps_node s)) in
      let s := remember seen s in
      match e with
      | Some _ => (None, s)
      | None =>
          let '(response, s) := handleRPC (clock 2%nat) waits msg s in
          match response with
          | None => (None, s)
          | Some response =>
              match signRPC (clock 3%nat) secret response with
              | Err _ => (None, s)
              | Ok response =>
                  match writeRPC conn response with
                  | Ok w => (Some w, s)
                  | Err _ => (None, s)
                  end
              end
          end
      end
  end.

(** The connections that are handled: whether the node stops before an [Accept],
    what that returns, and whether the node stops after an error of it. *)
Fixpoint acceptLoop {C : Type} (events : list (bool * option C * bool)) : list C :=
  match events with
  | [] => []
  | (true, _, _) :: _ => []
  | (false, Some conn, _) :: events => conn :: acceptLoop events
  | (false, None, true) :: _ => []
  | (false, None, false) :: events => acceptLoop events
  end.

(** ** Calling *)

Inductive rpc_err : Type :=
  | RpcContext | RpcDial (e : tls_err) | RpcMarshal | RpcSign (e : canon_err)
  | RpcWire (e : wire_err) | RpcAuth (e : auth_err).

(** How the outside behaves in one call: whether the context is done at the start,
    after a failed write, after a failed read; the dial and the handshake; the
    deadlines and the write; the clock. *)
Record callEnv : Type := mkCallEnv {
  ce_ctxStart : bool;
  ce_ctxWrite : bool;
  ce_ctxRead : bool;
  ce_dialOk : bool;
  ce_handshake : tlsConfig -> bool;
  ce_writeDeadline : bool;
  ce_writeOk : bool;
  ce_readDeadline : bool;
  ce_clock : nat -> Z;
}.

Section Sending.
Variable h : host.
Context {P : Type}.
(** What the peer sends when it has received the given bytes. *)
Variable remote : bytes -> P -> bytes * stream_end * P.

Definition sendRPCCtx {T : Type} `{JsonCodec T} (env : callEnv) (tls : ClusterTLSConfig) (peer msgType : bytes) (payload : T)
    (n : RaftNode.Node) (p : P) : result rpc_err RPCMessage * RaftNode.Node * P :=
  if ce_ctxStart env then (Err RpcContext, n, p)
  else match (DialContext h (ce_dialOk env) (ce_handshake env) peer tls).1 with
  | Err e => (Err (RpcDial e), n, p)
  | Ok _ =>
  match toJSON payload with
  | None => (Err RpcMarshal, n, p)
  | Some payloadBytes =>
  let secret := SharedSecret (config n) in
  match signRPC (ce_clock env 1%nat) secret (mkRPC msgType (NodeID (config n)) (ce_clock env 0%nat) payloadBytes []) with
  | Err e => (Err (RpcSign e), n, p)
  | Ok msg =>
  match writeRPC (mkConn (ce_writeDeadline env) [] StreamEOF (ce_writeOk env)) msg with
  | Err e => (Err (if ce_ctxWrite env then RpcContext else RpcWire e), n, p)
  | Ok w =>
  let '(answer, ending, p) := remote w p in
  match readRPC (mkConn (ce_readDeadline env) answer ending true) with
  | Err e => (Err (if ce_ctxRead env then RpcContext else RpcWire e), n, p)
  | Ok response =>
  let '(e, seen) := verifyRPC secret (ce_clock env 2%nat) (ce_clock env 3%nat) response (seenRPCs n) in
  let n := set_seenRPCs seen n in
  match e with
  | Some e => (Err (RpcAuth e), n, p)
  | None => (Ok response, n, p)
  end end end end end end.

Definition background (env : callEnv) : callEnv :=
  mkCallEnv false false false (ce_dialOk env) (ce_handshake env) (ce_writeDeadline env) (ce_writeOk env) (ce_readDeadline env) (ce_clock env).

Definition sendRPC {T : Type} `{JsonCodec T} (env : callEnv) := sendRPCCtx (T := T) (background env).

Inductive propose_err : Type :=
  | ProposeContext | ProposeLocal (e : submit_err) | NoLeader
  | ForwardFailed (e : rpc_err) | ForwardDecode | ForwardRejected (text : bytes).

(** [Propose] on a node that is not the leader. *)
Definition forward (env : callEnv) (tls : ClusterTLSConfig) (leader command : bytes) (n : RaftNode.Node) (p : P)
  : option propose_err * RaftNode.Node * P :=
  match sendRPCCtx env tls leader MsgForwardProposal (mkForwardReq command) n p with
  | (Err e, n, p) => (Some (ForwardFailed e), n, p)
  | (Ok resp, n, p) =>
      match fromJSON (Payload resp) with
      | None => (Some ForwardDecode, n, p)
      | Some (mkForwardRes text) => (if decide (text <> []) then Some (ForwardRejected text) else None, n, p)
      end
  end.

(** [Propose], with the log file of the node. *)
Definition proposeCall (env : callEnv) (tls : ClusterTLSConfig) (waits : list wait_event) (command : bytes)
    (n : RaftNode.Node) (w : WAL * world) (p : P) : option propose_err * RaftNode.Node * (WAL * world) * P :=
  match Propose (ce_ctxStart env) command n with
  | ProposeContextErr => (Some ProposeContext, n, w, p)
  | ProposeNoLeader => (Some NoLeader, n, w, p)
  | ProposeForward leader command => let '(e, n, p) := forward env tls leader command n p in (e, n, w, p)
  | ProposeSubmit =>
      match Submit command n w with
      | (Err e, n, w) => (Some (ProposeLocal e), n, w, p)
      | (Ok entry, n, w) =>
          match default (Err ErrContext) (replicateWait entry waits) with
          | Err e => (Some (ProposeLocal e), n, w, p)
          | Ok _ => (None, n, w, p)
          end
      end
  end.

End Sending.

(** A node that serves one connection. *)
Definition servedPeer (clock : nat -> Z) (waits : list wait_event) (w : bytes) (s : peerState A) : bytes * stream_end * peerState A :=
  let '(out, s) := handleConnection clock waits (mkConn true w StreamEOF true) s in (default [] out, StreamEOF, s).

End Transport.

(** ** What a call over the network guarantees *)

From S2P Require Import Crypto EntryJson.

(** ** Authentication *)

(** A message that the clock could not have sent is refused. *)
Lemma zero_time_refused secret now now' msg seen seen' :
  zeroTime + maxRPCSkew < now -> verifyRPC secret now now' msg seen = (None, seen') -> Timestamp msg <> zeroTime.
Proof.
  intros Hnow Hv Hz. unfold verifyRPC, verifySigned in Hv. case_decide; [done|].
  rewrite decide_True in Hv; [done|]. left. rewrite Hz. unfold timeSub, maxRPCSkew, Minute, Second in *. lia.
Qed.

(** The signature of [msg] under [secret], within the window, and not remembered. *)
Record authentic (secret : bytes) (now now' : Z) (msg : RPCMessage) (seen : gmap bytes Z) : Prop := {
  au_mac : exists payload, rpcMACPayload msg = Ok payload /\ Signature msg = Hex.EncodeToString (Hmac.hmac_sha256 secret payload);
  au_window : - maxRPCSkew <= timeSub now (Timestamp msg) <= maxRPCSkew;
  au_fresh : forall t, seen !! Signature msg = Some t -> t < now' - maxRPCSkew;
}.

Lemma accepted_authentic secret now now' msg seen seen' :
  zeroTime + maxRPCSkew < now -> verifyRPC secret now now' msg seen = (None, seen') -> authentic secret now now' msg seen.
Proof.
  intros Hnow Hv. pose proof (zero_time_refused _ _ _ _ _ _ Hnow Hv) as Hz.
  apply (verify_accepts _ secret) in Hv as (payload & Hp & Hs & Hw & Ht); [|apply signs_rpc|done].
  split; [eauto|done|]. intros t Hl. destruct (decide (t < now' - maxRPCSkew)) as [|Hge]; [done|]. exfalso.
  rewrite (track_refuses _ _ _ _ _ t Hl) in Ht; [done|lia].
Qed.

Section Proofs.
Context {A : Type}.
Context (installer : bytes -> Z -> Z -> Z -> A -> (bool * Z) * A).
Context `{EntryCodec}.
Context `{!JsonCodec RPCMessage}.
Context `{!JsonCodec PreVoteRequest, !JsonCodec PreVoteResponse}.
Context `{!JsonCodec RequestVoteRequest, !JsonCodec RequestVoteResponse}.
Context `{!JsonCodec AppendEntriesRequest, !JsonCodec AppendEntriesResponse}.
Context `{!JsonCodec InstallSnapshotRequest, !JsonCodec InstallSnapshotResponse}.
Context `{!JsonCodec ForwardProposalRequest, !JsonCodec ForwardProposalResponse}.
Context (decodeText contextText : bytes) (walText : wal_err -> bytes).

Abbreviation handleRPC' := (handleRPC installer decodeText contextText walText).
Abbreviation handleConnection' := (handleConnection installer decodeText contextText walText).
Abbreviation servedPeer' := (servedPeer installer decodeText contextText walText).

(** Whatever bytes arrive on a connection, the handlers run at most once, and
    only on a message read from it that carries the HMAC of its type, sender,
    timestamp and payload under the node's secret, was sent within five minutes of
    the node's clock and is not remembered. Otherwise nothing is answered, and nothing
    of the node but the memory of signatures changes. *)
Theorem only_authenticated_rpcs (clock : nat -> Z) (waits : list wait_event) (conn : Conn) (s : peerState A)
    (Hclock : zeroTime + maxRPCSkew < clock 0%nat) :
  let '(out, s') := handleConnection' clock waits conn s in
  (out = None /\ exists seen, s' = remember seen s)
  \/ exists msg seen, readRPC conn = Ok msg
       /\ authentic (SharedSecret (config (ps_node s))) (clock 0%nat) (clock 1%nat) msg (seenRPCs (ps_node s))
       /\ s' = (handleRPC' (clock 2%nat) waits msg (remember seen s)).2.
Proof.
  unfold handleConnection. destruct (readRPC conn) as [msg|e] eqn:Er.
  2:{ left. split; [done|]. exists (seenRPCs (ps_node s)). by destruct s as [[]]. }
  destruct (verifyRPC _ _ _ _ _) as [[e|] seen] eqn:Ev; [left; split; [done|by exists seen]|].
  pose proof (accepted_authentic _ _ _ _ _ _ Hclock Ev) as Ha.
  destruct (handleRPC _ _ _ _ _ _ _ _) as [[r|] s'] eqn:Eh.
  2:{ right. exists msg, seen. rewrite Eh. done. }
  destruct (signRPC _ _ _); [destruct (writeRPC _ _)|]; right; exists msg, seen; rewrite Eh; done.
Qed.

(** ** A call *)

(** A message that JSON represents exactly and that fits on the wire. *)
Definition carried (m : RPCMessage) : Prop := exists t, toJSON m = Some t /\ is_line t /\ fromJSON t = Some m /\ len t <= maxRaftMessageSize.

Lemma write_carried m dl inc e ok :
  carried m -> dl = true -> ok = true -> exists w, writeRPC (mkConn dl inc e ok) m = Ok w /\ forall e' ok', readRPC (mkConn true w e' ok') = Ok m.
Proof.
  intros (t & Ht & Hl & Hd & Hlen) -> ->. exists (t ++ [Byte.x0a]).
  assert (writeRPC (mkConn true inc e true) m = Ok (t ++ [Byte.x0a])) as Hw.
  { unfold writeRPC, writeFramed. rewrite Ht. by rewrite decide_False by lia. }
  split; [done|]. intros e' ok'. apply (write_read _ (mkConn true inc e true) m (t ++ [Byte.x0a]) _ []); [by exists t|done|done|].
  by rewrite app_nil_r.
Qed.

Definition signedRPC (now : Z) (secret : bytes) (m : RPCMessage) : RPCMessage := match signRPC now secret m with Ok sm => sm | Err _ => m end.

Lemma sign_signedRPC now secret m : signRPC now secret m = Ok (signedRPC now secret m).
Proof.
  unfold signedRPC, signRPC. cbv zeta. match goal with |- context [rpcMACPayload ?x] => destruct (rpcMACPayload_ok x) as [p Hp] end. by rewrite Hp.
Qed.

(** What is signed has a timestamp and the signature of its fields. *)
Lemma signedRPC_accepted t secret m now now' seen :
  let sm := signedRPC t secret m in
  t <> zeroTime -> - maxRPCSkew <= now - Timestamp sm <= maxRPCSkew -> seen !! Signature sm = None ->
  exists seen', verifyRPC secret now now' sm seen = (None, seen').
Proof.
  intros sm Ht Hw Hf. assert (exists m' p, Timestamp m' <> zeroTime /\ rpcMACPayload m' = Ok p
    /\ sm = set_signature (Hex.EncodeToString (Hmac.hmac_sha256 secret p)) m') as (m' & p & Hz & Hp & E).
  { unfold sm, signedRPC, signRPC. set (m' := if decide (Timestamp m = zeroTime) then _ else m).
    destruct (rpcMACPayload_ok m') as [p Hp]. rewrite Hp. exists m', p. split_and!; [|done|done].
    unfold m'. by destruct (decide (Timestamp m = zeroTime)). }
  rewrite E in *. eexists. apply signed_accepted; [done|done|done|by left].
Qed.

(** A call of [n] to the node of [s]: [env] is the caller's side, [clock] the clock of
    the other node, [request] and [answer] what is signed on either side. One secret,
    a working network, clocks that agree up to five minutes, messages that JSON
    carries and signatures that were not seen. *)
Record working (h : host) (env : callEnv) (tls : ClusterTLSConfig) (peer : bytes) (clock : nat -> Z)
    (request answer : RPCMessage) (n : RaftNode.Node) (s : peerState A) : Prop := {
  wk_ctx : ce_ctxStart env = false;
  wk_dial : exists c, (DialContext h (ce_dialOk env) (ce_handshake env) peer tls).1 = Ok c;
  wk_io : ce_writeDeadline env = true /\ ce_writeOk env = true /\ ce_readDeadline env = true;
  wk_secret : SharedSecret (config (ps_node s)) = SharedSecret (config n);
  wk_carried : carried request /\ carried answer;
  wk_times : ce_clock env 1%nat <> zeroTime /\ clock 3%nat <> zeroTime;
  wk_there : - maxRPCSkew <= clock 0%nat - Timestamp request <= maxRPCSkew;
  wk_back : - maxRPCSkew <= ce_clock env 2%nat - Timestamp answer <= maxRPCSkew;
  wk_fresh : seenRPCs (ps_node s) !! Signature request = None /\ seenRPCs n !! Signature answer = None;
}.

Lemma served clock waits request w r (s s' : peerState A) seen :
  readRPC (mkConn true w StreamEOF true) = Ok request ->
  verifyRPC (SharedSecret (config (ps_node s))) (clock 0%nat) (clock 1%nat) request (seenRPCs (ps_node s)) = (None, seen) ->
  handleRPC' (clock 2%nat) waits request (remember seen s) = (Some r, s') ->
  carried (signedRPC (clock 3%nat) (SharedSecret (config (ps_node s))) r) ->
  exists w', servedPeer' clock waits w s = (w', StreamEOF, s')
    /\ forall e ok, readRPC (mkConn true w' e ok) = Ok (signedRPC (clock 3%nat) (SharedSecret (config (ps_node s))) r).
Proof.
  intros Hr Hv Hh Hc. destruct (write_carried _ true w StreamEOF true Hc eq_refl eq_refl) as (w' & Hw & Hrd).
  exists w'. split; [|done]. unfold servedPeer, handleConnection. rewrite Hr. rewrite Hv. rewrite Hh. rewrite sign_signedRPC. by rewrite Hw.
Qed.

(** What the other node remembers once it has accepted the request. *)
Definition afterRequest (clock : nat -> Z) (request : RPCMessage) (s : peerState A) : gmap bytes Z :=
  (verifyRPC (SharedSecret (config (ps_node s))) (clock 0%nat) (clock 1%nat) request (seenRPCs (ps_node s))).2.


End Proofs.

(** ** A vote over the network *)

Definition voteConfig (id : bytes) : RaftTypes.Config := mkConfig id (bs "::1") 7947 [] second second second (bs "s") [].
Definition voter (id : bytes) : RaftNode.Node := NewNode (voteConfig id) 0.
Definition voterPeer : peerState unit := mkPeer (voter (bs "b")) (mkWAL (HOpen []) [] true false) tt (World ∅ []).
Definition demoVote : RequestVoteRequest := mkVoteReq 1 (bs "a") 0 0.
Definition clockFrom (t : Z) (i : nat) : Z := t + Z.of_nat i.
Definition demoEnv : callEnv := mkCallEnv false false false true (fun _ => true) true true true (clockFrom 10).
Definition plainTLS : ClusterTLSConfig := mkClusterTLSConfig false [] [] [] false [] [].
Definition demoRequest : RPCMessage := signedRPC 11 (bs "s") (mkRPC MsgRequestVote (bs "a") 10 (bs "q") []).
Definition demoAnswer : RPCMessage := mkRPC MsgRequestVoteRes (bs "b") zeroTime (bs "r") [].
Definition demoSigned : RPCMessage := signedRPC 23 (bs "s") demoAnswer.

Definition noCodec (T : Type) : JsonCodec T := {| toJSON _ := None; fromJSON _ := None |}.
#[local] Instance voteMessages : JsonCodec RPCMessage := {|
  toJSON m := Some (Type_ m);
  fromJSON t := if decide (t = MsgRequestVote) then Some demoRequest else if decide (t = MsgRequestVoteRes) then Some demoSigned else None |}.
#[local] Instance voteRequests : JsonCodec RequestVoteRequest := {|
  toJSON _ := Some (bs "q"); fromJSON t := if decide (t = bs "q") then Some demoVote else None |}.
#[local] Instance voteResponses : JsonCodec RequestVoteResponse := {|
  toJSON r := Some (if rvr_VoteGranted r then bs "r" else bs "n"); fromJSON t := None |}.
#[local] Instance preVoteRequests : JsonCodec PreVoteRequest := noCodec _.
#[local] Instance preVoteResponses : JsonCodec PreVoteResponse := noCodec _.
#[local] Instance appendRequests : JsonCodec AppendEntriesRequest := noCodec _.
#[local] Instance appendResponses : JsonCodec AppendEntriesResponse := noCodec _.
#[local] Instance snapshotRequests : JsonCodec InstallSnapshotRequest := noCodec _.
#[local] Instance snapshotResponses : JsonCodec InstallSnapshotResponse := noCodec _.
#[local] Instance forwardRequests : JsonCodec ForwardProposalRequest := noCodec _.
#[local] Instance forwardResponses : JsonCodec ForwardProposalResponse := noCodec _.

Definition voteInstaller (payload : bytes) (size index term : Z) (a : unit) : (bool * Z) * unit := ((true, size), a).
Definition voteHost : host := mkHost (fun _ => true) (fun _ _ => None) (fun _ => None).

Lemma demo_carried m :
  Type_ m ∈ [MsgRequestVote; MsgRequestVoteRes] -> fromJSON (Type_ m) = Some m -> carried m.
Proof.
  intros Hin Hd. exists (Type_ m). split; [reflexivity|]. assert (is_line (Type_ m) /\ len (Type_ m) <= maxRaftMessageSize) as [Hl Hn]; [|done].
  clear Hd. repeat (apply elem_of_cons in Hin as [->|Hin];
    [split; [split; [done|]; split; [refine (bool_decide_eq_true_1 _ _); by vm_compute|by vm_compute]|by vm_compute]|]).
  by apply elem_of_nil in Hin.
Qed.

Lemma demo_working : working voteHost demoEnv plainTLS (bs "b") (clockFrom 20) demoRequest demoSigned (voter (bs "a")) voterPeer.
Proof.
  split; [done|by eexists|done|done| | |by vm_compute|by vm_compute|].
  - split; apply demo_carried; [by constructor|reflexivity|by do 2 constructor|reflexivity].
  - by vm_compute.
  - split; apply lookup_empty.
Qed.


Lemma only_authenticated_rpcs_witness :
  let '(out, s') := handleConnection voteInstaller [] [] (fun _ => []) (clockFrom 20) [] (mkConn true (bs "junk") StreamEOF true) voterPeer in
  (out = None /\ exists seen, s' = remember seen voterPeer)
  \/ exists msg seen, readRPC (mkConn true (bs "junk") StreamEOF true) = Ok msg
       /\ authentic (bs "s") 20 21 msg ∅
       /\ s' = (handleRPC voteInstaller [] [] (fun _ => []) 22 [] msg (remember seen voterPeer)).2.
Proof.
  apply (only_authenticated_rpcs voteInstaller [] [] (fun _ => []) (clockFrom 20) [] (mkConn true (bs "junk") StreamEOF true) voterPeer).
  vm_compute. reflexivity.
Defined.
