(* ===== verification/Lifecycle.v ===== *)
(** * Building, running and stopping the server (server/server.go: New,
      server_run.go, server_lifecycle.go, cmd/mxkeys/main.go)

    [New] turns a configuration into components, each by its own constructor; what
    the outside world answers is an argument. Stopping is a sequence of actions on
    the parts that run, recorded in order; each part can be stopped once, and
    [sql.DB.Close] again is no error. *)
From S2P Require Import Prelude GoTime GoStrings NetIP ServerNames TrustPolicy NotarySignature ClientIP.
From S2P Require Import ConfigMap Config ClusterState ClusterNet KeyProvider Transparency HttpApi ServerInfo.
From S2P Require Import Canonical Routes.
From Stdlib Require Import ZArith Lia.
From stdpp Require Import base gmap list strings fin_maps.
#[local] Open Scope Z_scope.

(** ** New *)

Inductive new_err : Type :=
  | NewOpen | NewPing | NewMigrations | NewTrustedNotaries
  | NewProviderErr (e : key_err)
  | NewSigningKey | NewNotary | NewClientIP
  | NewTransparency (e : tl_err)
  | NewClusterErr | NewServerInfoCacheErr.

(** What the constructors that reach outside answer; [dp_table] is the database of
    the transparency log. *)
Record dependencies : Type := mkDependencies {
  dp_open : bool;
  dp_ping : bool;
  dp_migrations : bool;
  dp_environ : list bytes;
  dp_signingKey : bool;
  dp_notary : bool;
  dp_table : TransparencyLog;
  dp_clock : nat -> Z;
}.

Record notaryConfig : Type := mkNotaryConfig {
  nc_ServerName : bytes;
  nc_KeyProvider : provider;
  nc_ValidityHours : Z;
  nc_CacheTTLHours : Z;
  nc_FallbackServers : list bytes;
  nc_FetchTimeout : Z;
  nc_TrustedNotaries : list TrustedNotaryKey;
  nc_MaxSignaturesPerKey : Z;
  nc_BlockPrivateIPs : bool;
}.

Record Server : Type := mkServer {
  s_notary : notaryConfig;
  s_rateLimit : Config.RateLimitConfig;
  s_trustPolicy : option TrustPolicy;
  s_transparency : option TransparencyLog;
  s_cluster : option Cluster;
  s_broadcasts : bool;
  s_serverInfo : option ServerInfoService;
  s_routes : list route;
}.

(** [DefaultRateLimitConfig] when no rate is configured. *)
Definition rateLimitOf (c : Config.RateLimitConfig) : Config.RateLimitConfig :=
  if floatNonPos (rl_RequestsPerSecond c) then mkRateLimitConfig (FFinite 100 0) 200 (FFinite 10 0) 20 else c.

Definition clusterConfigOf (cfg : Config) : Config.ClusterConfig :=
  let c := c_Cluster cfg in
  let nodeID := if decide (cl_NodeID c = []) then srv_Name (c_Server cfg) else cl_NodeID c in
  mkClusterConfig (cl_Enabled c) nodeID (cl_BindAddress c) (cl_BindPort c) (cl_AdvertiseAddress c) (cl_AdvertisePort c) (cl_Seeds c)
    (cl_ConsensusMode c) (cl_SyncInterval c) (cl_SharedSecret c) (cl_RaftStateDir c) (cl_RaftSyncOnAppend c) (cl_RaftCompactionInterval c)
    (cl_RaftCompactionLogThreshold c) (cl_TLS c).

(** [cluster.NewCluster] has an error in its type and returns none. *)
Definition newCluster (clock : nat -> Z) (c : Config.ClusterConfig) : result new_err Cluster := Ok (NewCluster clock c).

(** [db] tells whether the handle is there. *)
Definition NewServerInfoCache (db : bool) : result new_err unit := if db then Ok tt else Err NewServerInfoCacheErr.

Definition when {A : Type} (b : bool) (e : new_err) (k : result new_err A) : result new_err A := if b then k else Err e.

(** The policy of client addresses is a variable of the package: it is set on the
    way and stays when a later step fails. *)
Definition New (cfg : Config) (dp : dependencies) (policy : ClientIPPolicy) : result new_err Server * ClientIPPolicy :=
  match when (dp_open dp) NewOpen (when (dp_ping dp) NewPing (when (dp_migrations dp) NewMigrations
          match decodeTrustedNotaries (sec_TrustedNotaries (c_Security cfg)) with
          | None => Err NewTrustedNotaries
          | Some trusted =>
              match buildKeyProvider (dp_environ dp) (c_Keys cfg) with
              | Err e => Err (NewProviderErr e)
              | Ok p => when (dp_signingKey dp) NewSigningKey (when (dp_notary dp) NewNotary (Ok (trusted, p)))
              end
          end)) with
  | Err e => (Err e, policy)
  | Ok (trusted, p) =>
      let k := c_Keys cfg in
      let notary := mkNotaryConfig (srv_Name (c_Server cfg)) p (keys_ValidityHours k) (keys_CacheTTLHours k) (c_Fallback cfg)
                      (wrap_int (keys_FetchTimeoutS k * Second)) trusted (sec_MaxSignaturesPerKey (c_Security cfg)) (BlockPrivateIPs (c_TrustPolicy cfg)) in
      let sec := c_Security cfg in
      let '(ok, policy) := ConfigureClientIPPolicy (sec_TrustForwardedHeaders sec) (sec_TrustedProxies sec) policy in
      if negb ok then (Err NewClientIP, policy)
      else
        match (if tc_Enabled (c_Transparency cfg) then
                 match NewTransparencyLog (c_Transparency cfg) (dp_table dp) with Ok t => Ok (Some t) | Err e => Err e end
               else Ok None) with
        | Err e => (Err (NewTransparency e), policy)
        | Ok transparency =>
            let trustPolicy := if Enabled (c_TrustPolicy cfg) then Some (NewTrustPolicy (c_TrustPolicy cfg)) else None in
            match (if cl_Enabled (c_Cluster cfg) then
                     match newCluster (dp_clock dp) (clusterConfigOf cfg) with Ok c => Ok (Some c) | Err e => Err e end
                   else Ok None) with
            | Err e => (Err e, policy)
            | Ok cluster =>
                match (if si_Enabled (c_ServerInfo cfg) then
                         match NewServerInfoCache (dp_open dp) with Ok _ => Ok (Some (NewServerInfoService (c_ServerInfo cfg))) | Err e => Err e end
                       else Ok None) with
                | Err e => (Err e, policy)
                | Ok serverInfo =>
                    let routes := setupRoutes (mkRouteConfig (sec_AdminAccessToken sec) (sec_RequireRequestID sec)
                                    (bool_decide (is_Some transparency)) (bool_decide (is_Some cluster)) (bool_decide (is_Some trustPolicy)) policy) in
                    (Ok (mkServer notary (rateLimitOf (c_RateLimit cfg)) trustPolicy transparency cluster (bool_decide (is_Some cluster))
                           serverInfo routes), policy)
                end
            end
        end
  end.

(** ** Stopping *)

Definition defaultShutdownTimeout : Z := 30 * Second.
Definition defaultPredrainDelay : Z := 5 * Second.

Definition shutdownTimeout (c : ServerConfig) : Z :=
  if decide (0 < srv_ShutdownTimeout c) then srv_ShutdownTimeout c else defaultShutdownTimeout.
Definition predrainDelay (c : ServerConfig) : Z :=
  if decide (0 < srv_PredrainDelay c) then srv_PredrainDelay c else defaultPredrainDelay.

Inductive action : Type :=
  | ActDraining
  | ActSleep (d : Z)
  | ActDrainHTTP (timeout : Z)
  | ActStopLimiter
  | ActStopCluster
  | ActStopCleanup
  | ActCloseDB.

(** What runs. *)
Record running : Type := mkRunning {
  r_shuttingDown : bool;
  r_http : bool;
  r_limiter : bool;
  r_cluster : bool;
  r_cleanup : bool;
  r_db : bool;
}.

(** The errors of the steps that can fail, by number. *)
Record stop_errors : Type := mkStopErrors {
  se_http : option nat;
  se_cluster : option nat;
  se_db : option nat;
}.

(** An error, and the actions taken. *)
Definition Stop (A : Type) : Type := running -> A * running * list action.
Definition stret {A} (a : A) : Stop A := fun r => (a, r, []).
Definition stbind {A B} (m : Stop A) (k : A -> Stop B) : Stop B := fun r =>
  let '(a, r, acts) := m r in let '(b, r, acts') := k a r in (b, r, acts ++ acts').

Declare Scope stop_scope.
Notation "x <-- m ;; k" := (stbind m (fun x => k)) (at level 20, m at level 99, k at level 200, only parsing) : stop_scope.
Notation "m ;; k" := (stbind m (fun _ => k)) (at level 100, k at level 200, only parsing) : stop_scope.
#[local] Open Scope stop_scope.

Definition setDraining : Stop unit := fun r =>
  (tt, mkRunning true (r_http r) (r_limiter r) (r_cluster r) (r_cleanup r) (r_db r), [ActDraining]).

Definition sleepFor (d : Z) : Stop unit := fun r => (tt, r, [ActSleep d]).

Definition drainHTTP (timeout : Z) (e : option nat) : Stop (option nat) := fun r =>
  (e, mkRunning (r_shuttingDown r) false (r_limiter r) (r_cluster r) (r_cleanup r) (r_db r), [ActDrainHTTP timeout]).

(** Each of these acts once. *)
Definition stopLimiter : Stop unit := fun r =>
  if r_limiter r then (tt, mkRunning (r_shuttingDown r) (r_http r) false (r_cluster r) (r_cleanup r) (r_db r), [ActStopLimiter])
  else (tt, r, []).

Definition stopCluster (e : option nat) : Stop (option nat) := fun r =>
  if r_cluster r then (e, mkRunning (r_shuttingDown r) (r_http r) (r_limiter r) false (r_cleanup r) (r_db r), [ActStopCluster])
  else (None, r, []).

Definition StopCleanupRoutine : Stop unit := fun r =>
  if r_cleanup r then (tt, mkRunning (r_shuttingDown r) (r_http r) (r_limiter r) (r_cluster r) false (r_db r), [ActStopCleanup])
  else (tt, r, []).

Definition closeDB (e : option nat) : Stop (option nat) := fun r =>
  if r_db r then (e, mkRunning (r_shuttingDown r) (r_http r) (r_limiter r) (r_cluster r) (r_cleanup r) false, [ActCloseDB])
  else (None, r, []).

Definition firstOf2 (a b : option nat) : option nat := match a with Some e => Some e | None => b end.

(** The first error. *)
Definition gracefulShutdown (c : ServerConfig) (es : stop_errors) : Stop (option nat) :=
  setDraining;;
  (let predrain := predrainDelay c in if decide (0 < predrain) then sleepFor predrain else stret tt);;
  e1 <-- drainHTTP (shutdownTimeout c) (se_http es);;
  stopLimiter;;
  e2 <-- stopCluster (se_cluster es);;
  StopCleanupRoutine;;
  e3 <-- closeDB (se_db es);;
  stret (firstOf2 (firstOf2 e1 e2) e3).

Definition Close (es : stop_errors) : Stop (option nat) :=
  setDraining;;
  e <-- stopCluster (se_cluster es);;
  match e with
  | Some e => stret (Some e)
  | None => stopLimiter;; StopCleanupRoutine;; closeDB (se_db es)
  end.

(** ** Running *)

(** After [New]: the limiter and the database run, and a cluster can be stopped. *)
Definition built (s : Server) : running := mkRunning false false true (bool_decide (is_Some (s_cluster s))) false true.

(** How the wait of [Run] ends: the signal, or the listener's error. *)
Inductive run_end : Type := RunSignal | RunListen (e : nat).

Definition startCleanup : Stop unit := fun r => (tt, mkRunning (r_shuttingDown r) (r_http r) (r_limiter r) (r_cluster r) true (r_db r), []).
Definition startHTTP : Stop unit := fun r => (tt, mkRunning (r_shuttingDown r) true (r_limiter r) (r_cluster r) (r_cleanup r) (r_db r), []).

(** [cluster] is the error of [cluster.Start], of a configured cluster. *)
Definition Run (c : ServerConfig) (cluster : option (option nat)) (ending : run_end) (es : stop_errors) : Stop (option nat) :=
  startCleanup;;
  match cluster with
  | Some (Some e) => stret (Some e)
  | _ =>
      startHTTP;;
      match ending with
      | RunSignal => gracefulShutdown c es
      | RunListen e => stret (Some e)
      end
  end.

(** [main] after the construction: the exit status. [os.Exit] does not run the
    deferred [Close]. *)
Definition main_ (c : ServerConfig) (cluster : option (option nat)) (ending : run_end) (es : stop_errors) : Stop Z :=
  e <-- Run c cluster ending es;;
  match e with
  | Some _ => stret 1
  | None => Close es;; stret 0
  end.

(** ** Starting and stopping

    A configuration that loads gives a server unless something outside fails;
    stopping happens in the order the comments promise, whatever fails. *)

From S2P Require Import Crypto ConfigProofs RoutesProofs.

(** ** New *)

(** What lies outside of the configuration. *)
Definition outside (cfg : Config) (dp : dependencies) (e : new_err) : Prop :=
  match e with
  | NewOpen => dp_open dp = false
  | NewPing => dp_ping dp = false
  | NewMigrations => dp_migrations dp = false
  | NewSigningKey => dp_signingKey dp = false
  | NewNotary => dp_notary dp = false
  | NewProviderErr e =>
      e = KeyEnvUnset /\ keys_EncryptionPassphraseEnv (c_Keys cfg) <> []
      /\ Getenv (dp_environ dp) (keys_EncryptionPassphraseEnv (c_Keys cfg)) = []
  | NewTransparency e => e <> TlUnsafeTable /\ NewTransparencyLog (c_Transparency cfg) (dp_table dp) = Err e
  | NewTrustedNotaries | NewClientIP | NewClusterErr | NewServerInfoCacheErr => False
  end.

Lemma provider_builds environ k e :
  keys_StoragePath k <> [] -> buildKeyProvider environ k = Err e ->
  e = KeyEnvUnset /\ keys_EncryptionPassphraseEnv k <> [] /\ Getenv environ (keys_EncryptionPassphraseEnv k) = [].
Proof.
  intros Hp. unfold buildKeyProvider, NewProvider. cbn [pc_Kind pc_StoragePath pc_Passphrase].
  rewrite !(decide_True (P := bs "file" = [] \/ bs "file" = bs "file")) by auto.
  rewrite !(decide_False (P := keys_StoragePath k = [])) by done.
  case_decide as Hn; [|done]. case_decide as Hs; [|done]. by intros [= <-].
Qed.

(** Whether a page is offered: the public and the operational pages always, an
    administrative one if there is a token and the component it is about is enabled. *)
Definition page_enabled (cfg : Config) (p : page) : Prop :=
  match p with
  | handleHealth | handleLiveness | handleReadinessPage | handleStatus | metricsHandler | handleServerKeysPage | handleKeyQueryPage
  | handleServerInfoPage | handleVersion | handleSignedTreeHeadPage | handleNotaryPublicKeyPage => True
  | handleAnalyticsSummaryPage | handleAnalyticsServersPage | handleAnalyticsAnomaliesPage | handleAnalyticsTopRotatorsPage
  | handleCircuitBreakerStatsPage => sec_AdminAccessToken (c_Security cfg) <> []
  | handleTransparencyLogPage | handleTransparencyVerifyPage | handleTransparencyStatsPage | handleTransparencyProofPage =>
      sec_AdminAccessToken (c_Security cfg) <> [] /\ tc_Enabled (c_Transparency cfg) = true
  | handleClusterStatusPage | handleClusterNodesPage => sec_AdminAccessToken (c_Security cfg) <> [] /\ cl_Enabled (c_Cluster cfg) = true
  | handleTrustPolicyStatusPage | handleTrustPolicyCheckPage =>
      sec_AdminAccessToken (c_Security cfg) <> [] /\ Enabled (c_TrustPolicy cfg) = true
  end.

(** The pages of the table for each setting of the optional parts. *)
Definition pageOffered (token transparency cluster trust : bool) (p : page) : bool :=
  match p with
  | handleAnalyticsSummaryPage | handleAnalyticsServersPage | handleAnalyticsAnomaliesPage | handleAnalyticsTopRotatorsPage
  | handleCircuitBreakerStatsPage => token
  | handleTransparencyLogPage | handleTransparencyVerifyPage | handleTransparencyStatsPage | handleTransparencyProofPage => token && transparency
  | handleClusterStatusPage | handleClusterNodesPage => token && cluster
  | handleTrustPolicyStatusPage | handleTrustPolicyCheckPage => token && trust
  | _ => true
  end.

Lemma table_pages srv p :
  bool_decide (p ∈ map rt_page (setupRoutes srv))
  = pageOffered (bool_decide (sv_adminAccessToken srv <> [])) (sv_hasTransparency srv) (sv_hasCluster srv) (sv_hasTrustPolicy srv) p.
Proof.
  unfold setupRoutes, registerAdminRoutes. destruct (decide (sv_adminAccessToken srv = [])) as [E|E];
    [rewrite (bool_decide_false (sv_adminAccessToken srv <> [])) by auto|rewrite (bool_decide_true (sv_adminAccessToken srv <> [])) by done];
    destruct (sv_hasTransparency srv), (sv_hasCluster srv), (sv_hasTrustPolicy srv); cbn [map app rt_page handle];
    destruct p; vm_compute; reflexivity.
Qed.

Lemma routed_pages srv p : (exists r, r ∈ setupRoutes srv /\ rt_page r = p) <-> p ∈ map rt_page (setupRoutes srv).
Proof. rewrite list_elem_of_fmap. split; intros (r & H1 & H2); exists r; by split. Qed.

Lemma enabled_pages cfg requireID policy p :
  (exists r, r ∈ setupRoutes (mkRouteConfig (sec_AdminAccessToken (c_Security cfg)) requireID (tc_Enabled (c_Transparency cfg))
                                (cl_Enabled (c_Cluster cfg)) (Enabled (c_TrustPolicy cfg)) policy) /\ rt_page r = p)
  <-> page_enabled cfg p.
Proof.
  rewrite routed_pages, <- (bool_decide_eq_true (p ∈ _)), table_pages. cbn [sv_adminAccessToken sv_hasTransparency sv_hasCluster sv_hasTrustPolicy].
  destruct p; cbn [pageOffered page_enabled]; rewrite ?andb_true_iff, ?bool_decide_eq_true; done.
Qed.

Lemma enabled_some {A : Type} (b : bool) (a : A) : bool_decide (is_Some (if b then Some a else None)) = b.
Proof. by destruct b. Qed.

Lemma some_iff {A : Type} (b : bool) (a : A) : is_Some (if b then Some a else None) <-> b = true.
Proof. destruct b; split; [done|by eexists|by intros []|done]. Qed.

(** C31. For every configuration that loads, building the server fails only for a
    reason outside of it: the database, the migrations, the signing key, the notary,
    a passphrase variable that is empty, a failing statement of the transparency
    log. The server that is built has exactly the components that are enabled. It has
    a route to an administrative page exactly when a token is configured and the
    component of the page is enabled, and to every other page always; and each route
    has the wrapper its page demands. *)
Theorem server_builds ParseFloat ParseDuration files environ explicit cfg dp policy :
  LoadConfig ParseFloat ParseDuration files environ explicit = Ok cfg ->
  match (New cfg dp policy).1 with
  | Err e => outside cfg dp e
  | Ok s =>
      (is_Some (s_trustPolicy s) <-> Enabled (c_TrustPolicy cfg) = true)
      /\ (is_Some (s_transparency s) <-> tc_Enabled (c_Transparency cfg) = true)
      /\ (is_Some (s_cluster s) <-> cl_Enabled (c_Cluster cfg) = true)
      /\ (is_Some (s_serverInfo s) <-> si_Enabled (c_ServerInfo cfg) = true)
      /\ (forall p, (exists r, r ∈ s_routes s /\ rt_page r = p) <-> page_enabled cfg p)
      /\ Forall (fun r => rt_wrapper r = demand (rt_page r)) (s_routes s)
  end.
Proof.
  intros HL. apply LoadConfig_Ok in HL as [Hv Ht]. apply Validate_None in Hv as (Hg & Hc & Hn).
  destruct (notaries_decode _ Ht Hn) as (trusted & Hd & _). pose proof (proxies_configure cfg) as Hp.
  pose proof (check_passed _ (bool_decide (keys_StoragePath (c_Keys cfg) <> [])) "keys.storage_path"%string Hg) as Hpath.
  assert (Hpath' : keys_StoragePath (c_Keys cfg) <> []) by (apply (bool_decide_eq_true_1 _), Hpath; unfold generalChecks; among). clear Hpath.
  assert (Htable : NewTransparencyLog (c_Transparency cfg) (dp_table dp) <> Err TlUnsafeTable).
  { apply NewTransparencyLog_named.
    - apply (check_passed _ _ "transparency.table_name"%string Hg). unfold generalChecks. among.
    - apply (bool_decide_eq_true_1 _), (check_passed _ _ "transparency.table_name"%string Hg). unfold generalChecks. among. }
  unfold New, when. rewrite Hd. destruct (dp_open dp) eqn:E1; [|done]. destruct (dp_ping dp) eqn:E2; [|done].
  destruct (dp_migrations dp) eqn:E3; [|done].
  destruct (buildKeyProvider (dp_environ dp) (c_Keys cfg)) as [p|e] eqn:E4; [|by apply provider_builds in E4].
  destruct (dp_signingKey dp) eqn:E5; [|done]. destruct (dp_notary dp) eqn:E6; [|done].
  specialize (Hp (sec_TrustForwardedHeaders (c_Security cfg)) policy Hg).
  destruct (ConfigureClientIPPolicy _ _ policy) as [ok policy']. cbn in Hp. subst ok. cbn [negb].
  cbn [c_Security]. destruct (if tc_Enabled (c_Transparency cfg) then _ else _) as [transparency|e] eqn:E7.
  2: { cbn [fst outside]. destruct (tc_Enabled (c_Transparency cfg)); [|done].
       destruct (NewTransparencyLog _ _) as [t|e'] eqn:E8; [done|]. injection E7 as <-. split; [by intros ->|done]. }
  assert (Ht7 : bool_decide (is_Some transparency) = tc_Enabled (c_Transparency cfg)).
  { destruct (tc_Enabled (c_Transparency cfg)); [destruct (NewTransparencyLog _ _); [|done]|]; by injection E7 as <-. }
  pose proof (fun p => enabled_pages cfg (sec_RequireRequestID (c_Security cfg)) policy' p) as Hpages.
  unfold newCluster, NewServerInfoCache. rewrite Ht7, enabled_some.
  destruct (cl_Enabled (c_Cluster cfg)) eqn:E9, (si_Enabled (c_ServerInfo cfg)) eqn:E10;
    cbn [fst s_trustPolicy s_transparency s_cluster s_serverInfo s_routes];
    (split_and!; [apply some_iff|by rewrite <- Ht7, bool_decide_eq_true|by split|by split|exact Hpages|apply table_wrappers]).
Qed.

Definition demo_deps : dependencies :=
  mkDependencies true true true [] true true (mkTransparency (c_Transparency demoConfig) [] [] ∅ Merkle.New [] 0) (fun _ => 0).

Lemma server_builds_witness :
  cl_Enabled (c_Cluster demoConfig) = true
  /\ match (New demoConfig demo_deps (mkClientIPPolicy false [])).1 with
     | Ok s => is_Some (s_cluster s) /\ (exists r, r ∈ s_routes s /\ rt_page r = handleKeyQueryPage)
               /\ ~ (exists r, r ∈ s_routes s /\ rt_page r = handleClusterStatusPage)
     | Err _ => False
     end.
Proof.
  assert (Hen : cl_Enabled (c_Cluster demoConfig) = true) by (vm_compute; reflexivity). split; [exact Hen|].
  pose proof (server_builds noFloat noDuration (fileAt demoFile) [] [] demoConfig demo_deps (mkClientIPPolicy false []) demo_loads) as H.
  assert (Hok : match (New demoConfig demo_deps (mkClientIPPolicy false [])).1 with Ok _ => True | Err _ => False end) by (vm_compute; exact I).
  destruct (New demoConfig demo_deps (mkClientIPPolicy false [])).1 as [s|e]; [|exact Hok].
  destruct H as (_ & _ & Hc & _ & Hp & _). split; [by apply Hc|]. split; [by apply Hp|].
  intros Hr. apply Hp in Hr as [Ht _]. apply Ht. vm_compute. reflexivity.
Defined.

(** ** Stopping *)

(** Nothing runs any more. *)
Definition stopped (r : running) : Prop :=
  r_shuttingDown r = true /\ r_http r = false /\ r_limiter r = false /\ r_cluster r = false /\ r_cleanup r = false /\ r_db r = false.

(** Whatever fails on the way, a graceful shutdown first lets the readiness
    probe answer that it is draining, waits, then drains the open requests, then
    stops the parts that run, each once, and closes the database last; both waits
    are positive; it returns the first error, and a later [Close] finds nothing left
    to do. *)
Theorem shutdown_order c es r :
  let '(e, r', acts) := gracefulShutdown c es r in
  stopped r'
  /\ acts = [ActDraining; ActSleep (predrainDelay c); ActDrainHTTP (shutdownTimeout c)]
            ++ (if r_limiter r then [ActStopLimiter] else []) ++ (if r_cluster r then [ActStopCluster] else [])
            ++ (if r_cleanup r then [ActStopCleanup] else []) ++ (if r_db r then [ActCloseDB] else [])
  /\ 0 < predrainDelay c /\ 0 < shutdownTimeout c
  /\ e = firstOf2 (firstOf2 (se_http es) (if r_cluster r then se_cluster es else None)) (if r_db r then se_db es else None)
  /\ (forall es', Close es' r' = (None, r', [ActDraining])).
Proof.
  assert (Hp : 0 < predrainDelay c) by (unfold predrainDelay, defaultPredrainDelay, Second; case_decide; lia).
  assert (Hs : 0 < shutdownTimeout c) by (unfold shutdownTimeout, defaultShutdownTimeout, Second; case_decide; lia).
  unfold gracefulShutdown. cbv zeta. rewrite (decide_True (P := 0 < predrainDelay c)) by done.
  destruct r as [sd http [] [] [] []]; cbn; unfold stopped; cbn; split_and!; try done; destruct (se_http es), (se_cluster es); done.
Qed.

(** ** Where the process ends without stopping *)

(** When the listener fails, [main] exits with status 1 and the deferred [Close]
    does not run: the limiter, the cluster, the cleanup and the database are left
    as they are. *)
Example listen_error_skips_close c es e :
  main_ c (Some None) (RunListen e) es (mkRunning false false true true false true) = (1, mkRunning false true true true true true, []).
Proof. reflexivity. Qed.
