(* ===== verification/Programs.v ===== *)
(** * The programs (cmd/mxkeys/main.go, cmd/mxkeys-walctl/main.go, zero/log/log.go,
      cluster/snapshot.go: the compaction loop)

    What the processes do around the components: the start of the server from its
    flags, the offline upgrade of a log, the logger that both set up, and the tick
    that compacts the Raft log. Parsed flags are arguments ([None] when they do not
    parse). *)
From S2P Require Import Prelude GoStrings Crypto FileIO RaftTypes EntryJson Wal WalUpgrade.
From S2P Require Import ClientIP ConfigMap Config ConfigProofs RaftSnapshot Lifecycle.
From S2P Require Import RaftNode Canonical.
From Stdlib Require Import ZArith Lia.
From stdpp Require Import base gmap list strings fin_maps.
#[local] Open Scope Z_scope.

(** ** Logging *)

(** The levels of [log/slog]. *)
Definition LevelDebug : Z := -4.
Definition LevelInfo : Z := 0.
Definition LevelWarn : Z := 4.
Definition LevelError : Z := 8.

(** The package's variables; [lg_stderr] tells whether the output is still
    standard error. *)
Record logger : Type := mkLogger {
  lg_level : Z;
  lg_json : bool;
  lg_stderr : bool;
}.

Definition initialLogger : logger := mkLogger LevelInfo false true.

Definition levelOf (level : bytes) : Z :=
  let l := ToLower level in
  if decide (l = bs "debug") then LevelDebug
  else if decide (l = bs "info") then LevelInfo
  else if decide (l = bs "warn" \/ l = bs "warning") then LevelWarn
  else if decide (l = bs "error") then LevelError
  else LevelInfo.

Definition SetLevel (level : bytes) (lg : logger) : logger := mkLogger (levelOf level) false true.
Definition SetOutput (lg : logger) : logger := mkLogger (lg_level lg) false false.
Definition SetJSON (lg : logger) : logger := mkLogger (lg_level lg) true true.
Definition SetJSONWithLevel (level : bytes) (lg : logger) : logger := mkLogger (levelOf level) true true.

(** Whether a message of a level is written. *)
Definition logged (level : Z) (lg : logger) : bool := bool_decide (lg_level lg <= level).

(** The attributes that [WithContext] adds: the two values of the context. *)
Definition WithContext (requestID remoteIP : option bytes) : list (bytes * bytes) :=
  let attr key v := match v with Some s => if decide (s <> []) then [(key, s)] else [] | None => [] end in
  attr (bs "request_id") requestID ++ attr (bs "remote_ip") remoteIP.

Definition configureLogging (cfg : Config.Config) (lg : logger) : logger :=
  if decide (log_Format (c_Logging cfg) = bs "json") then SetJSONWithLevel (log_Level (c_Logging cfg)) lg
  else SetLevel (log_Level (c_Logging cfg)) lg.

(** ** mxkeys *)

Inductive startup : Type :=
  | ShowVersion
  | ConfigFailed (e : Config.load_err)
  | NewFailed (e : new_err)
  | Ran (acts : list action).

(** [clusterStart] is what [cluster.Start] returns when there is a cluster. *)
Definition mxkeys (ParseFloat : bytes -> option float64) (ParseDuration : bytes -> option Z) (files : bytes -> option bytes)
    (environ : list bytes) (configPath : bytes) (showVersion : bool) (dp : dependencies) (policy : ClientIPPolicy)
    (clusterStart : option nat) (ending : run_end) (es : stop_errors) (lg : logger) : Z * startup * logger :=
  if showVersion then (0, ShowVersion, lg)
  else match LoadConfig ParseFloat ParseDuration files environ configPath with
       | Err e => (1, ConfigFailed e, lg)
       | Ok cfg =>
           let lg := configureLogging cfg lg in
           match (New cfg dp policy).1 with
           | Err e => (1, NewFailed e, lg)
           | Ok srv =>
               let '(status, _, acts) := main_ (c_Server cfg) (match s_cluster srv with Some _ => Some clusterStart | None => None end) ending es (built srv) in
               (status, Ran acts, lg)
           end
       end.

(** ** mxkeys-walctl *)

Definition exitOK : Z := 0.
Definition exitUsageError : Z := 1.
Definition exitUpgradeFail : Z := 2.

Record upgradeFlags : Type := mkUpgradeFlags {
  uf_dir : bytes;
  uf_secretEnv : bytes;
  uf_backup : bool;
}.

Definition runUpgrade (environ : list bytes) (parsed : option upgradeFlags) : IO (Z * option Report) :=
  match parsed with
  | None => ret (exitUsageError, None)
  | Some fl =>
      if decide (uf_dir fl = []) then ret (exitUsageError, None)
      else
        let secret := Getenv environ (uf_secretEnv fl) in
        if decide (secret = []) then ret (exitUsageError, None)
        else
          bind (Upgrade (mkOptions (uf_dir fl) secret (uf_backup fl))) (fun r =>
            match r with
            | Err _ => ret (exitUpgradeFail, None)
            | Ok report => ret (exitOK, Some report)
            end)
  end.

Definition walctl (parse : list bytes -> option upgradeFlags) (environ args : list bytes) : IO (Z * option Report) :=
  match args with
  | command :: rest =>
      if decide (command = bs "upgrade") then runUpgrade environ (parse rest)
      else if decide (command = bs "help" \/ command = bs "-h" \/ command = bs "--help") then ret (exitOK, None)
      else ret (exitUsageError, None)
  | [] => ret (exitUsageError, None)
  end.

(** ** The compaction tick *)

Definition defaultCompactionCheckInterval : Z := 30 * second.
Definition defaultCompactionLogThreshold : Z := 1024.

Definition effectiveCompactionInterval (c : Config.ClusterConfig) : Z :=
  if decide (0 < cl_RaftCompactionInterval c) then cl_RaftCompactionInterval c else defaultCompactionCheckInterval.

Definition effectiveCompactionLogThreshold (c : Config.ClusterConfig) : Z :=
  if decide (0 < cl_RaftCompactionLogThreshold c) then cl_RaftCompactionLogThreshold c else defaultCompactionLogThreshold.

Section Compaction.
Context {A : Type} (provider : A -> option (bytes * Z)) `{EntryCodec}.

Definition maybeCompactRaftLog (c : Config.ClusterConfig) (node : option RaftNode.Node) (wal : WAL) (a : A)
  : IO (option RaftNode.Node * WAL) :=
  match node with
  | None => ret (None, wal)
  | Some n =>
      if decide (len (log n) < effectiveCompactionLogThreshold c) then ret (Some n, wal)
      else if decide (lastApplied n = 0) then ret (Some n, wal)
      else bind (CompactLog provider n wal a) (fun r => let '(_, n, wal) := r in ret (Some n, wal))
  end.

End Compaction.

(** ** What the programs guarantee *)

(** A configuration that loads is logged at the level it names: the switch never
    falls back, for either format. *)
Lemma configured_level ParseFloat ParseDuration files environ explicit cfg lg level :
  LoadConfig ParseFloat ParseDuration files environ explicit = Ok cfg ->
  (logged level (configureLogging cfg lg) = true <->
   exists name l, (name, l) ∈ [("debug"%string, LevelDebug); ("info"%string, LevelInfo); ("warn"%string, LevelWarn); ("error"%string, LevelError)]
     /\ log_Level (c_Logging cfg) = bs name /\ l <= level)
  /\ lg_json (configureLogging cfg lg) = bool_decide (log_Format (c_Logging cfg) = bs "json").
Proof.
  intros Hload. apply LoadConfig_Ok in Hload as [Hv _]. apply Validate_None in Hv as (Hg & _).
  assert (log_Level (c_Logging cfg) ∈ map bs ["debug"; "info"; "warn"; "error"]%string) as Hl.
  { apply (bool_decide_eq_true_1 _), (check_passed _ _ "logging.level"%string Hg). unfold generalChecks. among. }
  split.
  - assert (lg_level (configureLogging cfg lg) = levelOf (log_Level (c_Logging cfg))) as E by (unfold configureLogging; by case_decide).
    unfold logged. rewrite bool_decide_eq_true, E. split.
    + intros Hle. repeat (apply elem_of_cons in Hl as [Hl|Hl]; [rewrite Hl in Hle |- *; eexists _, _; split; [|split; [reflexivity|exact Hle]];
        set_solver|]). by apply elem_of_nil in Hl.
    + intros (name & l & Hin & -> & Hle).
      repeat (apply elem_of_cons in Hin as [[= -> ->]|Hin]; [exact Hle|]). by apply elem_of_nil in Hin.
  - unfold configureLogging. by case_decide; [rewrite bool_decide_true|rewrite bool_decide_false].
Qed.

(** The upgrade command succeeds, with a report, exactly when the upgrade of the
    directory under the secret of the variable does; in every other case with a log
    of the old format it leaves what [upgraded] allows. *)
Theorem walctl_upgrade parse environ rest fl es f w status report w' :
  parse rest = Some fl -> uf_dir fl <> [] -> Getenv environ (uf_secretEnv fl) <> [] ->
  files w !! walFileName = Some f -> v2_log es f ->
  walctl parse environ (bs "upgrade" :: rest) w = ((status, report), w') ->
  exists r, Upgrade (mkOptions (uf_dir fl) (Getenv environ (uf_secretEnv fl)) (uf_backup fl)) w = (r, w')
    /\ upgraded (mkOptions (uf_dir fl) (Getenv environ (uf_secretEnv fl)) (uf_backup fl)) es f r w'
    /\ (status = exitOK <-> is_ok r = true) /\ (faults w = [] -> status = exitOK).
Proof.
  intros Hp Hd Hs Hf Hl. unfold walctl, runUpgrade. rewrite decide_True by done. rewrite Hp, decide_False, decide_False by done.
  set (o := mkOptions _ _ _). unfold bind. destruct (Upgrade o w) as [r w1] eqn:E.
  destruct (wal_upgrade_converts o es f w r w1 Hf Hl E) as [Hup Hok]. intros Hrun. exists r.
  assert (w1 = w' /\ status = if is_ok r then exitOK else exitUpgradeFail) as [-> ->] by (by destruct r; injection Hrun as <- <- <-).
  split_and!; [done|done|by destruct (is_ok r)|]. intros Hn. by rewrite Hok.
Qed.

(** The tick compacts only a log that has reached the threshold, and only after
    something was applied. *)
Lemma small_log_untouched {A : Type} (provider : A -> option (bytes * Z)) `{EntryCodec} c n wal a w :
  len (log n) < effectiveCompactionLogThreshold c \/ lastApplied n = 0 ->
  maybeCompactRaftLog provider c (Some n) wal a w = ((Some n, wal), w).
Proof. intros [Hl|Ha]; unfold maybeCompactRaftLog; case_decide; try done; by rewrite decide_True by done. Qed.
